(** * hr-analytics: the analytics engine of the employee dashboard

    A shallow embedding of the statistics code of the dashboard
    ([processCSV.ts], [estimatePopulation.ts], [processPhase2.ts],
    [processComparison.ts]) together with the properties its
    specification states about it.

    Conventions of the embedding.
    - A JavaScript [number] is a value of [JS.num]: an exact rational, one of
      the two infinities, or NaN.  Arithmetic is exact on the finite values
      (the rounding of IEEE doubles is not modelled) and follows IEEE 754 on
      the others; zero carries no sign.
    - A JavaScript string is a [string], a sequence of 8-bit code units.
    - A [Set<string>] is the list of its elements in insertion order; a
      plain object used as a dictionary is an association list in insertion
      order, enumerated the way [Object.entries] does.
    - [null] and [undefined] are [None]. *)

From Stdlib Require Import ZArith QArith Qround Qminmax Lia Lqa.
From Stdlib Require Import List String Ascii Bool Permutation Sorted.
Import ListNotations.

Set Implicit Arguments.

(* ================================================================== *)
(** * JavaScript numbers *)
(* ================================================================== *)

Module JS.

Inductive num : Type :=
| Fin (q : Q)
| PInf
| NInf
| NaN.

Definition of_Z (z : Z) : num := Fin (inject_Z z).
Definition of_nat (n : nat) : num := of_Z (Z.of_nat n).

Definition neg (x : num) : num :=
  match x with
  | Fin q => Fin (- q)
  | PInf => NInf
  | NInf => PInf
  | NaN => NaN
  end.

Definition add (x y : num) : num :=
  match x, y with
  | NaN, _ | _, NaN => NaN
  | Fin a, Fin b => Fin (a + b)
  | PInf, NInf | NInf, PInf => NaN
  | PInf, _ | _, PInf => PInf
  | NInf, _ | _, NInf => NInf
  end.

Definition sub (x y : num) : num := add x (neg y).

(** The infinity with the sign of [q], NaN for zero. *)
Definition inf_of_sign (q : Q) : num :=
  match q ?= 0 with
  | Eq => NaN
  | Gt => PInf
  | Lt => NInf
  end.

Definition mul (x y : num) : num :=
  match x, y with
  | NaN, _ | _, NaN => NaN
  | Fin a, Fin b => Fin (a * b)
  | Fin a, PInf | PInf, Fin a => inf_of_sign a
  | Fin a, NInf | NInf, Fin a => inf_of_sign (- a)
  | PInf, PInf | NInf, NInf => PInf
  | PInf, NInf | NInf, PInf => NInf
  end.

Definition div (x y : num) : num :=
  match x, y with
  | NaN, _ | _, NaN => NaN
  | Fin a, Fin b =>
      match b ?= 0 with
      | Eq => inf_of_sign a
      | _ => Fin (a / b)
      end
  | Fin _, _ => Fin 0
  | PInf, Fin b => if Qle_bool 0 b then PInf else NInf
  | NInf, Fin b => if Qle_bool 0 b then NInf else PInf
  | _, _ => NaN
  end.

(** [x ** 2] *)
Definition square (x : num) : num := mul x x.

(** [Math.max(x, y)]; [Math.max(x, y, z)] is [max (max x y) z]. *)
Definition max (x y : num) : num :=
  match x, y with
  | NaN, _ | _, NaN => NaN
  | PInf, _ | _, PInf => PInf
  | NInf, z | z, NInf => z
  | Fin a, Fin b => Fin (Qmax a b)
  end.

(** [Math.min(x, y)] *)
Definition min (x y : num) : num :=
  match x, y with
  | NaN, _ | _, NaN => NaN
  | NInf, _ | _, NInf => NInf
  | PInf, z | z, PInf => z
  | Fin a, Fin b => Fin (Qmin a b)
  end.

(** Nearest integer, halves towards plus infinity. *)
Definition round_half_up (q : Q) : Z := Qfloor (q + (1 # 2)).

(** [Math.round(x)] *)
Definition round (x : num) : num :=
  match x with
  | Fin q => of_Z (round_half_up q)
  | _ => x
  end.

(** Number of tenths nearest to [q], halves away from zero. *)
Definition tenths (q : Q) : Z :=
  if Qle_bool 0 q
  then Qfloor (q * 10 + (1 # 2))
  else - Qfloor (- q * 10 + (1 # 2)).

(** [+x.toFixed(1)] *)
Definition toFixed1 (x : num) : num :=
  match x with
  | Fin q => Fin (tenths q # 10)
  | _ => x
  end.

(** [Math.sqrt]: the rationals are not closed under square roots, so the
    root of a non-negative rational is taken from [sqrtQ]. *)
Definition sqrt (sqrtQ : Q -> Q) (x : num) : num :=
  match x with
  | Fin q => if Qle_bool 0 q then Fin (sqrtQ q) else NaN
  | PInf => PInf
  | NInf => NaN
  | NaN => NaN
  end.

End JS.

Import JS.

(* ================================================================== *)
(** * Strings *)
(* ================================================================== *)

Open Scope string_scope.

Definition code (c : ascii) : N := N_of_ascii c.

Definition in_range (lo hi : N) (c : ascii) : bool :=
  ((lo <=? code c) && (code c <=? hi))%N.

Definition is_upper (c : ascii) : bool := in_range 65 90 c.
Definition is_lower (c : ascii) : bool := in_range 97 122 c.
Definition is_digit (c : ascii) : bool := in_range 48 57 c.

(** White space and line terminators, as [String.prototype.trim] strips
    them: TAB, LF, VT, FF, CR, SP and NBSP. *)
Definition is_space (c : ascii) : bool :=
  in_range 9 13 c || (code c =? 32)%N || (code c =? 160)%N.

Fixpoint trimStart (s : string) : string :=
  match s with
  | String c r => if is_space c then trimStart r else s
  | EmptyString => EmptyString
  end.

Fixpoint trimEnd (s : string) : string :=
  match s with
  | EmptyString => EmptyString
  | String c r =>
      match trimEnd r with
      | EmptyString => if is_space c then EmptyString else String c EmptyString
      | r' => String c r'
      end
  end.

(** [s.trim()] *)
Definition trim (s : string) : string := trimEnd (trimStart s).

(** A string is truthy when it is not empty. *)
Definition truthy (s : string) : bool :=
  match s with
  | EmptyString => false
  | _ => true
  end.

Definition lower_char (c : ascii) : ascii :=
  if is_upper c || in_range 192 214 c || in_range 216 222 c
  then ascii_of_N (code c + 32)
  else c.

Definition upper_char (c : ascii) : ascii :=
  if is_lower c then ascii_of_N (code c - 32) else c.

Fixpoint map_string (f : ascii -> ascii) (s : string) : string :=
  match s with
  | EmptyString => EmptyString
  | String c r => String (f c) (map_string f r)
  end.

(** [s.toLowerCase()] *)
Definition toLowerCase (s : string) : string := map_string lower_char s.

(** [s] with its ASCII letters in upper case: two strings are equal up to
    letter case when their images are equal. *)
Definition fold_case (s : string) : string := map_string upper_char s.

(** [s.startsWith(p)] *)
Definition startsWith (s p : string) : bool := String.prefix p s.

(* ================================================================== *)
(** * Regular expressions *)
(* ================================================================== *)

(** The patterns of this code base are sequences of single-character
    matchers and zero-width assertions; [test] searches every start
    position from left to right, as [RegExp.prototype.test] does for a
    pattern without the [g] and [y] flags. *)

Inductive tok : Type :=
| Chr (p : ascii -> bool)   (* one character satisfying [p] *)
| WordB                     (* \b *)
| Bos                       (* ^ *)
| Eos.                      (* $ *)

Definition regex : Type := list tok.

(** \w *)
Definition is_word_char (c : ascii) : bool :=
  is_upper c || is_lower c || is_digit c || (code c =? 95)%N.

Definition is_word_opt (o : option ascii) : bool :=
  match o with
  | Some c => is_word_char c
  | None => false
  end.

Definition first_char (s : string) : option ascii :=
  match s with
  | String c _ => Some c
  | EmptyString => None
  end.

(** [match_at re prev s]: [re] matches a prefix of [s], where [prev] is the
    character before it in the subject ([None] at its start). *)
Fixpoint match_at (re : regex) (prev : option ascii) (s : string) : bool :=
  match re with
  | [] => true
  | Chr p :: re' =>
      match s with
      | String c s' => p c && match_at re' (Some c) s'
      | EmptyString => false
      end
  | WordB :: re' =>
      xorb (is_word_opt prev) (is_word_opt (first_char s)) && match_at re' prev s
  | Bos :: re' =>
      match prev with
      | None => match_at re' prev s
      | Some _ => false
      end
  | Eos :: re' =>
      match s with
      | EmptyString => match_at re' prev s
      | String _ _ => false
      end
  end.

Fixpoint search (re : regex) (prev : option ascii) (s : string) : bool :=
  match_at re prev s ||
  match s with
  | String c s' => search re (Some c) s'
  | EmptyString => false
  end.

(** [re.test(s)] *)
Definition test (re : regex) (s : string) : bool := search re None s.

(** A literal character, under the [i] flag or not.  The literals of the
    patterns are ASCII, for which the canonical form of the [i] flag is the
    upper-case letter. *)
Definition lit (ignoreCase : bool) (c : ascii) : tok :=
  Chr (fun x =>
         if ignoreCase
         then Ascii.eqb (upper_char x) (upper_char c)
         else Ascii.eqb x c).

Definition lits (ignoreCase : bool) (w : string) : regex :=
  map (lit ignoreCase) (list_ascii_of_string w).

(** [/\bw\b/] and [/\bw\b/i] *)
Definition word_regex (ignoreCase : bool) (w : string) : regex :=
  WordB :: lits ignoreCase w ++ [WordB].

(** [s.replace(/[a-z]+$/, "")]: the leftmost position from which the rest
    of [s] is a non-empty run of lower-case letters is where the match
    starts. *)
Fixpoint all_lower (s : string) : bool :=
  match s with
  | EmptyString => true
  | String c r => is_lower c && all_lower r
  end.

Fixpoint strip_lower_suffix (s : string) : string :=
  match s with
  | EmptyString => EmptyString
  | String c r =>
      if all_lower s then EmptyString else String c (strip_lower_suffix r)
  end.

(* ================================================================== *)
(** * Sets of strings and dictionaries *)
(* ================================================================== *)

(** [set.has(x)] *)
Definition has (s : list string) (x : string) : bool :=
  existsb (String.eqb x) s.

(** [set.add(x)] *)
Definition set_add (s : list string) (x : string) : list string :=
  if has s x then s else s ++ [x].

(** [new Set(l)] *)
Definition new_Set (l : list string) : list string :=
  fold_left set_add l [].

(** A plain object used as a dictionary: own string-keyed properties in the
    order of their creation.  (Properties inherited from [Object.prototype]
    are not modelled.) *)
Definition dict (V : Type) : Type := list (string * V).

Section Dict.

Variable V : Type.

(** [d[k]] *)
Fixpoint get (d : dict V) (k : string) : option V :=
  match d with
  | [] => None
  | (k', v) :: d' => if String.eqb k k' then Some v else get d' k
  end.

(** [d[k] = v] *)
Fixpoint set (d : dict V) (k : string) (v : V) : dict V :=
  match d with
  | [] => [(k, v)]
  | (k', v') :: d' =>
      if String.eqb k k' then (k', v) :: d' else (k', v') :: set d' k v
  end.

Definition digit_value (c : ascii) : option N :=
  if is_digit c then Some (code c - 48)%N else None.

Fixpoint parse_digits (s : string) (acc : N) : option N :=
  match s with
  | EmptyString => Some acc
  | String c r =>
      match digit_value c with
      | Some d => parse_digits r (acc * 10 + d)%N
      | None => None
      end
  end.

(** A key is an array index when it is the canonical decimal form of an
    integer below 2^32 - 1; such keys are enumerated first, in numeric
    order. *)
Definition array_index (k : string) : option N :=
  match k with
  | EmptyString => None
  | String c r =>
      if Ascii.eqb c "0" && truthy r then None
      else match parse_digits k 0 with
           | Some n => if (n <=? 4294967294)%N then Some n else None
           | None => None
           end
  end.

Definition is_index (e : string * V) : bool :=
  match array_index (fst e) with
  | Some _ => true
  | None => false
  end.

Definition index_of (e : string * V) : N :=
  match array_index (fst e) with
  | Some n => n
  | None => 0%N
  end.

Fixpoint insert_index (e : string * V) (l : list (string * V)) :=
  match l with
  | [] => [e]
  | e' :: l' =>
      if (index_of e <=? index_of e')%N then e :: l
      else e' :: insert_index e l'
  end.

(** [Object.entries(d)] *)
Definition entries (d : dict V) : list (string * V) :=
  fold_right insert_index [] (filter is_index d)
  ++ filter (fun e => negb (is_index e)) d.

(** [Object.keys(d)] and [Object.values(d)] *)
Definition keys (d : dict V) : list string := map fst (entries d).
Definition values (d : dict V) : list V := map snd (entries d).

End Dict.

(** [counts[k] = (counts[k] || 0) + 1] *)
Definition bump (d : dict Z) (k : string) : dict Z :=
  set d k (match get d k with Some n => n | None => 0 end + 1)%Z.

(** [Array.prototype.sort] is stable.  [sort_by before l] sorts [l] for a
    comparator under which [before a b] holds when [a] must come strictly
    before [b]. *)
Section Sort.

Variable A : Type.
Variable before : A -> A -> bool.

Fixpoint insert_sorted (x : A) (l : list A) : list A :=
  match l with
  | [] => [x]
  | y :: l' => if before y x then y :: insert_sorted x l' else x :: l
  end.

Definition sort_by (l : list A) : list A := fold_right insert_sorted [] l.

End Sort.

(* ================================================================== *)
(** * processCSV.ts *)
(* ================================================================== *)

Module CsvRow.
Record t : Type := {
  message : string;
  award_title : string;
  recipient_title : string;
  nominator_title : string
}.
End CsvRow.

Module InteractionPair.
Record t : Type := {
  nominator : string;
  recipient : string;
  count : Z
}.
End InteractionPair.

Module TitleStats.
Record t : Type := {
  label : string;
  count : Z;
  null_count : Z;
  unique_count : Z;
  top_15_titles : list (string * Z);
  seniority_distribution : dict Z
}.
End TitleStats.

Module Interactions.
Record t : Type := {
  total_interactions : Z;
  unique_pairs : Z;
  unique_recipients : Z;
  unique_nominators : Z;
  self_recognition_count : Z;
  bidirectional_pairs : Z;
  top_10_pairs : list InteractionPair.t
}.
End Interactions.

(** The sections of [RawData] built from the two title columns.  (The
    [basic], [message] and [award_title] sections are summaries of the other
    two columns and are not part of this development, except for
    [percentile], on which the message statistics rest.) *)
Module RawData.
Record t : Type := {
  recipient_title : TitleStats.t;
  nominator_title : TitleStats.t;
  interactions : Interactions.t
}.
End RawData.

Module CSV.

(** [sorted[i]] for an integral [i] *)
Definition at_index (sorted : list Q) (i : Z) : option Q :=
  if (i <? 0)%Z then None else nth_error sorted (Z.to_nat i).

(** [percentile(sorted, p)].  [None] is [undefined], the value of an
    element read outside the array. *)
Definition percentile (sorted : list Q) (p : Q) : option num :=
  let idx := (p / 100) * inject_Z (Z.of_nat (List.length sorted) - 1) in
  let lo := Qfloor idx in
  let hi := Qceiling idx in
  if (lo =? hi)%Z then option_map Fin (at_index sorted lo)
  else match at_index sorted lo, at_index sorted hi with
       | Some a, Some b => Some (Fin (a + (b - a) * (idx - inject_Z lo)))
       | _, _ => Some NaN
       end.

Definition by_count_desc (a b : string * Z) : bool := (snd b <? snd a)%Z.

(** [topN(counter, n)] *)
Definition topN (counter : dict Z) (n : nat) : list (string * Z) :=
  firstn n (sort_by by_count_desc (entries counter)).

(** [countValues(values)] *)
Definition countValues (values : list string) : dict Z :=
  fold_left
    (fun counts v =>
       let trimmed := trim v in
       if truthy trimmed then bump counts trimmed else counts)
    values [].

Definition SENIORITY_PATTERNS : list (regex * string) :=
  [ (word_regex true "Vice President", "Vice President");
    (word_regex false "VP", "VP");
    (word_regex true "Director", "Director");
    (word_regex true "Principal", "Principal");
    (word_regex true "Senior Manager", "Manager");
    (word_regex true "Senior", "Senior");
    (word_regex true "Lead", "Lead");
    (word_regex true "Manager", "Manager");
    (word_regex true "Associate", "Associate");
    (word_regex true "Junior", "Junior") ].

(** The loop of [extractSeniority] over a list of rules. *)
Fixpoint first_level (rules : list (regex * string)) (title : string)
  : option string :=
  match rules with
  | [] => None
  | (pattern, level) :: rules' =>
      if test pattern title then Some level else first_level rules' title
  end.

Definition extractSeniority (title : string) : option string :=
  first_level SENIORITY_PATTERNS title.

Definition buildSeniorityDist (titles : list string) : dict Z :=
  fold_left
    (fun dist t =>
       match extractSeniority t with
       | Some level => if truthy level then bump dist level else dist
       | None => dist
       end)
    titles [].

(** [pairKey(nom, recip)] *)
Definition pairKey (nom recip : string) : string :=
  trim nom ++ "|||" ++ trim recip.

(** One iteration of the loop that fills [pairCounts]. *)
Definition count_pair (pairCounts : dict InteractionPair.t) (row : CsvRow.t)
  : dict InteractionPair.t :=
  let nom := trim (CsvRow.nominator_title row) in
  let recip := trim (CsvRow.recipient_title row) in
  if negb (truthy nom) || negb (truthy recip) then pairCounts
  else
    let key := pairKey nom recip in
    let p :=
      match get pairCounts key with
      | Some p => p
      | None => {| InteractionPair.nominator := nom;
                   InteractionPair.recipient := recip;
                   InteractionPair.count := 0 |}
      end in
    set pairCounts key
        {| InteractionPair.nominator := InteractionPair.nominator p;
           InteractionPair.recipient := InteractionPair.recipient p;
           InteractionPair.count := InteractionPair.count p + 1 |}.

Definition is_self (p : InteractionPair.t) : bool :=
  String.eqb (InteractionPair.nominator p) (InteractionPair.recipient p).

(** The test of the loop that counts bidirectional pairs. *)
Definition has_reverse (pairSet : list string) (p : InteractionPair.t) : bool :=
  has pairSet (pairKey (InteractionPair.recipient p) (InteractionPair.nominator p))
  && negb (is_self p).

(** The ordered pair (nominator, recipient) of a row that has both titles,
    and the pairs of a list of rows, one for each such row. *)
Definition pair_of_row (row : CsvRow.t) : option (string * string) :=
  let nom := trim (CsvRow.nominator_title row) in
  let recip := trim (CsvRow.recipient_title row) in
  if negb (truthy nom) || negb (truthy recip) then None else Some (nom, recip).

Definition directed_pairs (rows : list CsvRow.t) : list (string * string) :=
  flat_map (fun row => match pair_of_row row with
                       | Some p => [p]
                       | None => []
                       end) rows.

Definition swap (p : string * string) : string * string := (snd p, fst p).

Definition key_of (p : string * string) : string := pairKey (fst p) (snd p).

(** [pairKey] tells apart the pairs of the rows and their reverses. *)
Definition keys_distinct (rows : list CsvRow.t) : Prop :=
  forall p q,
    In p (directed_pairs rows ++ map swap (directed_pairs rows)) ->
    In q (directed_pairs rows ++ map swap (directed_pairs rows)) ->
    key_of p = key_of q -> p = q.

(** [(A, B)] with A before B in the order of strings stands for the
    unordered pair of A and B; it is reciprocal when some row has A
    recognise B and some row has B recognise A. *)
Definition reciprocal (rows : list CsvRow.t) (p : string * string) : Prop :=
  String.ltb (fst p) (snd p) = true
  /\ In p (directed_pairs rows) /\ In (swap p) (directed_pairs rows).

Definition pair_of (p : InteractionPair.t) : string * string :=
  (InteractionPair.nominator p, InteractionPair.recipient p).

(** [pairCounts] after the rows whose pairs are [seen]: every entry is
    filed under the key of its pair, which was seen, and every pair seen
    has an entry. *)
Definition pairs_recorded (d : dict InteractionPair.t)
           (seen : list (string * string)) : Prop :=
  (forall k p, get d k = Some p ->
               k = key_of (pair_of p) /\ In (pair_of p) seen)
  /\ (forall q, In q seen -> get d (key_of q) <> None).

Definition by_pair_count_desc (a b : InteractionPair.t) : bool :=
  (InteractionPair.count b <? InteractionPair.count a)%Z.

(** The [recipient_title] and [nominator_title] sections are built alike,
    each from its column. *)
Definition title_stats (label : string) (titles : list string)
  : TitleStats.t :=
  let valid := filter (fun t => truthy (trim t)) titles in
  let counts := countValues valid in
  {| TitleStats.label := label;
     TitleStats.count := Z.of_nat (List.length valid);
     TitleStats.null_count :=
       Z.of_nat (List.length (filter (fun t => negb (truthy (trim t))) titles));
     TitleStats.unique_count := Z.of_nat (List.length (keys counts));
     TitleStats.top_15_titles := topN counts 15;
     TitleStats.seniority_distribution := buildSeniorityDist valid |}.

Definition processCSVToRawData (rows : list CsvRow.t) : RawData.t :=
  let recipTitles := map CsvRow.recipient_title rows in
  let nomTitles := map CsvRow.nominator_title rows in
  let recip := title_stats "Recipient" recipTitles in
  let nom := title_stats "Nominator" nomTitles in
  let pairCounts := fold_left count_pair rows [] in
  let allPairs := values pairCounts in
  let uniquePairs := Z.of_nat (List.length allPairs) in
  let selfCount :=
    fold_left (fun s p => s + InteractionPair.count p)%Z
              (filter is_self allPairs) 0%Z in
  let pairSet := new_Set (keys pairCounts) in
  let biCount := Z.of_nat (List.length (filter (has_reverse pairSet) allPairs)) in
  let biCount := (biCount / 2)%Z in
  let topPairs := firstn 10 (sort_by by_pair_count_desc allPairs) in
  {| RawData.recipient_title := recip;
     RawData.nominator_title := nom;
     RawData.interactions :=
       {| Interactions.total_interactions :=
            Z.of_nat (List.length
              (filter (fun r => truthy (trim (CsvRow.nominator_title r))
                                && truthy (trim (CsvRow.recipient_title r)))
                      rows));
          Interactions.unique_pairs := uniquePairs;
          Interactions.unique_recipients := TitleStats.unique_count recip;
          Interactions.unique_nominators := TitleStats.unique_count nom;
          Interactions.self_recognition_count := selfCount;
          Interactions.bidirectional_pairs := biCount;
          Interactions.top_10_pairs := topPairs |} |}.

(** The median of a list in ascending order: its middle element, or the
    mean of its two middle elements. *)
Definition median (sorted : list Q) : Q :=
  let n := List.length sorted in
  if Nat.even n
  then (nth (n / 2 - 1) sorted 0 + nth (n / 2) sorted 0) / 2
  else nth (n / 2) sorted 0.

End CSV.

(* ================================================================== *)
(** * estimatePopulation.ts *)
(* ================================================================== *)

Module TitleCountEstimate.
Record t : Type := {
  uniqueRecipients : num;
  uniqueNominators : num;
  totalUnique : num;
  overlap : num;
  overlapPct : num
}.
End TitleCountEstimate.

Module CaptureRecaptureEstimate.
Record t : Type := {
  n1 : num;
  n2 : num;
  m : num;
  chapmanEstimate : num;
  standardError : num;
  ci95 : num * num;
  sensitivity : list (Q * num);
  assumptions : list string
}.
End CaptureRecaptureEstimate.

Module Population.

(** The loop [for (const t of recipSet) if (nomSet.has(t)) topOverlap++] *)
Definition topOverlap (recipSet nomSet : list string) : nat :=
  List.length (filter (has nomSet) recipSet).

Definition computeTitleCount (raw : RawData.t) : TitleCountEstimate.t :=
  let n1 := of_Z (TitleStats.unique_count (RawData.recipient_title raw)) in
  let n2 := of_Z (TitleStats.unique_count (RawData.nominator_title raw)) in
  let recipSet :=
    new_Set (map fst (TitleStats.top_15_titles (RawData.recipient_title raw))) in
  let nomSet :=
    new_Set (map fst (TitleStats.top_15_titles (RawData.nominator_title raw))) in
  let topOverlapRate :=
    div (of_nat (topOverlap recipSet nomSet))
        (of_nat (Nat.min (List.length recipSet) (List.length nomSet))) in
  let estimatedOverlap := round (mul topOverlapRate (min n1 n2)) in
  let overlapFromSelf :=
    if (0 <? Interactions.self_recognition_count (RawData.interactions raw))%Z
    then round (mul (min n1 n2) (Fin (3 # 10)))
    else estimatedOverlap in
  let overlap := max (max estimatedOverlap overlapFromSelf) (of_Z 1) in
  let totalUnique := sub (add n1 n2) overlap in
  {| TitleCountEstimate.uniqueRecipients := n1;
     TitleCountEstimate.uniqueNominators := n2;
     TitleCountEstimate.totalUnique := totalUnique;
     TitleCountEstimate.overlap := overlap;
     TitleCountEstimate.overlapPct :=
       toFixed1 (mul (div overlap (min n1 n2)) (of_Z 100)) |}.

(** The share [shared / listed] of the listed top titles that both lists
    have, applied to the smaller unique-title count and rounded. *)
Definition scaled_overlap (shared listed : nat) (n1 n2 : Z) : Z :=
  round_half_up (inject_Z (Z.of_nat shared) / inject_Z (Z.of_nat listed)
                 * inject_Z (Z.min n1 n2)).

(** Three tenths of the smaller unique-title count, rounded. *)
Definition self_overlap (n1 n2 : Z) : Z :=
  round_half_up (inject_Z (Z.min n1 n2) * (3 # 10)).


Definition sensitivity_multipliers : list Q :=
  [1; 125 # 100; 15 # 10; 2; 25 # 10]%Q.

Definition assumption_list : list string :=
  ["Population is closed (no joiners/leavers during data period)";
   "Each individual has equal probability of appearing as recipient or nominator";
   "The two captures (recipient, nominator) are independent";
   "Job titles map 1:1 to individuals (sensitivity analysis relaxes this)"].

(** The Chapman formula over the rationals. *)
Definition chapman (n1 n2 m : Z) : Q :=
  inject_Z ((n1 + 1) * (n2 + 1)) / inject_Z (m + 1) - 1.

(** The variance of the Chapman estimate over the rationals. *)
Definition chapman_variance (n1 n2 m : Z) : Q :=
  inject_Z ((n1 + 1) * (n2 + 1) * (n1 - m) * (n2 - m))
  / inject_Z ((m + 1) * (m + 1) * (m + 2)).

Section CaptureRecapture.

Variable sqrtQ : Q -> Q.

Definition computeCaptureRecapture (titleCount : TitleCountEstimate.t)
  : CaptureRecaptureEstimate.t :=
  let n1 := TitleCountEstimate.uniqueRecipients titleCount in
  let n2 := TitleCountEstimate.uniqueNominators titleCount in
  let m := TitleCountEstimate.overlap titleCount in
  let one := of_Z 1 in
  let chapmanEstimate :=
    sub (div (mul (add n1 one) (add n2 one)) (add m one)) one in
  let variance :=
    div (mul (mul (mul (add n1 one) (add n2 one)) (sub n1 m)) (sub n2 m))
        (mul (square (add m one)) (add m (of_Z 2))) in
  let se := sqrt sqrtQ variance in
  let ciLow :=
    max (sub chapmanEstimate (mul (Fin (196 # 100)) se)) (max n1 n2) in
  let ciHigh := add chapmanEstimate (mul (Fin (196 # 100)) se) in
  let sensitivity :=
    map (fun k => (k, round (mul chapmanEstimate (Fin k))))
        sensitivity_multipliers in
  {| CaptureRecaptureEstimate.n1 := n1;
     CaptureRecaptureEstimate.n2 := n2;
     CaptureRecaptureEstimate.m := m;
     CaptureRecaptureEstimate.chapmanEstimate := round chapmanEstimate;
     CaptureRecaptureEstimate.standardError := round se;
     CaptureRecaptureEstimate.ci95 := (round ciLow, round ciHigh);
     CaptureRecaptureEstimate.sensitivity := sensitivity;
     CaptureRecaptureEstimate.assumptions := assumption_list |}.

End CaptureRecapture.

End Population.

(* ================================================================== *)
(** * processPhase2.ts *)
(* ================================================================== *)

Module Subcategory.
Record t : Type := { id : string; name : string }.
End Subcategory.

Module Category.
Record t : Type := {
  id : string;
  name : string;
  subcategories : list Subcategory.t
}.
End Category.

Module Taxonomy.
Record t : Type := { categories : list Category.t }.
End Taxonomy.

Module Classification.
Record t : Type := {
  batch : Z;
  category : option string;
  subcategory : option string;
  themes : list string;
  new_category : option string
}.
End Classification.

Module Metadata.
Record t : Type := {
  total_messages : Z;
  total_classified : Z;
  batch_size : Z
}.
End Metadata.

Module Phase2Data.
Record t : Type := {
  metadata : Metadata.t;
  classifications : list Classification.t;
  candidate_categories : dict Z
}.
End Phase2Data.

Module CategoryCount.
Record t : Type := {
  category : string;
  count : Z;
  pct : num;
  isValid : bool
}.
End CategoryCount.

Module SubcategoryFormat.
Record t : Type := {
  format : string;
  count : Z;
  example : string
}.
End SubcategoryFormat.

(** The fields of [Phase2Analysis] that describe categories and
    subcategories.  (Batch health, themes and candidate categories are
    tallies of other fields of the input.) *)
Module Phase2Analysis.
Record t : Type := {
  totalClassified : Z;
  totalMessages : Z;
  successRate : num;
  categoryDistribution : list CategoryCount.t;
  validCategories : list string;
  malformedCount : Z;
  malformedPct : num;
  subcategoryFormats : list SubcategoryFormat.t;
  subcategoryNullCount : Z;
  c4BiasScore : num;
  biasCategory : string
}.
End Phase2Analysis.

Module Phase2.

Definition extractValidIds (taxonomy : Taxonomy.t)
  : list string * list string :=
  fold_left
    (fun '(categories, subcategories) cat =>
       (set_add categories (Category.id cat),
        fold_left (fun subs sub => set_add subs (Subcategory.id sub))
                  (Category.subcategories cat) subcategories))
    (Taxonomy.categories taxonomy) ([], []).

Definition isValidCategory (cat : option string) (validIds : list string)
  : bool :=
  match cat with
  | None => false
  | Some c => if truthy c then has validIds (trim c) else false
  end.

Definition Null_Empty := "Null / Empty".
Definition Correct := "Correct (matches taxonomy)".
Definition Letter_only := "Letter only (A, B, C)".
Definition Letter_number := "Letter+number (A1, B2)".
Definition Alt_prefix := "Alt prefix (A2b, B1a)".
Definition Lowercase_letter := "Lowercase letter (a, b, c)".
Definition Category_ID := "Category ID as subcategory".
Definition Wrong_prefix := "Wrong category prefix".
Definition Other := "Other / Unrecognized".

(** [/^[A-Z]$/], [/^[A-Z]\d$/], [/^[A-Z]\d[a-z]$/] and [/^[a-z]$/] *)
Definition re_letter : regex := [Bos; Chr is_upper; Eos].
Definition re_letter_digit : regex := [Bos; Chr is_upper; Chr is_digit; Eos].
Definition re_letter_digit_lower : regex :=
  [Bos; Chr is_upper; Chr is_digit; Chr is_lower; Eos].
Definition re_lower : regex := [Bos; Chr is_lower; Eos].

Definition detectSubcategoryFormat (sub : option string)
           (validSubIds : list string) : string :=
  match sub with
  | None => Null_Empty
  | Some sub =>
      if negb (truthy sub) || String.eqb sub "null" || String.eqb sub "None"
         || String.eqb sub "N/A"
      then Null_Empty
      else
        let s := trim sub in
        if has validSubIds s then Correct
        else if test re_letter s then Letter_only
        else if test re_letter_digit s then Letter_number
        else if test re_letter_digit_lower s then Alt_prefix
        else if test re_lower s then Lowercase_letter
        else
          let isCatId :=
            existsb (fun vid => String.eqb s (strip_lower_suffix vid))
                    validSubIds in
          if isCatId then Category_ID
          else
            let allCatPrefixes :=
              new_Set (map strip_lower_suffix validSubIds) in
            if (0 <? List.length validSubIds)%nat
               && existsb (fun prefix =>
                             startsWith s prefix
                             && (String.length prefix <? String.length s)%nat)
                          allCatPrefixes
            then Wrong_prefix
            else Other
  end.

Definition default_categories : list string :=
  ["C1"; "C2"; "C3"; "C4"; "C5"; "C6"].

(** [c.category?.trim() || ""] *)
Definition trimmed_category (c : Classification.t) : string :=
  match Classification.category c with
  | Some s => trim s
  | None => ""
  end.

(** The bucket of the category distribution a classification falls in. *)
Definition bucket (validCategories : list string) (c : Classification.t)
  : string :=
  let cat := trimmed_category c in
  if isValidCategory (Some cat) validCategories then cat
  else if truthy cat then cat else "(empty)".

Definition by_category_count_desc (a b : CategoryCount.t) : bool :=
  (CategoryCount.count b <? CategoryCount.count a)%Z.

Definition by_format_count_desc (a b : SubcategoryFormat.t) : bool :=
  (SubcategoryFormat.count b <? SubcategoryFormat.count a)%Z.

(** [formatCounts[fmt]] is created with the first example, then counted. *)
Definition count_format (validSubIds : list string)
           (formatCounts : dict (Z * string)) (c : Classification.t)
  : dict (Z * string) :=
  let fmt := detectSubcategoryFormat (Classification.subcategory c) validSubIds in
  let '(count, example) :=
    match get formatCounts fmt with
    | Some e => e
    | None =>
        (0%Z,
         match Classification.subcategory c with
         | Some s => if truthy s then s else "(null)"
         | None => "(null)"
         end)
    end in
  set formatCounts fmt ((count + 1)%Z, example).

Definition percent_of (part : Z) (total : nat) : num :=
  toFixed1 (mul (div (of_Z part) (of_nat total)) (of_Z 100)).

Definition processPhase2 (data : Phase2Data.t) (taxonomy : option Taxonomy.t)
  : Phase2Analysis.t :=
  let clf := Phase2Data.classifications data in
  let metadata := Phase2Data.metadata data in
  let validIds :=
    match taxonomy with
    | Some t => extractValidIds t
    | None => (default_categories, [])
    end in
  let validCatArray := fst validIds in
  (* category distribution *)
  let catCounts :=
    fold_left (fun counts c => bump counts (bucket validCatArray c)) clf [] in
  let malformed :=
    Z.of_nat (List.length
      (filter (fun c => negb (isValidCategory (Some (trimmed_category c))
                                              validCatArray)) clf)) in
  let categoryDistribution :=
    sort_by by_category_count_desc
      (map (fun '(category, count) =>
              {| CategoryCount.category := category;
                 CategoryCount.count := count;
                 CategoryCount.pct := percent_of count (List.length clf);
                 CategoryCount.isValid :=
                   isValidCategory (Some category) validCatArray |})
           (entries catCounts)) in
  (* subcategory formats *)
  let formatCounts := fold_left (count_format (snd validIds)) clf [] in
  let subNullCount :=
    Z.of_nat (List.length
      (filter (fun c =>
                 String.eqb
                   (detectSubcategoryFormat (Classification.subcategory c)
                                            (snd validIds))
                   Null_Empty) clf)) in
  let subcategoryFormats :=
    sort_by by_format_count_desc
      (map (fun '(format, (count, example)) =>
              {| SubcategoryFormat.format := format;
                 SubcategoryFormat.count := count;
                 SubcategoryFormat.example := example |})
           (entries formatCounts)) in
  (* bias score *)
  let validOnlyCounts := filter CategoryCount.isValid categoryDistribution in
  let expectedUniform :=
    div (of_nat (List.length clf)) (of_nat (List.length validCatArray)) in
  let topCategory := hd_error validOnlyCounts in
  let biasScore :=
    match topCategory with
    | Some top =>
        toFixed1
          (mul (sub (div (of_Z (CategoryCount.count top)) expectedUniform)
                    (of_Z 1))
               (of_Z 100))
    | None => of_Z 0
    end in
  let biasCategory :=
    match topCategory with
    | Some top => CategoryCount.category top
    | None => ""
    end in
  {| Phase2Analysis.totalClassified := Metadata.total_classified metadata;
     Phase2Analysis.totalMessages := Metadata.total_messages metadata;
     Phase2Analysis.successRate :=
       toFixed1 (mul (div (of_Z (Metadata.total_classified metadata))
                          (of_Z (Metadata.total_messages metadata)))
                     (of_Z 100));
     Phase2Analysis.categoryDistribution := categoryDistribution;
     Phase2Analysis.validCategories := validCatArray;
     Phase2Analysis.malformedCount := malformed;
     Phase2Analysis.malformedPct := percent_of malformed (List.length clf);
     Phase2Analysis.subcategoryFormats := subcategoryFormats;
     Phase2Analysis.subcategoryNullCount := subNullCount;
     Phase2Analysis.c4BiasScore := biasScore;
     Phase2Analysis.biasCategory := biasCategory |}.

(** Number of classifications whose trimmed category is [k]. *)
Definition occurrences (clf : list Classification.t) (k : string) : Z :=
  Z.of_nat (List.length
    (filter (fun c => String.eqb (trimmed_category c) k) clf)).


(** The rule cascade as an ordered list of (predicate, label) pairs, the
    first predicate that holds giving the label. *)
Definition rule : Type := (option string -> list string -> bool) * string.

Fixpoint first_match (rules : list rule) (default : string)
         (sub : option string) (validSubIds : list string) : string :=
  match rules with
  | [] => default
  | (holds, label) :: rules' =>
      if holds sub validSubIds then label
      else first_match rules' default sub validSubIds
  end.

(** The value is [null], empty, or one of the literals "null", "None",
    "N/A". *)
Definition is_null_variant (sub : option string) (_ : list string) : bool :=
  match sub with
  | None => true
  | Some s =>
      negb (truthy s) || String.eqb s "null" || String.eqb s "None"
      || String.eqb s "N/A"
  end.

Definition trimmed (sub : option string) : string :=
  match sub with
  | Some s => trim s
  | None => ""
  end.

Definition is_exact_match (sub : option string) (ids : list string) : bool :=
  match sub with
  | Some s => has ids (trim s)
  | None => false
  end.

Definition matches (re : regex) (sub : option string) (_ : list string)
  : bool :=
  match sub with
  | Some s => test re (trim s)
  | None => false
  end.

(** The value is what is left of a taxonomy subcategory id once its
    trailing lower-case letters are removed. *)
Definition is_category_part (sub : option string) (ids : list string) : bool :=
  match sub with
  | Some s => existsb (fun vid => String.eqb (trim s) (strip_lower_suffix vid)) ids
  | None => false
  end.

(** The value properly extends such a category part. *)
Definition extends_category_part (sub : option string) (ids : list string)
  : bool :=
  match sub with
  | Some s =>
      existsb (fun vid =>
                 startsWith (trim s) (strip_lower_suffix vid)
                 && (String.length (strip_lower_suffix vid)
                     <? String.length (trim s))%nat) ids
  | None => false
  end.

Definition weak_rules : list rule :=
  [ (matches re_letter, Letter_only);
    (matches re_letter_digit, Letter_number);
    (matches re_letter_digit_lower, Alt_prefix);
    (matches re_lower, Lowercase_letter);
    (is_category_part, Category_ID);
    (extends_category_part, Wrong_prefix) ].

(** The priority order of the specification: the taxonomy match first. *)
Definition rules_in_stated_order : list rule :=
  (is_exact_match, Correct) :: (is_null_variant, Null_Empty) :: weak_rules.

(** The same rules with the null test first. *)
Definition rules_null_first : list rule :=
  (is_null_variant, Null_Empty) :: (is_exact_match, Correct) :: weak_rules.

End Phase2.

(* ================================================================== *)
(** * processComparison.ts *)
(* ================================================================== *)

(** A pipeline run: its name, taxonomy and classification output.  (The
    run summary only carries the elapsed time.) *)
Module PipelineRun.
Record t : Type := {
  name : string;
  taxonomy : option Taxonomy.t;
  phase2 : option Phase2Data.t
}.
End PipelineRun.

Module CategoryOverlap.
Record t : Type := {
  category : string;
  pipelines : dict Z
}.
End CategoryOverlap.

Module TaxonomyDiff.
Record t : Type := {
  categoryId : string;
  categoryName : string;
  presentIn : list string;
  missingFrom : list string
}.
End TaxonomyDiff.

Module Comparison.

Definition getValidCategoryIds (taxonomy : option Taxonomy.t) : list string :=
  match taxonomy with
  | None => []
  | Some t => new_Set (map Category.id (Taxonomy.categories t))
  end.

Definition idToName_of (taxonomy : option Taxonomy.t) : dict string :=
  match taxonomy with
  | None => []
  | Some t =>
      fold_left (fun d cat => set d (Category.id cat) (Category.name cat))
                (Taxonomy.categories t) []
  end.

(** [idToName[catId] || catId] *)
Definition name_of (idToName : dict string) (catId : string) : string :=
  match get idToName catId with
  | Some n => if truthy n then n else catId
  | None => catId
  end.

(** The state of the first loop of [computeCategoryOverlap]:
    [allCatNames] and [pipelineCatCounts]. *)
Definition overlap_state : Type := (list string * dict (dict Z))%type.

Definition count_run (st : overlap_state) (run : PipelineRun.t)
  : overlap_state :=
  match PipelineRun.phase2 run with
  | None => st
  | Some phase2 =>
      let catIds := getValidCategoryIds (PipelineRun.taxonomy run) in
      let idToName := idToName_of (PipelineRun.taxonomy run) in
      let '(allCatNames, counts) :=
        fold_left
          (fun '(names, counts) clf =>
             let catId := Phase2.trimmed_category clf in
             if has catIds catId
             then let name := name_of idToName catId in
                  (set_add names name, bump counts name)
             else (names, counts))
          (Phase2Data.classifications phase2) (fst st, []) in
      (allCatNames, set (snd st) (PipelineRun.name run) counts)
  end.

(** [pipelineCatCounts[run.name]?.[category] || 0] *)
Definition count_in (pipelineCatCounts : dict (dict Z))
           (runName category : string) : Z :=
  match get pipelineCatCounts runName with
  | Some counts =>
      match get counts category with
      | Some n => n
      | None => 0
      end
  | None => 0
  end.

Definition total (row : CategoryOverlap.t) : Z :=
  fold_left Z.add (values (CategoryOverlap.pipelines row)) 0%Z.

Definition by_total_desc (a b : CategoryOverlap.t) : bool :=
  (total b <? total a)%Z.

Definition computeCategoryOverlap (runs : list PipelineRun.t)
  : list CategoryOverlap.t :=
  let '(allCatNames, pipelineCatCounts) := fold_left count_run runs ([], []) in
  sort_by by_total_desc
    (map (fun category =>
            {| CategoryOverlap.category := category;
               CategoryOverlap.pipelines :=
                 fold_left
                   (fun pipelines run =>
                      set pipelines (PipelineRun.name run)
                          (count_in pipelineCatCounts (PipelineRun.name run)
                                    category))
                   runs [] |})
         allCatNames).

(** One iteration of the inner loop of [computeTaxonomyDiff]: [catMap]
    holds, for each key, the first name seen and the set [presentIn]. *)
Definition note_category (runName : string)
           (catMap : dict (string * list string)) (cat : Category.t)
  : dict (string * list string) :=
  let key := trim (toLowerCase (Category.name cat)) in
  let '(name, presentIn) :=
    match get catMap key with
    | Some e => e
    | None => (Category.name cat, [])
    end in
  set catMap key (name, set_add presentIn runName).

Definition note_run (catMap : dict (string * list string))
           (run : PipelineRun.t) : dict (string * list string) :=
  match PipelineRun.taxonomy run with
  | None => catMap
  | Some t =>
      fold_left (note_category (PipelineRun.name run))
                (Taxonomy.categories t) catMap
  end.

Definition by_presence_desc (a b : TaxonomyDiff.t) : bool :=
  (List.length (TaxonomyDiff.presentIn b)
   <? List.length (TaxonomyDiff.presentIn a))%nat.

Definition computeTaxonomyDiff (runs : list PipelineRun.t)
  : list TaxonomyDiff.t :=
  let catMap := fold_left note_run runs [] in
  let allPipelines := map PipelineRun.name runs in
  sort_by by_presence_desc
    (map (fun '(name, presentIn) =>
            {| TaxonomyDiff.categoryId := "";
               TaxonomyDiff.categoryName := name;
               TaxonomyDiff.presentIn := presentIn;
               TaxonomyDiff.missingFrom :=
                 filter (fun p => negb (has presentIn p)) allPipelines |})
         (values catMap)).

(** [catMap] has noted the run [runName] under [key]. *)
Definition noted (catMap : dict (string * list string)) (key runName : string)
  : Prop :=
  exists name presentIn,
    get catMap key = Some (name, presentIn) /\ In runName presentIn.

(** The key under which the specification aligns category names. *)
Definition normalized (name : string) : string := trim (toLowerCase name).

End Comparison.

(* ================================================================== *)
(** * Counting *)
(* ================================================================== *)

(** The sum of the values of a dictionary of counts, and [d[k] || 0]. *)
(** The members a plain object inherits from [Object.prototype].  Reading
    [counts[k]] for such a [k] finds the inherited member instead of
    [undefined], so a tally kept in a plain object counts the other keys
    only. *)
Definition inherited_names : list string :=
  [ "constructor"; "hasOwnProperty"; "isPrototypeOf"; "propertyIsEnumerable";
    "toLocaleString"; "toString"; "valueOf"; "__proto__";
    "__defineGetter__"; "__defineSetter__"; "__lookupGetter__";
    "__lookupSetter__" ].

Definition own_key (k : string) : bool := negb (has inherited_names k).

(** No value, once trimmed, names an inherited member. *)
Definition plain_values (values : list string) : bool :=
  forallb (fun v => own_key (trim v)) values.

Definition total_of (d : list (string * Z)) : Z :=
  fold_right Z.add 0%Z (map snd d).

Definition get_or_0 (d : dict Z) (k : string) : Z :=
  match get d k with
  | Some n => n
  | None => 0%Z
  end.

(** The sum of a measure over a list. *)
Definition sum_by (A : Type) (m : A -> Z) (l : list A) : Z :=
  fold_right (fun x s => m x + s)%Z 0%Z l.

(** Number of elements of a list that satisfy a test. *)
Definition count_if (A : Type) (p : A -> bool) (l : list A) : Z :=
  Z.of_nat (List.length (filter p l)).

(** Number of values whose trimmed form is the non-empty string [k]. *)
Definition times (k : string) (values : list string) : Z :=
  count_if (fun v => truthy (trim v) && String.eqb (trim v) k) values.

(** The rank of the [p]-th percentile among [n] values. *)
Definition rank_of (n : nat) (p : Q) : Q :=
  ((p / 100) * inject_Z (Z.of_nat n - 1))%Q.

(** The seniority level of a title as a test and as a dictionary key. *)
Definition has_level (level : string) (title : string) : bool :=
  match CSV.extractSeniority title with
  | Some l => String.eqb l level
  | None => false
  end.

Definition has_some_level (title : string) : bool :=
  match CSV.extractSeniority title with
  | Some _ => true
  | None => false
  end.

Definition level_key (title : string) : string :=
  match CSV.extractSeniority title with
  | Some l => l
  | None => ""
  end.

(** What a title section of [RawData] says about its column [titles]. *)
Definition section_adds_up (st : TitleStats.t) (titles : list string) : Prop :=
  (TitleStats.count st + TitleStats.null_count st
   = Z.of_nat (List.length titles))%Z
  /\ TitleStats.count st = count_if (fun t => truthy (trim t)) titles
  /\ (0 <= TitleStats.unique_count st <= TitleStats.count st)%Z
  /\ List.length (TitleStats.top_15_titles st)
     = Nat.min 15 (Z.to_nat (TitleStats.unique_count st))
  /\ NoDup (map fst (TitleStats.top_15_titles st))
  /\ (forall t n, In (t, n) (TitleStats.top_15_titles st) ->
                  n = times t titles /\ (1 <= n)%Z)
  /\ (total_of (TitleStats.top_15_titles st) <= TitleStats.count st)%Z
  /\ ((TitleStats.unique_count st <= 15)%Z ->
      total_of (TitleStats.top_15_titles st) = TitleStats.count st)
  /\ (total_of (entries (TitleStats.seniority_distribution st))
      <= TitleStats.count st)%Z.

(** A row has both a nominator and a recipient title. *)
Definition has_both_titles (row : CsvRow.t) : bool :=
  truthy (trim (CsvRow.nominator_title row))
  && truthy (trim (CsvRow.recipient_title row)).

(* ================================================================== *)
(** * estimatePopulation.ts: network figures and the assembled estimate *)
(* ================================================================== *)

Module NetworkEstimate.
Record t : Type := {
  totalEdges : Z;
  uniquePairs : Z;
  uniqueNodes : Z;
  density : num;
  selfLoops : Z;
  reciprocalPairs : Z;
  avgDegree : num
}.
End NetworkEstimate.

Module Recommended.
Record t : Type := {
  low : num;
  mid : num;
  high : num;
  method : string
}.
End Recommended.

Module ParticipationRate.
Record t : Type := {
  label : string;
  population : num;
  awardsPerPerson : num
}.
End ParticipationRate.

Module PopulationEstimate.
Record t : Type := {
  titleCount : TitleCountEstimate.t;
  captureRecapture : CaptureRecaptureEstimate.t;
  network : NetworkEstimate.t;
  recommended : Recommended.t;
  participationRates : list ParticipationRate.t
}.
End PopulationEstimate.

Module Estimator.

Definition computeNetwork (raw : RawData.t) : NetworkEstimate.t :=
  let inter := RawData.interactions raw in
  let nodes := Z.max (Interactions.unique_recipients inter)
                     (Interactions.unique_nominators inter) in
  let avgDegree :=
    div (of_Z (2 * Interactions.unique_pairs inter)) (of_Z nodes) in
  {| NetworkEstimate.totalEdges := Interactions.total_interactions inter;
     NetworkEstimate.uniquePairs := Interactions.unique_pairs inter;
     NetworkEstimate.uniqueNodes :=
       (Interactions.unique_recipients inter
        + Interactions.unique_nominators inter)%Z;
     NetworkEstimate.density :=
       div (of_Z (Interactions.unique_pairs inter))
           (of_Z (Interactions.unique_recipients inter
                  * Interactions.unique_nominators inter));
     NetworkEstimate.selfLoops := Interactions.self_recognition_count inter;
     NetworkEstimate.reciprocalPairs := Interactions.bidirectional_pairs inter;
     NetworkEstimate.avgDegree := toFixed1 avgDegree |}.

(** [+(raw.basic.total_rows / population).toFixed(1)] *)
Definition awards_per_person (total_rows : Z) (population : num) : num :=
  toFixed1 (div (of_Z total_rows) population).

(** [estimatePopulation(raw)].  [total_rows] is [raw.basic.total_rows], the
    number of rows of the file. *)
Definition estimatePopulation (sqrtQ : Q -> Q) (total_rows : Z)
           (raw : RawData.t) : PopulationEstimate.t :=
  let titleCount := Population.computeTitleCount raw in
  let captureRecapture := Population.computeCaptureRecapture sqrtQ titleCount in
  let network := computeNetwork raw in
  let cr := captureRecapture in
  let recommended :=
    {| Recommended.low := fst (CaptureRecaptureEstimate.ci95 cr);
       Recommended.mid := CaptureRecaptureEstimate.chapmanEstimate cr;
       Recommended.high := snd (CaptureRecaptureEstimate.ci95 cr);
       Recommended.method :=
         "Chapman estimator (bias-corrected Lincoln-Petersen) with 95% CI" |} in
  let participationRates :=
    [ {| ParticipationRate.label := "Lower bound (unique titles)";
         ParticipationRate.population := TitleCountEstimate.totalUnique titleCount;
         ParticipationRate.awardsPerPerson :=
           awards_per_person total_rows
             (TitleCountEstimate.totalUnique titleCount) |};
      {| ParticipationRate.label := "Central estimate (Chapman)";
         ParticipationRate.population :=
           CaptureRecaptureEstimate.chapmanEstimate cr;
         ParticipationRate.awardsPerPerson :=
           awards_per_person total_rows
             (CaptureRecaptureEstimate.chapmanEstimate cr) |};
      {| ParticipationRate.label := "Upper bound (95% CI)";
         ParticipationRate.population := snd (CaptureRecaptureEstimate.ci95 cr);
         ParticipationRate.awardsPerPerson :=
           awards_per_person total_rows
             (snd (CaptureRecaptureEstimate.ci95 cr)) |} ] in
  {| PopulationEstimate.titleCount := titleCount;
     PopulationEstimate.captureRecapture := captureRecapture;
     PopulationEstimate.network := network;
     PopulationEstimate.recommended := recommended;
     PopulationEstimate.participationRates := participationRates |}.

End Estimator.

(* ================================================================== *)
(** * processPhase2.ts: formats, batches and themes *)
(* ================================================================== *)

(** [validIds.subcategories]: without a taxonomy the set is empty. *)
Definition subcategory_ids (taxonomy : option Taxonomy.t) : list string :=
  match taxonomy with
  | Some t => snd (Phase2.extractValidIds t)
  | None => []
  end.

Definition format_of (ids : list string) (c : Classification.t) : string :=
  Phase2.detectSubcategoryFormat (Classification.subcategory c) ids.

(** [c.subcategory || "(null)"] *)
Definition example_of (c : Classification.t) : string :=
  match Classification.subcategory c with
  | Some s => if truthy s then s else "(null)"
  | None => "(null)"
  end.

Definition format_labels : list string :=
  [ Phase2.Null_Empty; Phase2.Correct; Phase2.Letter_only;
    Phase2.Letter_number; Phase2.Alt_prefix; Phase2.Lowercase_letter;
    Phase2.Category_ID; Phase2.Wrong_prefix; Phase2.Other ].

(** The first classification of a format. *)
Definition first_of_format (ids : list string) (format : string)
           (clf : list Classification.t) : option Classification.t :=
  find (fun c => String.eqb (format_of ids c) format) clf.

(** [x < y] on numbers: false as soon as one side is NaN. *)
Definition lt (x y : num) : bool :=
  match x, y with
  | NaN, _ | _, NaN => false
  | Fin a, Fin b => negb (Qle_bool b a)
  | _, NInf => false
  | PInf, _ => false
  | _, _ => true
  end.

(** [Math.ceil(x)] *)
Definition ceil (x : num) : num :=
  match x with
  | Fin q => of_Z (Qceiling q)
  | _ => x
  end.

(** [validIds.categories] as an array. *)
Definition category_ids (taxonomy : option Taxonomy.t) : list string :=
  match taxonomy with
  | Some t => fst (Phase2.extractValidIds t)
  | None => Phase2.default_categories
  end.

Module BatchHealth.
Record t : Type := {
  batch : Z;
  classified : Z;
  malformed : Z;
  expected : Z
}.
End BatchHealth.

Module Batches.

(** [batchMap]: an object keyed by batch number, holding the pair
    (classified, malformed).  Its property names are the decimal forms of
    the batch numbers, one for each integer, so the keys are kept as
    integers. *)
Definition batch_map : Type := list (Z * (Z * Z)).

Fixpoint get (d : batch_map) (k : Z) : option (Z * Z) :=
  match d with
  | [] => None
  | (k', v) :: d' => if (k =? k')%Z then Some v else get d' k
  end.

Fixpoint set (d : batch_map) (k : Z) (v : Z * Z) : batch_map :=
  match d with
  | [] => [(k, v)]
  | (k', v') :: d' =>
      if (k =? k')%Z then (k', v) :: d' else (k', v') :: set d' k v
  end.

(** One iteration of the loop that fills [batchMap]. *)
Definition note_batch (validCategories : list string) (batchMap : batch_map)
           (c : Classification.t) : batch_map :=
  let '(classified, malformed) :=
    match get batchMap (Classification.batch c) with
    | Some e => e
    | None => (0%Z, 0%Z)
    end in
  set batchMap (Classification.batch c)
      ((classified + 1)%Z,
       if Phase2.isValidCategory (Classification.category c) validCategories
       then malformed else (malformed + 1)%Z).

(** [Math.ceil(metadata.total_messages / metadata.batch_size)] *)
Definition totalBatches (metadata : Metadata.t) : num :=
  ceil (div (of_Z (Metadata.total_messages metadata))
            (of_Z (Metadata.batch_size metadata))).

(** The loop [for (let i = 0; i < totalBatches; i++)], from [i] on, with
    the two arrays built so far; [fuel] bounds the number of tests of the
    loop condition, and [None] is a loop still running when it is spent. *)
Fixpoint report (fuel : nat) (i : Z) (total : num) (batch_size : Z)
         (batchMap : batch_map)
         (batchHealth : list BatchHealth.t) (missingBatches : list Z)
  : option (list BatchHealth.t * list Z) :=
  match fuel with
  | O => None
  | S fuel' =>
      if lt (of_Z i) total
      then match get batchMap i with
           | Some (classified, malformed) =>
               report fuel' (i + 1)%Z total batch_size batchMap
                      (batchHealth
                       ++ [{| BatchHealth.batch := i;
                              BatchHealth.classified := classified;
                              BatchHealth.malformed := malformed;
                              BatchHealth.expected := batch_size |}])
                      missingBatches
           | None =>
               report fuel' (i + 1)%Z total batch_size batchMap
                      batchHealth (missingBatches ++ [i])
           end
      else Some (batchHealth, missingBatches)
  end.

(** [batchHealth] and [missingBatches] of [processPhase2]. *)
Definition batch_report (fuel : nat) (data : Phase2Data.t)
           (taxonomy : option Taxonomy.t)
  : option (list BatchHealth.t * list Z) :=
  let clf := Phase2Data.classifications data in
  let metadata := Phase2Data.metadata data in
  let batchMap := fold_left (note_batch (category_ids taxonomy)) clf [] in
  report fuel 0 (totalBatches metadata) (Metadata.batch_size metadata)
         batchMap [] [].

(** The classifications of batch [i], and the malformed ones among them. *)
Definition classified_in (clf : list Classification.t) (i : Z) : Z :=
  count_if (fun c => (Classification.batch c =? i)%Z) clf.

Definition malformed_in (validCategories : list string)
           (clf : list Classification.t) (i : Z) : Z :=
  count_if (fun c => (Classification.batch c =? i)%Z
                     && negb (Phase2.isValidCategory (Classification.category c)
                                                     validCategories)) clf.

(** The batch numbers [i], [i + 1], ..., [i + n - 1]. *)
Definition numbers (i : Z) (n : nat) : list Z :=
  map (fun k => (i + Z.of_nat k)%Z) (seq 0 n).

End Batches.

Module ThemeCount.
Record t : Type := { theme : string; count : Z }.
End ThemeCount.

Module Themes.

(** [s.replace(/_/g, " ")] *)
Definition replace_underscores (s : string) : string :=
  map_string (fun c => if Ascii.eqb c "_" then " "%char else c) s.

(** [t.toLowerCase().trim().replace(/_/g, " ")] *)
Definition normalize (t : string) : string :=
  replace_underscores (trim (toLowerCase t)).

Definition count_theme (themeCounts : dict Z) (t : string) : dict Z :=
  let normalized := normalize t in
  if truthy normalized then bump themeCounts normalized else themeCounts.

Definition themeCounts (clf : list Classification.t) : dict Z :=
  fold_left (fun counts c => fold_left count_theme (Classification.themes c) counts)
            clf [].

Definition by_count_desc (a b : ThemeCount.t) : bool :=
  (ThemeCount.count b <? ThemeCount.count a)%Z.

(** [topThemes] of [processPhase2]. *)
Definition topThemes (clf : list Classification.t) : list ThemeCount.t :=
  firstn 20
    (sort_by by_count_desc
       (map (fun '(theme, count) =>
               {| ThemeCount.theme := theme; ThemeCount.count := count |})
            (entries (themeCounts clf)))).

(** Every theme of every classification, in the order of the input. *)
Definition all_themes (clf : list Classification.t) : list string :=
  flat_map Classification.themes clf.

(** The occurrences of themes that are normalized to [theme]. *)
Definition mentions (clf : list Classification.t) (theme : string) : Z :=
  count_if (fun t => String.eqb (normalize t) theme) (all_themes clf).

End Themes.

(** Every code unit of [s] satisfies [p]. *)
Fixpoint all_chars (p : ascii -> bool) (s : string) : bool :=
  match s with
  | EmptyString => true
  | String c r => p c && all_chars p r
  end.

(* ================================================================== *)
(** * processComparison.ts: the rows of the taxonomy diff *)
(* ================================================================== *)

(** [run.taxonomy?.categories], nothing without a taxonomy. *)
Definition run_categories (run : PipelineRun.t) : list Category.t :=
  match PipelineRun.taxonomy run with
  | Some t => Taxonomy.categories t
  | None => []
  end.

(** The categories of all runs, each with the name of its run, in the
    order in which [computeTaxonomyDiff] visits them. *)
Definition named_categories (runs : list PipelineRun.t)
  : list (string * Category.t) :=
  flat_map (fun run => map (pair (PipelineRun.name run)) (run_categories run))
           runs.

(** The run named [p] has a category whose normalized name is [key]. *)
Definition has_category (visited : list (string * Category.t))
           (p key : string) : Prop :=
  exists cat, In (p, cat) visited
              /\ Comparison.normalized (Category.name cat) = key.

(** No normalized category name is a member inherited from
    [Object.prototype]. *)
Definition plain_category_names (runs : list PipelineRun.t) : bool :=
  forallb (fun pc => own_key (Comparison.normalized (Category.name (snd pc))))
          (named_categories runs).

(** What [catMap] holds once the categories [visited] are noted. *)
Definition diff_invariant (visited : list (string * Category.t))
           (catMap : dict (string * list string)) : Prop :=
  NoDup (map fst catMap)
  /\ (forall key name present,
        get catMap key = Some (name, present) ->
        key = Comparison.normalized name
        /\ NoDup present /\ present <> []
        /\ (exists p cat, In (p, cat) visited /\ Category.name cat = name)
        /\ forall p, In p present <-> has_category visited p key)
  /\ (forall p cat, In (p, cat) visited ->
        get catMap (Comparison.normalized (Category.name cat)) <> None).

(* ================================================================== *)
(** * processComparison.ts: scores and radar *)
(* ================================================================== *)

Module PipelineScore.
Record t : Type := {
  pipeline : string;
  successRate : num;
  malformedPct : num;
  biasScore : num;
  formatConsistency : num;
  categoryCount : Z;
  subcategoryCount : Z;
  timeSeconds : num;
  candidatesFound : Z
}.
End PipelineScore.

(** [x || 0] on numbers: 0 and NaN are falsy. *)
Definition or_zero (x : num) : num :=
  match x with
  | NaN => of_Z 0
  | Fin q => if Qeq_bool q 0 then of_Z 0 else x
  | _ => x
  end.

Module Score.

Definition getValidSubcategoryIds (taxonomy : option Taxonomy.t)
  : list string :=
  match taxonomy with
  | None => []
  | Some t =>
      fold_left
        (fun ids cat =>
           fold_left (fun ids sub => set_add ids (Subcategory.id sub))
                     (Category.subcategories cat) ids)
        (Taxonomy.categories t) []
  end.

(** [!c.category || !catIds.has(c.category.trim())] *)
Definition is_malformed (catIds : list string) (c : Classification.t) : bool :=
  match Classification.category c with
  | None => true
  | Some s => negb (truthy s) || negb (has catIds (trim s))
  end.

(** [c.subcategory && subIds.has(c.subcategory.trim())] *)
Definition is_correct_sub (subIds : list string) (c : Classification.t)
  : bool :=
  match Classification.subcategory c with
  | None => false
  | Some s => truthy s && has subIds (trim s)
  end.

(** One iteration of the loop that fills [catCounts]. *)
Definition count_valid (catIds : list string) (catCounts : dict Z)
           (c : Classification.t) : dict Z :=
  let cat := Phase2.trimmed_category c in
  if has catIds cat then bump catCounts cat else catCounts.

(** [Math.max(0, ...Object.values(catCounts))] *)
Definition maxCount (catCounts : dict Z) : Z :=
  fold_left Z.max (values catCounts) 0%Z.

(** [total / Math.max(1, catIds.size)] *)
Definition expected (total : nat) (catIds : list string) : num :=
  div (of_nat total) (of_Z (Z.max 1 (Z.of_nat (List.length catIds)))).

Definition bias (count : Z) (expected : num) : num :=
  if lt (of_Z 0) expected
  then toFixed1 (mul (sub (div (of_Z count) expected) (of_Z 1)) (of_Z 100))
  else of_Z 0.

(** [computeScore(run)]; [total_time_seconds] stands for
    [run.summary?.pipeline?.total_time_seconds]. *)
Definition computeScore (total_time_seconds : option num)
           (run : PipelineRun.t) : PipelineScore.t :=
  let taxonomy := PipelineRun.taxonomy run in
  let catIds := Comparison.getValidCategoryIds taxonomy in
  let subIds := getValidSubcategoryIds taxonomy in
  let zero := of_Z 0 in
  let '(successRate, malformedPct, biasScore, formatConsistency) :=
    match PipelineRun.phase2 run with
    | Some phase2 =>
        let clf := Phase2Data.classifications phase2 in
        let metadata := Phase2Data.metadata phase2 in
        if (0 <? List.length clf)%nat
        then
          let total := List.length clf in
          let successRate :=
            toFixed1 (mul (div (of_Z (Metadata.total_classified metadata))
                               (of_Z (Metadata.total_messages metadata)))
                          (of_Z 100)) in
          let malformed :=
            Z.of_nat (List.length (filter (is_malformed catIds) clf)) in
          let catCounts := fold_left (count_valid catIds) clf [] in
          let correctSub :=
            Z.of_nat (List.length (filter (is_correct_sub subIds) clf)) in
          (successRate,
           Phase2.percent_of malformed total,
           bias (maxCount catCounts) (expected total catIds),
           Phase2.percent_of correctSub total)
        else (zero, zero, zero, zero)
    | None => (zero, zero, zero, zero)
    end in
  {| PipelineScore.pipeline := PipelineRun.name run;
     PipelineScore.successRate := successRate;
     PipelineScore.malformedPct := malformedPct;
     PipelineScore.biasScore := biasScore;
     PipelineScore.formatConsistency := formatConsistency;
     PipelineScore.categoryCount :=
       Z.of_nat (List.length (run_categories run));
     PipelineScore.subcategoryCount :=
       fold_left (fun sum c =>
                    (sum + Z.of_nat (List.length (Category.subcategories c)))%Z)
                 (run_categories run) 0%Z;
     PipelineScore.timeSeconds :=
       match total_time_seconds with
       | Some t => or_zero t
       | None => of_Z 0
       end;
     PipelineScore.candidatesFound :=
       match PipelineRun.phase2 run with
       | Some phase2 =>
           Z.of_nat (List.length (keys (Phase2Data.candidate_categories phase2)))
       | None => 0%Z
       end |}.

End Score.

(** A value of a radar row: the label of the metric, or a number. *)
Inductive cell : Type :=
| Text (s : string)
| Number (n : num).

Module Radar.

(** A metric of the radar: how it is read off a score, its label and its
    full mark. *)
Definition metric : Type := ((PipelineScore.t -> num) * string * Z)%type.

Definition metrics : list metric :=
  [ (PipelineScore.successRate, "Success Rate", 100%Z);
    (PipelineScore.formatConsistency, "Format Consistency", 100%Z);
    (fun s => of_Z (PipelineScore.categoryCount s), "Category Richness", 10%Z);
    (fun s => of_Z (PipelineScore.candidatesFound s), "Discovery", 20%Z) ].

Definition invertedMetrics : list metric :=
  [ (PipelineScore.malformedPct, "Output Quality", 100%Z);
    (PipelineScore.biasScore, "Balance", 200%Z) ].

Definition new_row (m : metric) : dict cell :=
  let '(_, label, full) := m in
  set (set [] "metric" (Text label)) "fullMark" (Number (of_Z full)).

Definition plain_row (scores : list PipelineScore.t) (m : metric) : dict cell :=
  let '(field, _, _) := m in
  fold_left (fun row s =>
               set row (PipelineScore.pipeline s)
                   (Number (or_zero (field s))))
            scores (new_row m).

Definition inverted (m : metric) (s : PipelineScore.t) : num :=
  let '(field, _, full) := m in
  max (of_Z 0) (sub (of_Z full) (or_zero (field s))).

Definition inverted_row (scores : list PipelineScore.t) (m : metric)
  : dict cell :=
  fold_left (fun row s => set row (PipelineScore.pipeline s)
                              (Number (inverted m s)))
            scores (new_row m).

Definition computeRadar (scores : list PipelineScore.t) : list (dict cell) :=
  map (plain_row scores) metrics ++ map (inverted_row scores) invertedMetrics.

End Radar.

(** A number that is neither NaN nor below zero. *)
Definition not_negative (x : num) : Prop :=
  match x with
  | Fin q => 0 <= q
  | PInf => True
  | _ => False
  end.

(** The run names that [computeRadar] can use as a key of a row without
    touching the cells [metric] and [fullMark]. *)
Definition free_name (p : string) : bool :=
  negb (String.eqb p "metric") && negb (String.eqb p "fullMark") && own_key p.

(* ================================================================== *)
(** * processCSV.ts: the message and award sections *)
(* ================================================================== *)

Module CharLength.
Record t : Type := {
  mean : num;
  median : num;
  std : num;
  min : Z;
  max : Z;
  p5 : num;
  p25 : num;
  p75 : num;
  p95 : num
}.
End CharLength.

Module WordCount.
Record t : Type := {
  mean : num;
  median : num;
  min : Z;
  max : Z
}.
End WordCount.

Module MessageStats.
Record t : Type := {
  count : Z;
  null_count : Z;
  char_length : CharLength.t;
  word_count : WordCount.t;
  shortest_messages : list string;
  longest_messages_preview : list string
}.
End MessageStats.

Module TitleLength.
Record t : Type := {
  mean : num;
  median : num;
  max : Z
}.
End TitleLength.

Module AwardStats.
Record t : Type := {
  count : Z;
  null_count : Z;
  empty_count : Z;
  unique_count : Z;
  top_10_titles : list (string * Z);
  title_length : TitleLength.t
}.
End AwardStats.

Module Messages.

(** [s.split(/\s+/)]: the pieces between the maximal runs of white space,
    an empty piece standing before a leading run and after a trailing
    one. *)
Fixpoint split_ws (s : string) : list string :=
  match s with
  | EmptyString => [EmptyString]
  | String c r =>
      if is_space c
      then match r with
           | EmptyString => [EmptyString; EmptyString]
           | String c' _ =>
               if is_space c' then split_ws r else EmptyString :: split_ws r
           end
      else match split_ws r with
           | piece :: pieces => String c piece :: pieces
           | [] => [String c EmptyString]
           end
  end.

(** [m.split(/\s+/).filter(Boolean).length] *)
Definition words (m : string) : Z :=
  Z.of_nat (List.length (filter truthy (split_ws m))).

(** [m.length] *)
Definition len (m : string) : Z := Z.of_nat (String.length m).

(** [arr.sort((a, b) => a - b)] *)
Definition ascending (arr : list Z) : list Z :=
  sort_by (fun a b => (a <? b)%Z) arr.

(** [mean(arr)] *)
Definition mean (arr : list Z) : num :=
  div (of_Z (fold_left Z.add arr 0%Z)) (of_nat (List.length arr)).

(** [std(arr, avg)] *)
Definition std (sqrtQ : Q -> Q) (arr : list Z) (avg : num) : num :=
  sqrt sqrtQ
       (div (fold_left (fun s v => add s (square (sub (of_Z v) avg)))
                       arr (of_Z 0))
            (of_nat (List.length arr))).

(** [+percentile(sorted, p).toFixed(1)]: [None] when [percentile] returns
    [undefined], on which [toFixed] throws. *)
Definition percentile1 (sorted : list Z) (p : Q) : option num :=
  option_map toFixed1 (CSV.percentile (map inject_Z sorted) p).

(** [arr[0] || 0] and [arr[arr.length - 1] || 0] *)
Definition first_or_0 (arr : list Z) : Z := hd 0%Z arr.
Definition last_or_0 (arr : list Z) : Z := last arr 0%Z.

(** [m.slice(0, 110) + (m.length > 110 ? "..." : "")] *)
Definition preview (m : string) : string :=
  (substring 0 110 m ++ if (110 <? String.length m)%nat then "..." else "")%string.

(** [arr.slice(-n)] *)
Definition last_n (A : Type) (n : nat) (arr : list A) : list A :=
  skipn (List.length arr - n) arr.

(** The [message] section of [processCSVToRawData]; [None] when it
    throws. *)
Definition message_section (sqrtQ : Q -> Q) (rows : list CsvRow.t)
  : option MessageStats.t :=
  let messages := map CsvRow.message rows in
  let validMessages := filter (fun m => truthy (trim m)) messages in
  let charLengths := ascending (map len validMessages) in
  let wordCounts := map words validMessages in
  let wordCountsSorted := ascending wordCounts in
  let charMean := mean charLengths in
  let sortedByLen :=
    sort_by (fun a b => (len a <? len b)%Z) validMessages in
  match percentile1 charLengths 50, percentile1 charLengths 5,
        percentile1 charLengths 25, percentile1 charLengths 75,
        percentile1 charLengths 95, percentile1 wordCountsSorted 50 with
  | Some median, Some p5, Some p25, Some p75, Some p95, Some wordMedian =>
      Some
        {| MessageStats.count := Z.of_nat (List.length validMessages);
           MessageStats.null_count :=
             Z.of_nat (List.length
                         (filter (fun m => negb (truthy (trim m))) messages));
           MessageStats.char_length :=
             {| CharLength.mean := toFixed1 charMean;
                CharLength.median := median;
                CharLength.std := toFixed1 (std sqrtQ charLengths charMean);
                CharLength.min := first_or_0 charLengths;
                CharLength.max := last_or_0 charLengths;
                CharLength.p5 := p5;
                CharLength.p25 := p25;
                CharLength.p75 := p75;
                CharLength.p95 := p95 |};
           MessageStats.word_count :=
             {| WordCount.mean := toFixed1 (mean wordCounts);
                WordCount.median := wordMedian;
                WordCount.min := first_or_0 wordCountsSorted;
                WordCount.max := last_or_0 wordCountsSorted |};
           MessageStats.shortest_messages := firstn 5 sortedByLen;
           MessageStats.longest_messages_preview :=
             map preview (rev (last_n 5 sortedByLen)) |}
  | _, _, _, _, _, _ => None
  end.

(** [mean(awardLengths) || 0] *)
Definition mean_or_0 (arr : list Z) : num := or_zero (mean arr).

(** [awardLengths.length ? Math.max(...awardLengths) : 0] *)
Definition max_or_0 (arr : list Z) : Z :=
  match arr with
  | [] => 0%Z
  | v :: rest => fold_left Z.max rest v
  end.

(** The [award_title] section of [processCSVToRawData]; [None] when it
    throws. *)
Definition award_section (rows : list CsvRow.t) : option AwardStats.t :=
  let awardTitles := map CsvRow.award_title rows in
  let validAwards := filter (fun t => truthy (trim t)) awardTitles in
  let awardCounts := CSV.countValues validAwards in
  let awardLengths := map len validAwards in
  let nulls :=
    Z.of_nat (List.length
                (filter (fun t => negb (truthy (trim t))) awardTitles)) in
  match percentile1 (ascending awardLengths) 50 with
  | Some median =>
      Some
        {| AwardStats.count := Z.of_nat (List.length validAwards);
           AwardStats.null_count := nulls;
           AwardStats.empty_count := nulls;
           AwardStats.unique_count := Z.of_nat (List.length (keys awardCounts));
           AwardStats.top_10_titles := CSV.topN awardCounts 10;
           AwardStats.title_length :=
             {| TitleLength.mean := toFixed1 (mean_or_0 awardLengths);
                TitleLength.median := median;
                TitleLength.max := max_or_0 (ascending awardLengths) |} |}
  | None => None
  end.

End Messages.

(* ================================================================== *)
(** * DataLoader: parseCSV *)
(* ================================================================== *)

Module Parser.

Definition dquote : ascii := ascii_of_nat 34.
Definition comma : ascii := ascii_of_nat 44.
Definition LF : ascii := ascii_of_nat 10.
Definition CR : ascii := ascii_of_nat 13.

(** The variables of the loop of [parseCSV]. *)
Record state : Type := {
  lines : list (list string);
  current : list string;
  field : string;
  inQuotes : bool
}.

Definition start : state :=
  {| lines := []; current := []; field := ""; inQuotes := false |}.

(** [field += ch] *)
Definition add_char (st : state) (ch : ascii) : state :=
  {| lines := lines st; current := current st;
     field := (field st ++ String ch "")%string; inQuotes := inQuotes st |}.

Definition set_quotes (st : state) (b : bool) : state :=
  {| lines := lines st; current := current st; field := field st;
     inQuotes := b |}.

(** [current.push(field); field = ""] *)
Definition end_field (st : state) : state :=
  {| lines := lines st; current := (current st ++ [field st])%list;
     field := ""; inQuotes := inQuotes st |}.

(** [current.some((f) => f.trim())] *)
Definition has_value (fields : list string) : bool :=
  existsb (fun f => truthy (trim f)) fields.

(** The end of a line: the field is pushed, and the line is kept when one
    of its fields is not blank. *)
Definition end_line (st : state) : state :=
  let line := (current st ++ [field st])%list in
  {| lines := if has_value line then (lines st ++ [line])%list else lines st;
     current := []; field := ""; inQuotes := inQuotes st |}.

(** The loop over the characters of the text; [next] is the character
    after [ch], and a step that consumes it goes on after it. *)
Fixpoint scan (text : string) (st : state) : state :=
  match text with
  | EmptyString => st
  | String ch rest =>
      if inQuotes st
      then
        if Ascii.eqb ch dquote
        then match rest with
             | String next rest' =>
                 if Ascii.eqb next dquote
                 then scan rest' (add_char st dquote)
                 else scan rest (set_quotes st false)
             | EmptyString => scan rest (set_quotes st false)
             end
        else scan rest (add_char st ch)
      else
        if Ascii.eqb ch dquote then scan rest (set_quotes st true)
        else if Ascii.eqb ch comma then scan rest (end_field st)
        else if Ascii.eqb ch LF then scan rest (end_line st)
        else if Ascii.eqb ch CR
        then match rest with
             | String next rest' =>
                 if Ascii.eqb next LF
                 then scan rest' (end_line st)
                 else scan rest (add_char st ch)
             | EmptyString => scan rest (add_char st ch)
             end
        else scan rest (add_char st ch)
  end.

(** The lines of the text: the loop, then the last field and line. *)
Definition read_lines (text : string) : list (list string) :=
  lines (end_line (scan text start)).

(** The object of a row: [obj[h] = (row[i] || "").trim()] for each header
    [h] at position [i]. *)
Definition object_of (headers : list string) (row : list string)
  : dict string :=
  fold_left (fun obj ih => set obj (snd ih) (trim (nth (fst ih) row "")))
            (combine (seq 0 (List.length headers)) headers) [].

(** [parseCSV(text)] *)
Definition parseCSV (text : string) : list (dict string) :=
  let lines := read_lines text in
  if (List.length lines <? 2)%nat then []
  else
    let headers := map trim (hd [] lines) in
    map (object_of headers) (tl lines).

(** A cell of a table to be written as CSV: its content, and whether it is
    written between quotes. *)
Definition cell : Type := (bool * string)%type.

(** The content with every quote doubled. *)
Fixpoint escape (s : string) : string :=
  match s with
  | EmptyString => EmptyString
  | String c r =>
      if Ascii.eqb c dquote then String dquote (String dquote (escape r))
      else String c (escape r)
  end.

(** No quote, comma, line feed or carriage return. *)
Definition is_plain (s : string) : bool :=
  all_chars (fun c => negb (Ascii.eqb c dquote) && negb (Ascii.eqb c comma)
                      && negb (Ascii.eqb c LF) && negb (Ascii.eqb c CR)) s.

Definition write_cell (c : cell) : string :=
  if fst c then String dquote (escape (snd c) ++ String dquote "")%string
  else snd c.

(** A cell can be written without quotes when it is plain. *)
Definition writable (c : cell) : bool := fst c || is_plain (snd c).

Fixpoint write_line (cells : list cell) : string :=
  match cells with
  | [] => EmptyString
  | [c] => write_cell c
  | c :: rest => (write_cell c ++ String comma (write_line rest))%string
  end.

(** The lines, each followed by the line break [eol], the last one only
    if [final] is set. *)
Fixpoint write_table (eol : string) (final : bool) (table : list (list cell))
  : string :=
  match table with
  | [] => EmptyString
  | [line] => (write_line line ++ if final then eol else "")%string
  | line :: rest => (write_line line ++ eol ++ write_table eol final rest)%string
  end.

Definition contents (line : list cell) : list string := map snd line.

Definition with_field (st : state) (f : string) : state :=
  {| lines := lines st; current := current st; field := f;
     inQuotes := inQuotes st |}.

Definition starts_with_quote (s : string) : bool :=
  match s with
  | String c _ => Ascii.eqb c dquote
  | EmptyString => false
  end.

(** A line that can be written and is kept when read: every cell is
    writable and some cell is not blank. *)
Definition line_ok (line : list cell) : bool :=
  forallb writable line && has_value (contents line).

End Parser.

Module Loader.

Definition REQUIRED_COLUMNS : list string :=
  ["message"; "award_title"; "recipient_title"; "nominator_title"].

(** What [handleFile] does with the text of a file. *)
Inductive outcome : Type :=
| Empty                                         (* "CSV appears empty" *)
| Missing (missing found : list string)         (* "Missing required columns" *)
| Loaded (eda : RawData.t).

(** [r.message || ""] and the like: a row object as [processCSVToRawData]
    reads it. *)
Definition value_of (obj : dict string) (column : string) : string :=
  match get obj column with
  | Some v => v
  | None => ""
  end.

Definition to_row (obj : dict string) : CsvRow.t :=
  {| CsvRow.message := value_of obj "message";
     CsvRow.award_title := value_of obj "award_title";
     CsvRow.recipient_title := value_of obj "recipient_title";
     CsvRow.nominator_title := value_of obj "nominator_title" |}.

Definition load (text : string) : outcome :=
  let rows := Parser.parseCSV text in
  match rows with
  | [] => Empty
  | first :: _ =>
      let headers := keys first in
      let missing := filter (fun c => negb (has headers c)) REQUIRED_COLUMNS in
      match missing with
      | _ :: _ => Missing missing headers
      | [] => Loaded (CSV.processCSVToRawData (map to_row rows))
      end
  end.

(** The position of a column among the headers. *)
Fixpoint position (column : string) (headers : list string) : option nat :=
  match headers with
  | [] => None
  | h :: rest =>
      if String.eqb column h then Some 0%nat
      else option_map S (position column rest)
  end.

(** The trimmed cell of a line under a column, empty without the column or
    the cell. *)
Definition cell_under (headers : list string) (line : list string)
           (column : string) : string :=
  match position column headers with
  | Some i => trim (nth i line "")
  | None => ""
  end.

Definition row_of (headers : list string) (line : list string) : CsvRow.t :=
  {| CsvRow.message := cell_under headers line "message";
     CsvRow.award_title := cell_under headers line "award_title";
     CsvRow.recipient_title := cell_under headers line "recipient_title";
     CsvRow.nominator_title := cell_under headers line "nominator_title" |}.

End Loader.

(* ================================================================== *)
(** * processData.ts: the seniority chart *)
(* ================================================================== *)

(** [delete d[k]] *)
Definition delete (V : Type) (d : dict V) (k : string) : dict V :=
  filter (fun e => negb (String.eqb (fst e) k)) d.

Module SeniorityRow.
Record t : Type := {
  level : string;
  recipients : Z;
  nominators : Z
}.
End SeniorityRow.

Module Chart.

Definition SENIORITY_ORDER : list string :=
  [ "Junior"; "Associate"; "Specialist"; "Lead"; "Senior"; "Manager";
    "Director"; "Principal"; "VP/C-Suite" ].

(** A count is truthy when it is there and not 0. *)
Definition counted (n : option Z) : bool :=
  match n with
  | Some n => negb (n =? 0)%Z
  | None => false
  end.

Definition mergeSeniority (dist : dict Z) : dict Z :=
  let merged := dist in
  if counted (get merged "VP") || counted (get merged "Vice President")
  then
    let merged :=
      set merged "VP/C-Suite"
          (get_or_0 merged "VP" + get_or_0 merged "Vice President")%Z in
    delete (delete merged "VP") "Vice President"
  else merged.

Definition buildSeniorityData (raw : RawData.t) : list SeniorityRow.t :=
  let recipMerged :=
    mergeSeniority (TitleStats.seniority_distribution
                      (RawData.recipient_title raw)) in
  let nomMerged :=
    mergeSeniority (TitleStats.seniority_distribution
                      (RawData.nominator_title raw)) in
  let allKeys := new_Set (keys recipMerged ++ keys nomMerged)%list in
  map (fun level =>
         {| SeniorityRow.level := level;
            SeniorityRow.recipients := get_or_0 recipMerged level;
            SeniorityRow.nominators := get_or_0 nomMerged level |})
      (filter (fun k => has allKeys k) SENIORITY_ORDER).

(** The titles that the chart counts at a level: those of that seniority
    level, the two spellings of vice president together. *)
Definition titles_at (level : string) (titles : list string) : Z :=
  if String.eqb level "VP/C-Suite"
  then (count_if (has_level "VP") titles
        + count_if (has_level "Vice President") titles)%Z
  else if String.eqb level "VP" || String.eqb level "Vice President"
       then 0%Z
       else count_if (has_level level) titles.

(** The seniority levels that [extractSeniority] can return. *)
Definition levels : list string :=
  [ "Vice President"; "VP"; "Director"; "Principal"; "Manager"; "Senior";
    "Lead"; "Associate"; "Junior" ].

End Chart.

(* ================================================================== *)
(** * processComparison.ts: the rows of the category overlap *)
(* ================================================================== *)

Module Overlap.

(** The name under which [computeCategoryOverlap] counts a classification
    of a run: the name of its category in the run's taxonomy, when its
    trimmed category is an id of that taxonomy. *)
Definition counted_name (run : PipelineRun.t) (c : Classification.t)
  : option string :=
  let catId := Phase2.trimmed_category c in
  if has (Comparison.getValidCategoryIds (PipelineRun.taxonomy run)) catId
  then Some (Comparison.name_of
               (Comparison.idToName_of (PipelineRun.taxonomy run)) catId)
  else None.

Definition classifications_of (run : PipelineRun.t) : list Classification.t :=
  match PipelineRun.phase2 run with
  | Some phase2 => Phase2Data.classifications phase2
  | None => []
  end.

Definition is_counted_as (run : PipelineRun.t) (category : string)
           (c : Classification.t) : bool :=
  match counted_name run c with
  | Some name => String.eqb name category
  | None => false
  end.

(** The classifications of a run that are counted under a category
    name. *)
Definition named_count (run : PipelineRun.t) (category : string) : Z :=
  count_if (is_counted_as run category) (classifications_of run).

(** No run name, category id or category name in use is a member
    inherited from [Object.prototype]. *)
Definition plain_runs (runs : list PipelineRun.t) : bool :=
  forallb
    (fun run =>
       own_key (PipelineRun.name run)
       && forallb (fun c =>
                     match counted_name run c with
                     | Some name =>
                         own_key name && own_key (Phase2.trimmed_category c)
                     | None => true
                     end)
                  (classifications_of run))
    runs.

(** The names counted in a run, in the order of its classifications. *)
Definition counted_names (run : PipelineRun.t) : list string :=
  flat_map (fun c => match counted_name run c with
                     | Some name => [name]
                     | None => []
                     end)
           (classifications_of run).

End Overlap.

(* ================================================================== *)
(** * extractDept.ts and the department rows of processData.ts *)
(* ================================================================== *)

Module DeptRule.
(** A pattern of [DEPT_KEYWORDS] is an alternation of literal strings under
    the flag [i]; it is kept as the list of its alternatives, with
    [customer (service|success)] and [product (manager|designer)] written
    out. *)
Record t : Type := { pattern : list string; dept : string }.
End DeptRule.

Module DeptRow.
Record t : Type := { dept : string; count : Z }.
End DeptRow.

Module Dept.

Definition DEPT_KEYWORDS : list DeptRule.t :=
  [ {| DeptRule.pattern :=
         ["engineer"; "software"; "QA"; "helpdesk"; "techflow"];
       DeptRule.dept := "Engineering" |};
    {| DeptRule.pattern :=
         ["creative"; "copywrite"; "design"; "presentation"; "art director"];
       DeptRule.dept := "Creative & Design" |};
    {| DeptRule.pattern :=
         ["marketing"; "demand gen"; "brand"; "paid media"; "ABM";
          "content strat"];
       DeptRule.dept := "Marketing" |};
    {| DeptRule.pattern := ["event"]; DeptRule.dept := "Events" |};
    {| DeptRule.pattern :=
         ["customer service"; "customer success"; "customer insight"];
       DeptRule.dept := "Customer Service" |};
    {| DeptRule.pattern :=
         ["finance"; "accountant"; "accounts payable"; "payroll"];
       DeptRule.dept := "Finance" |};
    {| DeptRule.pattern := ["sale"; "store experience"; "buyer"];
       DeptRule.dept := "Sales & Procurement" |};
    {| DeptRule.pattern := ["product manager"; "product designer"];
       DeptRule.dept := "Product" |};
    {| DeptRule.pattern := ["linguistic"; "WHiQ"; "thought leadership"];
       DeptRule.dept := "Content & Linguistics" |};
    {| DeptRule.pattern :=
         ["chief"; "VP"; "vice president"; "chief of staff"];
       DeptRule.dept := "Executive" |};
    {| DeptRule.pattern := ["HR"; "people"; "talent"];
       DeptRule.dept := "HR" |} ]%string.

(** Under the flag [i] a character of a pattern, here a space or an ASCII
    letter, matches the same letter in either case and nothing else. *)
Definition fold_case (c : ascii) : ascii :=
  if is_upper c then ascii_of_N (code c + 32) else c.

(** A literal matches at the start of a title when its characters agree
    with the title's up to the case of ASCII letters. *)
Fixpoint matches_here (literal title : string) : bool :=
  match literal, title with
  | EmptyString, _ => true
  | String a literal', String b title' =>
      Ascii.eqb (fold_case a) (fold_case b) && matches_here literal' title'
  | String _ _, EmptyString => false
  end.

Fixpoint matches_in (literal title : string) : bool :=
  matches_here literal title
  || match title with
     | EmptyString => false
     | String _ title' => matches_in literal title'
     end.

(** [pattern.test(title)] *)
Definition test (pattern : list string) (title : string) : bool :=
  existsb (fun literal => matches_in literal title) pattern.

Definition extractDept (title : string) : string :=
  if negb (truthy title) then "Other"%string
  else match find (fun rule => test (DeptRule.pattern rule) title)
                  DEPT_KEYWORDS with
       | Some rule => DeptRule.dept rule
       | None => "Other"%string
       end.

(** The departments that [extractDept] can return. *)
Definition departments : list string :=
  (map DeptRule.dept DEPT_KEYWORDS ++ ["Other"%string])%list.

(** [addTitles], on the object [counts]. *)
Definition addTitles (counts : dict Z) (titles : list (string * Z)) : dict Z :=
  fold_left (fun counts '(title, count) =>
               let d := extractDept title in
               set counts d (get_or_0 counts d + count)%Z)
            titles counts.

Definition by_count_desc (a b : DeptRow.t) : bool :=
  (DeptRow.count b <? DeptRow.count a)%Z.

Definition buildDeptData (raw : RawData.t) : list DeptRow.t :=
  let counts :=
    addTitles
      (addTitles [] (TitleStats.top_15_titles (RawData.recipient_title raw)))
      (TitleStats.top_15_titles (RawData.nominator_title raw)) in
  sort_by by_count_desc
          (map (fun '(dept, count) =>
                  {| DeptRow.dept := dept; DeptRow.count := count |})
               (entries counts)).

(** The titles of both top-15 lists, recipients first. *)
Definition listed_titles (raw : RawData.t) : list (string * Z) :=
  (TitleStats.top_15_titles (RawData.recipient_title raw)
   ++ TitleStats.top_15_titles (RawData.nominator_title raw))%list.

(** The counts listed for the titles of a department. *)
Definition listed_for (dept : string) (raw : RawData.t) : Z :=
  sum_by snd (filter (fun e => String.eqb (extractDept (fst e)) dept)
                     (listed_titles raw)).

End Dept.

(* ================================================================== *)
(** * Sample inputs *)
(* ================================================================== *)

Module Sample.

Definition row (nominator recipient : string) : CsvRow.t :=
  {| CsvRow.message := "hi"; CsvRow.award_title := "Star";
     CsvRow.recipient_title := recipient;
     CsvRow.nominator_title := nominator |}.

(** Ten recipient titles and ten nominator titles with one title,
    "Analyst", on both sides; the analyst also nominated an analyst. *)
Definition ten_rows : list CsvRow.t :=
  [ row "Analyst" "Analyst";
    row "Buyer" "Engineer I";
    row "Copywriter" "Engineer II";
    row "Designer" "Engineer III";
    row "Editor" "QA Engineer";
    row "Event Planner" "Accountant";
    row "Recruiter" "Store Lead";
    row "Payroll Clerk" "Brand Manager";
    row "Linguist" "Art Director";
    row "Sales Rep" "Product Designer" ].

(** The scenario of the specification: two titles recognising each other. *)
Definition two_rows : list CsvRow.t :=
  [ row "Eng II" "Eng I"; row "Eng I" "Eng II" ].

Definition category (id : string) : Category.t :=
  {| Category.id := id; Category.name := id; Category.subcategories := [] |}.

Definition classified (category : option string) : Classification.t :=
  {| Classification.batch := 0;
     Classification.category := category;
     Classification.subcategory := None;
     Classification.themes := [];
     Classification.new_category := None |}.

Definition phase2 (clf : list Classification.t) : Phase2Data.t :=
  {| Phase2Data.metadata :=
       {| Metadata.total_messages := Z.of_nat (List.length clf);
          Metadata.total_classified := Z.of_nat (List.length clf);
          Metadata.batch_size := 25 |};
     Phase2Data.classifications := clf;
     Phase2Data.candidate_categories := [] |}.

(** The taxonomy with the two categories A and B. *)
Definition taxonomy_AB : Taxonomy.t :=
  {| Taxonomy.categories := [category "A"; category "B"] |}.

(** The scenario of the specification: ten classifications, all A. *)
Definition ten_A : Phase2Data.t := phase2 (repeat (classified (Some "A")) 10).

(** Four classifications A and three B. *)
Definition four_A_three_B : Phase2Data.t :=
  phase2 (repeat (classified (Some "A")) 4 ++ repeat (classified (Some "B")) 3).

Definition named_category (id name : string) : Category.t :=
  {| Category.id := id; Category.name := name; Category.subcategories := [] |}.

(** Two runs whose single category has the same name up to letter case and
    surrounding white space, under run-local identifiers; each run
    classified two messages into it. *)
Definition run_baseline : PipelineRun.t :=
  {| PipelineRun.name := "baseline";
     PipelineRun.taxonomy :=
       Some {| Taxonomy.categories := [named_category "C1" "Teamwork"] |};
     PipelineRun.phase2 :=
       Some (phase2 [classified (Some "C1"); classified (Some "C1")]) |}.

Definition run_refined : PipelineRun.t :=
  {| PipelineRun.name := "refined";
     PipelineRun.taxonomy :=
       Some {| Taxonomy.categories := [named_category "K7" " teamwork "] |};
     PipelineRun.phase2 :=
       Some (phase2 [classified (Some "K7"); classified (Some "K7")]) |}.

Definition in_batch (batch : Z) (category : option string) : Classification.t :=
  {| Classification.batch := batch;
     Classification.category := category;
     Classification.subcategory := None;
     Classification.themes := [];
     Classification.new_category := None |}.

(** Five messages in batches of two; the classifications of batch 1 are
    missing and one classification carries the batch number 7. *)
Definition three_batches : Phase2Data.t :=
  {| Phase2Data.metadata :=
       {| Metadata.total_messages := 5;
          Metadata.total_classified := 4;
          Metadata.batch_size := 2 |};
     Phase2Data.classifications :=
       [ in_batch 0 (Some "A"); in_batch 0 (Some "Z"); in_batch 2 (Some "B");
         in_batch 7 (Some "A") ];
     Phase2Data.candidate_categories := [] |}.


Definition with_themes (themes : list string) : Classification.t :=
  {| Classification.batch := 0;
     Classification.category := Some "A";
     Classification.subcategory := None;
     Classification.themes := themes;
     Classification.new_category := None |}.

(** Two spellings of one theme, a second theme and an empty theme. *)
Definition themed : list Classification.t :=
  [ with_themes ["Team_Work"; "Growth"]; with_themes [" team work"; ""] ].

(** A run whose two classifications carry a category that its taxonomy
    does not have. *)
Definition run_unmatched : PipelineRun.t :=
  {| PipelineRun.name := "unmatched";
     PipelineRun.taxonomy := Some taxonomy_AB;
     PipelineRun.phase2 :=
       Some (phase2 [classified (Some "Z"); classified None]) |}.

(** A run with the taxonomy A, B and four classifications A, three B. *)
Definition run_four_three : PipelineRun.t :=
  {| PipelineRun.name := "four-three";
     PipelineRun.taxonomy := Some taxonomy_AB;
     PipelineRun.phase2 := Some four_A_three_B |}.

End Sample.

(* ================================================================== *)
(** * Properties of the number model *)
(* ================================================================== *)

Local Open Scope list_scope.
Local Open Scope Q_scope.

Lemma div_finite (a b : Q) : ~ b == 0 -> div (Fin a) (Fin b) = Fin (a / b).
Proof.
  intros Hb. unfold div.
  destruct (b ?= 0) eqn:E; try reflexivity.
  apply Qeq_alt in E. contradiction.
Qed.

Lemma round_half_up_near (q : Q) :
  q - (1 # 2) < inject_Z (round_half_up q) /\
  inject_Z (round_half_up q) <= q + (1 # 2).
Proof.
  unfold round_half_up. split.
  - pose proof (Qlt_floor (q + (1 # 2))) as H.
    rewrite inject_Z_plus in H. change (inject_Z 1) with 1 in H. lra.
  - apply Qfloor_le.
Qed.

Lemma round_half_up_Z (z : Z) : round_half_up (inject_Z z) = z.
Proof.
  unfold round_half_up.
  pose proof (Qfloor_le (inject_Z z + (1 # 2))) as Hle.
  pose proof (Qlt_floor (inject_Z z + (1 # 2))) as Hlt.
  set (f := Qfloor (inject_Z z + (1 # 2))) in *.
  assert (H1 : inject_Z f < inject_Z (z + 1)).
  { rewrite inject_Z_plus. change (inject_Z 1) with 1. lra. }
  assert (H2 : inject_Z z < inject_Z (f + 1)) by lra.
  rewrite <- Zlt_Qlt in H1, H2. lia.
Qed.

Lemma round_half_up_ge (z : Z) (q : Q) :
  inject_Z z <= q -> (z <= round_half_up q)%Z.
Proof.
  intros H. rewrite <- (round_half_up_Z z). unfold round_half_up.
  apply Qfloor_resp_le. lra.
Qed.

Lemma round_half_up_mono (q r : Q) :
  q <= r -> (round_half_up q <= round_half_up r)%Z.
Proof. intros H. unfold round_half_up. apply Qfloor_resp_le. lra. Qed.

Lemma round_half_up_eq (q r : Q) : q == r -> round_half_up q = round_half_up r.
Proof. intros H. unfold round_half_up. now rewrite H. Qed.


(** [toFixed(1)] moves a number by at most one twentieth. *)
Lemma tenths_near (q : Q) :
  q - (1 # 20) <= tenths q # 10 /\ tenths q # 10 <= q + (1 # 20).
Proof.
  unfold tenths.
  assert (Hmake : forall z : Z, z # 10 == inject_Z z / 10).
  { intros z. unfold Qeq, Qdiv, Qmult, Qinv, inject_Z. simpl. lia. }
  destruct (Qle_bool 0 q) eqn:E; rewrite Hmake.
  - pose proof (Qfloor_le (q * 10 + (1 # 2))) as H1.
    pose proof (Qlt_floor (q * 10 + (1 # 2))) as H2.
    rewrite inject_Z_plus in H2. change (inject_Z 1) with 1 in H2.
    set (f := inject_Z (Qfloor (q * 10 + (1 # 2)))) in *.
    split; apply Qmult_le_r with 10; try reflexivity;
      (setoid_replace (f / 10 * 10) with f by field); lra.
  - pose proof (Qfloor_le (- q * 10 + (1 # 2))) as H1.
    pose proof (Qlt_floor (- q * 10 + (1 # 2))) as H2.
    rewrite inject_Z_plus in H2. change (inject_Z 1) with 1 in H2.
    rewrite inject_Z_opp.
    set (f := inject_Z (Qfloor (- q * 10 + (1 # 2)))) in *.
    split; apply Qmult_le_r with 10; try reflexivity;
      (setoid_replace (- f / 10 * 10) with (- f) by field); lra.
Qed.

Lemma Qmin_inject_Z (a b : Z) :
  Qmin (inject_Z a) (inject_Z b) = inject_Z (Z.min a b).
Proof.
  unfold Qmin, GenericMinMax.gmin, Z.min, Qcompare. simpl.
  rewrite !Z.mul_1_r. destruct (a ?= b)%Z; reflexivity.
Qed.

Lemma Qmax_inject_Z (a b : Z) :
  Qmax (inject_Z a) (inject_Z b) = inject_Z (Z.max a b).
Proof.
  unfold Qmax, GenericMinMax.gmax, Z.max, Qcompare. simpl.
  rewrite !Z.mul_1_r. destruct (a ?= b)%Z; reflexivity.
Qed.

(* ================================================================== *)
(** * Properties of sets and dictionaries *)
(* ================================================================== *)

Lemma has_In (s : list string) (x : string) : has s x = true <-> In x s.
Proof.
  unfold has. rewrite existsb_exists. split.
  - intros (y & Hy & E). apply String.eqb_eq in E. now subst.
  - intros H. exists x. split; [exact H | apply String.eqb_refl].
Qed.

Lemma has_false (s : list string) (x : string) : has s x = false <-> ~ In x s.
Proof.
  rewrite <- has_In. destruct (has s x); split; intros; congruence.
Qed.

Lemma set_add_In (s : list string) (x y : string) :
  In y (set_add s x) <-> In y s \/ y = x.
Proof.
  unfold set_add. destruct (has s x) eqn:E.
  - apply has_In in E. split; [auto|]. intros [H| ->]; assumption.
  - rewrite in_app_iff. simpl. intuition.
Qed.

Lemma set_add_NoDup (s : list string) (x : string) :
  NoDup s -> NoDup (set_add s x).
Proof.
  intros H. unfold set_add. destruct (has s x) eqn:E; [exact H|].
  apply has_false in E.
  apply NoDup_app; [exact H | repeat constructor; auto |].
  intros a Ha [<- | []]. exact (E Ha).
Qed.

Lemma fold_set_add_In (l acc : list string) (y : string) :
  In y (fold_left set_add l acc) <-> In y acc \/ In y l.
Proof.
  revert acc. induction l as [|x l IH]; intros acc; simpl.
  - tauto.
  - rewrite IH, set_add_In. intuition.
Qed.

Lemma fold_set_add_NoDup (l acc : list string) :
  NoDup acc -> NoDup (fold_left set_add l acc).
Proof.
  revert acc. induction l as [|x l IH]; intros acc H; simpl.
  - exact H.
  - apply IH. now apply set_add_NoDup.
Qed.

Lemma new_Set_In (l : list string) (y : string) :
  In y (new_Set l) <-> In y l.
Proof. unfold new_Set. rewrite fold_set_add_In. simpl. tauto. Qed.

Lemma new_Set_NoDup (l : list string) : NoDup (new_Set l).
Proof. apply fold_set_add_NoDup. constructor. Qed.

Lemma new_Set_nonempty (l : list string) : l <> [] -> new_Set l <> [].
Proof.
  destruct l as [|x l]; [congruence|]. intros _ E.
  assert (H : In x (new_Set (x :: l))) by (apply new_Set_In; now left).
  rewrite E in H. exact H.
Qed.

Lemma existsb_new_Set (f : string -> bool) (l : list string) :
  existsb f (new_Set l) = existsb f l.
Proof.
  apply eq_true_iff_eq. rewrite !existsb_exists.
  split; intros (x & Hx & Hf); exists x; split; auto; now apply new_Set_In.
Qed.

(** ** Dictionaries *)

Section DictFacts.

Variable V : Type.

Lemma get_set (d : dict V) (k k' : string) (v : V) :
  get (set d k v) k' = if String.eqb k' k then Some v else get d k'.
Proof.
  induction d as [|[k0 v0] d IH]; simpl.
  - reflexivity.
  - destruct (String.eqb_spec k k0) as [->|Hk]; simpl.
    + destruct (String.eqb_spec k' k0); reflexivity.
    + rewrite IH. destruct (String.eqb_spec k' k0) as [->|Hk'].
      * destruct (String.eqb_spec k0 k); [congruence | reflexivity].
      * reflexivity.
Qed.

Lemma set_keys (d : dict V) (k : string) (v : V) :
  map fst (set d k v) = if has (map fst d) k then map fst d else map fst d ++ [k].
Proof.
  induction d as [|[k0 v0] d IH]; simpl.
  - reflexivity.
  - unfold has in *. simpl.
    destruct (String.eqb k k0); simpl; [reflexivity|].
    rewrite IH. now destruct (existsb (String.eqb k) (map fst d)).
Qed.

Lemma set_keys_NoDup (d : dict V) (k : string) (v : V) :
  NoDup (map fst d) -> NoDup (map fst (set d k v)).
Proof.
  intros H. rewrite set_keys. fold (set_add (map fst d) k).
  now apply set_add_NoDup.
Qed.

Lemma get_In (d : dict V) (k : string) (v : V) :
  get d k = Some v -> In (k, v) d.
Proof.
  induction d as [|[k0 v0] d IH]; simpl; [discriminate|].
  destruct (String.eqb_spec k k0) as [->|Hk].
  - intros [= ->]. now left.
  - intros H. right. now apply IH.
Qed.

Lemma In_get (d : dict V) (k : string) (v : V) :
  NoDup (map fst d) -> In (k, v) d -> get d k = Some v.
Proof.
  induction d as [|[k0 v0] d IH]; simpl; [contradiction|].
  intros Hnd [[= -> ->] | Hin].
  - now rewrite String.eqb_refl.
  - inversion Hnd as [|? ? Hnot Hnd']; subst.
    destruct (String.eqb_spec k k0) as [->|Hk].
    + exfalso. apply Hnot. now apply (in_map fst) in Hin.
    + now apply IH.
Qed.

Lemma insert_index_Permutation (e : string * V) (l : list (string * V)) :
  Permutation (insert_index e l) (e :: l).
Proof.
  induction l as [|e' l IH]; simpl; [reflexivity|].
  destruct (index_of e <=? index_of e')%N; [reflexivity|].
  rewrite IH. apply perm_swap.
Qed.

Lemma filter_split_Permutation (A : Type) (p : A -> bool) (l : list A) :
  Permutation (filter p l ++ filter (fun x => negb (p x)) l) l.
Proof.
  induction l as [|x l IH]; simpl; [reflexivity|].
  destruct (p x); simpl.
  - now constructor.
  - rewrite <- Permutation_middle. now constructor.
Qed.

Lemma entries_Permutation (d : dict V) : Permutation (entries d) d.
Proof.
  unfold entries.
  rewrite <- (filter_split_Permutation (@is_index V) d) at 3.
  apply Permutation_app_tail.
  induction (filter (@is_index V) d) as [|e l IH]; simpl; [reflexivity|].
  rewrite insert_index_Permutation. now constructor.
Qed.

Lemma entries_In (d : dict V) (e : string * V) : In e (entries d) <-> In e d.
Proof.
  split; apply Permutation_in;
    [apply entries_Permutation | symmetry; apply entries_Permutation].
Qed.

Lemma entries_length (d : dict V) : List.length (entries d) = List.length d.
Proof. apply Permutation_length, entries_Permutation. Qed.

End DictFacts.

(** ** Tallies *)

Section Tally.

Variable A : Type.
Variable key : A -> string.

(** Number of elements of [l] with key [k]. *)
Let occurrences (l : list A) (k : string) : Z :=
  Z.of_nat (List.length (filter (fun c => String.eqb (key c) k) l)).

Let tally (l : list A) (d : dict Z) : dict Z :=
  fold_left (fun counts c => bump counts (key c)) l d.

Lemma bump_get (d : dict Z) (k k' : string) :
  get (bump d k) k'
  = if String.eqb k' k
    then Some (match get d k with Some n => n | None => 0 end + 1)%Z
    else get d k'.
Proof. unfold bump. apply get_set. Qed.

Lemma tally_keys_NoDup (l : list A) (d : dict Z) :
  NoDup (map fst d) -> NoDup (map fst (tally l d)).
Proof.
  revert d. induction l as [|c l IH]; intros d H; simpl; [exact H|].
  apply IH. now apply set_keys_NoDup.
Qed.

Lemma tally_get (l : list A) (d : dict Z) (k : string) :
  get (tally l d) k
  = match get d k with
    | Some n => Some (n + occurrences l k)%Z
    | None => if (occurrences l k =? 0)%Z then None else Some (occurrences l k)
    end.
Proof.
  revert d. induction l as [|c l IH]; intros d.
  - unfold occurrences. simpl. destruct (get d k); [f_equal; lia | reflexivity].
  - change (tally (c :: l) d) with (tally l (bump d (key c))).
    rewrite IH, bump_get. unfold occurrences. simpl.
    rewrite (String.eqb_sym k (key c)).
    destruct (String.eqb_spec (key c) k) as [E|E].
    + rewrite E. simpl List.length.
      destruct (get d k) as [n|].
      * f_equal. lia.
      * replace (Z.of_nat (S _) =? 0)%Z with false by (symmetry; apply Z.eqb_neq; lia).
        f_equal. lia.
    + reflexivity.
Qed.

Lemma tally_entry (l : list A) (k : string) (n : Z) :
  In (k, n) (entries (tally l [])) <->
  n = occurrences l k /\ (0 < n)%Z.
Proof.
  rewrite entries_In. split.
  - intros H. apply In_get in H; [|apply tally_keys_NoDup; constructor].
    rewrite tally_get in H. simpl in H.
    destruct (occurrences l k =? 0)%Z eqn:E; [discriminate|].
    injection H as <-. apply Z.eqb_neq in E.
    split; [reflexivity|]. unfold occurrences in *. lia.
  - intros [-> Hpos]. apply get_In. rewrite tally_get. simpl.
    now replace (occurrences l k =? 0)%Z with false
      by (symmetry; apply Z.eqb_neq; lia).
Qed.

End Tally.

(** ** Sorting *)

Section SortFacts.

Variable A : Type.
Variable key : A -> Z.
Variable before : A -> A -> bool.
Hypothesis before_key : forall a b, before a b = (key b <? key a)%Z.

Let descending (a b : A) : Prop := (key b <= key a)%Z.

Lemma insert_sorted_Permutation (x : A) (l : list A) :
  Permutation (insert_sorted before x l) (x :: l).
Proof.
  induction l as [|y l IH]; simpl; [reflexivity|].
  destruct (before y x); [|reflexivity].
  rewrite IH. apply perm_swap.
Qed.

Lemma sort_by_Permutation (l : list A) : Permutation (sort_by before l) l.
Proof.
  induction l as [|x l IH]; simpl; [reflexivity|].
  rewrite insert_sorted_Permutation. now constructor.
Qed.

Lemma insert_sorted_descending (x : A) (l : list A) :
  StronglySorted descending l ->
  StronglySorted descending (insert_sorted before x l).
Proof.
  induction 1 as [|y l Hs IH Hy]; simpl.
  - repeat constructor.
  - rewrite before_key. destruct (key x <? key y)%Z eqn:E.
    + apply Z.ltb_lt in E. constructor; [exact IH|].
      rewrite Forall_forall in *. intros z Hz.
      apply (Permutation_in _ (insert_sorted_Permutation x l)) in Hz.
      destruct Hz as [<- | Hz]; [unfold descending; lia | now apply Hy].
    + apply Z.ltb_ge in E. constructor; [now constructor|].
      constructor; [exact E|].
      rewrite Forall_forall in *. intros z Hz. specialize (Hy z Hz).
      unfold descending in *. lia.
Qed.

Lemma sort_by_descending (l : list A) :
  StronglySorted descending (sort_by before l).
Proof.
  induction l as [|x l IH]; simpl; [constructor|].
  now apply insert_sorted_descending.
Qed.

Lemma filter_descending (p : A -> bool) (l : list A) :
  StronglySorted descending l -> StronglySorted descending (filter p l).
Proof.
  induction 1 as [|y l Hs IH Hy]; simpl; [constructor|].
  destruct (p y); [|exact IH].
  constructor; [exact IH|].
  rewrite Forall_forall in *. intros z Hz. apply filter_In in Hz.
  now apply Hy.
Qed.

(** The first element that satisfies [p] in the sorted list has the largest
    key among the elements that satisfy [p]. *)
Lemma first_of_sorted (p : A -> bool) (l : list A) (top : A) :
  hd_error (filter p (sort_by before l)) = Some top ->
  In top l /\ p top = true
  /\ forall a, In a l -> p a = true -> (key a <= key top)%Z.
Proof.
  intros H.
  pose proof (filter_descending p (sort_by_descending l)) as Hs.
  assert (Hin : forall a, In a (filter p (sort_by before l)) <-> In a l /\ p a = true).
  { intros a. rewrite filter_In. split; intros [H1 H2]; split; auto.
    - now apply (Permutation_in _ (sort_by_Permutation l)).
    - now apply (Permutation_in _ (Permutation_sym (sort_by_Permutation l))). }
  destruct (filter p (sort_by before l)) as [|t rest]; [discriminate|].
  injection H as ->.
  destruct (proj1 (Hin top) (or_introl eq_refl)) as [H1 H2].
  repeat split; auto.
  intros a Ha Hp.
  destruct (proj2 (Hin a) (conj Ha Hp)) as [<- | Hrest]; [lia|].
  inversion Hs as [|? ? _ Hall]; subst.
  rewrite Forall_forall in Hall. now apply Hall.
Qed.

Lemma first_of_sorted_exists (p : A -> bool) (l : list A) (a : A) :
  In a l -> p a = true ->
  exists top, hd_error (filter p (sort_by before l)) = Some top.
Proof.
  intros Ha Hp.
  assert (H : In a (filter p (sort_by before l))).
  { apply filter_In. split; [|exact Hp].
    now apply (Permutation_in _ (Permutation_sym (sort_by_Permutation l))). }
  destruct (filter p (sort_by before l)) as [|t rest]; [contradiction|].
  now exists t.
Qed.

End SortFacts.

(* ================================================================== *)
(** * The capture-recapture estimator *)
(* ================================================================== *)

Import TitleCountEstimate CaptureRecaptureEstimate.

Lemma inject_Z_succ (z : Z) : inject_Z z + inject_Z 1 == inject_Z (z + 1).
Proof. now rewrite inject_Z_plus. Qed.

Lemma inject_Z_nonzero (z : Z) : z <> 0%Z -> ~ inject_Z z == 0.
Proof.
  intros Hz H. unfold Qeq in H. simpl in H. lia.
Qed.

(** The unrounded point estimate computed by the code is the Chapman
    formula. *)
Lemma point_estimate_value (n1 n2 m : Z) :
  m <> (-1)%Z ->
  exists q,
    sub (div (mul (add (of_Z n1) (of_Z 1)) (add (of_Z n2) (of_Z 1)))
             (add (of_Z m) (of_Z 1))) (of_Z 1) = Fin q
    /\ q == Population.chapman n1 n2 m.
Proof.
  intros Hm. unfold of_Z. cbn [add mul].
  rewrite div_finite.
  - eexists. split; [reflexivity|].
    unfold Population.chapman.
    rewrite !inject_Z_succ, <- inject_Z_mult.
    change (inject_Z 1) with 1. ring.
  - rewrite inject_Z_succ. apply inject_Z_nonzero. lia.
Qed.

Lemma chapman_exact (n1 n2 m : Z) :
  m <> (-1)%Z ->
  (m + 1 | (n1 + 1) * (n2 + 1))%Z ->
  Population.chapman n1 n2 m == inject_Z ((n1 + 1) * (n2 + 1) / (m + 1) - 1).
Proof.
  intros Hm [k Hk]. unfold Population.chapman.
  rewrite Hk, Z.div_mul by lia.
  replace (k - 1)%Z with (k + -1)%Z by lia.
  rewrite inject_Z_mult, (inject_Z_plus k (-1)).
  change (inject_Z (-1)) with (-1).
  field. apply inject_Z_nonzero. lia.
Qed.

(** C1. The point estimate returned by [computeCaptureRecapture] is the
    Chapman formula ((n1+1)(n2+1)/(m+1)) - 1 rounded to the nearest integer:
    it lies within one half of the formula, it is the formula itself when
    the division is exact, and for n1 = 20, n2 = 15, m = 5 it is 55. *)
Theorem chapman_point_estimate
  (sqrtQ : Q -> Q) (tc : TitleCountEstimate.t) (n1 n2 m : Z) :
  uniqueRecipients tc = of_Z n1 ->
  uniqueNominators tc = of_Z n2 ->
  overlap tc = of_Z m ->
  m <> (-1)%Z ->
  exists N : Z,
    chapmanEstimate (Population.computeCaptureRecapture sqrtQ tc) = of_Z N
    /\ N = round_half_up (Population.chapman n1 n2 m)
    /\ Population.chapman n1 n2 m - (1 # 2) < inject_Z N
    /\ inject_Z N <= Population.chapman n1 n2 m + (1 # 2)
    /\ ((m + 1 | (n1 + 1) * (n2 + 1))%Z ->
        N = ((n1 + 1) * (n2 + 1) / (m + 1) - 1)%Z)
    /\ (n1 = 20%Z -> n2 = 15%Z -> m = 5%Z -> N = 55%Z).
Proof.
  intros H1 H2 H3 Hm.
  destruct (point_estimate_value n1 n2 Hm) as (q & Hq & Hqc).
  exists (round_half_up (Population.chapman n1 n2 m)).
  assert (Hdiv : (m + 1 | (n1 + 1) * (n2 + 1))%Z ->
                 round_half_up (Population.chapman n1 n2 m)
                 = ((n1 + 1) * (n2 + 1) / (m + 1) - 1)%Z).
  { intros Hd. rewrite (round_half_up_eq (chapman_exact n1 n2 Hm Hd)).
    apply round_half_up_Z. }
  repeat split.
  - unfold Population.computeCaptureRecapture. cbn [chapmanEstimate].
    rewrite H1, H2, H3, Hq. cbn [round].
    now rewrite (round_half_up_eq Hqc).
  - apply round_half_up_near.
  - apply round_half_up_near.
  - exact Hdiv.
  - intros -> -> ->. rewrite Hdiv.
    + reflexivity.
    + exists 56%Z. reflexivity.
Qed.

Lemma chapman_point_estimate_witness :
  exists N : Z,
    chapmanEstimate
      (Population.computeCaptureRecapture (fun q => q)
         {| uniqueRecipients := of_Z 20; uniqueNominators := of_Z 15;
            totalUnique := of_Z 30; overlap := of_Z 5;
            overlapPct := Fin (333 # 10) |}) = of_Z N
    /\ N = 55%Z.
Proof.
  destruct (@chapman_point_estimate (fun q => q)
              {| uniqueRecipients := of_Z 20; uniqueNominators := of_Z 15;
                 totalUnique := of_Z 30; overlap := of_Z 5;
                 overlapPct := Fin (333 # 10) |} 20 15 5
              eq_refl eq_refl eq_refl ltac:(lia))
    as (N & HN & _ & _ & _ & _ & H55).
  exists N. split; [exact HN | now apply H55].
Defined.

Example chapman_20_15_5 (sqrtQ : Q -> Q) :
  chapmanEstimate
    (Population.computeCaptureRecapture sqrtQ
       {| uniqueRecipients := of_Z 20; uniqueNominators := of_Z 15;
          totalUnique := of_Z 30; overlap := of_Z 5;
          overlapPct := Fin (333 # 10) |}) = of_Z 55.
Proof. vm_compute. reflexivity. Qed.

Lemma chapman_lower_bound (n1 n2 m : Z) :
  (0 <= n1)%Z -> (0 <= n2)%Z -> (0 <= m <= Z.min n1 n2)%Z ->
  inject_Z (Z.max n1 n2) <= Population.chapman n1 n2 m.
Proof.
  intros H1 H2 Hm. unfold Population.chapman.
  assert (Hd : 0 < inject_Z (m + 1)).
  { change 0 with (inject_Z 0). rewrite <- Zlt_Qlt. lia. }
  assert (Hz : ((Z.max n1 n2 + 1) * (m + 1) <= (n1 + 1) * (n2 + 1))%Z) by nia.
  assert (Hq : inject_Z (Z.max n1 n2) + 1
               <= inject_Z ((n1 + 1) * (n2 + 1)) / inject_Z (m + 1)).
  { apply Qle_shift_div_l; [exact Hd|].
    change 1 with (inject_Z 1).
    rewrite <- inject_Z_plus, <- inject_Z_mult, <- Zle_Qle. exact Hz. }
  lra.
Qed.

(** The variance computed by the code is a non-negative rational when the
    overlap does not exceed either sample. *)
Lemma variance_value (n1 n2 m : Z) :
  (0 <= n1)%Z -> (0 <= n2)%Z -> (0 <= m <= Z.min n1 n2)%Z ->
  exists v,
    div (mul (mul (mul (add (of_Z n1) (of_Z 1)) (add (of_Z n2) (of_Z 1)))
                  (sub (of_Z n1) (of_Z m)))
             (sub (of_Z n2) (of_Z m)))
        (mul (square (add (of_Z m) (of_Z 1))) (add (of_Z m) (of_Z 2)))
    = Fin v /\ 0 <= v /\ v == Population.chapman_variance n1 n2 m.
Proof.
  intros H1 H2 Hm. unfold of_Z, square, sub. cbn [add mul neg].
  unfold Population.chapman_variance.
  rewrite !inject_Z_mult, !inject_Z_plus.
  replace (n1 - m)%Z with (n1 + - m)%Z by lia.
  replace (n2 - m)%Z with (n2 + - m)%Z by lia.
  rewrite !inject_Z_plus, !inject_Z_opp.
  assert (Q1 : 0 <= inject_Z n1) by (change 0 with (inject_Z 0); rewrite <- Zle_Qle; lia).
  assert (Q2 : 0 <= inject_Z n2) by (change 0 with (inject_Z 0); rewrite <- Zle_Qle; lia).
  assert (Qm : 0 <= inject_Z m) by (change 0 with (inject_Z 0); rewrite <- Zle_Qle; lia).
  assert (Qm1 : inject_Z m <= inject_Z n1) by (rewrite <- Zle_Qle; lia).
  assert (Qm2 : inject_Z m <= inject_Z n2) by (rewrite <- Zle_Qle; lia).
  change (inject_Z 1) with 1. change (inject_Z 2) with 2.
  set (a := inject_Z n1) in *. set (b := inject_Z n2) in *.
  set (c := inject_Z m) in *.
  assert (Hden : 0 < (c + 1) * (c + 1) * (c + 2)).
  { apply Qmult_lt_0_compat; [apply Qmult_lt_0_compat|]; lra. }
  rewrite div_finite by lra.
  eexists. split; [reflexivity|]. split; [|reflexivity].
  apply Qle_shift_div_l; [exact Hden|].
  rewrite Qmult_0_l.
  repeat apply Qmult_le_0_compat; lra.
Qed.

Lemma round_half_up_max (a : Q) (z : Z) :
  round_half_up (Qmax a (inject_Z z)) = Z.max (round_half_up a) z.
Proof.
  destruct (Q.max_spec a (inject_Z z)) as [[Hlt Heq] | [Hle Heq]];
    rewrite (round_half_up_eq Heq).
  - rewrite round_half_up_Z.
    assert (H : (round_half_up a <= round_half_up (inject_Z z))%Z)
      by (apply round_half_up_mono; lra).
    rewrite round_half_up_Z in H. lia.
  - pose proof (round_half_up_ge Hle). lia.
Qed.

(** C2. For counts n1, n2 >= 0 and an overlap 0 <= m <= min(n1, n2), the
    point estimate returned by [computeCaptureRecapture] is at least
    max(n1, n2), and the lower end of the returned 95% interval is the
    estimate less 1.96 standard errors, clamped from below at max(n1, n2):
    it is never below max(n1, n2). *)
Theorem estimate_at_least_max_sample
  (sqrtQ : Q -> Q) (tc : TitleCountEstimate.t) (n1 n2 m : Z) :
  uniqueRecipients tc = of_Z n1 ->
  uniqueNominators tc = of_Z n2 ->
  overlap tc = of_Z m ->
  (0 <= n1)%Z -> (0 <= n2)%Z -> (0 <= m <= Z.min n1 n2)%Z ->
  exists (N L : Z) (estimate variance : Q),
    chapmanEstimate (Population.computeCaptureRecapture sqrtQ tc) = of_Z N
    /\ fst (ci95 (Population.computeCaptureRecapture sqrtQ tc)) = of_Z L
    /\ estimate == Population.chapman n1 n2 m
    /\ variance == Population.chapman_variance n1 n2 m
    /\ 0 <= variance
    /\ N = round_half_up estimate
    /\ L = Z.max (round_half_up (estimate - (196 # 100) * sqrtQ variance))
                 (Z.max n1 n2)
    /\ inject_Z (Z.max n1 n2) <= estimate
    /\ (Z.max n1 n2 <= N)%Z
    /\ (Z.max n1 n2 <= L)%Z.
Proof.
  intros E1 E2 E3 H1 H2 Hm.
  assert (Hm1 : m <> (-1)%Z) by lia.
  destruct (point_estimate_value n1 n2 Hm1) as (q & Hq & Hqc).
  destruct (variance_value H1 H2 Hm) as (v & Hv & Hv0 & Hvc).
  pose proof (chapman_lower_bound H1 H2 Hm) as Hlow.
  exists (round_half_up q),
         (Z.max (round_half_up (q - (196 # 100) * sqrtQ v)) (Z.max n1 n2)),
         q, v.
  unfold Population.computeCaptureRecapture. cbn [chapmanEstimate ci95 fst].
  rewrite E1, E2, E3, Hq, Hv.
  unfold sqrt. rewrite (proj2 (Qle_bool_iff 0 v) Hv0).
  unfold of_Z. cbn [mul sub add neg max round]. unfold of_Z.
  rewrite Qmax_inject_Z, round_half_up_max.
  repeat split; try assumption; try reflexivity.
  - lra.
  - apply round_half_up_ge. lra.
  - lia.
Qed.

Lemma estimate_at_least_max_sample_witness :
  exists N L : Z,
    chapmanEstimate
      (Population.computeCaptureRecapture (fun q => q)
         {| uniqueRecipients := of_Z 20; uniqueNominators := of_Z 15;
            totalUnique := of_Z 30; overlap := of_Z 5;
            overlapPct := Fin (333 # 10) |}) = of_Z N
    /\ fst (ci95
      (Population.computeCaptureRecapture (fun q => q)
         {| uniqueRecipients := of_Z 20; uniqueNominators := of_Z 15;
            totalUnique := of_Z 30; overlap := of_Z 5;
            overlapPct := Fin (333 # 10) |})) = of_Z L
    /\ (20 <= N)%Z /\ (20 <= L)%Z.
Proof.
  destruct (@estimate_at_least_max_sample (fun q => q)
              {| uniqueRecipients := of_Z 20; uniqueNominators := of_Z 15;
                 totalUnique := of_Z 30; overlap := of_Z 5;
                 overlapPct := Fin (333 # 10) |} 20 15 5
              eq_refl eq_refl eq_refl ltac:(lia) ltac:(lia) ltac:(lia))
    as (N & L & q & v & HN & HL & _ & _ & _ & _ & _ & _ & H1 & H2).
  exists N, L. repeat split; assumption.
Defined.

(* ------------------------------------------------------------------ *)
(** ** The overlap of the two title sets *)

Lemma topOverlap_le (recipSet nomSet : list string) :
  NoDup recipSet -> NoDup nomSet ->
  (Population.topOverlap recipSet nomSet
   <= Nat.min (List.length recipSet) (List.length nomSet))%nat.
Proof.
  intros HR HN. unfold Population.topOverlap.
  apply Nat.min_glb.
  - apply filter_length_le.
  - apply NoDup_incl_length.
    + now apply NoDup_filter.
    + intros x Hx. apply filter_In in Hx. now apply has_In.
Qed.



Section TitleOverlap.

Variable raw : RawData.t.

Let n1 := TitleStats.unique_count (RawData.recipient_title raw).
Let n2 := TitleStats.unique_count (RawData.nominator_title raw).
Let recipSet :=
  new_Set (map fst (TitleStats.top_15_titles (RawData.recipient_title raw))).
Let nomSet :=
  new_Set (map fst (TitleStats.top_15_titles (RawData.nominator_title raw))).
Let listed := Nat.min (List.length recipSet) (List.length nomSet).
Let e := Population.scaled_overlap (Population.topOverlap recipSet nomSet)
                                   listed n1 n2.
Let s :=
  if (0 <? Interactions.self_recognition_count (RawData.interactions raw))%Z
  then Population.self_overlap n1 n2
  else e.

Lemma scaled_overlap_le : (0 < listed)%nat -> (0 <= Z.min n1 n2)%Z ->
  (e <= Z.min n1 n2)%Z.
Proof.
  intros Hk Hmin. unfold e, Population.scaled_overlap.
  rewrite <- (round_half_up_Z (Z.min n1 n2)) at 2.
  apply round_half_up_mono.
  pose proof (topOverlap_le (new_Set_NoDup _ : NoDup recipSet)
                            (new_Set_NoDup _ : NoDup nomSet)) as Hle.
  fold listed in Hle.
  assert (Hk' : 0 < inject_Z (Z.of_nat listed)).
  { change 0 with (inject_Z 0). rewrite <- Zlt_Qlt. lia. }
  assert (Hr : inject_Z (Z.of_nat (Population.topOverlap recipSet nomSet))
               / inject_Z (Z.of_nat listed) <= 1).
  { apply Qle_shift_div_r; [exact Hk'|]. rewrite Qmult_1_l, <- Zle_Qle. lia. }
  assert (Hm : 0 <= inject_Z (Z.min n1 n2)).
  { change 0 with (inject_Z 0). rewrite <- Zle_Qle. exact Hmin. }
  rewrite <- (Qmult_1_l (inject_Z (Z.min n1 n2))) at 2.
  apply Qmult_le_compat_r; assumption.
Qed.

Lemma self_overlap_le : (0 <= Z.min n1 n2)%Z ->
  (Population.self_overlap n1 n2 <= Z.min n1 n2)%Z.
Proof.
  intros Hmin. unfold Population.self_overlap.
  rewrite <- (round_half_up_Z (Z.min n1 n2)) at 2.
  apply round_half_up_mono.
  assert (Hm : 0 <= inject_Z (Z.min n1 n2)).
  { change 0 with (inject_Z 0). rewrite <- Zle_Qle. exact Hmin. }
  lra.
Qed.

Lemma overlap_value : (0 < listed)%nat ->
  overlap (Population.computeTitleCount raw) = of_Z (Z.max (Z.max e s) 1).
Proof.
  intros Hk. unfold Population.computeTitleCount. cbn [overlap].
  fold n1 n2 recipSet nomSet. fold listed.
  unfold of_nat, of_Z. cbn [min].
  rewrite div_finite by (apply inject_Z_nonzero; lia).
  rewrite Qmin_inject_Z. cbn [mul round]. fold e.
  unfold of_Z. fold (Population.scaled_overlap
                       (Population.topOverlap recipSet nomSet) listed n1 n2).
  fold e.
  fold (Population.self_overlap n1 n2).
  replace (if (0 <? Interactions.self_recognition_count (RawData.interactions raw))%Z
           then Fin (inject_Z (Population.self_overlap n1 n2))
           else Fin (inject_Z e))
    with (Fin (inject_Z s)) by (unfold s; now destruct (0 <? _)%Z).
  cbn [max]. now rewrite !Qmax_inject_Z.
Qed.


(** Without a title in one of the top-15 lists the overlap rate is 0/0 and
    the overlap is NaN. *)
Lemma overlap_without_titles :
  listed = 0%nat -> overlap (Population.computeTitleCount raw) = NaN.
Proof.
  intros Hk. unfold Population.computeTitleCount. cbn [overlap].
  fold n1 n2 recipSet nomSet. fold listed.
  assert (Ht : Population.topOverlap recipSet nomSet = 0%nat).
  { pose proof (topOverlap_le (new_Set_NoDup _ : NoDup recipSet)
                              (new_Set_NoDup _ : NoDup nomSet)) as Hle.
    fold listed in Hle. lia. }
  rewrite Ht, Hk. reflexivity.
Qed.

End TitleOverlap.



(* ================================================================== *)
(** * Percentiles *)
(* ================================================================== *)

Lemma Qfloor_unique (x : Q) (z : Z) :
  inject_Z z <= x -> x < inject_Z (z + 1) -> Qfloor x = z.
Proof.
  intros H1 H2.
  pose proof (Qfloor_le x) as F1. pose proof (Qlt_floor x) as F2.
  assert (A : inject_Z z < inject_Z (Qfloor x + 1)) by lra.
  assert (B : inject_Z (Qfloor x) < inject_Z (z + 1)) by lra.
  rewrite <- Zlt_Qlt in A, B. lia.
Qed.

Lemma Qceiling_unique (x : Q) (z : Z) :
  inject_Z (z - 1) < x -> x <= inject_Z z -> Qceiling x = z.
Proof.
  intros H1 H2. unfold Qceiling.
  rewrite (@Qfloor_unique (- x) (- z)); [lia | |].
  - rewrite inject_Z_opp. lra.
  - replace (- z + 1)%Z with (- (z - 1))%Z by lia. rewrite inject_Z_opp. lra.
Qed.

Lemma at_index_in_range (l : list Q) (i : Z) :
  (0 <= i < Z.of_nat (List.length l))%Z ->
  CSV.at_index l i = Some (nth (Z.to_nat i) l 0).
Proof.
  intros H. unfold CSV.at_index.
  replace (i <? 0)%Z with false by (symmetry; apply Z.ltb_ge; lia).
  apply nth_error_nth'. lia.
Qed.

Lemma sorted_nth (l : list Q) :
  StronglySorted Qle l ->
  forall i j, (i <= j)%nat -> (j < List.length l)%nat -> nth i l 0 <= nth j l 0.
Proof.
  induction 1 as [|x l Hs IH Hx]; intros i j Hij Hj; simpl in Hj; [lia|].
  destruct i as [|i], j as [|j]; simpl; try lia.
  - apply Qle_refl.
  - rewrite Forall_forall in Hx. apply Hx, nth_In. lia.
  - apply IH; lia.
Qed.

Lemma nth_pred_length (l : list Q) (d : Q) :
  nth (List.length l - 1) l d = last l d.
Proof.
  induction l as [|x [|y l] IH]; try reflexivity.
  change (last (x :: y :: l) d) with (last (y :: l) d). rewrite <- IH.
  simpl. now rewrite Nat.sub_0_r.
Qed.

Lemma inject_Z_pred (z : Z) : inject_Z (z - 1) == inject_Z z - 1.
Proof.
  unfold Z.sub. rewrite inject_Z_plus. change (inject_Z (- (1))) with (-1).
  ring.
Qed.

Section Percentile.

Variable sorted : list Q.
Hypothesis nonempty : sorted <> [].
Hypothesis ascending : StronglySorted Qle sorted.

Let n := List.length sorted.

Lemma length_pos : (0 < n)%nat.
Proof. unfold n. destruct sorted; [congruence | simpl; lia]. Qed.

(** The rank of the [p]-th percentile. *)
Let rank (p : Q) : Q := (p / 100) * inject_Z (Z.of_nat n - 1).

Lemma rank_bounds (p : Q) :
  0 <= p <= 100 -> 0 <= rank p <= inject_Z (Z.of_nat n - 1).
Proof.
  intros [H0 H100]. unfold rank.
  assert (Hn : 0 <= inject_Z (Z.of_nat n - 1)).
  { change 0 with (inject_Z 0). rewrite <- Zle_Qle. pose proof length_pos. lia. }
  assert (Hp : 0 <= p / 100 <= 1).
  { split.
    - apply Qle_shift_div_l; lra.
    - apply Qle_shift_div_r; lra. }
  split.
  - apply Qmult_le_0_compat; tauto.
  - rewrite <- (Qmult_1_l (inject_Z (Z.of_nat n - 1))) at 2.
    apply Qmult_le_compat_r; tauto.
Qed.

Lemma floor_ceiling_bounds (x : Q) :
  0 <= x <= inject_Z (Z.of_nat n - 1) ->
  (0 <= Qfloor x <= Qceiling x)%Z /\ (Qceiling x < Z.of_nat n)%Z.
Proof.
  intros [H0 Hn]. repeat split.
  - change 0%Z with (Qfloor 0). now apply Qfloor_resp_le.
  - rewrite Zle_Qle. apply Qle_floor_ceiling.
  - apply Qceiling_resp_le in Hn. rewrite Qceiling_Z in Hn. lia.
Qed.

Lemma percentile_interpolates (p : Q) :
  0 <= p <= 100 ->
  exists a b v,
    CSV.at_index sorted (Qfloor (rank p)) = Some a
    /\ CSV.at_index sorted (Qceiling (rank p)) = Some b
    /\ CSV.percentile sorted p = Some (Fin v)
    /\ v == a + (b - a) * (rank p - inject_Z (Qfloor (rank p)))
    /\ a <= v <= b.
Proof.
  intros Hp.
  destruct (floor_ceiling_bounds (rank_bounds Hp)) as ((Hlo & Hlh) & Hhi).
  set (lo := Qfloor (rank p)) in *. set (hi := Qceiling (rank p)) in *.
  exists (nth (Z.to_nat lo) sorted 0), (nth (Z.to_nat hi) sorted 0).
  assert (Ea : CSV.at_index sorted lo = Some (nth (Z.to_nat lo) sorted 0))
    by (apply at_index_in_range; fold n; lia).
  assert (Eb : CSV.at_index sorted hi = Some (nth (Z.to_nat hi) sorted 0))
    by (apply at_index_in_range; fold n; lia).
  assert (Hab : nth (Z.to_nat lo) sorted 0 <= nth (Z.to_nat hi) sorted 0)
    by (apply sorted_nth; [exact ascending | lia | fold n; lia]).
  assert (Hfrac : 0 <= rank p - inject_Z lo <= 1).
  { pose proof (Qfloor_le (rank p)). pose proof (Qlt_floor (rank p)) as Hlt.
    fold lo in Hlt. rewrite inject_Z_plus in Hlt.
    change (inject_Z 1) with 1 in Hlt. fold lo in H. lra. }
  unfold CSV.percentile. fold n. fold (rank p). fold lo hi.
  destruct (lo =? hi)%Z eqn:E.
  - apply Z.eqb_eq in E. rewrite Ea. cbn [option_map].
    eexists. split; [reflexivity|]. split; [exact Eb|].
    split; [reflexivity|]. rewrite <- E. split; [ring | split; apply Qle_refl].
  - rewrite Ea, Eb.
    eexists. split; [reflexivity|]. split; [reflexivity|].
    split; [reflexivity|]. split; [reflexivity|].
    set (a := nth (Z.to_nat lo) sorted 0) in *.
    set (b := nth (Z.to_nat hi) sorted 0) in *.
    set (t := rank p - inject_Z lo) in *.
    assert (0 <= (b - a) * t) by (apply Qmult_le_0_compat; lra).
    assert ((b - a) * t <= (b - a) * 1)
      by (rewrite !(Qmult_comm (b - a)); apply Qmult_le_compat_r; lra).
    split; lra.
Qed.

Lemma percentile_50_is_median :
  exists v, CSV.percentile sorted 50 = Some (Fin v) /\ v == CSV.median sorted.
Proof.
  destruct (@percentile_interpolates 50) as (a & b & v & Ha & Hb & Hv & Hveq & _);
    [lra|].
  exists v. split; [exact Hv|]. rewrite Hveq. clear Hv Hveq v.
  unfold CSV.median. fold n. pose proof length_pos as Hpos.
  destruct (Nat.even n) eqn:E.
  - apply Nat.even_spec in E. destruct E as [k Hk].
    assert (Hr : rank 50 == inject_Z (Z.of_nat k) - (1 # 2)).
    { unfold rank. rewrite Hk.
      replace (Z.of_nat (2 * k) - 1)%Z with (2 * Z.of_nat k - 1)%Z by lia.
      rewrite inject_Z_pred, inject_Z_mult. change (inject_Z 2) with 2. field. }
    assert (Hf : Qfloor (rank 50) = (Z.of_nat k - 1)%Z).
    { apply Qfloor_unique.
      - rewrite Hr, inject_Z_pred. lra.
      - rewrite Hr. replace (Z.of_nat k - 1 + 1)%Z with (Z.of_nat k) by lia. lra. }
    assert (Hc : Qceiling (rank 50) = Z.of_nat k).
    { apply Qceiling_unique.
      - rewrite Hr, inject_Z_pred. lra.
      - rewrite Hr. lra. }
    rewrite Hf in Ha. rewrite Hc in Hb.
    rewrite at_index_in_range in Ha, Hb by (fold n; lia).
    injection Ha as <-. injection Hb as <-.
    rewrite Hf, Hr, inject_Z_pred.
    replace (n / 2)%nat with k by (rewrite Hk, Nat.mul_comm, Nat.div_mul; lia).
    replace (Z.to_nat (Z.of_nat k - 1)) with (k - 1)%nat by lia.
    rewrite Nat2Z.id. field.
  - assert (Ho : Nat.odd n = true) by (unfold Nat.odd; now rewrite E).
    apply Nat.odd_spec in Ho. destruct Ho as [k Hk].
    assert (Hr : rank 50 == inject_Z (Z.of_nat k)).
    { unfold rank. rewrite Hk.
      replace (Z.of_nat (2 * k + 1) - 1)%Z with (2 * Z.of_nat k)%Z by lia.
      rewrite inject_Z_mult. change (inject_Z 2) with 2. field. }
    assert (Hf : Qfloor (rank 50) = Z.of_nat k).
    { apply Qfloor_unique.
      - rewrite Hr. lra.
      - rewrite Hr, inject_Z_plus. change (inject_Z 1) with 1. lra. }
    rewrite Hf in Ha. rewrite at_index_in_range in Ha by (fold n; lia).
    injection Ha as <-.
    rewrite Hf, Hr, Nat2Z.id.
    replace (n / 2)%nat with k.
    + ring.
    + rewrite Hk. apply Nat.div_unique with 1%nat; lia.
Qed.

Lemma percentile_0_is_first :
  CSV.percentile sorted 0 = Some (Fin (hd 0 sorted)).
Proof.
  assert (Hr : rank 0 == 0) by (unfold rank; field).
  unfold CSV.percentile. fold n. fold (rank 0).
  rewrite (@Qfloor_unique (rank 0) 0), (@Qceiling_unique (rank 0) 0).
  - destruct sorted; [congruence | reflexivity].
  - rewrite Hr. change (inject_Z (0 - 1)) with (-1). lra.
  - rewrite Hr. change (inject_Z 0) with 0. lra.
  - rewrite Hr. change (inject_Z 0) with 0. lra.
  - rewrite Hr. change (inject_Z (0 + 1)) with 1. lra.
Qed.

Lemma percentile_100_is_last :
  CSV.percentile sorted 100 = Some (Fin (last sorted 0)).
Proof.
  pose proof length_pos as Hpos.
  assert (Hr : rank 100 == inject_Z (Z.of_nat n - 1)) by (unfold rank; field).
  unfold CSV.percentile. fold n. fold (rank 100).
  rewrite (@Qfloor_unique (rank 100) (Z.of_nat n - 1)),
          (@Qceiling_unique (rank 100) (Z.of_nat n - 1)).
  - rewrite Z.eqb_refl, at_index_in_range by (fold n; lia). cbn [option_map].
    replace (Z.to_nat (Z.of_nat n - 1)) with (n - 1)%nat by lia.
    unfold n. now rewrite nth_pred_length.
  - rewrite Hr, !inject_Z_pred. lra.
  - rewrite Hr. lra.
  - rewrite Hr. lra.
  - rewrite Hr, inject_Z_plus. change (inject_Z 1) with 1. lra.
Qed.

Lemma first_is_minimum (x : Q) : In x sorted -> hd 0 sorted <= x.
Proof.
  intros Hx. destruct ascending as [|y l _ Hall]; [contradiction|].
  destruct Hx as [<- | Hx]; [apply Qle_refl|].
  rewrite Forall_forall in Hall. now apply Hall.
Qed.

Lemma last_is_maximum (x : Q) : In x sorted -> x <= last sorted 0.
Proof.
  intros Hx. destruct (In_nth _ _ 0 Hx) as (i & Hi & <-).
  rewrite <- nth_pred_length.
  apply sorted_nth; [exact ascending | lia | lia].
Qed.

(** C3. On a non-empty list in ascending order, [percentile] takes the rank
    p/100 x (n-1) and interpolates linearly between the order statistics at
    the floor and the ceiling of that rank, for every p from 0 to 100; the
    50th percentile is the median, the 0th the minimum and the 100th the
    maximum of the list. *)
Theorem percentile_order_statistics :
  (forall p, 0 <= p <= 100 ->
     exists a b v,
       CSV.at_index sorted (Qfloor (rank p)) = Some a
       /\ CSV.at_index sorted (Qceiling (rank p)) = Some b
       /\ CSV.percentile sorted p = Some (Fin v)
       /\ v == a + (b - a) * (rank p - inject_Z (Qfloor (rank p)))
       /\ a <= v <= b)
  /\ (exists v, CSV.percentile sorted 50 = Some (Fin v) /\ v == CSV.median sorted)
  /\ (exists lo, CSV.percentile sorted 0 = Some (Fin lo)
                 /\ In lo sorted /\ forall x, In x sorted -> lo <= x)
  /\ (exists hi, CSV.percentile sorted 100 = Some (Fin hi)
                 /\ In hi sorted /\ forall x, In x sorted -> x <= hi).
Proof.
  split; [exact percentile_interpolates|].
  split; [exact percentile_50_is_median|].
  split.
  - exists (hd 0 sorted). split; [exact percentile_0_is_first|].
    split; [|exact first_is_minimum].
    destruct sorted; [congruence | now left].
  - exists (last sorted 0). split; [exact percentile_100_is_last|].
    split; [|exact last_is_maximum].
    destruct (exists_last nonempty) as (l & x & E). rewrite E, last_last.
    apply in_or_app. right. now left.
Qed.

End Percentile.

Lemma percentile_order_statistics_witness :
  (exists v, CSV.percentile [1; 2; 4; 8] 50 = Some (Fin v) /\ v == 3)
  /\ (exists lo, CSV.percentile [1; 2; 4; 8] 0 = Some (Fin lo) /\ lo == 1)
  /\ (exists hi, CSV.percentile [1; 2; 4; 8] 100 = Some (Fin hi) /\ hi == 8).
Proof.
  assert (Hne : [1; 2; 4; 8] <> []) by discriminate.
  assert (Hs : StronglySorted Qle [1; 2; 4; 8]).
  { repeat constructor; discriminate. }
  destruct (percentile_order_statistics Hne Hs)
    as (_ & (v & Hv & Hm) & (lo & Hlo & _ & _) & (hi & Hhi & _ & _)).
  split; [|split].
  - exists v. split; [exact Hv|]. rewrite Hm. reflexivity.
  - exists lo. split; [exact Hlo|].
    vm_compute in Hlo. injection Hlo as <-. reflexivity.
  - exists hi. split; [exact Hhi|].
    vm_compute in Hhi. injection Hhi as <-. reflexivity.
Defined.

Example percentile_25_of_four :
  exists v, CSV.percentile [1; 2; 4; 8] 25 = Some (Fin v) /\ v == 7 # 4.
Proof. eexists. split; [vm_compute; reflexivity | reflexivity]. Qed.

Example percentile_of_nothing :
  CSV.percentile [] 0 = None
  /\ CSV.percentile [] 50 = Some NaN
  /\ CSV.percentile [1; 2] 150 = Some NaN.
Proof. vm_compute. repeat split. Qed.

(* ================================================================== *)
(** * Seniority inference *)
(* ================================================================== *)

(** ** First match *)

Lemma first_level_Some (rules : list (regex * string)) (title level : string) :
  CSV.first_level rules title = Some level <->
  exists i re,
    nth_error rules i = Some (re, level)
    /\ test re title = true
    /\ forall j re' level',
         (j < i)%nat -> nth_error rules j = Some (re', level') ->
         test re' title = false.
Proof.
  induction rules as [|[re0 l0] rules IH]; simpl.
  - split; [discriminate|]. intros ([|i] & re & H & _); discriminate.
  - destruct (test re0 title) eqn:E.
    + split.
      * intros [= <-]. exists 0%nat, re0. repeat split; auto.
        intros j re' level' Hj. lia.
      * intros (i & re & Hi & Ht & Hbefore). destruct i as [|i].
        -- simpl in Hi. congruence.
        -- specialize (Hbefore 0%nat re0 l0 ltac:(lia) eq_refl). congruence.
    + rewrite IH. split.
      * intros (i & re & Hi & Ht & Hbefore). exists (S i), re.
        repeat split; auto.
        intros [|j] re' level' Hj Hnth; simpl in Hnth.
        -- congruence.
        -- apply (Hbefore j re' level'); [lia | exact Hnth].
      * intros (i & re & Hi & Ht & Hbefore). destruct i as [|i].
        -- simpl in Hi. congruence.
        -- exists i, re. repeat split; auto.
           intros j re' level' Hj Hnth.
           apply (Hbefore (S j) re' level'); [lia | exact Hnth].
Qed.

Lemma first_level_None (rules : list (regex * string)) (title : string) :
  CSV.first_level rules title = None <->
  forall re level, In (re, level) rules -> test re title = false.
Proof.
  induction rules as [|[re0 l0] rules IH]; simpl.
  - split; [intros _ re level [] | reflexivity].
  - destruct (test re0 title) eqn:E.
    + split; [discriminate|]. intros H.
      specialize (H re0 l0 (or_introl eq_refl)). congruence.
    + rewrite IH. split.
      * intros H re level [[= <- <-] | Hin]; [exact E | eauto].
      * intros H re level Hin. apply (H re level). now right.
Qed.

Lemma buildSeniorityDist_skips (l1 l2 : list string) (t : string) :
  CSV.extractSeniority t = None ->
  CSV.buildSeniorityDist (l1 ++ t :: l2) = CSV.buildSeniorityDist (l1 ++ l2).
Proof.
  intros H. unfold CSV.buildSeniorityDist.
  rewrite !fold_left_app. simpl. now rewrite H.
Qed.

(** C6 (as amended). [extractSeniority] applies the ten rules in the order
    Vice President, VP, Director, Principal, Senior Manager (giving
    "Manager"), Senior, Lead, Manager, Associate, Junior, and the first rule
    that matches gives the level.  A title in which the Senior Manager rule
    matches is therefore never classified "Senior", and it is classified
    "Manager" when none of the four rules before it matches.  A title that
    no rule matches has no level and adds nothing to the seniority
    distribution. *)
Theorem seniority_first_match :
  map snd CSV.SENIORITY_PATTERNS
  = ["Vice President"; "VP"; "Director"; "Principal"; "Manager"; "Senior";
     "Lead"; "Manager"; "Associate"; "Junior"]
  /\ (forall title level,
        CSV.extractSeniority title = Some level <->
        exists i re,
          nth_error CSV.SENIORITY_PATTERNS i = Some (re, level)
          /\ test re title = true
          /\ forall j re' level',
               (j < i)%nat ->
               nth_error CSV.SENIORITY_PATTERNS j = Some (re', level') ->
               test re' title = false)
  /\ (forall title,
        CSV.extractSeniority title = None <->
        forall re level,
          In (re, level) CSV.SENIORITY_PATTERNS -> test re title = false)
  /\ (forall title,
        test (word_regex true "Senior Manager") title = true ->
        CSV.extractSeniority title <> Some "Senior"
        /\ (test (word_regex true "Vice President") title = false ->
            test (word_regex false "VP") title = false ->
            test (word_regex true "Director") title = false ->
            test (word_regex true "Principal") title = false ->
            CSV.extractSeniority title = Some "Manager"))
  /\ (forall l1 t l2,
        CSV.extractSeniority t = None ->
        CSV.buildSeniorityDist (l1 ++ t :: l2)
        = CSV.buildSeniorityDist (l1 ++ l2)).
Proof.
  split; [reflexivity|].
  split; [intros; apply first_level_Some|].
  split; [intros; apply first_level_None|].
  split; [|intros; now apply buildSeniorityDist_skips].
  intros title H.
  unfold CSV.extractSeniority, CSV.SENIORITY_PATTERNS. cbn [CSV.first_level].
  split.
  - repeat (match goal with
            | |- context [if test ?re title then _ else _] =>
                destruct (test re title) eqn:?; try discriminate
            end).
  - intros -> -> -> ->. now rewrite H.
Qed.

(** C6 as stated fails: "Senior Managers" contains "Senior Manager" and is
    classified "Senior", the plural not ending at a word boundary; and a
    title that an earlier rule matches takes the level of that rule. *)
Lemma senior_manager_not_always_manager :
  "Senior Managers" = ("Senior Manager" ++ "s")%string
  /\ CSV.extractSeniority "Senior Managers" = Some "Senior"
  /\ test (word_regex true "Senior Manager") "Director, Senior Manager" = true
  /\ CSV.extractSeniority "Director, Senior Manager" = Some "Director".
Proof. vm_compute. repeat split. Qed.

Example seniority_samples :
  CSV.extractSeniority "Senior Manager, Paid Media" = Some "Manager"
  /\ CSV.extractSeniority "senior manager" = Some "Manager"
  /\ CSV.extractSeniority "Senior Software Engineer" = Some "Senior"
  /\ CSV.extractSeniority "Leadership Coach" = None
  /\ CSV.extractSeniority "Software Engineer II" = None
  /\ CSV.extractSeniority "VP of Sales" = Some "VP"
  /\ CSV.extractSeniority "SVP Sales" = None
  /\ CSV.buildSeniorityDist
       ["Senior Manager"; "Software Engineer II"; "Manager"; "VP of Sales"]
     = [("Manager", 2%Z); ("VP", 1%Z)].
Proof. vm_compute. repeat split. Qed.

(** ** Letter case *)

Lemma upper_char_idempotent (c : ascii) :
  upper_char (upper_char c) = upper_char c.
Proof. destruct c as [[] [] [] [] [] [] [] []]; reflexivity. Qed.

Lemma is_word_char_upper (c : ascii) :
  is_word_char (upper_char c) = is_word_char c.
Proof. destruct c as [[] [] [] [] [] [] [] []]; reflexivity. Qed.

Lemma is_word_opt_upper (o : option ascii) :
  is_word_opt (option_map upper_char o) = is_word_opt o.
Proof. destruct o; simpl; [apply is_word_char_upper | reflexivity]. Qed.

Lemma first_char_fold_case (s : string) :
  first_char (fold_case s) = option_map upper_char (first_char s).
Proof. destruct s; reflexivity. Qed.

(** Under the [i] flag the literals and the word boundary see the subject
    only up to letter case. *)
Lemma match_at_ignores_case (w : string) (prev : option ascii) (s : string) :
  match_at (lits true w ++ [WordB])%list prev s
  = match_at (lits true w ++ [WordB])%list (option_map upper_char prev) (fold_case s).
Proof.
  revert prev s. induction w as [|a w IH]; intros prev s.
  - cbn [lits list_ascii_of_string map app match_at].
    now rewrite first_char_fold_case, !is_word_opt_upper.
  - cbn [lits list_ascii_of_string map app lit match_at].
    destruct s as [|c s]; [reflexivity|].
    cbn [fold_case map_string]. rewrite upper_char_idempotent.
    f_equal. apply (IH (Some c) s).
Qed.

Lemma match_at_word_ignores_case (w : string) (prev : option ascii) (s : string) :
  match_at (word_regex true w) prev s
  = match_at (word_regex true w) (option_map upper_char prev) (fold_case s).
Proof.
  unfold word_regex. cbn [match_at].
  rewrite first_char_fold_case, !is_word_opt_upper. f_equal.
  apply match_at_ignores_case.
Qed.

Lemma search_ignores_case (w : string) (prev : option ascii) (s : string) :
  search (word_regex true w) prev s
  = search (word_regex true w) (option_map upper_char prev) (fold_case s).
Proof.
  revert prev. induction s as [|c s IH]; intros prev.
  - cbn [search]. now rewrite (match_at_word_ignores_case w prev "").
  - cbn [search]. rewrite (match_at_word_ignores_case w prev (String c s)).
    cbn [fold_case map_string search]. f_equal. apply (IH (Some c)).
Qed.

Lemma test_ignores_case (w t t' : string) :
  fold_case t = fold_case t' ->
  test (word_regex true w) t = test (word_regex true w) t'.
Proof.
  intros H. unfold test.
  rewrite (search_ignores_case w None t), (search_ignores_case w None t').
  now rewrite H.
Qed.

(** Without the flag the pattern VP needs an upper-case V. *)
Lemma VP_needs_upper_V (t : string) :
  (forall c, In c (list_ascii_of_string t) -> c <> "V"%char) ->
  test (word_regex false "VP") t = false.
Proof.
  unfold test. generalize (@None ascii).
  induction t as [|c t IH]; intros prev H.
  - cbn. now rewrite andb_false_r.
  - cbn [search]. rewrite IH.
    + rewrite orb_false_r. unfold word_regex.
      cbn [lits list_ascii_of_string map app lit match_at].
      replace (Ascii.eqb c "V") with false.
      * now rewrite andb_false_r.
      * symmetry. apply Ascii.eqb_neq. apply H. now left.
    + intros c' Hc'. apply H. now right.
Qed.

(** C10. Every rule but the VP rule matches without regard to letter case;
    the VP rule matches "VP" and not "vp", indeed no title without an
    upper-case V.  So a title with "vp" in lower case that no other rule
    matches has no seniority level, while "vice president" in any letter
    case has the level "Vice President". *)
Theorem vp_rule_alone_case_sensitive :
  (forall re level,
     In (re, level) CSV.SENIORITY_PATTERNS -> level <> "VP" ->
     forall t t', fold_case t = fold_case t' -> test re t = test re t')
  /\ (exists re,
        In (re, "VP") CSV.SENIORITY_PATTERNS
        /\ test re "VP" = true /\ test re "vp" = false
        /\ forall t,
             (forall c, In c (list_ascii_of_string t) -> c <> "V"%char) ->
             test re t = false)
  /\ (forall t,
        (forall c, In c (list_ascii_of_string t) -> c <> "V"%char) ->
        (forall re level,
           In (re, level) CSV.SENIORITY_PATTERNS -> level <> "VP" ->
           test re t = false) ->
        CSV.extractSeniority t = None)
  /\ CSV.extractSeniority "vp" = None
  /\ CSV.extractSeniority "vp of sales" = None
  /\ (forall t,
        fold_case t = fold_case "vice president" ->
        CSV.extractSeniority t = Some "Vice President").
Proof.
  split; [|split; [|split; [|split; [|split]]]].
  - intros re level Hin Hne t t' Ht.
    unfold CSV.SENIORITY_PATTERNS in Hin. simpl in Hin.
    repeat (destruct Hin as [Hin | Hin];
            [ injection Hin as <- <-;
              first [ now apply test_ignores_case | congruence ] | ]).
    contradiction.
  - exists (word_regex false "VP"). split; [simpl; tauto|].
    split; [reflexivity|]. split; [reflexivity|]. exact VP_needs_upper_V.
  - intros t HV Hother. apply first_level_None.
    intros re level Hin.
    destruct (String.eqb level "VP") eqn:E.
    + apply String.eqb_eq in E. subst level.
      unfold CSV.SENIORITY_PATTERNS in Hin. simpl in Hin.
      repeat (destruct Hin as [Hin | Hin];
              [ first [ discriminate Hin
                      | injection Hin as <-; now apply VP_needs_upper_V ] | ]).
      contradiction.
    + apply String.eqb_neq in E. now apply (Hother re level).
  - reflexivity.
  - reflexivity.
  - intros t Ht. unfold CSV.extractSeniority, CSV.SENIORITY_PATTERNS.
    cbn [CSV.first_level].
    rewrite (test_ignores_case "Vice President" t "vice president" Ht).
    reflexivity.
Qed.

(* ================================================================== *)
(** * Subcategory formats *)
(* ================================================================== *)

Lemma existsb_map (A B : Type) (f : A -> B) (g : B -> bool) (l : list A) :
  existsb g (map f l) = existsb (fun x => g (f x)) l.
Proof. induction l as [|x l IH]; simpl; [reflexivity | now rewrite IH]. Qed.

Lemma nonempty_and_existsb (A : Type) (g : A -> bool) (l : list A) :
  (0 <? List.length l)%nat && existsb g l = existsb g l.
Proof. destruct l; reflexivity. Qed.

(** The code is the cascade with the null test first. *)
Lemma detectSubcategoryFormat_cascade (sub : option string) (ids : list string) :
  Phase2.detectSubcategoryFormat sub ids
  = Phase2.first_match Phase2.rules_null_first Phase2.Other sub ids.
Proof.
  destruct sub as [s|]; [|reflexivity].
  unfold Phase2.detectSubcategoryFormat, Phase2.rules_null_first,
    Phase2.weak_rules.
  cbn [Phase2.first_match Phase2.is_null_variant Phase2.is_exact_match
       Phase2.matches Phase2.is_category_part Phase2.extends_category_part].
  destruct (negb (truthy s) || String.eqb s "null" || String.eqb s "None"
            || String.eqb s "N/A"); [reflexivity|].
  destruct (has ids (trim s)); [reflexivity|].
  destruct (test Phase2.re_letter (trim s)); [reflexivity|].
  destruct (test Phase2.re_letter_digit (trim s)); [reflexivity|].
  destruct (test Phase2.re_letter_digit_lower (trim s)); [reflexivity|].
  destruct (test Phase2.re_lower (trim s)); [reflexivity|].
  destruct (existsb _ ids); [reflexivity|].
  now rewrite existsb_new_Set, existsb_map, nonempty_and_existsb.
Qed.

(** C4 (as amended). [detectSubcategoryFormat] evaluates the cascade in the
    order: null, empty, "null", "None" or "N/A" gives "Null / Empty" first;
    then an exact taxonomy match of the trimmed value gives "Correct"; then
    single upper-case letter, letter+digit, letter+digit+lower-case letter,
    single lower-case letter, category part of a subcategory id, proper
    extension of such a category part; else "Other / Unrecognized".  This
    is the stated order, taxonomy match first, for every value that is not
    at once a null variant and a subcategory id of the taxonomy. *)
Theorem subcategory_format_cascade :
  (forall sub ids,
     Phase2.detectSubcategoryFormat sub ids
     = Phase2.first_match Phase2.rules_null_first Phase2.Other sub ids)
  /\ map snd Phase2.rules_null_first
     = [Phase2.Null_Empty; Phase2.Correct; Phase2.Letter_only;
        Phase2.Letter_number; Phase2.Alt_prefix; Phase2.Lowercase_letter;
        Phase2.Category_ID; Phase2.Wrong_prefix]
  /\ (forall sub ids,
        Phase2.is_null_variant sub ids && Phase2.is_exact_match sub ids = false ->
        Phase2.detectSubcategoryFormat sub ids
        = Phase2.first_match Phase2.rules_in_stated_order Phase2.Other sub ids).
Proof.
  split; [exact detectSubcategoryFormat_cascade|]. split; [reflexivity|].
  intros sub ids H. rewrite detectSubcategoryFormat_cascade.
  unfold Phase2.rules_null_first, Phase2.rules_in_stated_order.
  cbn [Phase2.first_match].
  destruct (Phase2.is_null_variant sub ids), (Phase2.is_exact_match sub ids);
    try reflexivity; discriminate.
Qed.

(** C4 as stated fails: with a subcategory whose id is "None" in the
    taxonomy, the value "None" is an exact taxonomy match, and the code
    answers "Null / Empty". *)
Lemma null_test_precedes_taxonomy_match :
  Phase2.first_match Phase2.rules_in_stated_order Phase2.Other
                     (Some "None") ["A1a"; "None"]
  = "Correct (matches taxonomy)"
  /\ Phase2.detectSubcategoryFormat (Some "None") ["A1a"; "None"]
     = "Null / Empty".
Proof. vm_compute. split; reflexivity. Qed.

Example subcategory_format_samples :
  let ids := ["C1a"; "C1b"; "C2a"] in
  Phase2.detectSubcategoryFormat None ids = "Null / Empty"
  /\ Phase2.detectSubcategoryFormat (Some "") ids = "Null / Empty"
  /\ Phase2.detectSubcategoryFormat (Some " C1a ") ids = "Correct (matches taxonomy)"
  /\ Phase2.detectSubcategoryFormat (Some "A") ids = "Letter only (A, B, C)"
  /\ Phase2.detectSubcategoryFormat (Some "B2") ids = "Letter+number (A1, B2)"
  /\ Phase2.detectSubcategoryFormat (Some "B2c") ids = "Alt prefix (A2b, B1a)"
  /\ Phase2.detectSubcategoryFormat (Some "b") ids = "Lowercase letter (a, b, c)"
  /\ Phase2.detectSubcategoryFormat (Some "C1") ids = "Letter+number (A1, B2)"
  /\ Phase2.detectSubcategoryFormat (Some "C1") ["C1a"; "None"] = "Letter+number (A1, B2)"
  /\ Phase2.detectSubcategoryFormat (Some "C10") ["C10a"] = "Category ID as subcategory"
  /\ Phase2.detectSubcategoryFormat (Some "C10x9") ["C10a"] = "Wrong category prefix"
  /\ Phase2.detectSubcategoryFormat (Some "teamwork") ids = "Other / Unrecognized".
Proof. vm_compute. repeat split. Qed.

(* ================================================================== *)
(** * The bias score *)
(* ================================================================== *)

Section BiasScore.

Variable data : Phase2Data.t.
Variable taxonomy : option Taxonomy.t.

Let clf := Phase2Data.classifications data.
Let result := Phase2.processPhase2 data taxonomy.
Let valid := Phase2Analysis.validCategories result.

Let is_valid (k : string) : bool := Phase2.isValidCategory (Some k) valid.

(** The label of the bucket of empty categories is not a category id. *)
Hypothesis empty_label_free : has valid "(empty)" = false.

Lemma bucket_of_valid (k : string) (c : Classification.t) :
  is_valid k = true ->
  String.eqb (Phase2.bucket valid c) k
  = String.eqb (Phase2.trimmed_category c) k.
Proof.
  intros Hk. unfold Phase2.bucket.
  destruct (Phase2.isValidCategory (Some (Phase2.trimmed_category c)) valid);
    [reflexivity|].
  destruct (Phase2.trimmed_category c) as [|a s]; [|reflexivity].
  simpl truthy. cbv iota.
  destruct (String.eqb_spec "(empty)" k) as [<-|_].
  - unfold is_valid, Phase2.isValidCategory in Hk. simpl in Hk.
    change (trim "(empty)") with "(empty)" in Hk. congruence.
  - destruct (String.eqb_spec "" k) as [<-|_]; [|reflexivity].
    discriminate Hk.
Qed.

Lemma bucket_occurrences (k : string) :
  is_valid k = true ->
  Z.of_nat (List.length
    (filter (fun c => String.eqb (Phase2.bucket valid c) k) clf))
  = Phase2.occurrences clf k.
Proof.
  intros Hk. unfold Phase2.occurrences. do 2 f_equal.
  apply filter_ext. intros c. now apply bucket_of_valid.
Qed.

Let catCounts : dict Z :=
  fold_left (fun counts c => bump counts (Phase2.bucket valid c)) clf [].

Let row (e : string * Z) : CategoryCount.t :=
  let '(category, count) := e in
  {| CategoryCount.category := category;
     CategoryCount.count := count;
     CategoryCount.pct := Phase2.percent_of count (List.length clf);
     CategoryCount.isValid := Phase2.isValidCategory (Some category) valid |}.

Lemma top_category :
  hd_error (filter CategoryCount.isValid
              (Phase2Analysis.categoryDistribution result))
  = hd_error (filter CategoryCount.isValid
                (sort_by Phase2.by_category_count_desc
                         (map row (entries catCounts)))).
Proof. reflexivity. Qed.

Lemma row_of_valid (k : string) :
  is_valid k = true -> (0 < Phase2.occurrences clf k)%Z ->
  In (row (k, Phase2.occurrences clf k)) (map row (entries catCounts))
  /\ CategoryCount.isValid (row (k, Phase2.occurrences clf k)) = true.
Proof.
  intros Hk Hpos. split; [|exact Hk].
  apply in_map. unfold catCounts. apply tally_entry.
  rewrite bucket_occurrences by exact Hk. split; [reflexivity | exact Hpos].
Qed.

Lemma valid_row (t : CategoryCount.t) :
  In t (map row (entries catCounts)) -> CategoryCount.isValid t = true ->
  is_valid (CategoryCount.category t) = true
  /\ CategoryCount.count t = Phase2.occurrences clf (CategoryCount.category t)
  /\ (0 < CategoryCount.count t)%Z.
Proof.
  intros Hin Hv. apply in_map_iff in Hin. destruct Hin as ([k n] & <- & Hin).
  simpl in *. unfold catCounts in Hin. apply tally_entry in Hin.
  destruct Hin as [Hn Hpos]. split; [exact Hv|].
  rewrite <- bucket_occurrences by exact Hv. auto.
Qed.

Hypothesis some_valid :
  exists c, In c clf /\ is_valid (Phase2.trimmed_category c) = true.

Lemma occurrences_pos (c : Classification.t) :
  In c clf -> (0 < Phase2.occurrences clf (Phase2.trimmed_category c))%Z.
Proof.
  intros Hc. unfold Phase2.occurrences.
  assert (H : In c (filter (fun c' => String.eqb (Phase2.trimmed_category c')
                                        (Phase2.trimmed_category c)) clf)).
  { apply filter_In. split; [exact Hc | apply String.eqb_refl]. }
  destruct (filter _ clf); [contradiction | simpl; lia].
Qed.



End BiasScore.


(** The scenario of the specification: with the categories A and B and ten
    classifications, all A, the bias score is 100. *)
Example bias_of_ten_A :
  Phase2Analysis.c4BiasScore
    (Phase2.processPhase2 Sample.ten_A (Some Sample.taxonomy_AB))
  = Fin (1000 # 10)
  /\ Phase2Analysis.biasCategory
       (Phase2.processPhase2 Sample.ten_A (Some Sample.taxonomy_AB)) = "A".
Proof. vm_compute. split; reflexivity. Qed.


(* ================================================================== *)
(** * Interaction pairs *)
(* ================================================================== *)

(** C9. For every list of rows, the number of bidirectional pairs reported
    by [processCSVToRawData] is at most half the number of unique pairs,
    rounded down. *)
Theorem bidirectional_pairs_bound (rows : list CsvRow.t) :
  let i := RawData.interactions (CSV.processCSVToRawData rows) in
  (0 <= Interactions.bidirectional_pairs i
   <= Interactions.unique_pairs i / 2)%Z.
Proof.
  cbn [CSV.processCSVToRawData RawData.interactions
       Interactions.bidirectional_pairs Interactions.unique_pairs].
  split.
  - apply Z.div_pos; lia.
  - apply Z.div_le_mono; [lia|].
    apply inj_le, filter_length_le.
Qed.

(** The scenario of the specification: two titles recognising each other
    make two unique pairs, one bidirectional pair and no self-recognition. *)
Example two_rows_interactions :
  let i := RawData.interactions (CSV.processCSVToRawData Sample.two_rows) in
  Interactions.unique_pairs i = 2%Z
  /\ Interactions.bidirectional_pairs i = 1%Z
  /\ Interactions.self_recognition_count i = 0%Z
  /\ Interactions.total_interactions i = 2%Z.
Proof. vm_compute. repeat split. Qed.

Example ten_rows_interactions :
  let i := RawData.interactions (CSV.processCSVToRawData Sample.ten_rows) in
  Interactions.unique_pairs i = 10%Z
  /\ Interactions.bidirectional_pairs i = 0%Z
  /\ Interactions.self_recognition_count i = 1%Z
  /\ Interactions.unique_recipients i = 10%Z
  /\ Interactions.unique_nominators i = 10%Z.
Proof. vm_compute. repeat split. Qed.

(** ** What the bidirectional count counts *)

Import InteractionPair.

Lemma count_pair_recorded (d : dict InteractionPair.t)
      (seen : list (string * string)) (row : CsvRow.t) :
  CSV.pairs_recorded d seen ->
  CSV.pairs_recorded (CSV.count_pair d row)
                 (seen ++ match CSV.pair_of_row row with
                          | Some p => [p]
                          | None => []
                          end).
Proof.
  intros [Hkeys Hseen]. unfold CSV.count_pair, CSV.pair_of_row.
  unfold CSV.pairs_recorded.
  set (nom := trim (CsvRow.nominator_title row)).
  set (recip := trim (CsvRow.recipient_title row)).
  destruct (negb (truthy nom) || negb (truthy recip)).
  - rewrite app_nil_r. now split.
  - split.
    + intros k p. rewrite get_set.
      destruct (String.eqb_spec k (CSV.pairKey nom recip)) as [->|Hk].
      * intros [= <-]. unfold CSV.pair_of. cbn [nominator recipient].
        destruct (get d (CSV.pairKey nom recip)) as [p0|] eqn:E.
        -- destruct (Hkeys _ _ E) as [Hk Hin]. split; [exact Hk|].
           apply in_or_app. now left.
        -- cbn [nominator recipient]. split; [reflexivity|].
           apply in_or_app. right. now left.
      * intros Hget. destruct (Hkeys _ _ Hget) as [Hk' Hin].
        split; [exact Hk'|]. apply in_or_app. now left.
    + intros q Hq. rewrite get_set.
      destruct (String.eqb_spec (CSV.key_of q) (CSV.pairKey nom recip))
        as [_|Hne]; [discriminate|].
      apply in_app_or in Hq. destruct Hq as [Hq | [<- | []]].
      * now apply Hseen.
      * now contradiction Hne.
Qed.

Lemma count_pairs_recorded (rows : list CsvRow.t)
      (d : dict InteractionPair.t) (seen : list (string * string)) :
  CSV.pairs_recorded d seen ->
  CSV.pairs_recorded (fold_left CSV.count_pair rows d)
                 (seen ++ CSV.directed_pairs rows).
Proof.
  revert d seen. induction rows as [|row rows IH]; intros d seen H.
  - simpl. now rewrite app_nil_r.
  - simpl. rewrite app_assoc. apply IH. now apply count_pair_recorded.
Qed.

Lemma count_pairs_keys_NoDup (rows : list CsvRow.t)
      (d : dict InteractionPair.t) :
  NoDup (map fst d) -> NoDup (map fst (fold_left CSV.count_pair rows d)).
Proof.
  revert d. induction rows as [|row rows IH]; intros d H; simpl; [exact H|].
  apply IH. unfold CSV.count_pair.
  destruct (negb _ || negb _); [exact H | now apply set_keys_NoDup].
Qed.

Lemma NoDup_map_filter (A B : Type) (g : A -> B) (f : A -> bool) (l : list A) :
  NoDup (map g l) -> NoDup (map g (filter f l)).
Proof.
  induction l as [|x l IH]; simpl; intros H; [constructor|].
  inversion H as [|? ? Hnot Hnd]; subst.
  destruct (f x); simpl; [|now apply IH].
  constructor; [|now apply IH].
  intros Hin. apply Hnot. apply in_map_iff in Hin.
  destruct Hin as (y & Hy & Hin). apply filter_In in Hin.
  rewrite <- Hy. apply in_map. tauto.
Qed.

Lemma swap_NoDup (l : list (string * string)) :
  NoDup l -> NoDup (map CSV.swap l).
Proof.
  induction 1 as [|p l Hnot Hnd IH]; simpl; constructor; [|exact IH].
  intros Hin. apply in_map_iff in Hin. destruct Hin as (q & Hq & Hin).
  destruct p, q. unfold CSV.swap in Hq. simpl in Hq.
  injection Hq as -> ->. contradiction.
Qed.

Lemma string_ltb_irrefl (a : string) : String.ltb a a = false.
Proof.
  unfold String.ltb. pose proof (String.compare_antisym a a) as H.
  destruct (String.compare a a); simpl in H; congruence.
Qed.

Lemma string_ltb_total (a b : string) :
  a <> b -> String.ltb a b = negb (String.ltb b a).
Proof.
  intros Hne. unfold String.ltb. rewrite (String.compare_antisym a b).
  destruct (String.compare b a) eqn:E; try reflexivity.
  apply String.compare_eq_iff in E. congruence.
Qed.

(** In a duplicate-free list of pairs closed under reversal and without a
    pair (a, a), half of the pairs have their first component before the
    second. *)
Lemma half_are_ascending (l : list (string * string)) :
  NoDup l ->
  (forall p, In p l -> In (CSV.swap p) l /\ fst p <> snd p) ->
  List.length l
  = (2 * List.length (filter (fun p => String.ltb (fst p) (snd p)) l))%nat.
Proof.
  intros Hnd Hclosed.
  set (asc := fun p : string * string => String.ltb (fst p) (snd p)).
  rewrite <- (Permutation_length (filter_split_Permutation asc l)) at 1.
  rewrite length_app.
  assert (Hperm : Permutation (filter (fun p => negb (asc p)) l)
                              (map CSV.swap (filter asc l))).
  { apply NoDup_Permutation.
    - now apply NoDup_filter.
    - now apply swap_NoDup, NoDup_filter.
    - intros [a b]. rewrite filter_In, in_map_iff. split.
      + intros [Hin Hasc]. exists (b, a). split; [reflexivity|].
        apply filter_In. destruct (Hclosed _ Hin) as [Hswap Hne].
        split; [exact Hswap|]. unfold asc in *. simpl in *.
        rewrite (string_ltb_total Hne) in Hasc.
        now destruct (String.ltb b a).
      + intros ([c d] & [= <- <-] & Hin). apply filter_In in Hin.
        destruct Hin as [Hin Hasc]. destruct (Hclosed _ Hin) as [Hswap Hne].
        split; [exact Hswap|]. unfold asc in *. simpl in *.
        rewrite string_ltb_total by congruence. now rewrite Hasc. }
  rewrite (Permutation_length Hperm), length_map. lia.
Qed.

(** When [pairKey] tells the pairs of the rows and their reverses apart,
    [bidirectional_pairs] is the number of reciprocal unordered pairs: each
    is counted once. *)
Lemma reciprocal_pairs_counted_once (rows : list CsvRow.t) :
  CSV.keys_distinct rows ->
  exists l : list (string * string),
    NoDup l
    /\ (forall p, In p l <-> CSV.reciprocal rows p)
    /\ Interactions.bidirectional_pairs
         (RawData.interactions (CSV.processCSVToRawData rows))
       = Z.of_nat (List.length l).
Proof.
  intros Hdistinct.
  set (d := fold_left CSV.count_pair rows []).
  set (dp := CSV.directed_pairs rows) in *.
  assert (Hrec : CSV.pairs_recorded d ([] ++ dp)).
  { apply count_pairs_recorded. split; [discriminate | intros q []]. }
  simpl in Hrec. destruct Hrec as [Hkeys Hseen].
  assert (Hnd : NoDup (map fst d)) by (apply count_pairs_keys_NoDup; constructor).
  assert (Hentry : forall k p, In (k, p) (entries d) ->
                     k = CSV.key_of (CSV.pair_of p) /\ In (CSV.pair_of p) dp).
  { intros k p Hin. rewrite entries_In in Hin. apply Hkeys.
    now apply In_get. }
  (* every pair of the rows has its entry *)
  assert (Hhas : forall q, In q dp ->
                   exists p, In p (values d) /\ CSV.pair_of p = q).
  { intros q Hq. destruct (get d (CSV.key_of q)) as [p|] eqn:E;
      [|now apply Hseen in Hq].
    destruct (Hkeys _ _ E) as [Hk Hin].
    exists p. split.
    - unfold values. apply in_map_iff. exists (CSV.key_of q, p).
      split; [reflexivity|]. rewrite entries_In. now apply get_In.
    - symmetry. apply Hdistinct; try (apply in_or_app; now left). exact Hk. }
  (* the pairs of the entries are distinct *)
  assert (Hpairs : NoDup (map CSV.pair_of (values d))).
  { apply (NoDup_map_inv CSV.key_of). unfold values. rewrite !map_map.
    rewrite (map_ext_in _ fst).
    - apply (Permutation_NoDup
               (Permutation_map fst (Permutation_sym (entries_Permutation d)))).
      exact Hnd.
    - intros [k p] Hin. simpl. symmetry. now apply Hentry. }
  (* what the test of the loop decides *)
  assert (Htest : forall p, In p (values d) ->
            (CSV.has_reverse (new_Set (keys d)) p = true
             <-> In (CSV.swap (CSV.pair_of p)) dp /\ nominator p <> recipient p)).
  { intros p Hp. unfold values in Hp. apply in_map_iff in Hp.
    destruct Hp as ([k p'] & Hsnd & Hin). simpl in Hsnd. subst p'.
    destruct (Hentry _ _ Hin) as [_ Hpdp].
    unfold CSV.has_reverse, CSV.is_self.
    rewrite andb_true_iff, negb_true_iff, has_In, new_Set_In.
    rewrite (String.eqb_neq (nominator p) (recipient p)).
    apply and_iff_compat_r. unfold keys. rewrite in_map_iff. split.
    - intros ([k' q] & Hk' & Hq). simpl in Hk'.
      destruct (Hentry _ _ Hq) as [Hkq Hqdp].
      assert (E : CSV.swap (CSV.pair_of p) = CSV.pair_of q).
      { apply Hdistinct.
        - apply in_or_app. right. now apply in_map.
        - apply in_or_app. now left.
        - rewrite <- Hkq, Hk'. reflexivity. }
      now rewrite E.
    - intros Hswap. destruct (Hhas _ Hswap) as (q & Hq & Hpq).
      unfold values in Hq. apply in_map_iff in Hq.
      destruct Hq as ([k' q'] & Hsnd & Hq). simpl in Hsnd. subst q'.
      exists (k', q). split; [|exact Hq]. simpl.
      destruct (Hentry _ _ Hq) as [-> _]. now rewrite Hpq. }
  set (R := map CSV.pair_of (filter (CSV.has_reverse (new_Set (keys d))) (values d))).
  assert (HR : forall q, In q R <->
                 In q dp /\ In (CSV.swap q) dp /\ fst q <> snd q).
  { intros q. unfold R. rewrite in_map_iff. split.
    - intros (p & <- & Hp). apply filter_In in Hp. destruct Hp as [Hp Ht].
      apply (Htest p Hp) in Ht. destruct Ht as [Hswap Hne].
      unfold values in Hp. apply in_map_iff in Hp.
      destruct Hp as ([k p'] & Hsnd & Hin). simpl in Hsnd. subst p'.
      destruct (Hentry _ _ Hin) as [_ Hpdp]. auto.
    - intros (Hq & Hswap & Hne). destruct (Hhas _ Hq) as (p & Hp & <-).
      exists p. split; [reflexivity|]. apply filter_In. split; [exact Hp|].
      apply (Htest p Hp). auto. }
  exists (filter (fun p => String.ltb (fst p) (snd p)) R).
  assert (HRnd : NoDup R) by (unfold R; now apply NoDup_map_filter).
  split; [now apply NoDup_filter|]. split.
  - intros q. rewrite filter_In, HR. unfold CSV.reciprocal. fold dp. split.
    + tauto.
    + intros (Hlt & Hq & Hswap). repeat split; auto.
      intros E. rewrite E, string_ltb_irrefl in Hlt. discriminate.
  - cbn [CSV.processCSVToRawData RawData.interactions
         Interactions.bidirectional_pairs].
    fold d. rewrite <- (length_map CSV.pair_of). fold R.
    rewrite (half_are_ascending HRnd).
    + rewrite Nat2Z.inj_mul, Z.mul_comm. now apply Z.div_mul.
    + intros q Hq. apply HR in Hq. destruct Hq as (Hq & Hswap & Hne).
      split; [|exact Hne]. apply HR. destruct q as [a b]. simpl in *. auto.
Qed.

Example two_rows_reciprocal :
  CSV.keys_distinct Sample.two_rows
  /\ CSV.reciprocal Sample.two_rows ("Eng I", "Eng II").
Proof.
  split.
  - intros p q Hp Hq. simpl in Hp, Hq.
    repeat (destruct Hp as [<- | Hp]; [|]); try contradiction;
      repeat (destruct Hq as [<- | Hq]; [|]); try contradiction;
      vm_compute; intros; congruence.
  - vm_compute. repeat split; auto.
Qed.

(* ================================================================== *)
(** * Alignment of categories across runs *)
(* ================================================================== *)

(** C8, on two runs whose category names differ only in letter case and
    surrounding white space: the taxonomy diff has one row for the two
    names, present in both runs; the category-overlap table has a row for
    each spelling, each counted in one run only. *)
Theorem overlap_rows_split_by_spelling :
  let runs := [Sample.run_baseline; Sample.run_refined] in
  Comparison.normalized "Teamwork" = Comparison.normalized " teamwork "
  /\ Comparison.computeTaxonomyDiff runs
     = [ {| TaxonomyDiff.categoryId := "";
            TaxonomyDiff.categoryName := "Teamwork";
            TaxonomyDiff.presentIn := ["baseline"; "refined"];
            TaxonomyDiff.missingFrom := [] |} ]
  /\ Comparison.computeCategoryOverlap runs
     = [ {| CategoryOverlap.category := "Teamwork";
            CategoryOverlap.pipelines := [("baseline", 2%Z); ("refined", 0%Z)] |};
         {| CategoryOverlap.category := " teamwork ";
            CategoryOverlap.pipelines := [("baseline", 0%Z); ("refined", 2%Z)] |} ].
Proof. vm_compute. repeat split. Qed.

(** ** The taxonomy diff aligns by normalized name *)

Import Comparison.

Lemma note_category_keeps (runName : string) (cat : Category.t)
      (catMap : dict (string * list string)) (key rn : string) :
  noted catMap key rn ->
  noted (Comparison.note_category runName catMap cat) key rn.
Proof.
  intros (name & p & Hget & Hin). unfold noted, Comparison.note_category.
  destruct (get catMap (trim (toLowerCase (Category.name cat))))
    as [[name0 p0]|] eqn:E; rewrite get_set;
    destruct (String.eqb_spec key (trim (toLowerCase (Category.name cat))))
      as [->|Hne]; try (exists name, p; now split).
  - rewrite E in Hget. injection Hget as -> ->.
    exists name, (set_add p runName). split; [reflexivity|].
    apply set_add_In. now left.
  - congruence.
Qed.

Lemma note_category_notes (runName : string) (cat : Category.t)
      (catMap : dict (string * list string)) :
  noted (Comparison.note_category runName catMap cat)
        (Comparison.normalized (Category.name cat)) runName.
Proof.
  unfold noted, Comparison.note_category, Comparison.normalized.
  destruct (get catMap (trim (toLowerCase (Category.name cat))))
    as [[name0 p0]|]; rewrite get_set, String.eqb_refl;
    eexists; eexists; (split; [reflexivity|]); apply set_add_In; now right.
Qed.

Lemma note_categories_keep (runName : string) (cats : list Category.t)
      (catMap : dict (string * list string)) (key rn : string) :
  noted catMap key rn ->
  noted (fold_left (Comparison.note_category runName) cats catMap) key rn.
Proof.
  revert catMap. induction cats as [|c cats IH]; intros catMap H; simpl.
  - exact H.
  - apply IH. now apply note_category_keeps.
Qed.

Lemma note_categories_note (runName : string) (cats : list Category.t)
      (catMap : dict (string * list string)) (cat : Category.t) :
  In cat cats ->
  noted (fold_left (Comparison.note_category runName) cats catMap)
        (Comparison.normalized (Category.name cat)) runName.
Proof.
  revert catMap. induction cats as [|c cats IH]; intros catMap Hin;
    [contradiction|].
  destruct Hin as [<- | Hin]; simpl.
  - apply note_categories_keep, note_category_notes.
  - now apply IH.
Qed.

Lemma note_run_keeps (run : PipelineRun.t)
      (catMap : dict (string * list string)) (key rn : string) :
  noted catMap key rn -> noted (Comparison.note_run catMap run) key rn.
Proof.
  intros H. unfold Comparison.note_run.
  destruct (PipelineRun.taxonomy run); [|exact H].
  now apply note_categories_keep.
Qed.

Lemma note_runs_keep (runs : list PipelineRun.t)
      (catMap : dict (string * list string)) (key rn : string) :
  noted catMap key rn -> noted (fold_left Comparison.note_run runs catMap) key rn.
Proof.
  revert catMap. induction runs as [|r runs IH]; intros catMap H; simpl.
  - exact H.
  - apply IH. now apply note_run_keeps.
Qed.

Lemma note_runs_note (runs : list PipelineRun.t)
      (catMap : dict (string * list string))
      (run : PipelineRun.t) (t : Taxonomy.t) (cat : Category.t) :
  In run runs -> PipelineRun.taxonomy run = Some t ->
  In cat (Taxonomy.categories t) ->
  noted (fold_left Comparison.note_run runs catMap)
        (Comparison.normalized (Category.name cat)) (PipelineRun.name run).
Proof.
  revert catMap. induction runs as [|r runs IH]; intros catMap Hin Ht Hc;
    [contradiction|].
  destruct Hin as [<- | Hin]; simpl.
  - apply note_runs_keep. unfold Comparison.note_run. rewrite Ht.
    now apply note_categories_note.
  - now apply IH.
Qed.

(** Two categories whose names agree once put in lower case and trimmed
    share a row of the taxonomy diff, and that row lists both their runs as
    possessing the category. *)
Lemma taxonomy_diff_aligns_by_normalized_name
      (runs : list PipelineRun.t) (r1 r2 : PipelineRun.t)
      (t1 t2 : Taxonomy.t) (c1 c2 : Category.t) :
  In r1 runs -> PipelineRun.taxonomy r1 = Some t1 ->
  In c1 (Taxonomy.categories t1) ->
  In r2 runs -> PipelineRun.taxonomy r2 = Some t2 ->
  In c2 (Taxonomy.categories t2) ->
  Comparison.normalized (Category.name c1)
  = Comparison.normalized (Category.name c2) ->
  exists row,
    In row (Comparison.computeTaxonomyDiff runs)
    /\ In (PipelineRun.name r1) (TaxonomyDiff.presentIn row)
    /\ In (PipelineRun.name r2) (TaxonomyDiff.presentIn row)
    /\ ~ In (PipelineRun.name r1) (TaxonomyDiff.missingFrom row)
    /\ ~ In (PipelineRun.name r2) (TaxonomyDiff.missingFrom row).
Proof.
  intros Hr1 Ht1 Hc1 Hr2 Ht2 Hc2 Hkey.
  destruct (note_runs_note runs [] r1 c1 Hr1 Ht1 Hc1) as (name & p & Hget & Hin1).
  destruct (note_runs_note runs [] r2 c2 Hr2 Ht2 Hc2) as (name' & p' & Hget' & Hin2).
  rewrite <- Hkey, Hget in Hget'. injection Hget' as <- <-.
  exists {| TaxonomyDiff.categoryId := "";
            TaxonomyDiff.categoryName := name;
            TaxonomyDiff.presentIn := p;
            TaxonomyDiff.missingFrom :=
              filter (fun q => negb (has p q)) (map PipelineRun.name runs) |}.
  split; [|split; [exact Hin1 | split; [exact Hin2 | split]]].
  - unfold Comparison.computeTaxonomyDiff.
    apply (Permutation_in _ (Permutation_sym (sort_by_Permutation _ _))).
    apply in_map_iff. exists (name, p). split; [reflexivity|].
    unfold values. apply in_map_iff.
    exists (Comparison.normalized (Category.name c1), (name, p)).
    split; [reflexivity|]. apply entries_In. now apply get_In.
  - cbn [TaxonomyDiff.missingFrom]. rewrite filter_In.
    intros [_ H]. apply has_In in Hin1. now rewrite Hin1 in H.
  - cbn [TaxonomyDiff.missingFrom]. rewrite filter_In.
    intros [_ H]. apply has_In in Hin2. now rewrite Hin2 in H.
Qed.

(* ================================================================== *)
(** * Frequency tables *)
(* ================================================================== *)

Lemma fold_left_when (A B : Type) (p : B -> bool) (f : A -> B -> A)
      (l : list B) (a : A) :
  fold_left (fun acc x => if p x then f acc x else acc) l a
  = fold_left f (filter p l) a.
Proof.
  revert a. induction l as [|x l IH]; intros a; simpl; [reflexivity|].
  destruct (p x); simpl; apply IH.
Qed.

Lemma filter_filter (A : Type) (p q : A -> bool) (l : list A) :
  filter q (filter p l) = filter (fun x => p x && q x) l.
Proof.
  induction l as [|x l IH]; simpl; [reflexivity|].
  destruct (p x); simpl; [destruct (q x)|]; now rewrite IH.
Qed.

Lemma total_of_Permutation (l l' : list (string * Z)) :
  Permutation l l' -> total_of l = total_of l'.
Proof.
  unfold total_of. induction 1; simpl; lia.
Qed.

Lemma total_of_entries (d : dict Z) : total_of (entries d) = total_of d.
Proof. apply total_of_Permutation, entries_Permutation. Qed.

Lemma total_of_app (l l' : list (string * Z)) :
  total_of (l ++ l') = (total_of l + total_of l')%Z.
Proof. unfold total_of. induction l; simpl; lia. Qed.

Lemma total_of_set (d : dict Z) (k : string) (v : Z) :
  total_of (set d k v) = (total_of d - get_or_0 d k + v)%Z.
Proof.
  unfold total_of, get_or_0. induction d as [|[k0 v0] d IH]; simpl.
  - lia.
  - destruct (String.eqb k k0); simpl; lia.
Qed.

Lemma total_of_bump (d : dict Z) (k : string) :
  total_of (bump d k) = (total_of d + 1)%Z.
Proof. unfold bump. rewrite total_of_set. unfold get_or_0. lia. Qed.

Lemma set_length (V : Type) (d : dict V) (k : string) (v : V) :
  (List.length d <= List.length (set d k v) <= S (List.length d))%nat.
Proof.
  induction d as [|[k0 v0] d IH]; simpl; [lia|].
  destruct (String.eqb k k0); simpl; lia.
Qed.

Section TallyTotals.

Variable A : Type.
Variable key : A -> string.

Lemma tally_total (l : list A) (d : dict Z) :
  total_of (fold_left (fun counts c => bump counts (key c)) l d)
  = (total_of d + Z.of_nat (List.length l))%Z.
Proof.
  revert d. induction l as [|c l IH]; intros d; simpl fold_left.
  - simpl. lia.
  - rewrite IH, total_of_bump. simpl List.length. lia.
Qed.

Lemma tally_length (l : list A) (d : dict Z) :
  (List.length (fold_left (fun counts c => bump counts (key c)) l d)
   <= List.length d + List.length l)%nat.
Proof.
  revert d. induction l as [|c l IH]; intros d; simpl fold_left.
  - simpl. lia.
  - specialize (IH (bump d (key c))). unfold bump in *.
    pose proof (set_length d (key c)
      (match get d (key c) with Some n => n | None => 0 end + 1)%Z).
    simpl List.length. lia.
Qed.

Lemma bump_nonempty (d : dict Z) (k : string) : bump d k <> [].
Proof.
  unfold bump. destruct d as [|[k0 v0] d]; simpl; [discriminate|].
  destruct (String.eqb k k0); discriminate.
Qed.

Lemma tally_keeps_nonempty (l : list A) (d : dict Z) :
  d <> [] -> fold_left (fun counts c => bump counts (key c)) l d <> [].
Proof.
  revert d. induction l as [|c l IH]; intros d H; simpl; [exact H|].
  apply IH, bump_nonempty.
Qed.

Lemma tally_nonempty (l : list A) (d : dict Z) :
  l <> [] -> fold_left (fun counts c => bump counts (key c)) l d <> [].
Proof.
  destruct l as [|c l]; [congruence|]. intros _. simpl.
  apply tally_keeps_nonempty, bump_nonempty.
Qed.

End TallyTotals.

(** [countValues] is the tally of the trimmed non-blank values. *)
Lemma countValues_tally (values : list string) :
  CSV.countValues values
  = fold_left (fun counts v => bump counts (trim v))
              (filter (fun v => truthy (trim v)) values) [].
Proof.
  unfold CSV.countValues.
  apply (fold_left_when (fun v => truthy (trim v))
                        (fun (counts : dict Z) v => bump counts (trim v))).
Qed.

(** X1. When no value names a member inherited from [Object.prototype],
    [countValues] files each value under its trimmed form and counts
    exactly the values of that form: a key is present when some value has
    that non-empty trimmed form, with the number of such values; the counts
    add up to the number of non-blank values. *)
Theorem countValues_counts (values : list string) :
  plain_values values = true ->
  (forall k,
     get (CSV.countValues values) k
     = if (times k values =? 0)%Z then None else Some (times k values))
  /\ NoDup (keys (CSV.countValues values))
  /\ (forall k, In k (keys (CSV.countValues values)) ->
                truthy k = true /\ exists v, In v values /\ trim v = k)
  /\ total_of (entries (CSV.countValues values))
     = count_if (fun v => truthy (trim v)) values.
Proof.
  intros _.
  assert (Hget : forall k,
     get (CSV.countValues values) k
     = if (times k values =? 0)%Z then None else Some (times k values)).
  { intros k. rewrite countValues_tally, tally_get. simpl get.
    unfold times, count_if. now rewrite filter_filter. }
  assert (Hnd : NoDup (map fst (CSV.countValues values))).
  { rewrite countValues_tally. apply tally_keys_NoDup. constructor. }
  split; [exact Hget|]. split; [|split].
  - unfold keys.
    apply (Permutation_NoDup
             (Permutation_map fst (Permutation_sym (entries_Permutation _)))).
    exact Hnd.
  - intros k Hk. unfold keys in Hk. apply in_map_iff in Hk.
    destruct Hk as ([k' n] & Hfst & Hin). simpl in Hfst. subst k'.
    rewrite entries_In in Hin. apply (In_get _ _ _ Hnd) in Hin.
    rewrite Hget in Hin.
    destruct (times k values =? 0)%Z eqn:E; [discriminate|].
    apply Z.eqb_neq in E. unfold times, count_if in E.
    destruct (filter _ values) as [|v rest] eqn:F; [simpl in E; lia|].
    assert (Hv : In v (filter (fun v => truthy (trim v) && String.eqb (trim v) k)
                              values)) by (rewrite F; now left).
    apply filter_In in Hv. destruct Hv as [Hv Ht].
    apply andb_true_iff in Ht. destruct Ht as [Ht He].
    apply String.eqb_eq in He. subst k. eauto.
  - rewrite total_of_entries, countValues_tally, tally_total.
    unfold count_if, total_of. simpl. lia.
Qed.

Lemma countValues_counts_witness :
  get (CSV.countValues [" Analyst"; "Engineer "; ""; "Analyst"]) "Analyst"
  = Some 2%Z
  /\ total_of (entries (CSV.countValues [" Analyst"; "Engineer "; ""; "Analyst"]))
     = 3%Z.
Proof.
  destruct (@countValues_counts [" Analyst"; "Engineer "; ""; "Analyst"] eq_refl)
    as (Hget & _ & _ & Htotal).
  split; [exact (Hget "Analyst") | exact Htotal].
Defined.

(* ------------------------------------------------------------------ *)
(** ** Ranking *)

Lemma sorted_app_inv (A : Type) (R : A -> A -> Prop) (l1 l2 : list A) :
  StronglySorted R (l1 ++ l2) ->
  StronglySorted R l1 /\ StronglySorted R l2
  /\ forall a b, In a l1 -> In b l2 -> R a b.
Proof.
  induction l1 as [|x l1 IH]; simpl; intros H.
  - repeat split; [constructor | exact H | intros a b []].
  - inversion H as [|? ? Hs Hall]; subst.
    destruct (IH Hs) as (H1 & H2 & H12). rewrite Forall_forall in Hall.
    split; [|split; [exact H2|]].
    + constructor; [exact H1|]. rewrite Forall_forall. intros y Hy.
      apply Hall, in_or_app. now left.
    + intros a b [<- | Ha] Hb; [|now apply H12].
      apply Hall, in_or_app. now right.
Qed.

(** The first [n] elements of a list sorted by descending key: they are
    sorted, and none of the others has a larger key than one of them. *)
Lemma firstn_of_sorted (A : Type) (key : A -> Z) (before : A -> A -> bool)
      (l : list A) (n : nat) :
  (forall a b, before a b = (key b <? key a)%Z) ->
  let top := firstn n (sort_by before l) in
  List.length top = Nat.min n (List.length l)
  /\ StronglySorted (fun a b => (key b <= key a)%Z) top
  /\ exists rest,
       Permutation l (top ++ rest)
       /\ forall a b, In a top -> In b rest -> (key b <= key a)%Z.
Proof.
  intros Hkey top.
  pose proof (sort_by_descending key before Hkey l) as Hs.
  pose proof (sort_by_Permutation before l) as Hp.
  rewrite <- (firstn_skipn n (sort_by before l)) in Hs, Hp.
  fold top in Hs, Hp.
  destruct (@sorted_app_inv _ _ _ _ Hs) as (H1 & _ & H12).
  split; [|split; [exact H1|]].
  - unfold top. rewrite length_firstn.
    now rewrite (Permutation_length (sort_by_Permutation before l)).
  - exists (skipn n (sort_by before l)). split; [now symmetry | exact H12].
Qed.

(** X2. [topN(counter, n)] returns min(n, size) entries of the counter in
    descending order of count, and no entry left out has a larger count
    than one returned. *)
Theorem topN_ranks (counter : dict Z) (n : nat) :
  List.length (CSV.topN counter n) = Nat.min n (List.length counter)
  /\ StronglySorted (fun a b => (snd b <= snd a)%Z) (CSV.topN counter n)
  /\ exists rest,
       Permutation counter (CSV.topN counter n ++ rest)
       /\ forall a b, In a (CSV.topN counter n) -> In b rest ->
                      (snd b <= snd a)%Z.
Proof.
  unfold CSV.topN.
  destruct (@firstn_of_sorted _ snd CSV.by_count_desc (entries counter) n
              (fun a b => eq_refl)) as (Hlen & Hs & rest & Hp & Hrest).
  rewrite entries_length in Hlen.
  split; [exact Hlen|]. split; [exact Hs|].
  exists rest. split; [|exact Hrest].
  now rewrite <- Hp, entries_Permutation.
Qed.

(* ------------------------------------------------------------------ *)
(** ** The seniority distribution *)

Lemma seniority_level_truthy (title level : string) :
  CSV.extractSeniority title = Some level ->
  In level (map snd CSV.SENIORITY_PATTERNS) /\ truthy level = true.
Proof.
  intros H. apply first_level_Some in H.
  destruct H as (i & re & Hnth & _). apply nth_error_In in Hnth.
  assert (Hin : In level (map snd CSV.SENIORITY_PATTERNS))
    by (apply in_map_iff; exists (re, level); auto).
  split; [exact Hin|].
  simpl in Hin.
  repeat (destruct Hin as [<- | Hin]; [reflexivity|]). contradiction.
Qed.

Lemma buildSeniorityDist_tally (titles : list string) :
  CSV.buildSeniorityDist titles
  = fold_left (fun counts t => bump counts (level_key t))
              (filter has_some_level titles) [].
Proof.
  unfold CSV.buildSeniorityDist. generalize (@nil (string * Z)).
  induction titles as [|t titles IH]; intros d; simpl; [reflexivity|].
  unfold has_some_level at 1.
  destruct (CSV.extractSeniority t) as [level|] eqn:E; simpl; [|apply IH].
  destruct (seniority_level_truthy _ E) as [_ ->].
  unfold level_key at 2. rewrite E. apply IH.
Qed.

Lemma seniority_distribution_total (titles : list string) :
  total_of (entries (CSV.buildSeniorityDist titles))
  = count_if has_some_level titles.
Proof.
  rewrite total_of_entries, buildSeniorityDist_tally, tally_total.
  unfold count_if, total_of. simpl. lia.
Qed.

(** X3. [buildSeniorityDist] counts, for each seniority level, the titles
    that [extractSeniority] gives that level: a level is a key when some
    title has it, the keys are levels of the rule list, and the counts add
    up to the number of titles that have a level. *)
Theorem seniority_distribution_counts (titles : list string) :
  (forall level,
     get (CSV.buildSeniorityDist titles) level
     = if (count_if (has_level level) titles =? 0)%Z then None
       else Some (count_if (has_level level) titles))
  /\ (forall level, In level (keys (CSV.buildSeniorityDist titles)) ->
                    In level (map snd CSV.SENIORITY_PATTERNS))
  /\ total_of (entries (CSV.buildSeniorityDist titles))
     = count_if has_some_level titles.
Proof.
  assert (Hget : forall level,
     get (CSV.buildSeniorityDist titles) level
     = if (count_if (has_level level) titles =? 0)%Z then None
       else Some (count_if (has_level level) titles)).
  { intros level. rewrite buildSeniorityDist_tally, tally_get. simpl get.
    unfold count_if. rewrite filter_filter.
    replace (filter (fun x => has_some_level x && String.eqb (level_key x) level)
                    titles)
      with (filter (has_level level) titles); [reflexivity|].
    apply filter_ext. intros t. unfold has_some_level, level_key, has_level.
    now destruct (CSV.extractSeniority t). }
  split; [exact Hget|]. split.
  - intros level Hin. unfold keys in Hin. apply in_map_iff in Hin.
    destruct Hin as ([k n] & Hfst & Hin). simpl in Hfst. subst k.
    rewrite entries_In in Hin.
    assert (Hnd : NoDup (map fst (CSV.buildSeniorityDist titles))).
    { rewrite buildSeniorityDist_tally. apply tally_keys_NoDup. constructor. }
    apply (In_get _ _ _ Hnd) in Hin. rewrite Hget in Hin.
    destruct (count_if (has_level level) titles =? 0)%Z eqn:E; [discriminate|].
    apply Z.eqb_neq in E. unfold count_if in E.
    destruct (filter (has_level level) titles) as [|t rest] eqn:F;
      [simpl in E; lia|].
    assert (Ht : In t (filter (has_level level) titles)) by (rewrite F; now left).
    apply filter_In in Ht. destruct Ht as [_ Ht]. unfold has_level in Ht.
    destruct (CSV.extractSeniority t) as [l|] eqn:El; [|discriminate].
    apply String.eqb_eq in Ht. subst l.
    now destruct (seniority_level_truthy _ El).
  - rewrite total_of_entries, buildSeniorityDist_tally, tally_total.
    unfold count_if, total_of. simpl. lia.
Qed.

(* ------------------------------------------------------------------ *)
(** ** The title sections *)

Lemma filter_idempotent (A : Type) (p : A -> bool) (l : list A) :
  filter p (filter p l) = filter p l.
Proof.
  rewrite filter_filter. apply filter_ext. intros x. now destruct (p x).
Qed.

Lemma total_of_nonneg (l : list (string * Z)) :
  (forall e, In e l -> (0 <= snd e)%Z) -> (0 <= total_of l)%Z.
Proof.
  unfold total_of. induction l as [|e l IH]; intros H; simpl; [lia|].
  pose proof (H e (or_introl eq_refl)).
  assert (0 <= fold_right Z.add 0 (map snd l))%Z by (apply IH; intros; apply H; now right).
  lia.
Qed.

Lemma countValues_entry (titles : list string) (t : string) (n : Z) :
  In (t, n) (entries (CSV.countValues (filter (fun v => truthy (trim v)) titles)))
  <-> n = times t titles /\ (0 < n)%Z.
Proof.
  rewrite countValues_tally, filter_idempotent, tally_entry.
  unfold times, count_if. now rewrite filter_filter.
Qed.

Lemma title_stats_adds_up (label : string) (titles : list string) :
  section_adds_up (CSV.title_stats label titles) titles.
Proof.
  unfold section_adds_up, CSV.title_stats.
  cbn [TitleStats.count TitleStats.null_count TitleStats.unique_count
       TitleStats.top_15_titles TitleStats.seniority_distribution].
  set (nonblank := fun t : string => truthy (trim t)).
  set (valid := filter nonblank titles).
  set (counts := CSV.countValues valid).
  assert (Hsplit : (List.length valid
                    + List.length (filter (fun t => negb (nonblank t)) titles)
                    = List.length titles)%nat).
  { rewrite <- length_app.
    apply Permutation_length, filter_split_Permutation. }
  assert (Hcounts : counts = fold_left (fun c v => bump c (trim v)) valid []).
  { unfold counts, valid. rewrite countValues_tally.
    now rewrite filter_idempotent. }
  assert (Hunique : (List.length (keys counts) <= List.length valid)%nat).
  { unfold keys. rewrite length_map, entries_length, Hcounts.
    pose proof (tally_length (fun v => trim v) valid []) as H. simpl in H.
    exact H. }
  assert (Htotal : total_of (entries counts) = Z.of_nat (List.length valid)).
  { rewrite total_of_entries, Hcounts, tally_total. unfold total_of. simpl. lia. }
  assert (Hpos : forall e, In e (entries counts) -> (0 < snd e)%Z).
  { intros [t n] He. apply countValues_entry in He. simpl. tauto. }
  assert (Hnd : NoDup (map fst (entries counts))).
  { apply (Permutation_NoDup
             (Permutation_map fst (Permutation_sym (entries_Permutation _)))).
    rewrite Hcounts. apply tally_keys_NoDup. constructor. }
  destruct (@firstn_of_sorted _ snd CSV.by_count_desc (entries counts) 15
              (fun a b => eq_refl)) as (Hlen & _ & rest & Hperm & _).
  fold (CSV.topN counts 15) in Hlen, Hperm.
  assert (Hrest : (0 <= total_of rest)%Z).
  { apply total_of_nonneg. intros e He.
    assert (In e (entries counts))
      by (apply (Permutation_in _ (Permutation_sym Hperm)), in_or_app; now right).
    apply Hpos in H. lia. }
  pose proof (total_of_Permutation Hperm) as Hsum. rewrite total_of_app in Hsum.
  split; [rewrite <- Hsplit, Nat2Z.inj_add; reflexivity|].
  split; [reflexivity|]. split; [lia|]. split.
  { rewrite Hlen. unfold keys. rewrite length_map, Nat2Z.id. reflexivity. }
  split.
  { apply (Permutation_map fst) in Hperm. rewrite map_app in Hperm.
    apply (Permutation_NoDup Hperm) in Hnd. now apply NoDup_app_remove_r in Hnd. }
  split.
  { intros t n Hin.
    assert (He : In (t, n) (entries counts))
      by (apply (Permutation_in _ (Permutation_sym Hperm)), in_or_app; now left).
    apply countValues_entry in He. split; [tauto | lia]. }
  split; [lia|]. split.
  { intros Hle.
    assert (Hr : rest = []).
    { apply Permutation_length in Hperm. rewrite length_app, Hlen in Hperm.
      unfold keys in Hle. rewrite length_map in Hle.
      destruct rest; [reflexivity|]. cbn [List.length] in Hperm. lia. }
    subst rest. change (total_of []) with 0%Z in Hsum. lia. }
  pose proof (seniority_distribution_total valid) as Hsen.
  unfold count_if in Hsen.
  pose proof (filter_length_le has_some_level valid). lia.
Qed.

(** X4. When no title names a member inherited from [Object.prototype]:
    in both title sections of [processCSVToRawData], [count] and
    [null_count] add up to the number of rows; [unique_count] is at most
    [count]; [top_15_titles] has min(15, unique_count) distinct titles, each
    with the number of rows that carry it; their counts add up to at most
    [count], and to [count] when there are at most 15 titles; the seniority
    distribution counts at most [count] titles. *)
Theorem title_sections_add_up (rows : list CsvRow.t) :
  plain_values (map CsvRow.recipient_title rows) = true ->
  plain_values (map CsvRow.nominator_title rows) = true ->
  section_adds_up (RawData.recipient_title (CSV.processCSVToRawData rows))
                  (map CsvRow.recipient_title rows)
  /\ section_adds_up (RawData.nominator_title (CSV.processCSVToRawData rows))
                     (map CsvRow.nominator_title rows).
Proof. intros _ _. split; apply title_stats_adds_up. Qed.

Lemma title_sections_add_up_witness :
  section_adds_up
    (RawData.recipient_title (CSV.processCSVToRawData Sample.ten_rows))
    (map CsvRow.recipient_title Sample.ten_rows).
Proof.
  exact (proj1 (@title_sections_add_up Sample.ten_rows eq_refl eq_refl)).
Defined.

(* ------------------------------------------------------------------ *)
(** ** The interaction section *)

Lemma sum_by_Permutation (A : Type) (m : A -> Z) (l l' : list A) :
  Permutation l l' -> sum_by m l = sum_by m l'.
Proof. unfold sum_by. induction 1; simpl; lia. Qed.

Lemma sum_by_app (A : Type) (m : A -> Z) (l l' : list A) :
  sum_by m (l ++ l') = (sum_by m l + sum_by m l')%Z.
Proof. unfold sum_by. induction l; simpl; lia. Qed.

Lemma sum_by_map (A B : Type) (f : A -> B) (m : B -> Z) (l : list A) :
  sum_by m (map f l) = sum_by (fun x => m (f x)) l.
Proof. unfold sum_by. induction l; simpl; congruence. Qed.

Lemma sum_by_nonneg (A : Type) (m : A -> Z) (l : list A) :
  (forall x, In x l -> (0 <= m x)%Z) -> (0 <= sum_by m l)%Z.
Proof.
  unfold sum_by. induction l as [|x l IH]; intros H; simpl; [lia|].
  pose proof (H x (or_introl eq_refl)).
  assert (0 <= fold_right (fun x s => m x + s) 0 l)%Z
    by (apply IH; intros; apply H; now right).
  lia.
Qed.

Lemma sum_by_filter_le (A : Type) (m : A -> Z) (p : A -> bool) (l : list A) :
  (forall x, In x l -> (0 <= m x)%Z) ->
  (0 <= sum_by m (filter p l) <= sum_by m l)%Z.
Proof.
  unfold sum_by. induction l as [|x l IH]; intros H; simpl; [lia|].
  pose proof (H x (or_introl eq_refl)).
  assert (IH' := IH (fun y Hy => H y (or_intror Hy))).
  destruct (p x); simpl; lia.
Qed.

Lemma fold_left_sum (A : Type) (m : A -> Z) (l : list A) (s : Z) :
  fold_left (fun s x => s + m x)%Z l s = (s + sum_by m l)%Z.
Proof.
  revert s. unfold sum_by. induction l as [|x l IH]; intros s; simpl; [lia|].
  rewrite IH. lia.
Qed.

Lemma sum_by_set (V : Type) (m : V -> Z) (d : dict V) (k : string) (v : V) :
  sum_by (fun e => m (snd e)) (set d k v)
  = (sum_by (fun e => m (snd e)) d
     - match get d k with Some v0 => m v0 | None => 0 end + m v)%Z.
Proof.
  unfold sum_by. induction d as [|[k0 v0] d IH]; simpl.
  - lia.
  - destruct (String.eqb k k0); simpl; lia.
Qed.

Lemma count_pair_sum (d : dict InteractionPair.t) (row : CsvRow.t) :
  sum_by (fun e => InteractionPair.count (snd e)) (CSV.count_pair d row)
  = (sum_by (fun e => InteractionPair.count (snd e)) d
     + if has_both_titles row then 1 else 0)%Z.
Proof.
  unfold CSV.count_pair, has_both_titles.
  destruct (truthy (trim (CsvRow.nominator_title row)));
    destruct (truthy (trim (CsvRow.recipient_title row))); simpl negb;
    cbv iota; simpl orb; simpl andb; cbv iota; try lia.
  rewrite (sum_by_set InteractionPair.count).
  destruct (get d _); cbn [InteractionPair.count]; lia.
Qed.

Lemma count_pairs_sum (rows : list CsvRow.t) (d : dict InteractionPair.t) :
  sum_by (fun e => InteractionPair.count (snd e)) (fold_left CSV.count_pair rows d)
  = (sum_by (fun e => InteractionPair.count (snd e)) d
     + count_if has_both_titles rows)%Z.
Proof.
  revert d. unfold count_if.
  induction rows as [|row rows IH]; intros d; simpl fold_left.
  - simpl. lia.
  - rewrite IH, count_pair_sum. simpl filter.
    destruct (has_both_titles row); simpl List.length; lia.
Qed.

Lemma count_pairs_length (rows : list CsvRow.t) (d : dict InteractionPair.t) :
  (Z.of_nat (List.length (fold_left CSV.count_pair rows d))
   <= Z.of_nat (List.length d) + count_if has_both_titles rows)%Z.
Proof.
  revert d. unfold count_if.
  induction rows as [|row rows IH]; intros d; simpl fold_left.
  - simpl. lia.
  - specialize (IH (CSV.count_pair d row)).
    assert (H : (Z.of_nat (List.length (CSV.count_pair d row))
                 <= Z.of_nat (List.length d)
                    + if has_both_titles row then 1 else 0)%Z).
    { unfold CSV.count_pair, has_both_titles.
      destruct (truthy (trim (CsvRow.nominator_title row)));
        destruct (truthy (trim (CsvRow.recipient_title row))); simpl negb;
        cbv iota; simpl orb; simpl andb; cbv iota; try lia.
      match goal with
      | |- context [set d ?k ?v] => pose proof (set_length d k v)
      end. lia. }
    simpl filter. destruct (has_both_titles row); simpl List.length in *; lia.
Qed.

(** Every recorded pair has two non-empty titles and was counted at least
    once. *)
Lemma count_pairs_sound (rows : list CsvRow.t) (d : dict InteractionPair.t) :
  (forall k p, get d k = Some p ->
     (1 <= InteractionPair.count p)%Z
     /\ truthy (InteractionPair.nominator p) = true
     /\ truthy (InteractionPair.recipient p) = true) ->
  forall k p, get (fold_left CSV.count_pair rows d) k = Some p ->
    (1 <= InteractionPair.count p)%Z
    /\ truthy (InteractionPair.nominator p) = true
    /\ truthy (InteractionPair.recipient p) = true.
Proof.
  revert d. induction rows as [|row rows IH]; intros d Hd; simpl; [exact Hd|].
  apply IH. intros k p. unfold CSV.count_pair.
  destruct (truthy (trim (CsvRow.nominator_title row))) eqn:En;
    destruct (truthy (trim (CsvRow.recipient_title row))) eqn:Er; simpl negb;
    cbv iota; simpl orb; cbv iota; try apply Hd.
  rewrite get_set. destruct (String.eqb k _); [|apply Hd].
  intros [= <-]. cbn [InteractionPair.count InteractionPair.nominator
                       InteractionPair.recipient].
  destruct (get d _) as [p0|] eqn:E.
  - destruct (Hd _ _ E) as (H1 & H2 & H3). repeat split; auto; lia.
  - cbn [InteractionPair.count InteractionPair.nominator
         InteractionPair.recipient]. repeat split; auto; lia.
Qed.

(** X5. In the interaction section of [processCSVToRawData],
    [total_interactions] is the number of rows with both titles; there are
    at most that many unique pairs and at most that many self-recognitions;
    [top_10_pairs] has min(10, unique_pairs) pairs in descending order of
    count, each with two non-empty titles and a count of at least 1; their
    counts add up to at most [total_interactions], and to exactly that when
    there are at most 10 unique pairs. *)
Theorem interaction_counts_add_up (rows : list CsvRow.t) :
  let i := RawData.interactions (CSV.processCSVToRawData rows) in
  Interactions.total_interactions i = count_if has_both_titles rows
  /\ (0 <= Interactions.unique_pairs i <= Interactions.total_interactions i)%Z
  /\ (0 <= Interactions.self_recognition_count i
      <= Interactions.total_interactions i)%Z
  /\ List.length (Interactions.top_10_pairs i)
     = Nat.min 10 (Z.to_nat (Interactions.unique_pairs i))
  /\ StronglySorted
       (fun a b => (InteractionPair.count b <= InteractionPair.count a)%Z)
       (Interactions.top_10_pairs i)
  /\ (forall p, In p (Interactions.top_10_pairs i) ->
        (1 <= InteractionPair.count p)%Z
        /\ truthy (InteractionPair.nominator p) = true
        /\ truthy (InteractionPair.recipient p) = true)
  /\ (sum_by InteractionPair.count (Interactions.top_10_pairs i)
      <= Interactions.total_interactions i)%Z
  /\ ((Interactions.unique_pairs i <= 10)%Z ->
      sum_by InteractionPair.count (Interactions.top_10_pairs i)
      = Interactions.total_interactions i).
Proof.
  cbn [CSV.processCSVToRawData RawData.interactions
       Interactions.total_interactions Interactions.unique_pairs
       Interactions.self_recognition_count Interactions.top_10_pairs].
  set (d := fold_left CSV.count_pair rows []).
  set (allPairs := values d).
  assert (Htotal : Z.of_nat (List.length
             (filter (fun r => truthy (trim (CsvRow.nominator_title r))
                               && truthy (trim (CsvRow.recipient_title r))) rows))
           = count_if has_both_titles rows) by reflexivity.
  rewrite Htotal. clear Htotal.
  assert (Hsum : sum_by InteractionPair.count allPairs
                 = count_if has_both_titles rows).
  { unfold allPairs, values. rewrite sum_by_map.
    rewrite (sum_by_Permutation _ (entries_Permutation d)).
    unfold d. rewrite count_pairs_sum. unfold sum_by. simpl. lia. }
  assert (Hlen : (Z.of_nat (List.length allPairs)
                  <= count_if has_both_titles rows)%Z).
  { unfold allPairs, values. rewrite length_map, entries_length.
    pose proof (count_pairs_length rows []) as H. simpl in H. exact H. }
  assert (Hsound : forall p, In p allPairs ->
            (1 <= InteractionPair.count p)%Z
            /\ truthy (InteractionPair.nominator p) = true
            /\ truthy (InteractionPair.recipient p) = true).
  { intros p Hp. unfold allPairs, values in Hp. apply in_map_iff in Hp.
    destruct Hp as ([k p'] & Hsnd & Hin). simpl in Hsnd. subst p'.
    rewrite entries_In in Hin.
    assert (Hnd : NoDup (map fst d))
      by (apply count_pairs_keys_NoDup; constructor).
    apply (In_get _ _ _ Hnd) in Hin.
    eapply count_pairs_sound; [|exact Hin].
    intros k0 p0 H0. discriminate H0. }
  assert (Hnn : forall p, In p allPairs -> (0 <= InteractionPair.count p)%Z).
  { intros p Hp. destruct (Hsound p Hp). lia. }
  destruct (@firstn_of_sorted _ InteractionPair.count CSV.by_pair_count_desc
              allPairs 10 (fun a b => eq_refl))
    as (Htop & Hsorted & rest & Hperm & _).
  set (top := firstn 10 (sort_by CSV.by_pair_count_desc allPairs)) in *.
  pose proof (sum_by_Permutation InteractionPair.count Hperm) as Hs.
  rewrite sum_by_app in Hs.
  assert (Hrest : (0 <= sum_by InteractionPair.count rest)%Z).
  { apply sum_by_nonneg. intros p Hp. apply Hnn.
    apply (Permutation_in _ (Permutation_sym Hperm)), in_or_app. now right. }
  split; [reflexivity|]. split; [lia|]. split.
  { rewrite fold_left_sum.
    pose proof (sum_by_filter_le InteractionPair.count CSV.is_self allPairs Hnn).
    lia. }
  split; [rewrite Htop, Nat2Z.id; reflexivity|].
  split; [exact Hsorted|]. split.
  { intros p Hp. apply Hsound.
    apply (Permutation_in _ (Permutation_sym Hperm)), in_or_app. now left. }
  split; [lia|].
  intros Hle.
  assert (Hr : rest = []).
  { apply Permutation_length in Hperm. rewrite length_app, Htop in Hperm.
    destruct rest; [reflexivity|]. cbn [List.length] in Hperm. lia. }
  subst rest. change (sum_by InteractionPair.count []) with 0%Z in Hs. lia.
Qed.

(* ================================================================== *)
(** * Percentiles in order *)
(* ================================================================== *)

Lemma ceiling_le_floor_succ (x : Q) : (Qceiling x <= Qfloor x + 1)%Z.
Proof.
  pose proof (Qceiling_lt x) as H1. pose proof (Qlt_floor x) as H2.
  assert (H : inject_Z (Qceiling x - 1) < inject_Z (Qfloor x + 1)) by lra.
  rewrite <- Zlt_Qlt in H. lia.
Qed.

Lemma floor_eq_ceiling (x : Q) : Qfloor x = Qceiling x -> x == inject_Z (Qfloor x).
Proof.
  intros H. pose proof (Qfloor_le x) as H1. pose proof (Qle_ceiling x) as H2.
  rewrite <- H in H2. lra.
Qed.

Section PercentileOrder.

Variable sorted : list Q.
Hypothesis nonempty : sorted <> [].
Hypothesis ascending : StronglySorted Qle sorted.

Let n := List.length sorted.

(** What [percentile] returns, with the order statistics named by their
    positions. *)
Lemma percentile_between (p : Q) :
  0 <= p <= 100 ->
  exists v,
    CSV.percentile sorted p = Some (Fin v)
    /\ (0 <= Qfloor (rank_of n p) <= Qceiling (rank_of n p))%Z
    /\ (Qceiling (rank_of n p) < Z.of_nat n)%Z
    /\ v == nth (Z.to_nat (Qfloor (rank_of n p))) sorted 0
            + (nth (Z.to_nat (Qceiling (rank_of n p))) sorted 0
               - nth (Z.to_nat (Qfloor (rank_of n p))) sorted 0)
              * (rank_of n p - inject_Z (Qfloor (rank_of n p)))
    /\ nth (Z.to_nat (Qfloor (rank_of n p))) sorted 0 <= v
    /\ v <= nth (Z.to_nat (Qceiling (rank_of n p))) sorted 0.
Proof.
  intros Hp.
  destruct (percentile_interpolates nonempty ascending Hp)
    as (a & b & v & Ha & Hb & Hv & Heq & Hle).
  cbv beta in Ha, Hb, Heq.
  change (p / 100 * inject_Z (Z.of_nat (List.length sorted) - 1))
    with (rank_of n p) in Ha, Hb, Heq.
  pose proof (rank_bounds nonempty ascending Hp) as Hr. cbv beta in Hr.
  change (p / 100 * inject_Z (Z.of_nat (List.length sorted) - 1))
    with (rank_of n p) in Hr.
  destruct (floor_ceiling_bounds sorted Hr) as (Hfc & Hc). fold n in Hc.
  rewrite at_index_in_range in Ha by (fold n; lia).
  rewrite at_index_in_range in Hb by (fold n; lia).
  injection Ha as <-. injection Hb as <-.
  exists v. repeat split; try tauto; try lia.
Qed.

Lemma rank_of_mono (p q : Q) : p <= q -> rank_of n p <= rank_of n q.
Proof.
  intros H. unfold rank_of.
  assert (Hn : 0 <= inject_Z (Z.of_nat n - 1)).
  { change 0 with (inject_Z 0). rewrite <- Zle_Qle.
    pose proof (length_pos nonempty ascending) as Hpos. fold n in Hpos. lia. }
  apply Qmult_le_compat_r; [|exact Hn].
  apply Qmult_le_compat_r; [exact H|]. discriminate.
Qed.

Lemma percentiles_in_order (p q : Q) :
  0 <= p -> p <= q -> q <= 100 ->
  exists vp vq,
    CSV.percentile sorted p = Some (Fin vp)
    /\ CSV.percentile sorted q = Some (Fin vq)
    /\ hd 0 sorted <= vp /\ vp <= vq /\ vq <= last sorted 0.
Proof.
  intros H0 Hpq H100.
  destruct (@percentile_between p) as (vp & Hvp & (Hfp0 & Hfcp) & Hcp & Ep & Lp & Up);
    [split; lra|].
  destruct (@percentile_between q) as (vq & Hvq & (Hfq0 & Hfcq) & Hcq & Eq & Lq & Uq);
    [split; lra|].
  exists vp, vq. split; [exact Hvp|]. split; [exact Hvq|].
  pose proof (rank_of_mono Hpq) as Hr.
  set (rp := rank_of n p) in *. set (rq := rank_of n q) in *.
  assert (Hf : (Qfloor rp <= Qfloor rq)%Z) by now apply Qfloor_resp_le.
  assert (Hc : (Qceiling rp <= Qceiling rq)%Z) by now apply Qceiling_resp_le.
  pose proof (ceiling_le_floor_succ rp) as Hcf.
  pose proof (ceiling_le_floor_succ rq) as Hcf'.
  assert (Hnth : forall i j : Z, (0 <= i <= j)%Z -> (j < Z.of_nat n)%Z ->
            nth (Z.to_nat i) sorted 0 <= nth (Z.to_nat j) sorted 0).
  { intros i j Hij Hj. apply sorted_nth; [exact ascending | lia | fold n; lia]. }
  split; [|split].
  - apply Qle_trans with (nth (Z.to_nat (Qfloor rp)) sorted 0); [|exact Lp].
    replace (hd 0 sorted) with (nth (Z.to_nat 0) sorted 0)
      by (destruct sorted; reflexivity).
    apply Hnth; lia.
  - destruct (Z.eq_dec (Qfloor rp) (Qfloor rq)) as [Ef|Nf].
    + destruct (Z.eq_dec (Qceiling rp) (Qceiling rq)) as [Ec|Nc].
      * rewrite Ep, Eq, <- Ef, <- Ec.
        set (a := nth (Z.to_nat (Qfloor rp)) sorted 0) in *.
        set (b := nth (Z.to_nat (Qceiling rp)) sorted 0) in *.
        assert (Hab : 0 <= b - a) by lra.
        assert ((b - a) * (rp - inject_Z (Qfloor rp))
                <= (b - a) * (rq - inject_Z (Qfloor rp))).
        { rewrite !(Qmult_comm (b - a)). apply Qmult_le_compat_r; lra. }
        lra.
      * assert (Ecf : Qfloor rp = Qceiling rp) by lia.
        pose proof (floor_eq_ceiling rp Ecf) as Hint.
        rewrite Ep, <- Ecf. rewrite Ef in *.
        setoid_replace (rp - inject_Z (Qfloor rq)) with 0 by lra.
        lra.
    + apply Qle_trans with (nth (Z.to_nat (Qceiling rp)) sorted 0); [exact Up|].
      apply Qle_trans with (nth (Z.to_nat (Qfloor rq)) sorted 0); [|exact Lq].
      apply Hnth; lia.
  - apply Qle_trans with (nth (Z.to_nat (Qceiling rq)) sorted 0); [exact Uq|].
    rewrite <- nth_pred_length.
    replace (List.length sorted - 1)%nat with (Z.to_nat (Z.of_nat n - 1))
      by (unfold n; lia).
    apply Hnth; lia.
Qed.

(** X6. On a non-empty list in ascending order [percentile] is monotone:
    for 0 <= p <= q <= 100 the p-th percentile is at most the q-th, and
    both lie between the first and the last element. *)
Theorem percentile_monotone (p q : Q) :
  0 <= p -> p <= q -> q <= 100 ->
  exists vp vq,
    CSV.percentile sorted p = Some (Fin vp)
    /\ CSV.percentile sorted q = Some (Fin vq)
    /\ hd 0 sorted <= vp /\ vp <= vq /\ vq <= last sorted 0.
Proof. exact (percentiles_in_order (p := p) (q := q)). Qed.

End PercentileOrder.

Lemma percentile_monotone_witness :
  exists vp vq,
    CSV.percentile [1; 2; 4; 8] 25 = Some (Fin vp)
    /\ CSV.percentile [1; 2; 4; 8] 75 = Some (Fin vq)
    /\ vp <= vq.
Proof.
  assert (Hne : [1; 2; 4; 8] <> []) by discriminate.
  assert (Hs : StronglySorted Qle [1; 2; 4; 8]).
  { repeat constructor; discriminate. }
  destruct (@percentile_monotone [1; 2; 4; 8] Hne Hs 25 75)
    as (vp & vq & Hp & Hq & _ & Hle & _); try discriminate.
  exists vp, vq. auto.
Defined.

(* ================================================================== *)
(** * The estimate end to end *)
(* ================================================================== *)

(** What [computeCaptureRecapture] returns on counts n1, n2 >= 0 and an
    overlap 0 <= m <= min(n1, n2), field by field. *)
Lemma capture_recapture_values
      (sqrtQ : Q -> Q) (tc : TitleCountEstimate.t) (n1 n2 m : Z) :
  uniqueRecipients tc = of_Z n1 ->
  uniqueNominators tc = of_Z n2 ->
  overlap tc = of_Z m ->
  (0 <= n1)%Z -> (0 <= n2)%Z -> (0 <= m <= Z.min n1 n2)%Z ->
  exists q v : Q,
    q == Population.chapman n1 n2 m
    /\ v == Population.chapman_variance n1 n2 m
    /\ 0 <= v
    /\ inject_Z (Z.max n1 n2) <= q
    /\ Population.computeCaptureRecapture sqrtQ tc
       = {| CaptureRecaptureEstimate.n1 := of_Z n1;
            CaptureRecaptureEstimate.n2 := of_Z n2;
            CaptureRecaptureEstimate.m := of_Z m;
            chapmanEstimate := of_Z (round_half_up q);
            standardError := of_Z (round_half_up (sqrtQ v));
            ci95 :=
              (of_Z (Z.max (round_half_up (q - (196 # 100) * sqrtQ v))
                           (Z.max n1 n2)),
               of_Z (round_half_up (q + (196 # 100) * sqrtQ v)));
            sensitivity :=
              map (fun k => (k, of_Z (round_half_up (q * k))))
                  Population.sensitivity_multipliers;
            assumptions := Population.assumption_list |}.
Proof.
  intros E1 E2 E3 H1 H2 Hm.
  assert (Hm1 : m <> (-1)%Z) by lia.
  destruct (point_estimate_value n1 n2 Hm1) as (q & Hq & Hqc).
  destruct (variance_value H1 H2 Hm) as (v & Hv & Hv0 & Hvc).
  pose proof (chapman_lower_bound H1 H2 Hm) as Hlow.
  exists q, v. repeat (split; [assumption || lra|]).
  unfold Population.computeCaptureRecapture.
  rewrite E1, E2, E3, Hq, Hv.
  unfold sqrt. rewrite (proj2 (Qle_bool_iff 0 v) Hv0).
  unfold of_Z. cbn [mul sub add neg max round]. unfold of_Z.
  rewrite Qmax_inject_Z, round_half_up_max.
  reflexivity.
Qed.





(* ------------------------------------------------------------------ *)
(** ** From the rows of a file *)

Lemma title_stats_present (label : string) (titles : list string) :
  (exists t, In t titles /\ truthy (trim t) = true) ->
  (1 <= TitleStats.unique_count (CSV.title_stats label titles))%Z
  /\ TitleStats.top_15_titles (CSV.title_stats label titles) <> [].
Proof.
  intros (t & Hin & Ht).
  destruct (title_stats_adds_up label titles) as (_ & _ & _ & Hlen & _).
  assert (Hu : (1 <= TitleStats.unique_count (CSV.title_stats label titles))%Z).
  { cbn [CSV.title_stats TitleStats.unique_count].
    unfold keys. rewrite length_map, entries_length, countValues_tally.
    rewrite filter_idempotent.
    assert (Hne : fold_left (fun counts v => bump counts (trim v))
                            (filter (fun v => truthy (trim v)) titles) [] <> []).
    { apply tally_nonempty. intros E.
      assert (In t (filter (fun v => truthy (trim v)) titles))
        by (apply filter_In; auto).
      rewrite E in H. exact H. }
    destruct (fold_left _ _ _); [congruence | simpl; lia]. }
  split; [exact Hu|].
  intros E. rewrite E in Hlen. simpl List.length in Hlen. lia.
Qed.

Lemma title_stats_absent (label : string) (titles : list string) :
  (forall t, In t titles -> truthy (trim t) = false) ->
  TitleStats.unique_count (CSV.title_stats label titles) = 0%Z
  /\ TitleStats.top_15_titles (CSV.title_stats label titles) = [].
Proof.
  intros H.
  assert (E : filter (fun t => truthy (trim t)) titles = []).
  { induction titles as [|t titles IH]; simpl; [reflexivity|].
    rewrite (H t (or_introl eq_refl)). apply IH. intros; apply H; now right. }
  cbn [CSV.title_stats TitleStats.unique_count TitleStats.top_15_titles].
  rewrite E. split; reflexivity.
Qed.

Lemma new_Set_length_pos (l : list string) :
  l <> [] -> (0 < List.length (new_Set l))%nat.
Proof.
  intros H. apply new_Set_nonempty in H.
  destruct (new_Set l); [congruence | simpl; lia].
Qed.

(** X9. When some row has a recipient title and some row a nominator
    title (and no title names a member inherited from [Object.prototype]),
    [estimatePopulation] on the output of [processCSVToRawData]
    yields an integer overlap m with 1 <= m <= min(n1, n2), a total of
    unique titles n1 + n2 - m that is at least max(n1, n2), and a
    recommended central estimate and lower bound that are integers at least
    max(n1, n2). *)
Theorem estimate_from_rows
        (sqrtQ : Q -> Q) (total_rows : Z) (rows : list CsvRow.t) :
  plain_values (map CsvRow.recipient_title rows) = true ->
  plain_values (map CsvRow.nominator_title rows) = true ->
  (exists r, In r rows /\ truthy (trim (CsvRow.recipient_title r)) = true) ->
  (exists r, In r rows /\ truthy (trim (CsvRow.nominator_title r)) = true) ->
  let raw := CSV.processCSVToRawData rows in
  let est := Estimator.estimatePopulation sqrtQ total_rows raw in
  exists (n1 n2 m N L : Z) (u : Q),
    n1 = TitleStats.unique_count (RawData.recipient_title raw)
    /\ n2 = TitleStats.unique_count (RawData.nominator_title raw)
    /\ (1 <= m <= Z.min n1 n2)%Z
    /\ overlap (PopulationEstimate.titleCount est) = of_Z m
    /\ totalUnique (PopulationEstimate.titleCount est) = Fin u
    /\ u == inject_Z (n1 + n2 - m)
    /\ (Z.max n1 n2 <= n1 + n2 - m)%Z
    /\ Recommended.mid (PopulationEstimate.recommended est) = of_Z N
    /\ Recommended.low (PopulationEstimate.recommended est) = of_Z L
    /\ (Z.max n1 n2 <= N)%Z
    /\ (Z.max n1 n2 <= L)%Z.
Proof.
  intros _ _ (r1 & Hr1 & Ht1) (r2 & Hr2 & Ht2) raw est.
  destruct (title_stats_present "Recipient" (map CsvRow.recipient_title rows))
    as [Hn1 Htop1].
  { exists (CsvRow.recipient_title r1). split; [now apply in_map | exact Ht1]. }
  destruct (title_stats_present "Nominator" (map CsvRow.nominator_title rows))
    as [Hn2 Htop2].
  { exists (CsvRow.nominator_title r2). split; [now apply in_map | exact Ht2]. }
  change (CSV.title_stats "Recipient" (map CsvRow.recipient_title rows))
    with (RawData.recipient_title raw) in Hn1, Htop1.
  change (CSV.title_stats "Nominator" (map CsvRow.nominator_title rows))
    with (RawData.nominator_title raw) in Hn2, Htop2.
  set (n1 := TitleStats.unique_count (RawData.recipient_title raw)) in *.
  set (n2 := TitleStats.unique_count (RawData.nominator_title raw)) in *.
  assert (Hk : (0 < Nat.min
                  (List.length (new_Set (map fst (TitleStats.top_15_titles
                                                    (RawData.recipient_title raw)))))
                  (List.length (new_Set (map fst (TitleStats.top_15_titles
                                                    (RawData.nominator_title raw))))))%nat).
  { apply Nat.min_glb_lt; apply new_Set_length_pos; intros E;
      apply map_eq_nil in E; auto. }
  pose proof (overlap_value raw Hk) as Hov.
  pose proof (scaled_overlap_le raw Hk) as He. fold n1 n2 in He.
  pose proof (self_overlap_le raw) as Hs. fold n1 n2 in Hs.
  fold n1 n2 in Hov.
  match type of Hov with
  | _ = of_Z ?M => set (m := M) in *
  end.
  assert (Hm : (1 <= m <= Z.min n1 n2)%Z).
  { unfold m. specialize (He ltac:(lia)). specialize (Hs ltac:(lia)).
    destruct (0 <? _)%Z; lia. }
  destruct (capture_recapture_values sqrtQ (Population.computeTitleCount raw)
              (n1 := n1) (n2 := n2) (m := m) eq_refl eq_refl Hov
              ltac:(lia) ltac:(lia) ltac:(lia))
    as (q & v & _ & _ & _ & Hlow & Hcr).
  exists n1, n2, m, (round_half_up q),
         (Z.max (round_half_up (q - (196 # 100) * sqrtQ v)) (Z.max n1 n2)),
         (inject_Z n1 + inject_Z n2 + - inject_Z m).
  unfold est, Estimator.estimatePopulation.
  cbn [PopulationEstimate.titleCount PopulationEstimate.recommended
       Recommended.mid Recommended.low].
  rewrite Hcr. cbn [chapmanEstimate ci95 fst].
  split; [reflexivity|]. split; [reflexivity|]. split; [exact Hm|].
  split; [exact Hov|]. split.
  { unfold Population.computeTitleCount at 1. cbn [totalUnique].
    fold n1 n2.
    unfold Population.computeTitleCount in Hov. cbn [overlap] in Hov.
    fold n1 n2 in Hov. rewrite Hov. reflexivity. }
  split.
  { replace (n1 + n2 - m)%Z with (n1 + n2 + - m)%Z by lia.
    now rewrite !inject_Z_plus, inject_Z_opp. }
  split; [lia|]. split; [reflexivity|]. split; [reflexivity|].
  split; [apply round_half_up_ge; exact Hlow | lia].
Qed.

Lemma estimate_from_rows_witness :
  exists (n1 n2 m N L : Z),
    overlap (PopulationEstimate.titleCount
               (Estimator.estimatePopulation (fun q => q) 10
                  (CSV.processCSVToRawData Sample.ten_rows))) = of_Z m
    /\ Recommended.mid (PopulationEstimate.recommended
               (Estimator.estimatePopulation (fun q => q) 10
                  (CSV.processCSVToRawData Sample.ten_rows))) = of_Z N
    /\ Recommended.low (PopulationEstimate.recommended
               (Estimator.estimatePopulation (fun q => q) 10
                  (CSV.processCSVToRawData Sample.ten_rows))) = of_Z L
    /\ n1 = 10%Z /\ n2 = 10%Z
    /\ (1 <= m <= Z.min n1 n2)%Z /\ (Z.max n1 n2 <= N)%Z /\ (Z.max n1 n2 <= L)%Z.
Proof.
  destruct (@estimate_from_rows (fun q => q) 10 Sample.ten_rows
              eq_refl eq_refl
              (ex_intro _ (Sample.row "Analyst" "Analyst")
                        (conj (or_introl eq_refl) eq_refl))
              (ex_intro _ (Sample.row "Analyst" "Analyst")
                        (conj (or_introl eq_refl) eq_refl)))
    as (n1 & n2 & m & N & L & u & Hn1 & Hn2 & Hm & Hov & _ & _ & _ & HN & HL & H1 & H2).
  exists n1, n2, m, N, L.
  split; [exact Hov|]. split; [exact HN|]. split; [exact HL|].
  split; [rewrite Hn1; vm_compute; reflexivity|].
  split; [rewrite Hn2; vm_compute; reflexivity|]. auto.
Defined.

(* ------------------------------------------------------------------ *)
(** ** A file without titles *)

Lemma div_NaN_r (x : num) : div x NaN = NaN.
Proof. destruct x; reflexivity. Qed.

Lemma mul_NaN_r (x : num) : mul x NaN = NaN.
Proof. destruct x; reflexivity. Qed.

Lemma sub_NaN_r (x : num) : sub x NaN = NaN.
Proof. destruct x; reflexivity. Qed.

Lemma capture_recapture_without_overlap
      (sqrtQ : Q -> Q) (tc : TitleCountEstimate.t) :
  overlap tc = NaN ->
  let cr := Population.computeCaptureRecapture sqrtQ tc in
  chapmanEstimate cr = NaN
  /\ standardError cr = NaN
  /\ ci95 cr = (NaN, NaN)
  /\ map snd (sensitivity cr) = map (fun _ => NaN) Population.sensitivity_multipliers.
Proof.
  intros H cr. unfold cr, Population.computeCaptureRecapture.
  cbn [chapmanEstimate standardError ci95 sensitivity].
  rewrite H. change (add NaN (of_Z 1)) with NaN.
  rewrite div_NaN_r, !sub_NaN_r, !mul_NaN_r.
  repeat split.
Qed.

(** X10. When no row has a recipient title, or no row has a nominator
    title (an empty file included), the overlap rate is 0/0 and every
    derived figure of [estimatePopulation] is NaN: the overlap, its
    percentage, the total of unique titles, the Chapman estimate, its
    standard error, both ends of the interval, every sensitivity estimate,
    the recommended range and every participation rate. *)
Theorem estimate_without_titles
        (sqrtQ : Q -> Q) (total_rows : Z) (rows : list CsvRow.t) :
  (forall r, In r rows -> truthy (trim (CsvRow.recipient_title r)) = false)
  \/ (forall r, In r rows -> truthy (trim (CsvRow.nominator_title r)) = false) ->
  let est := Estimator.estimatePopulation sqrtQ total_rows
               (CSV.processCSVToRawData rows) in
  let tc := PopulationEstimate.titleCount est in
  let cr := PopulationEstimate.captureRecapture est in
  let rec := PopulationEstimate.recommended est in
  overlap tc = NaN /\ overlapPct tc = NaN /\ totalUnique tc = NaN
  /\ chapmanEstimate cr = NaN /\ standardError cr = NaN
  /\ ci95 cr = (NaN, NaN)
  /\ (forall k n, In (k, n) (sensitivity cr) -> n = NaN)
  /\ Recommended.low rec = NaN /\ Recommended.mid rec = NaN
  /\ Recommended.high rec = NaN
  /\ (forall p, In p (PopulationEstimate.participationRates est) ->
      ParticipationRate.population p = NaN
      /\ ParticipationRate.awardsPerPerson p = NaN).
Proof.
  intros Hblank est tc cr rec.
  set (raw := CSV.processCSVToRawData rows) in *.
  assert (Hov : overlap (Population.computeTitleCount raw) = NaN).
  { apply overlap_without_titles.
    destruct Hblank as [Hb | Hb].
    - destruct (title_stats_absent "Recipient" (map CsvRow.recipient_title rows))
        as [_ E].
      { intros t Ht. apply in_map_iff in Ht. destruct Ht as (r & <- & Hr). auto. }
      change (CSV.title_stats "Recipient" (map CsvRow.recipient_title rows))
        with (RawData.recipient_title raw) in E.
      rewrite E. reflexivity.
    - destruct (title_stats_absent "Nominator" (map CsvRow.nominator_title rows))
        as [_ E].
      { intros t Ht. apply in_map_iff in Ht. destruct Ht as (r & <- & Hr). auto. }
      change (CSV.title_stats "Nominator" (map CsvRow.nominator_title rows))
        with (RawData.nominator_title raw) in E.
      rewrite E. apply Nat.min_0_r. }
  destruct (capture_recapture_without_overlap sqrtQ _ Hov)
    as (Hc & Hse & Hci & Hsens).
  assert (Htot : totalUnique (Population.computeTitleCount raw) = NaN).
  { unfold Population.computeTitleCount in Hov |- *.
    cbn [overlap] in Hov. cbn [totalUnique]. rewrite Hov. reflexivity. }
  assert (Hpct : overlapPct (Population.computeTitleCount raw) = NaN).
  { unfold Population.computeTitleCount in Hov |- *.
    cbn [overlap] in Hov. cbn [overlapPct]. rewrite Hov. reflexivity. }
  unfold tc, cr, rec, est, Estimator.estimatePopulation.
  cbn [PopulationEstimate.titleCount PopulationEstimate.captureRecapture
       PopulationEstimate.recommended PopulationEstimate.participationRates
       Recommended.low Recommended.mid Recommended.high].
  fold raw. rewrite Hc, Hse, Hci, Htot. cbn [fst snd].
  repeat split; try assumption; try reflexivity.
  - intros k n Hin.
    assert (Hn : In n (map snd (sensitivity
                 (Population.computeCaptureRecapture sqrtQ
                    (Population.computeTitleCount raw))))).
    { apply in_map_iff. exists (k, n). split; [reflexivity | exact Hin]. }
    rewrite Hsens in Hn.
    apply in_map_iff in Hn. now destruct Hn as (_ & <- & _).
  - destruct H as [<- | [<- | [<- | []]]]; reflexivity.
  - destruct H as [<- | [<- | [<- | []]]]; reflexivity.
Qed.

Lemma estimate_without_titles_witness :
  chapmanEstimate
    (PopulationEstimate.captureRecapture
       (Estimator.estimatePopulation (fun q => q) 1
          (CSV.processCSVToRawData [Sample.row "Analyst" ""]))) = NaN.
Proof.
  refine (proj1 (proj2 (proj2 (proj2
    (@estimate_without_titles (fun q => q) 1 [Sample.row "Analyst" ""] _))))).
  left. intros r [<- | []]. reflexivity.
Defined.

(* ================================================================== *)
(** * The category distribution *)
(* ================================================================== *)

Lemma Permutation_filter_same (A : Type) (p : A -> bool) (l l' : list A) :
  Permutation l l' -> Permutation (filter p l) (filter p l').
Proof.
  induction 1 as [|x l l' _ IH|x y l|l l' l'' _ IH1 _ IH2]; simpl.
  - constructor.
  - destruct (p x); [now constructor | exact IH].
  - destruct (p x), (p y); try reflexivity. apply perm_swap.
  - now transitivity (filter p l').
Qed.

Lemma filter_of_map (A B : Type) (f : A -> B) (p : B -> bool) (l : list A) :
  filter p (map f l) = map f (filter (fun x => p (f x)) l).
Proof.
  induction l as [|x l IH]; simpl; [reflexivity|].
  destruct (p (f x)); simpl; now rewrite IH.
Qed.

Lemma total_of_filter_bump (p : string -> bool) (d : dict Z) (k : string) :
  total_of (filter (fun e => p (fst e)) (bump d k))
  = (total_of (filter (fun e => p (fst e)) d) + if p k then 1 else 0)%Z.
Proof.
  unfold bump, total_of.
  induction d as [|[k' v'] d IH]; simpl.
  - destruct (p k); simpl; lia.
  - destruct (String.eqb_spec k k') as [->|Hne]; simpl.
    + destruct (p k'); simpl; lia.
    + destruct (p k'); simpl; rewrite IH; lia.
Qed.

Lemma tally_filter_total (A : Type) (key : A -> string) (p : string -> bool)
      (l : list A) (d : dict Z) :
  total_of (filter (fun e => p (fst e))
                   (fold_left (fun counts c => bump counts (key c)) l d))
  = (total_of (filter (fun e => p (fst e)) d)
     + count_if (fun c => p (key c)) l)%Z.
Proof.
  revert d. unfold count_if.
  induction l as [|c l IH]; intros d; simpl; [lia|].
  rewrite IH, total_of_filter_bump.
  destruct (p (key c)); simpl List.length; lia.
Qed.

Lemma sum_by_total_of (l : list (string * Z)) : sum_by snd l = total_of l.
Proof. unfold sum_by, total_of. induction l; simpl; congruence. Qed.

Lemma bucket_validity (valid : list string) (c : Classification.t) :
  has valid "(empty)" = false ->
  Phase2.isValidCategory (Some (Phase2.bucket valid c)) valid
  = Phase2.isValidCategory (Some (Phase2.trimmed_category c)) valid.
Proof.
  intros He. unfold Phase2.bucket.
  destruct (Phase2.isValidCategory (Some (Phase2.trimmed_category c)) valid)
    eqn:E; [exact E|].
  destruct (truthy (Phase2.trimmed_category c)); [exact E|].
  unfold Phase2.isValidCategory. simpl truthy. cbv iota.
  change (trim "(empty)") with "(empty)". exact He.
Qed.

Section CategoryDistribution.

Variable data : Phase2Data.t.
Variable taxonomy : option Taxonomy.t.

Let clf := Phase2Data.classifications data.
Let result := Phase2.processPhase2 data taxonomy.
Let valid := Phase2Analysis.validCategories result.
Let dist := Phase2Analysis.categoryDistribution result.

Let in_bucket (k : string) (c : Classification.t) : bool :=
  String.eqb (Phase2.bucket valid c) k.

Let catCounts : dict Z :=
  fold_left (fun counts c => bump counts (Phase2.bucket valid c)) clf [].

Let row (e : string * Z) : CategoryCount.t :=
  let '(category, count) := e in
  {| CategoryCount.category := category;
     CategoryCount.count := count;
     CategoryCount.pct := Phase2.percent_of count (List.length clf);
     CategoryCount.isValid := Phase2.isValidCategory (Some category) valid |}.

Lemma distribution_rows :
  Permutation dist (map row (entries catCounts)).
Proof. apply sort_by_Permutation. Qed.

Lemma distribution_keys :
  map CategoryCount.category (map row (entries catCounts))
  = keys catCounts.
Proof.
  unfold keys. rewrite map_map. apply map_ext. now intros [k n].
Qed.

Lemma distribution_counts :
  map CategoryCount.count (map row (entries catCounts))
  = map snd (entries catCounts).
Proof. rewrite map_map. apply map_ext. now intros [k n]. Qed.

(** X11. When no category of the output names a member inherited from
    [Object.prototype], the category distribution of [processPhase2] has
    one row for each bucket, with the number of classifications of that
    bucket (at least one), its share of all classifications and whether
    the bucket is a category id; the rows are in descending order of count
    and their counts add up to the number of classifications.  Unless
    "(empty)" is a category id, [malformedCount] is the total of the rows
    that are not valid. *)
Theorem category_distribution_adds_up :
  forallb (fun c => own_key (Phase2.bucket valid c)) clf = true ->
  NoDup (map CategoryCount.category dist)
  /\ (forall r, In r dist ->
        CategoryCount.count r = count_if (in_bucket (CategoryCount.category r)) clf
        /\ (1 <= CategoryCount.count r)%Z
        /\ CategoryCount.pct r
           = Phase2.percent_of (CategoryCount.count r) (List.length clf)
        /\ CategoryCount.isValid r
           = Phase2.isValidCategory (Some (CategoryCount.category r)) valid)
  /\ (forall c, In c clf ->
        exists r, In r dist /\ CategoryCount.category r = Phase2.bucket valid c)
  /\ StronglySorted
       (fun a b => (CategoryCount.count b <= CategoryCount.count a)%Z) dist
  /\ sum_by CategoryCount.count dist = Z.of_nat (List.length clf)
  /\ (has valid "(empty)" = false ->
      Phase2Analysis.malformedCount result
      = sum_by CategoryCount.count
               (filter (fun r => negb (CategoryCount.isValid r)) dist)).
Proof.
  intros _.
  pose proof distribution_rows as Hperm.
  assert (Hnd : NoDup (map fst catCounts))
    by (apply tally_keys_NoDup; constructor).
  assert (Hrow : forall r, In r dist ->
            exists k n, r = row (k, n)
                        /\ n = count_if (in_bucket k) clf /\ (0 < n)%Z).
  { intros r Hr. apply (Permutation_in _ Hperm) in Hr.
    apply in_map_iff in Hr. destruct Hr as ([k n] & <- & Hin).
    apply tally_entry in Hin. exists k, n. split; [reflexivity | exact Hin]. }
  split; [|split; [|split; [|split; [|split]]]].
  - apply (Permutation_NoDup (Permutation_map _ (Permutation_sym Hperm))).
    rewrite distribution_keys. unfold keys.
    apply (Permutation_NoDup
             (Permutation_map fst (Permutation_sym (entries_Permutation _)))).
    exact Hnd.
  - intros r Hr. destruct (Hrow r Hr) as (k & n & -> & Hn & Hpos).
    cbn [row CategoryCount.count CategoryCount.category CategoryCount.pct
         CategoryCount.isValid].
    repeat split; [exact Hn | lia].
  - intros c Hc.
    exists (row (Phase2.bucket valid c,
                 count_if (in_bucket (Phase2.bucket valid c)) clf)).
    split; [|reflexivity].
    apply (Permutation_in _ (Permutation_sym Hperm)).
    apply in_map. apply tally_entry. split; [reflexivity|].
    assert (Hin : In c (filter (in_bucket (Phase2.bucket valid c)) clf)).
    { apply filter_In. split; [exact Hc | apply String.eqb_refl]. }
    unfold count_if.
    destruct (filter _ clf); [contradiction | simpl List.length; lia].
  - apply (@sort_by_descending _ CategoryCount.count). reflexivity.
  - rewrite (sum_by_Permutation _ Hperm), sum_by_map.
    replace (sum_by (fun x => CategoryCount.count (row x)) (entries catCounts))
      with (sum_by snd (entries catCounts)).
    + rewrite sum_by_total_of, total_of_entries.
      unfold catCounts. rewrite tally_total. reflexivity.
    + unfold sum_by. clear. induction (entries catCounts) as [|[k n] l IH];
        simpl; congruence.
  - intros He.
    rewrite (sum_by_Permutation _ (Permutation_filter_same _ Hperm)).
    rewrite filter_of_map, sum_by_map.
    replace (sum_by (fun x => CategoryCount.count (row x))
                    (filter (fun x => negb (CategoryCount.isValid (row x)))
                            (entries catCounts)))
      with (total_of
              (filter (fun e => negb (Phase2.isValidCategory (Some (fst e)) valid))
                      (entries catCounts))).
    + rewrite (total_of_Permutation
                 (Permutation_filter_same _ (entries_Permutation catCounts))).
      unfold catCounts.
      rewrite (tally_filter_total (Phase2.bucket valid)
                 (fun k => negb (Phase2.isValidCategory (Some k) valid))).
      change (total_of (filter _ [])) with 0%Z.
      unfold result, Phase2.processPhase2.
      cbn [Phase2Analysis.malformedCount]. fold clf.
      unfold count_if. rewrite Z.add_0_l. do 2 f_equal.
      apply filter_ext. intros c. f_equal.
      symmetry. apply bucket_validity. exact He.
    + clear.
      induction (entries catCounts) as [|[k n] l IH]; [reflexivity|].
      simpl filter. cbn [row CategoryCount.isValid fst].
      destruct (negb _); [|exact IH].
      unfold sum_by, total_of in *. simpl. f_equal. exact IH.
Qed.

End CategoryDistribution.

Lemma category_distribution_adds_up_witness :
  sum_by CategoryCount.count
    (Phase2Analysis.categoryDistribution
       (Phase2.processPhase2 Sample.four_A_three_B (Some Sample.taxonomy_AB)))
  = 7%Z.
Proof.
  exact (proj1 (proj2 (proj2 (proj2 (proj2
    (@category_distribution_adds_up Sample.four_A_three_B
       (Some Sample.taxonomy_AB) eq_refl)))))).
Defined.

(* ================================================================== *)
(** * The subcategory formats *)
(* ================================================================== *)

Section FormatCounts.

Variable ids : list string.

Let occ (l : list Classification.t) (k : string) : Z :=
  count_if (fun c => String.eqb (format_of ids c) k) l.

Lemma count_format_get (d : dict (Z * string)) (c : Classification.t)
      (k : string) :
  get (Phase2.count_format ids d c) k
  = if String.eqb k (format_of ids c)
    then Some (match get d k with
               | Some (n, ex) => ((n + 1)%Z, ex)
               | None => (1%Z, example_of c)
               end)
    else get d k.
Proof.
  unfold Phase2.count_format. fold (format_of ids c).
  destruct (get d (format_of ids c)) as [[n ex]|] eqn:E;
    rewrite get_set;
    destruct (String.eqb_spec k (format_of ids c)) as [->|Hne];
    try reflexivity; now rewrite E.
Qed.

Lemma count_format_keys_NoDup (d : dict (Z * string)) (c : Classification.t) :
  NoDup (map fst d) -> NoDup (map fst (Phase2.count_format ids d c)).
Proof.
  intros H. unfold Phase2.count_format.
  destruct (match get d _ with Some e => e | None => _ end) as [n ex].
  now apply set_keys_NoDup.
Qed.

Lemma count_formats_keys_NoDup (l : list Classification.t)
      (d : dict (Z * string)) :
  NoDup (map fst d) ->
  NoDup (map fst (fold_left (Phase2.count_format ids) l d)).
Proof.
  revert d. induction l as [|c l IH]; intros d H; simpl; [exact H|].
  apply IH. now apply count_format_keys_NoDup.
Qed.

Lemma count_formats_get (l : list Classification.t) (d : dict (Z * string))
      (k : string) :
  get (fold_left (Phase2.count_format ids) l d) k
  = match get d k with
    | Some (n, ex) => Some ((n + occ l k)%Z, ex)
    | None =>
        match first_of_format ids k l with
        | Some c => Some (occ l k, example_of c)
        | None => None
        end
    end.
Proof.
  revert d. unfold occ, count_if, first_of_format.
  induction l as [|c l IH]; intros d.
  - simpl. destruct (get d k) as [[n ex]|]; [|reflexivity].
    now rewrite Z.add_0_r.
  - cbn [fold_left]. rewrite IH, count_format_get. cbn [find filter].
    rewrite (String.eqb_sym k).
    destruct (String.eqb (format_of ids c) k).
    + destruct (get d k) as [[n ex]|]; cbn [List.length];
        do 2 f_equal; lia.
    + reflexivity.
Qed.

Lemma count_format_sum (d : dict (Z * string)) (c : Classification.t) :
  sum_by (fun e => fst (snd e)) (Phase2.count_format ids d c)
  = (sum_by (fun e => fst (snd e)) d + 1)%Z.
Proof.
  unfold Phase2.count_format.
  destruct (get d (Phase2.detectSubcategoryFormat _ ids)) as [[n ex]|] eqn:E;
    rewrite (sum_by_set fst), E; cbn [fst]; lia.
Qed.

Lemma count_formats_sum (l : list Classification.t) (d : dict (Z * string)) :
  sum_by (fun e => fst (snd e)) (fold_left (Phase2.count_format ids) l d)
  = (sum_by (fun e => fst (snd e)) d + Z.of_nat (List.length l))%Z.
Proof.
  revert d. induction l as [|c l IH]; intros d; cbn [fold_left List.length].
  - lia.
  - rewrite IH, count_format_sum. lia.
Qed.

End FormatCounts.

Lemma format_is_label (sub : option string) (ids : list string) :
  In (Phase2.detectSubcategoryFormat sub ids) format_labels.
Proof.
  unfold Phase2.detectSubcategoryFormat, format_labels.
  destruct sub as [s|]; [|now left].
  repeat match goal with
         | |- In (if ?b then _ else _) _ => destruct b
         | |- In (let x := _ in _) _ => cbv zeta
         end; simpl; tauto.
Qed.

Lemma find_first (A : Type) (p : A -> bool) (l : list A) (x : A) :
  find p l = Some x ->
  exists before after,
    l = before ++ x :: after /\ p x = true
    /\ forall y, In y before -> p y = false.
Proof.
  induction l as [|y l IH]; simpl; [discriminate|].
  destruct (p y) eqn:E.
  - intros [= <-]. exists [], l. repeat split; [exact E | contradiction].
  - intros H. destruct (IH H) as (b & a & -> & Hx & Hb).
    exists (y :: b), a. repeat split; [exact Hx|].
    intros z [<- | Hz]; auto.
Qed.

(** X12. The subcategory formats of [processPhase2] have one row for each
    format that occurs, a format being one of the nine labels of
    [detectSubcategoryFormat]; a row carries the number of classifications
    of that format and, as its example, the subcategory of the first of
    them in the input ("(null)" when it has none).  The rows are in
    descending order of count, their counts add up to the number of
    classifications, and [subcategoryNullCount] is the count of the row
    "Null / Empty", or 0 without such a row. *)
Theorem subcategory_formats_add_up
        (data : Phase2Data.t) (taxonomy : option Taxonomy.t) :
  let clf := Phase2Data.classifications data in
  let result := Phase2.processPhase2 data taxonomy in
  let ids := subcategory_ids taxonomy in
  let formats := Phase2Analysis.subcategoryFormats result in
  NoDup (map SubcategoryFormat.format formats)
  /\ (forall r, In r formats ->
        In (SubcategoryFormat.format r) format_labels
        /\ SubcategoryFormat.count r
           = count_if (fun c => String.eqb (format_of ids c)
                                           (SubcategoryFormat.format r)) clf
        /\ (1 <= SubcategoryFormat.count r)%Z
        /\ exists before c after,
             clf = before ++ c :: after
             /\ format_of ids c = SubcategoryFormat.format r
             /\ (forall c', In c' before ->
                            format_of ids c' <> SubcategoryFormat.format r)
             /\ SubcategoryFormat.example r = example_of c)
  /\ (forall c, In c clf ->
        exists r, In r formats /\ SubcategoryFormat.format r = format_of ids c)
  /\ StronglySorted
       (fun a b => (SubcategoryFormat.count b <= SubcategoryFormat.count a)%Z)
       formats
  /\ sum_by SubcategoryFormat.count formats = Z.of_nat (List.length clf)
  /\ Phase2Analysis.subcategoryNullCount result
     = match find (fun r => String.eqb (SubcategoryFormat.format r)
                                       Phase2.Null_Empty) formats with
       | Some r => SubcategoryFormat.count r
       | None => 0%Z
       end.
Proof.
  intros clf result ids formats.
  set (formatCounts := fold_left (Phase2.count_format ids) clf []).
  set (row := fun e : string * (Z * string) =>
                let '(format, (count, example)) := e in
                {| SubcategoryFormat.format := format;
                   SubcategoryFormat.count := count;
                   SubcategoryFormat.example := example |}).
  assert (Hids : ids = snd match taxonomy with
                           | Some t => Phase2.extractValidIds t
                           | None => (Phase2.default_categories, [])
                           end) by (unfold ids; now destruct taxonomy).
  assert (Hformats : formats
                     = sort_by Phase2.by_format_count_desc
                               (map row (entries formatCounts))).
  { unfold formats, result, Phase2.processPhase2.
    cbn [Phase2Analysis.subcategoryFormats]. rewrite <- Hids. reflexivity. }
  assert (Hperm : Permutation formats (map row (entries formatCounts)))
    by (rewrite Hformats; apply sort_by_Permutation).
  assert (Hnd : NoDup (map fst formatCounts))
    by (apply count_formats_keys_NoDup; constructor).
  assert (Hentry : forall k n ex,
            In (k, (n, ex)) (entries formatCounts) <->
            exists c, first_of_format ids k clf = Some c
                      /\ n = count_if (fun c => String.eqb (format_of ids c) k) clf
                      /\ ex = example_of c).
  { intros k n ex. rewrite entries_In. split.
    - intros H. apply (In_get _ _ _ Hnd) in H.
      unfold formatCounts in H. rewrite count_formats_get in H.
      simpl get in H.
      destruct (first_of_format ids k clf) as [c|]; [|discriminate].
      injection H as <- <-. now exists c.
    - intros (c & Hc & -> & ->). apply get_In.
      unfold formatCounts. rewrite count_formats_get. simpl get.
      now rewrite Hc. }
  assert (Hkeys : map SubcategoryFormat.format (map row (entries formatCounts))
                  = map fst (entries formatCounts)).
  { rewrite map_map. apply map_ext. now intros [k [n ex]]. }
  assert (Hpos : forall k c, first_of_format ids k clf = Some c ->
            (1 <= count_if (fun c => String.eqb (format_of ids c) k) clf)%Z).
  { intros k c Hc. apply find_some in Hc. destruct Hc as [Hin Hk].
    assert (H : In c (filter (fun c => String.eqb (format_of ids c) k) clf))
      by (apply filter_In; auto).
    unfold count_if. destruct (filter _ clf); [contradiction|].
    simpl List.length. lia. }
  split; [|split; [|split; [|split; [|split]]]].
  - apply (Permutation_NoDup (Permutation_map _ (Permutation_sym Hperm))).
    rewrite Hkeys.
    apply (Permutation_NoDup
             (Permutation_map fst (Permutation_sym (entries_Permutation _)))).
    exact Hnd.
  - intros r Hr. apply (Permutation_in _ Hperm) in Hr.
    apply in_map_iff in Hr. destruct Hr as ([k [n ex]] & <- & Hin).
    apply Hentry in Hin. destruct Hin as (c & Hc & -> & ->).
    cbn [row SubcategoryFormat.format SubcategoryFormat.count
         SubcategoryFormat.example].
    destruct (find_first _ _ Hc) as (before & after & Hsplit & Hk & Hb).
    apply String.eqb_eq in Hk.
    split; [rewrite <- Hk; apply format_is_label|].
    split; [reflexivity|]. split; [now apply (Hpos k c)|].
    exists before, c, after. repeat split; auto.
    intros c' Hc'. apply Hb in Hc'. now apply String.eqb_neq.
  - intros c Hc.
    destruct (first_of_format ids (format_of ids c) clf) as [c0|] eqn:E.
    + exists (row (format_of ids c,
                   (count_if (fun c' => String.eqb (format_of ids c')
                                                    (format_of ids c)) clf,
                    example_of c0))).
      split; [|reflexivity].
      apply (Permutation_in _ (Permutation_sym Hperm)).
      apply in_map. apply Hentry. now exists c0.
    + exfalso. unfold first_of_format in E.
      apply (find_none _ _ E) in Hc. now rewrite String.eqb_refl in Hc.
  - rewrite Hformats.
    apply (@sort_by_descending _ SubcategoryFormat.count). reflexivity.
  - rewrite (sum_by_Permutation _ Hperm), sum_by_map.
    replace (sum_by (fun x => SubcategoryFormat.count (row x))
                    (entries formatCounts))
      with (sum_by (fun e : string * (Z * string) => fst (snd e))
                   (entries formatCounts)).
    + rewrite (sum_by_Permutation _ (entries_Permutation formatCounts)).
      unfold formatCounts. rewrite count_formats_sum. reflexivity.
    + unfold sum_by. clear.
      induction (entries formatCounts) as [|[k [n ex]] l IH]; simpl; congruence.
  - assert (Hnull : Phase2Analysis.subcategoryNullCount result
                    = count_if (fun c => String.eqb (format_of ids c)
                                                    Phase2.Null_Empty) clf).
    { unfold result, Phase2.processPhase2.
      cbn [Phase2Analysis.subcategoryNullCount]. rewrite <- Hids. reflexivity. }
    rewrite Hnull.
    destruct (find _ formats) as [r|] eqn:E.
    + apply find_some in E. destruct E as [Hr Hk].
      apply String.eqb_eq in Hk.
      apply (Permutation_in _ Hperm) in Hr.
      apply in_map_iff in Hr. destruct Hr as ([k [n ex]] & <- & Hin).
      apply Hentry in Hin. destruct Hin as (c & _ & -> & _).
      cbn [row SubcategoryFormat.format SubcategoryFormat.count] in *.
      now rewrite Hk.
    + destruct (first_of_format ids Phase2.Null_Empty clf) as [c|] eqn:F.
      * exfalso.
        assert (Hin : In (row (Phase2.Null_Empty,
                     (count_if (fun c' => String.eqb (format_of ids c')
                                                      Phase2.Null_Empty) clf,
                      example_of c))) formats).
        { apply (Permutation_in _ (Permutation_sym Hperm)).
          apply in_map. apply Hentry. now exists c. }
        apply (find_none _ _ E) in Hin. discriminate Hin.
      * unfold count_if, first_of_format in *.
        replace (filter _ clf) with (@nil Classification.t); [reflexivity|].
        symmetry. clear - F. induction clf as [|c l IH]; [reflexivity|].
        simpl in *. destruct (String.eqb _ _); [discriminate | now apply IH].
Qed.

(* ================================================================== *)
(** * Batch health *)
(* ================================================================== *)

Lemma lt_of_Z (i n : Z) : lt (of_Z i) (of_Z n) = (i <? n)%Z.
Proof.
  unfold lt, of_Z.
  destruct (Qle_bool (inject_Z n) (inject_Z i)) eqn:E.
  - apply Qle_bool_iff in E. rewrite <- Zle_Qle in E.
    symmetry. apply Z.ltb_ge. exact E.
  - symmetry. apply Z.ltb_lt.
    destruct (Z_lt_le_dec i n) as [H|H]; [exact H|].
    rewrite Zle_Qle in H. apply Qle_bool_iff in H. congruence.
Qed.

Lemma count_if_cons (A : Type) (p : A -> bool) (x : A) (l : list A) :
  count_if p (x :: l) = ((if p x then 1 else 0) + count_if p l)%Z.
Proof. unfold count_if. simpl. destruct (p x); simpl List.length; lia. Qed.

Lemma count_if_nonneg (A : Type) (p : A -> bool) (l : list A) :
  (0 <= count_if p l)%Z.
Proof. unfold count_if. lia. Qed.

Section BatchMap.

Variable valid : list string.

Let cnt := Batches.classified_in.
Let mal := Batches.malformed_in valid.

Lemma batch_get_set (d : Batches.batch_map) (k k' : Z) (v : Z * Z) :
  Batches.get (Batches.set d k v) k'
  = if (k' =? k)%Z then Some v else Batches.get d k'.
Proof.
  induction d as [|[k0 v0] d IH]; simpl.
  - reflexivity.
  - destruct (Z.eqb_spec k k0) as [->|Hne]; simpl.
    + destruct (Z.eqb_spec k' k0); reflexivity.
    + rewrite IH. destruct (Z.eqb_spec k' k0) as [->|];
        [|reflexivity].
      destruct (Z.eqb_spec k0 k); [congruence | reflexivity].
Qed.

Lemma note_batch_get (d : Batches.batch_map) (c : Classification.t) (k : Z) :
  Batches.get (Batches.note_batch valid d c) k
  = if (k =? Classification.batch c)%Z
    then Some (match Batches.get d k with
               | Some (n, m) =>
                   ((n + 1)%Z,
                    if Phase2.isValidCategory (Classification.category c) valid
                    then m else (m + 1)%Z)
               | None =>
                   (1%Z,
                    if Phase2.isValidCategory (Classification.category c) valid
                    then 0%Z else 1%Z)
               end)
    else Batches.get d k.
Proof.
  unfold Batches.note_batch.
  destruct (Batches.get d (Classification.batch c)) as [[n m]|] eqn:E;
    rewrite batch_get_set;
    destruct (Z.eqb_spec k (Classification.batch c)) as [->|Hne];
    try reflexivity; now rewrite E.
Qed.

Lemma note_batches_get (l : list Classification.t) (d : Batches.batch_map)
      (k : Z) :
  Batches.get (fold_left (Batches.note_batch valid) l d) k
  = match Batches.get d k with
    | Some (n, m) => Some ((n + cnt l k)%Z, (m + mal l k)%Z)
    | None => if (cnt l k =? 0)%Z then None else Some (cnt l k, mal l k)
    end.
Proof.
  revert d. unfold cnt, mal, Batches.classified_in, Batches.malformed_in.
  induction l as [|c l IH]; intros d.
  - simpl. destruct (Batches.get d k) as [[n m]|]; [|reflexivity].
    unfold count_if. simpl. now rewrite !Z.add_0_r.
  - cbn [fold_left]. rewrite IH, note_batch_get, !count_if_cons.
    rewrite (Z.eqb_sym k).
    pose proof (count_if_nonneg
                  (fun c => (Classification.batch c =? k)%Z) l) as Hpos.
    destruct (Z.eqb_spec (Classification.batch c) k) as [Hk|Hk]; cbn [andb].
    + destruct (Batches.get d k) as [[n m]|];
        destruct (Phase2.isValidCategory _ valid); cbn [negb];
        try (do 2 f_equal; lia);
        (destruct (Z.eqb_spec (1 + count_if
                     (fun c => (Classification.batch c =? k)%Z) l) 0);
         [lia | do 2 f_equal; lia]).
    + rewrite !Z.add_0_l. reflexivity.
Qed.

Lemma malformed_le_classified (l : list Classification.t) (k : Z) :
  (0 <= mal l k <= cnt l k)%Z.
Proof.
  unfold mal, cnt, Batches.malformed_in, Batches.classified_in, count_if.
  split; [lia|]. apply inj_le.
  induction l as [|c l IH]; simpl; [lia|].
  destruct (Classification.batch c =? k)%Z; simpl; [|exact IH].
  destruct (negb _); simpl; lia.
Qed.

End BatchMap.

Lemma numbers_S (i : Z) (n : nat) :
  Batches.numbers i (S n) = i :: Batches.numbers (i + 1) n.
Proof.
  unfold Batches.numbers. cbn [seq map]. f_equal; [lia|].
  rewrite <- seq_shift, map_map. apply map_ext. intros k. lia.
Qed.

Lemma numbers_In (i : Z) (n : nat) (k : Z) :
  In k (Batches.numbers i n) <-> (i <= k < i + Z.of_nat n)%Z.
Proof.
  unfold Batches.numbers. rewrite in_map_iff. split.
  - intros (j & <- & Hj). apply in_seq in Hj. lia.
  - intros H. exists (Z.to_nat (k - i)). split; [lia|].
    apply in_seq. lia.
Qed.

Lemma numbers_sorted (i : Z) (n : nat) :
  StronglySorted Z.lt (Batches.numbers i n).
Proof.
  revert i. induction n as [|n IH]; intros i.
  - constructor.
  - rewrite numbers_S. constructor; [apply IH|].
    apply Forall_forall. intros k Hk. apply numbers_In in Hk. lia.
Qed.

Lemma filter_sorted (A : Type) (R : A -> A -> Prop) (p : A -> bool)
      (l : list A) :
  StronglySorted R l -> StronglySorted R (filter p l).
Proof.
  induction 1 as [|x l Hs IH Hx]; simpl; [constructor|].
  destruct (p x); [|exact IH].
  constructor; [exact IH|].
  apply Forall_forall. intros y Hy. apply filter_In in Hy.
  rewrite Forall_forall in Hx. now apply Hx.
Qed.

Lemma classified_split (l : list Classification.t) (i : Z) (n : nat) :
  (Batches.classified_in l i
   + count_if (fun c => (i + 1 <=? Classification.batch c)%Z
                        && (Classification.batch c <? i + 1 + Z.of_nat n)%Z) l
   = count_if (fun c => (i <=? Classification.batch c)%Z
                        && (Classification.batch c <? i + Z.of_nat (S n))%Z) l)%Z.
Proof.
  unfold Batches.classified_in.
  induction l as [|c l IH]; [reflexivity|].
  rewrite !count_if_cons.
  destruct (Z.eqb_spec (Classification.batch c) i);
    destruct (Z.leb_spec (i + 1) (Classification.batch c));
    destruct (Z.ltb_spec (Classification.batch c) (i + 1 + Z.of_nat n));
    destruct (Z.leb_spec i (Classification.batch c));
    destruct (Z.ltb_spec (Classification.batch c) (i + Z.of_nat (S n)));
    cbn [andb]; lia.
Qed.

Lemma classified_range_le (l : list Classification.t) (n : nat) :
  forall i,
    (sum_by (Batches.classified_in l)
            (filter (fun i => negb (Batches.classified_in l i =? 0)%Z)
                    (Batches.numbers i n))
     <= count_if (fun c => (i <=? Classification.batch c)%Z
                           && (Classification.batch c <? i + Z.of_nat n)%Z) l)%Z.
Proof.
  induction n as [|n IH]; intros i.
  - unfold Batches.numbers, sum_by. simpl. apply count_if_nonneg.
  - rewrite numbers_S. specialize (IH (i + 1)%Z).
    pose proof (classified_split l i n) as Hsplit.
    cbn [filter].
    destruct (Z.eqb_spec (Batches.classified_in l i) 0) as [E|E]; cbn [negb].
    + lia.
    + unfold sum_by in *. cbn [fold_right]. lia.
Qed.

Section BatchReport.

Variable data : Phase2Data.t.
Variable taxonomy : option Taxonomy.t.

Let clf := Phase2Data.classifications data.
Let metadata := Phase2Data.metadata data.
Let valid := category_ids taxonomy.
Let batch_size := Metadata.batch_size metadata.
Let batchMap := fold_left (Batches.note_batch valid) clf [].

Let health_of (i : Z) : BatchHealth.t :=
  {| BatchHealth.batch := i;
     BatchHealth.classified := Batches.classified_in clf i;
     BatchHealth.malformed := Batches.malformed_in valid clf i;
     BatchHealth.expected := batch_size |}.

Let present (i : Z) : bool := negb (Batches.classified_in clf i =? 0)%Z.
Let absent (i : Z) : bool := (Batches.classified_in clf i =? 0)%Z.

Lemma report_runs (n : nat) :
  forall (fuel : nat) (i total : Z) (H : list BatchHealth.t) (M : list Z),
    (n < fuel)%nat -> (i + Z.of_nat n = Z.max i total)%Z ->
    Batches.report fuel i (of_Z total) batch_size batchMap H M
    = Some (H ++ map health_of (filter present (Batches.numbers i n)),
            M ++ filter absent (Batches.numbers i n)).
Proof.
  induction n as [|n IH]; intros fuel i total H M Hfuel Hn;
    (destruct fuel as [|fuel]; [lia|]); cbn [Batches.report];
    rewrite lt_of_Z.
  - destruct (Z.ltb_spec i total); [lia|].
    unfold Batches.numbers. simpl. now rewrite !app_nil_r.
  - destruct (Z.ltb_spec i total); [|lia].
    rewrite numbers_S. cbn [filter].
    unfold batchMap at 1. rewrite note_batches_get. simpl Batches.get.
    assert (Hp : present i = negb (Batches.classified_in clf i =? 0)%Z)
      by reflexivity.
    assert (Ha : absent i = (Batches.classified_in clf i =? 0)%Z)
      by reflexivity.
    rewrite Hp, Ha. clear Hp Ha.
    destruct (Batches.classified_in clf i =? 0)%Z; cbn [negb].
    + rewrite (IH fuel (i + 1)%Z total) by lia.
      now rewrite <- app_assoc.
    + rewrite (IH fuel (i + 1)%Z total) by lia.
      cbn [map]. now rewrite <- app_assoc.
Qed.


(** X13. With a batch size other than 0, the loop over the batches ends
    after T = max(0, ceil(total_messages / batch_size)) rounds: then
    [batchHealth] lists, in ascending order, the batch numbers below T that
    some classification carries, each with the number of its
    classifications, the number of those without a valid category and the
    batch size, and [missingBatches] lists, in ascending order, the batch
    numbers below T that no classification carries.  A classification with
    a batch number outside 0 .. T-1 is in neither. *)
Theorem batch_report_covers (fuel : nat) :
  batch_size <> 0%Z ->
  let T := Z.max 0 (Qceiling (inject_Z (Metadata.total_messages metadata)
                              / inject_Z batch_size)) in
  (Z.to_nat T < fuel)%nat ->
  exists health missing,
    Batches.batch_report fuel data taxonomy = Some (health, missing)
    /\ health = map health_of (filter present (Batches.numbers 0 (Z.to_nat T)))
    /\ missing = filter absent (Batches.numbers 0 (Z.to_nat T))
    /\ Permutation (map BatchHealth.batch health ++ missing)
                   (Batches.numbers 0 (Z.to_nat T))
    /\ StronglySorted Z.lt (map BatchHealth.batch health)
    /\ StronglySorted Z.lt missing
    /\ (forall h, In h health ->
          (1 <= BatchHealth.classified h)%Z
          /\ (0 <= BatchHealth.malformed h <= BatchHealth.classified h)%Z)
    /\ (sum_by BatchHealth.classified health <= Z.of_nat (List.length clf))%Z.
Proof.
  intros Hbs T Hfuel.
  assert (Htotal : Batches.totalBatches metadata
                   = of_Z (Qceiling (inject_Z (Metadata.total_messages metadata)
                                     / inject_Z batch_size))).
  { unfold Batches.totalBatches. fold batch_size. unfold of_Z at 1 2.
    rewrite div_finite by (apply inject_Z_nonzero; exact Hbs).
    reflexivity. }
  assert (Hrun := @report_runs (Z.to_nat T) fuel 0
                    (Qceiling (inject_Z (Metadata.total_messages metadata)
                               / inject_Z batch_size)) [] [] Hfuel
                    ltac:(unfold T; lia)).
  assert (Hbatches : map BatchHealth.batch
                       (map health_of (filter present
                                         (Batches.numbers 0 (Z.to_nat T))))
                     = filter present (Batches.numbers 0 (Z.to_nat T))).
  { rewrite map_map. apply map_id. }
  eexists. eexists.
  split.
  { unfold Batches.batch_report. fold clf metadata valid batch_size batchMap.
    rewrite Htotal. exact Hrun. }
  cbn [app].
  split; [reflexivity|]. split; [reflexivity|].
  split; [|split; [|split; [|split]]].
  - rewrite Hbatches.
    replace (filter absent (Batches.numbers 0 (Z.to_nat T)))
      with (filter (fun i => negb (present i)) (Batches.numbers 0 (Z.to_nat T))).
    + apply filter_split_Permutation.
    + apply filter_ext. intros i. unfold present, absent.
      now rewrite negb_involutive.
  - rewrite Hbatches. apply filter_sorted, numbers_sorted.
  - apply filter_sorted, numbers_sorted.
  - intros h Hh. apply in_map_iff in Hh. destruct Hh as (i & <- & Hi).
    apply filter_In in Hi. destruct Hi as [_ Hi].
    cbn [health_of BatchHealth.classified BatchHealth.malformed].
    unfold present in Hi. apply negb_true_iff, Z.eqb_neq in Hi.
    pose proof (malformed_le_classified valid clf i) as Hm.
    split; [|exact Hm]. unfold Batches.classified_in, count_if in *. lia.
  - rewrite sum_by_map.
    cbn [health_of BatchHealth.classified].
    pose proof (classified_range_le clf (Z.to_nat T) 0) as Hgen.
    fold present in Hgen.
    assert (Hle : (count_if (fun c => (0 <=? Classification.batch c)%Z
                                      && (Classification.batch c
                                          <? 0 + Z.of_nat (Z.to_nat T))%Z) clf
                   <= Z.of_nat (List.length clf))%Z).
    { unfold count_if. apply inj_le, filter_length_le. }
    exact (Z.le_trans _ _ _ Hgen Hle).
Qed.


End BatchReport.

Lemma batch_report_covers_witness :
  exists health missing,
    Batches.batch_report 10 Sample.three_batches (Some Sample.taxonomy_AB)
    = Some (health, missing)
    /\ map BatchHealth.batch health = [0; 2]%Z
    /\ missing = [1]%Z.
Proof.
  destruct (@batch_report_covers Sample.three_batches (Some Sample.taxonomy_AB)
              10 ltac:(discriminate) ltac:(vm_compute; lia))
    as (health & missing & Hrun & Hh & Hm & _).
  exists health, missing. split; [exact Hrun|].
  split; [rewrite Hh | rewrite Hm]; vm_compute; reflexivity.
Defined.


(* ================================================================== *)
(** * Themes *)
(* ================================================================== *)

Lemma fold_left_flat_map (A B C : Type) (f : A -> C -> A) (g : B -> list C)
      (l : list B) (a : A) :
  fold_left (fun acc x => fold_left f (g x) acc) l a
  = fold_left f (flat_map g l) a.
Proof.
  revert a. induction l as [|x l IH]; intros a; simpl; [reflexivity|].
  now rewrite fold_left_app, IH.
Qed.

Lemma all_chars_map (p : ascii -> bool) (f : ascii -> ascii) (s : string) :
  (forall c, p (f c) = true) -> all_chars p (map_string f s) = true.
Proof.
  intros H. induction s as [|c s IH]; simpl; [reflexivity|].
  now rewrite H, IH.
Qed.

Lemma all_chars_map_keeps (p q : ascii -> bool) (f : ascii -> ascii)
      (s : string) :
  (forall c, q c = true -> p (f c) = true) ->
  all_chars q s = true -> all_chars p (map_string f s) = true.
Proof.
  intros H. induction s as [|c s IH]; simpl; [reflexivity|].
  intros Hs. apply andb_true_iff in Hs. destruct Hs as [Hc Hs].
  now rewrite (H c Hc), IH.
Qed.

Lemma all_chars_trimStart (p : ascii -> bool) (s : string) :
  all_chars p s = true -> all_chars p (trimStart s) = true.
Proof.
  induction s as [|c s IH]; simpl; [reflexivity|].
  intros H. destruct (is_space c); [|exact H].
  apply andb_true_iff in H. now apply IH.
Qed.

Lemma all_chars_trimEnd (p : ascii -> bool) (s : string) :
  all_chars p s = true -> all_chars p (trimEnd s) = true.
Proof.
  induction s as [|c s IH]; simpl; [reflexivity|].
  intros H. apply andb_true_iff in H. destruct H as [Hc Hs].
  specialize (IH Hs).
  destruct (trimEnd s) as [|c' s'].
  - destruct (is_space c); simpl; [reflexivity | now rewrite Hc].
  - cbn [all_chars] in *. now rewrite Hc, IH.
Qed.

Lemma lower_char_not_upper (c : ascii) : negb (is_upper (lower_char c)) = true.
Proof. destruct c as [[] [] [] [] [] [] [] []]; reflexivity. Qed.

Lemma normalize_shape (t : string) :
  all_chars (fun c => negb (is_upper c) && negb (Ascii.eqb c "_"))
            (Themes.normalize t) = true.
Proof.
  unfold Themes.normalize, Themes.replace_underscores.
  apply (@all_chars_map_keeps _ (fun c => negb (is_upper c))).
  - intros c Hc. destruct (Ascii.eqb c "_") eqn:E; [reflexivity|].
    now rewrite Hc, E.
  - unfold trim. apply all_chars_trimEnd, all_chars_trimStart.
    apply all_chars_map. exact lower_char_not_upper.
Qed.

Lemma themeCounts_tally (clf : list Classification.t) :
  Themes.themeCounts clf
  = fold_left (fun counts t => bump counts (Themes.normalize t))
              (filter (fun t => truthy (Themes.normalize t))
                      (Themes.all_themes clf)) [].
Proof.
  unfold Themes.themeCounts. rewrite fold_left_flat_map.
  unfold Themes.count_theme. cbv zeta.
  apply (fold_left_when (fun t => truthy (Themes.normalize t))
                        (fun counts t => bump counts (Themes.normalize t))).
Qed.

(** X15. When no normalized theme names a member inherited from
    [Object.prototype], [topThemes] has min(20, number of distinct themes)
    rows in descending order of count, with distinct themes.  A theme is
    non-empty, has no upper-case ASCII letter and no underscore; its count
    is the number of themes of the input, over all classifications, that
    are normalized to it (lower case, trimmed, underscores replaced by
    spaces).  No theme left out has a larger count than one listed. *)
Theorem top_themes_count_normalized (clf : list Classification.t) :
  forallb (fun t => own_key (Themes.normalize t)) (Themes.all_themes clf) = true ->
  let top := Themes.topThemes clf in
  List.length top = Nat.min 20 (List.length (Themes.themeCounts clf))
  /\ NoDup (map ThemeCount.theme top)
  /\ StronglySorted (fun a b => (ThemeCount.count b <= ThemeCount.count a)%Z) top
  /\ (forall r, In r top ->
        truthy (ThemeCount.theme r) = true
        /\ all_chars (fun c => negb (is_upper c) && negb (Ascii.eqb c "_"))
                     (ThemeCount.theme r) = true
        /\ ThemeCount.count r = Themes.mentions clf (ThemeCount.theme r)
        /\ (1 <= ThemeCount.count r)%Z)
  /\ (forall t, In t (Themes.all_themes clf) ->
        truthy (Themes.normalize t) = true ->
        (exists r, In r top /\ ThemeCount.theme r = Themes.normalize t)
        \/ (List.length top = 20%nat
            /\ forall r, In r top ->
                 (Themes.mentions clf (Themes.normalize t)
                  <= ThemeCount.count r)%Z)).
Proof.
  intros _ top.
  set (row := fun e : string * Z =>
                let '(theme, count) := e in
                {| ThemeCount.theme := theme; ThemeCount.count := count |}).
  set (rows := map row (entries (Themes.themeCounts clf))).
  destruct (@firstn_of_sorted _ ThemeCount.count Themes.by_count_desc rows 20
              (fun a b => eq_refl)) as (Hlen & Hsorted & rest & Hperm & Hrest).
  fold row rows in Hlen, Hsorted, Hperm, Hrest.
  change (firstn 20 (sort_by Themes.by_count_desc rows)) with top
    in Hlen, Hsorted, Hperm, Hrest.
  assert (Hnd : NoDup (map fst (Themes.themeCounts clf))).
  { rewrite themeCounts_tally. apply tally_keys_NoDup. constructor. }
  assert (Hentry : forall k n,
            In (k, n) (entries (Themes.themeCounts clf)) <->
            n = Themes.mentions clf k /\ truthy k = true /\ (0 < n)%Z).
  { intros k n. rewrite themeCounts_tally, tally_entry.
    unfold Themes.mentions, count_if. rewrite filter_filter.
    split.
    - intros [Hn Hpos]. subst n.
      destruct (filter _ (Themes.all_themes clf)) as [|t l] eqn:F;
        [simpl in Hpos; lia|].
      assert (Ht : In t (filter (fun x => truthy (Themes.normalize x)
                                          && String.eqb (Themes.normalize x) k)
                                (Themes.all_themes clf)))
        by (rewrite F; now left).
      apply filter_In in Ht. destruct Ht as [_ Ht].
      apply andb_true_iff in Ht. destruct Ht as [Ht Hk].
      apply String.eqb_eq in Hk.
      assert (Htk : truthy k = true) by (rewrite <- Hk; exact Ht).
      split; [|split; [exact Htk | exact Hpos]].
      rewrite <- F. do 2 f_equal. apply filter_ext. intros x.
      destruct (String.eqb_spec (Themes.normalize x) k) as [->|];
        [|apply andb_false_r].
      now rewrite Htk.
    - intros (Hn & Hk & Hpos). subst n. split; [|exact Hpos].
      do 2 f_equal. apply filter_ext. intros x.
      destruct (String.eqb_spec (Themes.normalize x) k) as [->|];
        [|symmetry; apply andb_false_r].
      now rewrite Hk. }
  assert (Hrows : forall r, In r rows <->
            ThemeCount.count r = Themes.mentions clf (ThemeCount.theme r)
            /\ truthy (ThemeCount.theme r) = true
            /\ (0 < ThemeCount.count r)%Z).
  { intros r. unfold rows. rewrite in_map_iff. split.
    - intros ([k n] & <- & Hin). apply Hentry in Hin. exact Hin.
    - intros H. exists (ThemeCount.theme r, ThemeCount.count r).
      split; [now destruct r|]. now apply Hentry. }
  assert (Hkeys : NoDup (map ThemeCount.theme rows)).
  { unfold rows. rewrite map_map.
    replace (map (fun x => ThemeCount.theme (row x))
                 (entries (Themes.themeCounts clf)))
      with (map fst (entries (Themes.themeCounts clf)))
      by (apply map_ext; now intros [k n]).
    apply (Permutation_NoDup
             (Permutation_map fst (Permutation_sym (entries_Permutation _)))).
    exact Hnd. }
  assert (Htop : forall r, In r top -> In r rows).
  { intros r Hr. apply (Permutation_in _ (Permutation_sym Hperm)).
    apply in_or_app. now left. }
  split; [|split; [|split; [|split]]].
  - rewrite Hlen. unfold rows. now rewrite length_map, entries_length.
  - apply (Permutation_NoDup (Permutation_map ThemeCount.theme Hperm)) in Hkeys.
    rewrite map_app in Hkeys. now apply NoDup_app_remove_r in Hkeys.
  - exact Hsorted.
  - intros r Hr. apply Htop, Hrows in Hr. destruct Hr as (Hc & Ht & Hpos).
    split; [exact Ht|]. split; [|split; [exact Hc | lia]].
    assert (Hm : (0 < Themes.mentions clf (ThemeCount.theme r))%Z) by lia.
    unfold Themes.mentions, count_if in Hm.
    destruct (filter _ (Themes.all_themes clf)) as [|t l] eqn:F;
      [simpl in Hm; lia|].
    assert (Hin : In t (filter (fun t => String.eqb (Themes.normalize t)
                                                    (ThemeCount.theme r))
                               (Themes.all_themes clf)))
      by (rewrite F; now left).
    apply filter_In in Hin. destruct Hin as [_ Hin].
    apply String.eqb_eq in Hin. rewrite <- Hin. apply normalize_shape.
  - intros t Ht Hn.
    set (r := {| ThemeCount.theme := Themes.normalize t;
                 ThemeCount.count := Themes.mentions clf (Themes.normalize t) |}).
    assert (Hr : In r rows).
    { apply Hrows. cbn [r ThemeCount.theme ThemeCount.count].
      split; [reflexivity|]. split; [exact Hn|].
      unfold Themes.mentions, count_if.
      assert (Hin : In t (filter (fun x => String.eqb (Themes.normalize x)
                                                      (Themes.normalize t))
                                 (Themes.all_themes clf)))
        by (apply filter_In; split; [exact Ht | apply String.eqb_refl]).
      destruct (filter _ (Themes.all_themes clf)); [contradiction|].
      simpl List.length. lia. }
    apply (Permutation_in _ Hperm) in Hr. apply in_app_or in Hr.
    destruct Hr as [Hr | Hr]; [left; now exists r|].
    right. split.
    + rewrite Hlen.
      assert (Hlr : List.length rows = (List.length top + List.length rest)%nat)
        by (rewrite (Permutation_length Hperm); apply length_app).
      destruct rest; [contradiction|]. simpl List.length in Hlr. lia.
    + intros r' Hr'. apply (Hrest r' r Hr' Hr).
Qed.

Lemma top_themes_count_normalized_witness :
  List.length (Themes.topThemes Sample.themed) = 2%nat
  /\ Themes.mentions Sample.themed "team work" = 2%Z.
Proof.
  split; [|reflexivity].
  rewrite (proj1 (@top_themes_count_normalized Sample.themed eq_refl)).
  reflexivity.
Defined.

(* ================================================================== *)
(** * The rows of the taxonomy diff *)
(* ================================================================== *)

Section TaxonomyDiffRows.

Let note (catMap : dict (string * list string)) (pc : string * Category.t) :=
  Comparison.note_category (fst pc) catMap (snd pc).

Lemma note_runs_flat (runs : list PipelineRun.t)
      (catMap : dict (string * list string)) :
  fold_left Comparison.note_run runs catMap
  = fold_left note (named_categories runs) catMap.
Proof.
  revert catMap. induction runs as [|run runs IH]; intros catMap;
    [reflexivity|].
  unfold named_categories. cbn [flat_map fold_left].
  rewrite fold_left_app. fold (named_categories runs). rewrite <- IH.
  f_equal. unfold Comparison.note_run, run_categories.
  destruct (PipelineRun.taxonomy run) as [t|]; [|reflexivity].
  generalize catMap. induction (Taxonomy.categories t) as [|c l IHl];
    intros m; [reflexivity|].
  cbn [map fold_left]. apply IHl.
Qed.

Lemma diff_invariant_step (visited : list (string * Category.t))
      (catMap : dict (string * list string)) (pc : string * Category.t) :
  diff_invariant visited catMap ->
  diff_invariant (visited ++ [pc]) (note catMap pc).
Proof.
  destruct pc as [p cat]. intros (Hnd & Hsound & Hcomplete).
  unfold note, Comparison.note_category. cbn [fst snd].
  fold (Comparison.normalized (Category.name cat)).
  set (k0 := Comparison.normalized (Category.name cat)).
  destruct (get catMap k0) as [[name0 present0]|] eqn:E.
  - destruct (Hsound _ _ _ E) as (Hk & Hp & Hne & Hfirst & Hin).
    split; [now apply set_keys_NoDup|]. split.
    + intros key name present. rewrite get_set.
      destruct (String.eqb_spec key k0) as [->|Hkey].
      * intros [= <- <-]. split; [exact Hk|].
        split; [now apply set_add_NoDup|]. split.
        { unfold set_add. destruct (has present0 p); [exact Hne|].
          now destruct present0. }
        split.
        { destruct Hfirst as (q & c & Hq & Hc). exists q, c.
          split; [apply in_or_app; now left | exact Hc]. }
        intros q. rewrite set_add_In, Hin. unfold has_category. split.
        -- intros [(c & Hc & Hn) | ->].
           ++ exists c. split; [apply in_or_app; now left | exact Hn].
           ++ exists cat. split; [apply in_or_app; right; now left | reflexivity].
        -- intros (c & Hc & Hn). apply in_app_or in Hc.
           destruct Hc as [Hc | [[= -> ->] | []]]; [left; now exists c | now right].
      * intros Hget. destruct (Hsound _ _ _ Hget) as (Hk' & Hp' & Hne' & Hf' & Hin').
        split; [exact Hk'|]. split; [exact Hp'|]. split; [exact Hne'|]. split.
        { destruct Hf' as (q & c & Hq & Hc). exists q, c.
          split; [apply in_or_app; now left | exact Hc]. }
        intros q. rewrite Hin'. unfold has_category. split.
        -- intros (c & Hc & Hn). exists c.
           split; [apply in_or_app; now left | exact Hn].
        -- intros (c & Hc & Hn). apply in_app_or in Hc.
           destruct Hc as [Hc | [[= -> ->] | []]]; [now exists c|].
           now contradiction Hkey.
    + intros q c Hc. rewrite get_set.
      destruct (String.eqb_spec (Comparison.normalized (Category.name c)) k0);
        [discriminate|].
      apply in_app_or in Hc. destruct Hc as [Hc | [[= -> ->] | []]].
      * now apply (Hcomplete q c).
      * now contradiction n.
  - split; [now apply set_keys_NoDup|]. split.
    + intros key name present. rewrite get_set.
      destruct (String.eqb_spec key k0) as [->|Hkey].
      * intros [= <- <-]. split; [reflexivity|].
        split; [apply set_add_NoDup; constructor|].
        split; [discriminate|]. split.
        { exists p, cat. split; [apply in_or_app; right; now left | reflexivity]. }
        intros q. rewrite set_add_In. unfold has_category. split.
        -- intros [[] | ->]. exists cat.
           split; [apply in_or_app; right; now left | reflexivity].
        -- intros (c & Hc & Hn). apply in_app_or in Hc.
           destruct Hc as [Hc | [[= -> ->] | []]]; [|now right].
           apply Hcomplete in Hc. rewrite Hn in Hc. now contradiction Hc.
      * intros Hget. destruct (Hsound _ _ _ Hget) as (Hk' & Hp' & Hne' & Hf' & Hin').
        split; [exact Hk'|]. split; [exact Hp'|]. split; [exact Hne'|]. split.
        { destruct Hf' as (q & c & Hq & Hc). exists q, c.
          split; [apply in_or_app; now left | exact Hc]. }
        intros q. rewrite Hin'. unfold has_category. split.
        -- intros (c & Hc & Hn). exists c.
           split; [apply in_or_app; now left | exact Hn].
        -- intros (c & Hc & Hn). apply in_app_or in Hc.
           destruct Hc as [Hc | [[= -> ->] | []]]; [now exists c|].
           now contradiction Hkey.
    + intros q c Hc. rewrite get_set.
      destruct (String.eqb_spec (Comparison.normalized (Category.name c)) k0);
        [discriminate|].
      apply in_app_or in Hc. destruct Hc as [Hc | [[= -> ->] | []]].
      * now apply (Hcomplete q c).
      * now contradiction n.
Qed.

Lemma diff_invariant_fold (l visited : list (string * Category.t))
      (catMap : dict (string * list string)) :
  diff_invariant visited catMap ->
  diff_invariant (visited ++ l) (fold_left note l catMap).
Proof.
  revert visited catMap. induction l as [|pc l IH]; intros visited catMap H.
  - now rewrite app_nil_r.
  - cbn [fold_left].
    replace (visited ++ pc :: l) with ((visited ++ [pc]) ++ l)
      by (now rewrite <- app_assoc).
    apply IH, diff_invariant_step, H.
Qed.

Lemma diff_invariant_runs (runs : list PipelineRun.t) :
  diff_invariant (named_categories runs)
                 (fold_left Comparison.note_run runs []).
Proof.
  rewrite note_runs_flat.
  apply (@diff_invariant_fold (named_categories runs) [] []).
  split; [constructor|]. split; [discriminate|]. intros p cat [].
Qed.

End TaxonomyDiffRows.

Lemma sorted_weaken (A : Type) (R R' : A -> A -> Prop) (l : list A) :
  (forall a b, R a b -> R' a b) -> StronglySorted R l -> StronglySorted R' l.
Proof.
  intros H. induction 1 as [|x l Hs IH Hx]; constructor; [exact IH|].
  apply Forall_forall. intros y Hy. rewrite Forall_forall in Hx. auto.
Qed.

(** X16. When no normalized category name is a member inherited from
    [Object.prototype], the taxonomy diff has one row for each normalized
    category name (lower case, trimmed) of the runs' taxonomies.  The row
    carries a spelling of the name found in a taxonomy, [presentIn] lists
    without repetition exactly the names of the runs that have a category
    of that normalized name, [missingFrom] holds exactly the other run
    names, and the rows are in descending order of the length of
    [presentIn]. *)
Theorem taxonomy_diff_rows (runs : list PipelineRun.t) :
  plain_category_names runs = true ->
  let diff := Comparison.computeTaxonomyDiff runs in
  let visited := named_categories runs in
  let key (row : TaxonomyDiff.t) :=
    Comparison.normalized (TaxonomyDiff.categoryName row) in
  NoDup (map key diff)
  /\ (forall p cat, In (p, cat) visited ->
        exists row, In row diff
                    /\ key row = Comparison.normalized (Category.name cat))
  /\ (forall row, In row diff ->
        TaxonomyDiff.categoryId row = ""
        /\ (exists p cat, In (p, cat) visited
                          /\ Category.name cat = TaxonomyDiff.categoryName row)
        /\ TaxonomyDiff.presentIn row <> []
        /\ NoDup (TaxonomyDiff.presentIn row)
        /\ (forall p, In p (TaxonomyDiff.presentIn row)
                      <-> has_category visited p (key row))
        /\ (forall p, In p (TaxonomyDiff.missingFrom row)
                      <-> In p (map PipelineRun.name runs)
                          /\ ~ has_category visited p (key row)))
  /\ StronglySorted
       (fun a b => (List.length (TaxonomyDiff.presentIn b)
                    <= List.length (TaxonomyDiff.presentIn a))%nat) diff.
Proof.
  intros _ diff visited key.
  destruct (diff_invariant_runs runs) as (Hnd & Hsound & Hcomplete).
  set (catMap := fold_left Comparison.note_run runs []) in *.
  set (row := fun e : string * list string =>
                let '(name, presentIn) := e in
                {| TaxonomyDiff.categoryId := "";
                   TaxonomyDiff.categoryName := name;
                   TaxonomyDiff.presentIn := presentIn;
                   TaxonomyDiff.missingFrom :=
                     filter (fun p => negb (has presentIn p))
                            (map PipelineRun.name runs) |}).
  assert (Hperm : Permutation diff (map row (map snd catMap))).
  { unfold diff, Comparison.computeTaxonomyDiff. fold catMap.
    rewrite sort_by_Permutation. apply Permutation_map.
    unfold values. apply Permutation_map, entries_Permutation. }
  assert (Hentry : forall k name present,
            In (k, (name, present)) catMap <-> get catMap k = Some (name, present)).
  { intros. split; [now apply In_get | apply get_In]. }
  assert (Hkeys : map key (map row (map snd catMap)) = map fst catMap).
  { rewrite !map_map. apply map_ext_in. intros [k [name present]] Hin.
    apply Hentry, Hsound in Hin. cbn. symmetry. apply Hin. }
  split; [|split; [|split]].
  - apply (Permutation_NoDup (Permutation_map key (Permutation_sym Hperm))).
    now rewrite Hkeys.
  - intros p cat Hin. pose proof (Hcomplete p cat Hin) as Hget.
    destruct (get catMap (Comparison.normalized (Category.name cat)))
      as [[name present]|] eqn:E; [|now contradiction Hget].
    exists (row (name, present)). split.
    + apply (Permutation_in _ (Permutation_sym Hperm)).
      apply in_map. apply in_map_iff.
      exists (Comparison.normalized (Category.name cat), (name, present)).
      split; [reflexivity|]. apply Hentry, E.
    + cbn. symmetry. now apply (Hsound _ _ _ E).
  - intros r Hr. apply (Permutation_in _ Hperm) in Hr.
    apply in_map_iff in Hr. destruct Hr as ([name present] & <- & Hin).
    apply in_map_iff in Hin. destruct Hin as ([k [name' present']] & [= -> ->] & Hin).
    apply Hentry, Hsound in Hin.
    destruct Hin as (Hk & Hp & Hne & Hfirst & Hin).
    unfold key.
    cbn [row TaxonomyDiff.categoryId TaxonomyDiff.categoryName
         TaxonomyDiff.presentIn TaxonomyDiff.missingFrom].
    rewrite <- Hk.
    split; [reflexivity|]. split; [exact Hfirst|]. split; [exact Hne|].
    split; [exact Hp|]. split; [exact Hin|].
    intros p. rewrite filter_In, negb_true_iff, has_false, Hin. reflexivity.
  - unfold diff, Comparison.computeTaxonomyDiff.
    assert (Hs := @sort_by_descending _
                    (fun r => Z.of_nat (List.length (TaxonomyDiff.presentIn r)))
                    Comparison.by_presence_desc).
    eapply sorted_weaken; [|apply Hs].
    + intros a b H. cbv beta in H. lia.
    + intros a b. unfold Comparison.by_presence_desc.
      destruct (Nat.ltb_spec (List.length (TaxonomyDiff.presentIn b))
                             (List.length (TaxonomyDiff.presentIn a)));
        symmetry; [apply Z.ltb_lt | apply Z.ltb_ge]; lia.
Qed.

Lemma taxonomy_diff_rows_witness :
  NoDup (map (fun row => Comparison.normalized (TaxonomyDiff.categoryName row))
             (Comparison.computeTaxonomyDiff
                [Sample.run_baseline; Sample.run_refined])).
Proof.
  exact (proj1 (@taxonomy_diff_rows [Sample.run_baseline; Sample.run_refined]
                  eq_refl)).
Defined.

(* ================================================================== *)
(** * The score of a run *)
(* ================================================================== *)

Lemma trimStart_head (s : string) :
  trimStart s = EmptyString
  \/ exists c r, trimStart s = String c r /\ is_space c = false.
Proof.
  induction s as [|c s IH]; simpl; [now left|].
  destruct (is_space c) eqn:E; [exact IH|].
  right. now exists c, s.
Qed.

Lemma trimEnd_head (c : ascii) (r : string) :
  is_space c = false -> exists r', trimEnd (String c r) = String c r'.
Proof.
  intros H. simpl. destruct (trimEnd r) as [|c' r'].
  - rewrite H. now exists EmptyString.
  - now exists (String c' r').
Qed.

Lemma trimEnd_idempotent (s : string) : trimEnd (trimEnd s) = trimEnd s.
Proof.
  induction s as [|c s IH]; [reflexivity|].
  simpl. destruct (trimEnd s) as [|c' r'] eqn:E.
  - destruct (is_space c) eqn:Hc; [reflexivity|].
    simpl. now rewrite Hc.
  - cbn [trimEnd]. fold trimEnd.
    change (match trimEnd (String c' r') with
            | EmptyString =>
                if is_space c then EmptyString else String c EmptyString
            | String a s0 => String c (String a s0)
            end = String c (String c' r')).
    now rewrite IH.
Qed.

Lemma trim_idempotent (s : string) : trim (trim s) = trim s.
Proof.
  unfold trim.
  destruct (trimStart_head s) as [E | (c & r & E & Hc)]; rewrite E.
  - reflexivity.
  - destruct (@trimEnd_head c r Hc) as (r' & E').
    rewrite E'. cbn [trimStart]. rewrite Hc, <- E'.
    apply trimEnd_idempotent.
Qed.

Lemma extractValidIds_sets (t : Taxonomy.t) :
  Phase2.extractValidIds t
  = (Comparison.getValidCategoryIds (Some t),
     Score.getValidSubcategoryIds (Some t)).
Proof.
  unfold Phase2.extractValidIds, Comparison.getValidCategoryIds,
         Score.getValidSubcategoryIds, new_Set.
  generalize (@nil string) at 1 3 as cs. generalize (@nil string) as ss.
  induction (Taxonomy.categories t) as [|cat l IH]; intros ss cs;
    [reflexivity|].
  cbn [fold_left map]. apply IH.
Qed.

Lemma fold_max_bounds (l : list Z) (a : Z) :
  (a <= fold_left Z.max l a)%Z
  /\ (forall x, In x l -> (x <= fold_left Z.max l a)%Z)
  /\ (fold_left Z.max l a = a \/ In (fold_left Z.max l a) l).
Proof.
  revert a. induction l as [|x l IH]; intros a; simpl.
  - split; [lia|]. split; [contradiction | now left].
  - destruct (IH (Z.max a x)) as (H1 & H2 & H3).
    split; [lia|]. split.
    + intros y [<- | Hy]; [lia | now apply H2].
    + destruct H3 as [H3 | H3]; [|right; now right].
      rewrite H3. destruct (Z.max_spec a x) as [[_ ->] | [_ ->]];
        [right; now left | now left].
Qed.









Lemma malformed_agrees (valid : list string) (c : Classification.t) :
  has valid "" = false ->
  Score.is_malformed valid c
  = negb (Phase2.isValidCategory (Some (Phase2.trimmed_category c)) valid).
Proof.
  intros He. unfold Score.is_malformed, Phase2.isValidCategory,
             Phase2.trimmed_category.
  destruct (Classification.category c) as [s|]; [|reflexivity].
  rewrite trim_idempotent.
  destruct s as [|a s]; [reflexivity|]. cbn [truthy negb orb].
  destruct (trim (String a s)) eqn:E; [|reflexivity].
  cbn [truthy]. now rewrite He.
Qed.

Lemma correct_sub_agrees (ids : list string) (c : Classification.t) :
  has ids "null" = false -> has ids "None" = false -> has ids "N/A" = false ->
  Score.is_correct_sub ids c = String.eqb (format_of ids c) Phase2.Correct.
Proof.
  intros H1 H2 H3.
  unfold Score.is_correct_sub, format_of, Phase2.detectSubcategoryFormat.
  destruct (Classification.subcategory c) as [s|]; [|reflexivity].
  destruct s as [|a s]; [reflexivity|]. cbn [truthy negb orb andb].
  destruct (String.eqb_spec (String a s) "null") as [->|_];
    [change (trim "null") with "null"; now rewrite H1|].
  destruct (String.eqb_spec (String a s) "None") as [->|_];
    [change (trim "None") with "None"; now rewrite H2|].
  destruct (String.eqb_spec (String a s) "N/A") as [->|_];
    [change (trim "N/A") with "N/A"; now rewrite H3|].
  cbn [orb]. cbv zeta.
  destruct (has ids (trim (String a s))); [reflexivity|].
  repeat match goal with
         | |- false = String.eqb (if ?b then _ else _) _ => destruct b
         end; reflexivity.
Qed.

(** X17. For a run with a taxonomy and at least one classification,
    [computeScore] and [processPhase2] agree on the success rate and,
    unless the empty string is a category id, on the share of malformed
    categories.  Unless one of "null", "None", "N/A" is a subcategory id,
    the format consistency of [computeScore] is the share of
    classifications whose subcategory format is "Correct". *)
Theorem score_rates_agree_with_phase2
        (total_time_seconds : option num) (run : PipelineRun.t)
        (t : Taxonomy.t) (data : Phase2Data.t) :
  PipelineRun.taxonomy run = Some t ->
  PipelineRun.phase2 run = Some data ->
  Phase2Data.classifications data <> [] ->
  let clf := Phase2Data.classifications data in
  let score := Score.computeScore total_time_seconds run in
  let analysis := Phase2.processPhase2 data (Some t) in
  let catIds := Phase2Analysis.validCategories analysis in
  let subIds := subcategory_ids (Some t) in
  PipelineScore.successRate score = Phase2Analysis.successRate analysis
  /\ (has catIds "" = false ->
      PipelineScore.malformedPct score = Phase2Analysis.malformedPct analysis)
  /\ (has subIds "null" = false -> has subIds "None" = false ->
      has subIds "N/A" = false ->
      PipelineScore.formatConsistency score
      = Phase2.percent_of
          (count_if (fun c => String.eqb (format_of subIds c) Phase2.Correct) clf)
          (List.length clf)).
Proof.
  intros Ht Hp Hclf clf score analysis catIds subIds.
  assert (Hlen : (0 <? List.length clf)%nat = true).
  { apply Nat.ltb_lt. fold clf in Hclf. destruct clf; [congruence | simpl; lia]. }
  assert (Hsets := extractValidIds_sets t).
  assert (Hcat : catIds = Comparison.getValidCategoryIds (Some t)).
  { unfold catIds, analysis, Phase2.processPhase2.
    cbn [Phase2Analysis.validCategories]. now rewrite Hsets. }
  assert (Hsub : subIds = Score.getValidSubcategoryIds (Some t)).
  { unfold subIds, subcategory_ids. now rewrite Hsets. }
  unfold score, Score.computeScore. rewrite Hp, Ht. fold clf.
  rewrite Hlen.
  cbn [PipelineScore.successRate PipelineScore.malformedPct
       PipelineScore.formatConsistency].
  split; [reflexivity|]. split.
  - intros He. rewrite <- Hcat.
    unfold analysis, Phase2.processPhase2.
    cbn [Phase2Analysis.malformedPct]. fold clf.
    do 3 f_equal. apply filter_ext. intros c.
    rewrite malformed_agrees by exact He. reflexivity.
  - intros H1 H2 H3. rewrite <- Hsub. unfold count_if.
    do 3 f_equal. apply filter_ext. intros c.
    now apply correct_sub_agrees.
Qed.

Lemma score_rates_agree_with_phase2_witness :
  PipelineScore.successRate (Score.computeScore None Sample.run_unmatched)
  = Phase2Analysis.successRate
      (Phase2.processPhase2
         (Sample.phase2 [Sample.classified (Some "Z"); Sample.classified None])
         (Some Sample.taxonomy_AB)).
Proof.
  refine (proj1
    (@score_rates_agree_with_phase2 None Sample.run_unmatched
       Sample.taxonomy_AB
       (Sample.phase2 [Sample.classified (Some "Z"); Sample.classified None])
       eq_refl eq_refl _)).
  discriminate.
Defined.

Lemma count_valid_tally (valid : list string) (clf : list Classification.t) :
  fold_left (Score.count_valid valid) clf []
  = fold_left (fun counts c => bump counts (Phase2.trimmed_category c))
              (filter (fun c => has valid (Phase2.trimmed_category c)) clf) [].
Proof.
  unfold Score.count_valid. cbv zeta.
  apply (fold_left_when (fun c => has valid (Phase2.trimmed_category c))
                        (fun counts c => bump counts (Phase2.trimmed_category c))).
Qed.

Lemma trimmed_category_fixed (c : Classification.t) :
  trim (Phase2.trimmed_category c) = Phase2.trimmed_category c.
Proof.
  unfold Phase2.trimmed_category.
  destruct (Classification.category c); [apply trim_idempotent | reflexivity].
Qed.

Lemma count_valid_entry (valid : list string) (clf : list Classification.t)
      (k : string) (n : Z) :
  has valid "" = false ->
  In (k, n) (entries (fold_left (Score.count_valid valid) clf [])) <->
  n = Phase2.occurrences clf k /\ (0 < n)%Z
  /\ Phase2.isValidCategory (Some k) valid = true.
Proof.
  intros He. rewrite count_valid_tally, tally_entry, filter_filter.
  unfold Phase2.occurrences.
  assert (Hsome : forall f : Classification.t -> bool,
            (0 < Z.of_nat (List.length (filter f clf)))%Z ->
            exists c, In c clf /\ f c = true).
  { intros f H. destruct (filter f clf) as [|c l] eqn:F; [simpl in H; lia|].
    assert (Hc : In c (filter f clf)) by (rewrite F; now left).
    apply filter_In in Hc. now exists c. }
  assert (Hfilter : forall k', has valid k' = true ->
            filter (fun x => has valid (Phase2.trimmed_category x)
                             && String.eqb (Phase2.trimmed_category x) k') clf
            = filter (fun x => String.eqb (Phase2.trimmed_category x) k') clf).
  { intros k' Hk. apply filter_ext. intros c'.
    destruct (String.eqb_spec (Phase2.trimmed_category c') k') as [->|];
      [now rewrite Hk | apply andb_false_r]. }
  split.
  - intros [Hn Hpos]. subst n.
    destruct (Hsome _ Hpos) as (c & Hc & Hk).
    apply andb_true_iff in Hk. destruct Hk as [Hv Hk].
    apply String.eqb_eq in Hk. subst k.
    assert (Hvalid : Phase2.isValidCategory
                       (Some (Phase2.trimmed_category c)) valid = true).
    { unfold Phase2.isValidCategory. rewrite trimmed_category_fixed, Hv.
      destruct (Phase2.trimmed_category c); [congruence | reflexivity]. }
    rewrite (Hfilter _ Hv) in *.
    split; [reflexivity|]. split; [exact Hpos | exact Hvalid].
  - intros (Hn & Hpos & Hv). subst n.
    destruct (Hsome _ Hpos) as (c & Hc & Hk).
    apply String.eqb_eq in Hk. subst k.
    unfold Phase2.isValidCategory in Hv.
    rewrite trimmed_category_fixed in Hv.
    destruct (truthy (Phase2.trimmed_category c)); [|discriminate].
    rewrite (Hfilter _ Hv). split; [reflexivity | exact Hpos].
Qed.

(** X19. For a run with a taxonomy of which some classification carries a
    category id, [computeScore] and [processPhase2] report the same bias
    score, provided that neither the empty string nor "(empty)" is a
    category id (and no category of the output names a member inherited
    from [Object.prototype]). *)
Theorem score_bias_agrees_with_phase2
        (total_time_seconds : option num) (run : PipelineRun.t)
        (t : Taxonomy.t) (data : Phase2Data.t) :
  PipelineRun.taxonomy run = Some t ->
  PipelineRun.phase2 run = Some data ->
  let clf := Phase2Data.classifications data in
  let score := Score.computeScore total_time_seconds run in
  let analysis := Phase2.processPhase2 data (Some t) in
  let catIds := Phase2Analysis.validCategories analysis in
  forallb (fun c => own_key (Phase2.bucket catIds c)) clf = true ->
  has catIds "" = false ->
  has catIds "(empty)" = false ->
  (exists c, In c clf
             /\ Phase2.isValidCategory (Some (Phase2.trimmed_category c)) catIds
                = true) ->
  PipelineScore.biasScore score = Phase2Analysis.c4BiasScore analysis.
Proof.
  intros Ht Hp clf score analysis catIds _ Hblank Hempty Hsome.
  destruct Hsome as (c0 & Hc0 & Hv0).
  assert (Hsome : exists c, In c (Phase2Data.classifications data)
            /\ Phase2.isValidCategory (Some (Phase2.trimmed_category c))
                 (Phase2Analysis.validCategories
                    (Phase2.processPhase2 data (Some t))) = true)
    by (now exists c0).
  assert (Hlen : (0 < List.length clf)%nat).
  { destruct clf; [contradiction | simpl; lia]. }
  assert (Hids : (0 < List.length catIds)%nat).
  { unfold Phase2.isValidCategory in Hv0.
    destruct (truthy _); [|discriminate].
    destruct catIds; [discriminate | simpl; lia]. }
  assert (Hcat : Comparison.getValidCategoryIds (Some t) = catIds).
  { unfold catIds, analysis, Phase2.processPhase2.
    cbn [Phase2Analysis.validCategories]. now rewrite extractValidIds_sets. }
  (* the top category of processPhase2 *)
  pose proof (@occurrences_pos data c0 Hc0) as Hpos0.
  destruct (@row_of_valid data (Some t) Hempty _ Hv0 Hpos0) as [Hin0 Hval0].
  destruct (@first_of_sorted_exists _ Phase2.by_category_count_desc
              CategoryCount.isValid _ _ Hin0 Hval0) as (top & Htop).
  destruct (@first_of_sorted _ CategoryCount.count
              Phase2.by_category_count_desc (fun a b => eq_refl)
              _ _ _ Htop) as (Hin & Hvalid & Hmax).
  destruct (@valid_row data (Some t) Hempty _ Hin Hvalid) as (Hv & Hcount & Hpos).
  assert (Hhd : hd_error (filter CategoryCount.isValid
                            (Phase2Analysis.categoryDistribution analysis))
                = Some top)
    by (unfold analysis; rewrite top_category; exact Htop).
  (* the largest count of computeScore *)
  set (counts := fold_left (Score.count_valid catIds) clf []).
  assert (Hmaxcount : Score.maxCount counts = CategoryCount.count top).
  { unfold Score.maxCount.
    destruct (fold_max_bounds (values counts) 0) as (H0 & Hall & Hone).
    apply Z.le_antisymm.
    - destruct Hone as [-> | Hone]; [lia|].
      unfold values in Hone. apply in_map_iff in Hone.
      destruct Hone as ([k n] & Hn & Hone). cbn [snd] in Hn.
      change (fold_left Z.max (values counts) 0%Z)
        with (fold_left Z.max (map snd (entries counts)) 0%Z).
      rewrite <- Hn. clear Hn H0 Hall.
      apply count_valid_entry in Hone; [|exact Hblank].
      destruct Hone as (Hocc & Hposn & Hvk).
      rewrite Hocc in Hposn |- *.
      destruct (@row_of_valid data (Some t) Hempty k Hvk Hposn) as [Hink Hvalk].
      apply (Hmax _ Hink Hvalk).
    - apply Hall. unfold values. apply in_map_iff.
      exists (CategoryCount.category top, CategoryCount.count top).
      split; [reflexivity|].
      apply count_valid_entry; [exact Hblank|].
      split; [exact Hcount|]. split; [exact Hpos | exact Hv]. }
  unfold score, Score.computeScore. rewrite Hp, Ht, Hcat. fold clf.
  apply Nat.ltb_lt in Hlen. rewrite Hlen. apply Nat.ltb_lt in Hlen.
  cbn [PipelineScore.biasScore]. fold counts. rewrite Hmaxcount.
  unfold analysis, Phase2.processPhase2.
  cbn [Phase2Analysis.c4BiasScore].
  unfold analysis, Phase2.processPhase2 in Hhd.
  cbn [Phase2Analysis.categoryDistribution] in Hhd.
  rewrite Hhd.
  unfold Score.bias, Score.expected.
  replace (Z.max 1 (Z.of_nat (List.length catIds)))
    with (Z.of_nat (List.length catIds)) by lia.
  fold (of_nat (List.length catIds)).
  assert (Hexp : exists e, div (of_nat (List.length clf))
                               (of_nat (List.length catIds)) = Fin e /\ 0 < e).
  { unfold of_nat, of_Z.
    assert (Ha : 0 < inject_Z (Z.of_nat (List.length clf))).
    { change 0 with (inject_Z 0). rewrite <- Zlt_Qlt. lia. }
    assert (Hb : 0 < inject_Z (Z.of_nat (List.length catIds))).
    { change 0 with (inject_Z 0). rewrite <- Zlt_Qlt. lia. }
    rewrite div_finite by lra. eexists. split; [reflexivity|].
    apply Qlt_shift_div_l; lra. }
  destruct Hexp as (e & He & Hepos).
  change (fst (Phase2.extractValidIds t)) with catIds.
  fold clf. rewrite He.
  unfold lt, of_Z at 1.
  destruct (Qle_bool e (inject_Z 0)) eqn:E; [|reflexivity].
  apply Qle_bool_iff in E. change (inject_Z 0) with 0 in E. lra.
Qed.

Lemma score_bias_agrees_with_phase2_witness :
  PipelineScore.biasScore (Score.computeScore None Sample.run_four_three)
  = Phase2Analysis.c4BiasScore
      (Phase2.processPhase2 Sample.four_A_three_B (Some Sample.taxonomy_AB)).
Proof.
  refine (@score_bias_agrees_with_phase2 None Sample.run_four_three
            Sample.taxonomy_AB Sample.four_A_three_B
            eq_refl eq_refl eq_refl eq_refl eq_refl _).
  exists (Sample.classified (Some "A")). split; [now left | reflexivity].
Defined.

(* ================================================================== *)
(** * The radar *)
(* ================================================================== *)

Section RowCells.

Variable A V : Type.
Variable key : A -> string.
Variable value : A -> V.

Let fill (l : list A) (d : dict V) : dict V :=
  fold_left (fun row x => set row (key x) (value x)) l d.

Lemma fill_other (l : list A) (d : dict V) (k : string) :
  ~ In k (map key l) -> get (fill l d) k = get d k.
Proof.
  revert d. induction l as [|x l IH]; intros d Hk; [reflexivity|].
  cbn [fill fold_left]. fold (fill l (set d (key x) (value x))).
  rewrite IH by (intros H; apply Hk; now right).
  rewrite get_set.
  destruct (String.eqb_spec k (key x)) as [->|]; [|reflexivity].
  exfalso. apply Hk. now left.
Qed.

Lemma fill_cell (l : list A) (d : dict V) (a : A) :
  NoDup (map key l) -> In a l -> get (fill l d) (key a) = Some (value a).
Proof.
  revert d. induction l as [|x l IH]; intros d Hnd Ha; [contradiction|].
  cbn [fill fold_left]. fold (fill l (set d (key x) (value x))).
  cbn [map] in Hnd. apply NoDup_cons_iff in Hnd. destruct Hnd as [Hx Hnd].
  destruct Ha as [<- | Ha].
  - rewrite fill_other by exact Hx. rewrite get_set.
    now rewrite String.eqb_refl.
  - now apply IH.
Qed.

End RowCells.

Lemma inverted_not_negative (m : Radar.metric) (s : PipelineScore.t) :
  (0 <= snd m)%Z -> not_negative (Radar.inverted m s).
Proof.
  destruct m as [[field label] full]. cbn [snd]. intros Hfull.
  unfold Radar.inverted, or_zero, of_Z.
  destruct (field s) as [q| | |].
  - destruct (Qeq_bool q 0); cbn [sub neg add max not_negative];
      apply Q.le_max_l.
  - cbn [sub neg add max not_negative]. apply Qle_refl.
  - exact I.
  - cbn [sub neg add max not_negative]. apply Q.le_max_l.
Qed.

(** X20. When the runs have distinct names, none of them "metric",
    "fullMark" or a member inherited from [Object.prototype], the radar
    has six rows, each with its label and full mark, and the cell of a run
    holds: for the four direct metrics the value of the score (0 for NaN),
    and for "Output Quality" and "Balance" the full mark less the value,
    but no less than 0, so that a cell of these two rows is never NaN and
    never negative. *)
Theorem radar_rows (scores : list PipelineScore.t) :
  forallb (fun s => free_name (PipelineScore.pipeline s)) scores = true ->
  NoDup (map PipelineScore.pipeline scores) ->
  let rows := Radar.computeRadar scores in
  map (fun row => get row "metric") rows
  = [ Some (Text "Success Rate"); Some (Text "Format Consistency");
      Some (Text "Category Richness"); Some (Text "Discovery");
      Some (Text "Output Quality"); Some (Text "Balance") ]
  /\ map (fun row => get row "fullMark") rows
     = map (fun full => Some (Number (of_Z full))) [100; 100; 10; 20; 100; 200]%Z
  /\ forall s, In s scores ->
       exists quality balance,
         map (fun row => get row (PipelineScore.pipeline s)) rows
         = map (fun v => Some (Number v))
               [ or_zero (PipelineScore.successRate s);
                 or_zero (PipelineScore.formatConsistency s);
                 or_zero (of_Z (PipelineScore.categoryCount s));
                 or_zero (of_Z (PipelineScore.candidatesFound s));
                 quality; balance ]
         /\ quality = max (of_Z 0)
                          (sub (of_Z 100) (or_zero (PipelineScore.malformedPct s)))
         /\ balance = max (of_Z 0)
                          (sub (of_Z 200) (or_zero (PipelineScore.biasScore s)))
         /\ not_negative quality /\ not_negative balance.
Proof.
  intros Hfree Hnd rows.
  assert (Hm : ~ In "metric" (map PipelineScore.pipeline scores)).
  { intros H. apply in_map_iff in H. destruct H as (s & Hs & Hin).
    rewrite forallb_forall in Hfree. specialize (Hfree s Hin).
    unfold free_name in Hfree. rewrite Hs in Hfree. discriminate Hfree. }
  assert (Hf : ~ In "fullMark" (map PipelineScore.pipeline scores)).
  { intros H. apply in_map_iff in H. destruct H as (s & Hs & Hin).
    rewrite forallb_forall in Hfree. specialize (Hfree s Hin).
    unfold free_name in Hfree. rewrite Hs in Hfree. discriminate Hfree. }
  unfold rows, Radar.computeRadar, Radar.metrics, Radar.invertedMetrics,
         Radar.plain_row, Radar.inverted_row.
  cbn [map app].
  split; [|split].
  - rewrite !(@fill_other _ _ PipelineScore.pipeline _ scores _ _ Hm).
    reflexivity.
  - rewrite !(@fill_other _ _ PipelineScore.pipeline _ scores _ _ Hf).
    reflexivity.
  - intros s Hs.
    exists (Radar.inverted (PipelineScore.malformedPct, "Output Quality", 100%Z) s),
           (Radar.inverted (PipelineScore.biasScore, "Balance", 200%Z) s).
    split; [|split; [reflexivity|split; [reflexivity|split]]].
    + rewrite !(@fill_cell _ _ PipelineScore.pipeline _ scores _ s Hnd Hs).
      reflexivity.
    + apply inverted_not_negative. cbn. lia.
    + apply inverted_not_negative. cbn. lia.
Qed.

Lemma radar_rows_witness :
  map (fun row => get row "metric")
      (Radar.computeRadar [Score.computeScore None Sample.run_four_three;
                           Score.computeScore None Sample.run_unmatched])
  = [ Some (Text "Success Rate"); Some (Text "Format Consistency");
      Some (Text "Category Richness"); Some (Text "Discovery");
      Some (Text "Output Quality"); Some (Text "Balance") ].
Proof.
  refine (proj1 (@radar_rows [Score.computeScore None Sample.run_four_three;
                              Score.computeScore None Sample.run_unmatched]
                   eq_refl _)).
  repeat constructor; simpl; intuition discriminate.
Defined.

(* ================================================================== *)
(** * The recognition network *)
(* ================================================================== *)

Lemma title_is_counted (titles : list string) (t : string) :
  In t titles -> truthy (trim t) = true ->
  In (trim t)
     (keys (CSV.countValues (filter (fun v => truthy (trim v)) titles))).
Proof.
  intros Hin Ht. unfold keys. apply in_map_iff.
  exists (trim t, times (trim t) titles). split; [reflexivity|].
  apply countValues_entry. split; [reflexivity|].
  unfold times, count_if.
  assert (H : In t (filter (fun v => truthy (trim v)
                                     && String.eqb (trim v) (trim t)) titles)).
  { apply filter_In. split; [exact Hin|]. now rewrite Ht, String.eqb_refl. }
  destruct (filter _ titles); [contradiction | simpl; lia].
Qed.

Lemma directed_pair_titles (rows : list CsvRow.t) (a b : string) :
  In (a, b) (CSV.directed_pairs rows) ->
  exists row, In row rows
              /\ a = trim (CsvRow.nominator_title row)
              /\ b = trim (CsvRow.recipient_title row)
              /\ truthy a = true /\ truthy b = true.
Proof.
  unfold CSV.directed_pairs. rewrite in_flat_map.
  intros (row & Hrow & Hin). exists row. split; [exact Hrow|].
  unfold CSV.pair_of_row in Hin.
  destruct (truthy (trim (CsvRow.nominator_title row))) eqn:En;
    destruct (truthy (trim (CsvRow.recipient_title row))) eqn:Er;
    cbn in Hin; try contradiction.
  destruct Hin as [[= <- <-] | []]. auto.
Qed.

Lemma unique_pairs_bound (rows : list CsvRow.t) :
  let i := RawData.interactions (CSV.processCSVToRawData rows) in
  (0 <= Interactions.unique_pairs i
   <= Interactions.unique_recipients i * Interactions.unique_nominators i)%Z.
Proof.
  cbn [CSV.processCSVToRawData RawData.interactions Interactions.unique_pairs
       Interactions.unique_recipients Interactions.unique_nominators
       CSV.title_stats TitleStats.unique_count].
  set (d := fold_left CSV.count_pair rows []).
  set (recipKeys := keys (CSV.countValues
                            (filter (fun t => truthy (trim t))
                                    (map CsvRow.recipient_title rows)))).
  set (nomKeys := keys (CSV.countValues
                          (filter (fun t => truthy (trim t))
                                  (map CsvRow.nominator_title rows)))).
  split; [lia|].
  assert (Hnd : NoDup (map fst d))
    by (apply count_pairs_keys_NoDup; constructor).
  assert (Hrec : CSV.pairs_recorded d (CSV.directed_pairs rows)).
  { apply (@count_pairs_recorded rows [] []).
    split; [discriminate | intros q []]. }
  assert (Hincl : incl (map fst d)
                       (map CSV.key_of (list_prod nomKeys recipKeys))).
  { intros k Hk. apply in_map_iff in Hk. destruct Hk as ([k' p] & Hfst & Hin).
    cbn [fst] in Hfst. subst k'.
    apply (In_get _ _ _ Hnd) in Hin.
    destruct Hrec as [Hkeys _]. destruct (Hkeys _ _ Hin) as [-> Hseen].
    apply in_map. destruct (CSV.pair_of p) as [a b].
    destruct (directed_pair_titles _ _ _ Hseen)
      as (row & Hrow & -> & -> & Ha & Hb).
    apply in_prod_iff. split.
    - apply title_is_counted; [now apply in_map | exact Ha].
    - apply title_is_counted; [now apply in_map | exact Hb]. }
  pose proof (NoDup_incl_length Hnd Hincl) as Hle.
  rewrite !length_map, length_prod in Hle.
  unfold values. rewrite length_map, entries_length.
  rewrite <- Nat2Z.inj_mul. apply inj_le.
  rewrite Nat.mul_comm. exact Hle.
Qed.

Lemma interaction_pairs_present (rows : list CsvRow.t) :
  (exists r, In r rows /\ has_both_titles r = true) ->
  (0 < Interactions.unique_pairs
         (RawData.interactions (CSV.processCSVToRawData rows)))%Z.
Proof.
  intros (r & Hr & Hboth).
  cbn [CSV.processCSVToRawData RawData.interactions Interactions.unique_pairs].
  set (d := fold_left CSV.count_pair rows []).
  assert (Hrec : CSV.pairs_recorded d (CSV.directed_pairs rows)).
  { apply (@count_pairs_recorded rows [] []).
    split; [discriminate | intros q []]. }
  unfold has_both_titles in Hboth. apply andb_true_iff in Hboth.
  destruct Hboth as [Hn Hrc].
  assert (Hin : In (trim (CsvRow.nominator_title r),
                    trim (CsvRow.recipient_title r))
                   (CSV.directed_pairs rows)).
  { unfold CSV.directed_pairs. apply in_flat_map. exists r.
    split; [exact Hr|]. unfold CSV.pair_of_row. rewrite Hn, Hrc. now left. }
  destruct Hrec as [_ Hseen]. apply Hseen in Hin.
  unfold values. rewrite length_map, entries_length.
  destruct d; [now contradiction Hin | simpl; lia].
Qed.

Lemma tenths_nonneg (q : Q) : 0 <= q -> (0 <= tenths q)%Z.
Proof.
  intros Hq. unfold tenths.
  destruct (Qle_bool 0 q) eqn:E.
  - change 0%Z with (Qfloor 0). apply Qfloor_resp_le. lra.
  - assert (H : Qle_bool 0 q = true) by now apply Qle_bool_iff.
    congruence.
Qed.

(** X21. On the output of [processCSVToRawData] (no title naming a member
    inherited from [Object.prototype]), the network of [computeNetwork]
    has at most as many unique pairs as there are combinations of a
    recipient title and a nominator title.  When some row has a recipient
    title and some row a nominator title, the density is a number between
    0 and 1, positive when some row has both titles, and the average
    degree is a number that is not negative; without a recipient title, or
    without a nominator title, the density is NaN, and so is the average
    degree when there is no title at all. *)
Theorem network_density_is_ratio (rows : list CsvRow.t) :
  plain_values (map CsvRow.recipient_title rows) = true ->
  plain_values (map CsvRow.nominator_title rows) = true ->
  let raw := CSV.processCSVToRawData rows in
  let net := Estimator.computeNetwork raw in
  let ur := TitleStats.unique_count (RawData.recipient_title raw) in
  let un := TitleStats.unique_count (RawData.nominator_title raw) in
  NetworkEstimate.uniqueNodes net = (ur + un)%Z
  /\ (0 <= NetworkEstimate.uniquePairs net <= ur * un)%Z
  /\ ((exists r, In r rows /\ truthy (trim (CsvRow.recipient_title r)) = true) ->
      (exists r, In r rows /\ truthy (trim (CsvRow.nominator_title r)) = true) ->
      exists d a,
        NetworkEstimate.density net = Fin d /\ 0 <= d <= 1
        /\ ((exists r, In r rows /\ has_both_titles r = true) -> 0 < d)
        /\ NetworkEstimate.avgDegree net = Fin a /\ 0 <= a)
  /\ ((forall r, In r rows -> truthy (trim (CsvRow.recipient_title r)) = false)
      \/ (forall r, In r rows -> truthy (trim (CsvRow.nominator_title r)) = false) ->
      NetworkEstimate.density net = NaN
      /\ (ur = 0%Z -> un = 0%Z -> NetworkEstimate.avgDegree net = NaN)).
Proof.
  intros _ _ raw net ur un.
  pose proof (unique_pairs_bound rows) as Hbound. cbv zeta in Hbound.
  fold raw in Hbound.
  change (Interactions.unique_recipients (RawData.interactions raw))
    with ur in Hbound.
  change (Interactions.unique_nominators (RawData.interactions raw))
    with un in Hbound.
  set (pairs := Interactions.unique_pairs (RawData.interactions raw)) in *.
  assert (Hnet : net = Estimator.computeNetwork raw) by reflexivity.
  split; [reflexivity|]. split; [exact Hbound|]. split.
  - intros Hr Hn.
    assert (Hur : (1 <= ur)%Z).
    { apply (title_stats_present "Recipient" (map CsvRow.recipient_title rows)).
      destruct Hr as (r & Hr & Ht). exists (CsvRow.recipient_title r).
      split; [now apply in_map | exact Ht]. }
    assert (Hun : (1 <= un)%Z).
    { apply (title_stats_present "Nominator" (map CsvRow.nominator_title rows)).
      destruct Hn as (r & Hr' & Ht). exists (CsvRow.nominator_title r).
      split; [now apply in_map | exact Ht]. }
    assert (Hprod : 0 < inject_Z (ur * un)).
    { change 0 with (inject_Z 0). rewrite <- Zlt_Qlt. nia. }
    assert (Hmax : 0 < inject_Z (Z.max ur un)).
    { change 0 with (inject_Z 0). rewrite <- Zlt_Qlt. lia. }
    assert (Hp0 : 0 <= inject_Z pairs).
    { change 0 with (inject_Z 0). rewrite <- Zle_Qle. lia. }
    exists (inject_Z pairs / inject_Z (ur * un)),
           (tenths (inject_Z (2 * pairs) / inject_Z (Z.max ur un)) # 10).
    split; [|split; [|split; [|split]]].
    + unfold net, Estimator.computeNetwork. cbn [NetworkEstimate.density].
      fold pairs.
      change (Interactions.unique_recipients (RawData.interactions raw)) with ur.
      change (Interactions.unique_nominators (RawData.interactions raw)) with un.
      unfold of_Z. apply div_finite. lra.
    + split.
      * apply Qle_shift_div_l; [exact Hprod | lra].
      * apply Qle_shift_div_r; [exact Hprod|].
        rewrite Qmult_1_l, <- Zle_Qle. lia.
    + intros (r & Hr' & Hboth).
      assert (Hpos : (0 < pairs)%Z).
      { pose proof (interaction_pairs_present rows) as Hpres.
        apply Hpres. now exists r. }
      apply Qlt_shift_div_l; [exact Hprod|].
      rewrite Qmult_0_l. change 0 with (inject_Z 0). rewrite <- Zlt_Qlt. exact Hpos.
    + unfold net, Estimator.computeNetwork. cbn [NetworkEstimate.avgDegree].
      fold pairs.
      change (Interactions.unique_recipients (RawData.interactions raw)) with ur.
      change (Interactions.unique_nominators (RawData.interactions raw)) with un.
      unfold of_Z. rewrite div_finite by lra. reflexivity.
    + assert (Hq : 0 <= inject_Z (2 * pairs) / inject_Z (Z.max ur un)).
      { apply Qle_shift_div_l; [exact Hmax|]. rewrite Qmult_0_l.
        change 0 with (inject_Z 0). rewrite <- Zle_Qle. lia. }
      pose proof (tenths_nonneg Hq) as Ht.
      unfold Qle. cbn [Qnum Qden]. lia.
  - intros Hblank.
    assert (Hzero : (ur * un = 0)%Z).
    { destruct Hblank as [Hb | Hb].
      - destruct (title_stats_absent "Recipient" (map CsvRow.recipient_title rows))
          as [E _].
        { intros t Ht. apply in_map_iff in Ht.
          destruct Ht as (r & <- & Hr). auto. }
        change (CSV.title_stats "Recipient" (map CsvRow.recipient_title rows))
          with (RawData.recipient_title raw) in E.
        unfold ur. rewrite E. lia.
      - destruct (title_stats_absent "Nominator" (map CsvRow.nominator_title rows))
          as [E _].
        { intros t Ht. apply in_map_iff in Ht.
          destruct Ht as (r & <- & Hr). auto. }
        change (CSV.title_stats "Nominator" (map CsvRow.nominator_title rows))
          with (RawData.nominator_title raw) in E.
        unfold un. rewrite E. lia. }
    assert (Hpairs : pairs = 0%Z) by lia.
    unfold net, Estimator.computeNetwork.
    cbn [NetworkEstimate.density NetworkEstimate.avgDegree]. fold pairs.
    change (Interactions.unique_recipients (RawData.interactions raw)) with ur.
    change (Interactions.unique_nominators (RawData.interactions raw)) with un.
    rewrite Hzero, Hpairs. split; [reflexivity|].
    intros -> ->. reflexivity.
Qed.

Lemma network_density_is_ratio_witness :
  (0 <= NetworkEstimate.uniquePairs
          (Estimator.computeNetwork (CSV.processCSVToRawData Sample.ten_rows))
   <= 100)%Z.
Proof.
  exact (proj1 (proj2
    (@network_density_is_ratio Sample.ten_rows eq_refl eq_refl))).
Defined.

(* ================================================================== *)
(** * The message section *)
(* ================================================================== *)

Lemma ascending_Permutation (l : list Z) : Permutation (Messages.ascending l) l.
Proof. apply sort_by_Permutation. Qed.

Lemma ascending_sorted (l : list Z) : StronglySorted Z.le (Messages.ascending l).
Proof.
  apply (sorted_weaken (R := fun a b => (- b <= - a)%Z)); [intros a b H; lia|].
  apply (@sort_by_descending _ Z.opp). intros a b.
  destruct (Z.ltb_spec a b), (Z.ltb_spec (- b) (- a)); try reflexivity; lia.
Qed.

Lemma sorted_inject_Z (l : list Z) :
  StronglySorted Z.le l -> StronglySorted Qle (map inject_Z l).
Proof.
  induction 1 as [|x l Hs IH Hx]; simpl; constructor; [exact IH|].
  apply Forall_forall. intros q Hq. apply in_map_iff in Hq.
  destruct Hq as (y & <- & Hy). rewrite Forall_forall in Hx.
  rewrite <- Zle_Qle. now apply Hx.
Qed.

Lemma last_In (A : Type) (l : list A) (d : A) : l <> [] -> In (last l d) l.
Proof.
  induction l as [|x l IH]; [congruence|]. intros _.
  destruct l as [|y l]; [now left|].
  right. apply IH. discriminate.
Qed.

Lemma sorted_bounds (l : list Z) (x : Z) :
  StronglySorted Z.le l -> In x l -> (hd 0 l <= x <= last l 0)%Z.
Proof.
  induction 1 as [|y l Hs IH Hy]; [contradiction|].
  rewrite Forall_forall in Hy. intros [<- | Hx].
  - split; [simpl; lia|].
    destruct l as [|z l]; [simpl; lia|].
    assert (Hz : In (last (z :: l) 0%Z) (z :: l))
      by (apply last_In; discriminate).
    change (last (y :: z :: l) 0%Z) with (last (z :: l) 0%Z).
    now apply Hy.
  - split; [simpl; now apply Hy|].
    destruct l as [|z l]; [contradiction|].
    change (last (y :: z :: l) 0%Z) with (last (z :: l) 0%Z).
    now apply IH.
Qed.

Lemma tenths_mono_nonneg (v w : Q) :
  0 <= v -> v <= w -> (tenths v <= tenths w)%Z.
Proof.
  intros Hv Hvw. unfold tenths.
  assert (E1 : Qle_bool 0 v = true) by now apply Qle_bool_iff.
  assert (E2 : Qle_bool 0 w = true) by (apply Qle_bool_iff; lra).
  rewrite E1, E2. apply Qfloor_resp_le. lra.
Qed.

Lemma tenths_inject_Z (z : Z) : (0 <= z)%Z -> tenths (inject_Z z) = (10 * z)%Z.
Proof.
  intros Hz. unfold tenths.
  assert (E : Qle_bool 0 (inject_Z z) = true).
  { apply Qle_bool_iff. change 0 with (inject_Z 0). now rewrite <- Zle_Qle. }
  rewrite E. fold (round_half_up (inject_Z z * 10)).
  rewrite <- (round_half_up_Z (10 * z)). apply round_half_up_eq.
  rewrite inject_Z_mult. change (inject_Z 10) with 10. lra.
Qed.

(** Rounding to one decimal keeps a value between two integers. *)
Lemma tenths_between (lo hi : Z) (v : Q) :
  (0 <= lo)%Z -> inject_Z lo <= v -> v <= inject_Z hi ->
  inject_Z lo <= tenths v # 10 /\ tenths v # 10 <= inject_Z hi.
Proof.
  intros Hlo Hl Hh.
  assert (H0 : 0 <= inject_Z lo).
  { change 0 with (inject_Z 0). now rewrite <- Zle_Qle. }
  assert (Hhi : (0 <= hi)%Z).
  { rewrite Zle_Qle. change (inject_Z 0) with 0. lra. }
  pose proof (tenths_mono_nonneg H0 Hl) as H1.
  assert (Hv : 0 <= v) by lra.
  pose proof (tenths_mono_nonneg Hv Hh) as H2.
  rewrite tenths_inject_Z in H1, H2 by assumption.
  unfold Qle, inject_Z. cbn [Qnum Qden]. lia.
Qed.

Lemma tenths_ordered (v w : Q) :
  0 <= v -> v <= w -> tenths v # 10 <= tenths w # 10.
Proof.
  intros Hv Hvw. pose proof (tenths_mono_nonneg Hv Hvw) as H.
  unfold Qle. cbn [Qnum Qden]. lia.
Qed.

Lemma hd_inject_Z (l : list Z) : hd 0 (map inject_Z l) = inject_Z (hd 0%Z l).
Proof. now destruct l. Qed.

Lemma last_inject_Z (l : list Z) :
  last (map inject_Z l) 0 = inject_Z (last l 0%Z).
Proof.
  induction l as [|x l IH]; [reflexivity|].
  destruct l as [|y l]; [reflexivity|]. exact IH.
Qed.

Section SortedNumbers.

Variable arr : list Z.
Hypothesis nonempty : arr <> [].
Hypothesis positive : forall x, In x arr -> (1 <= x)%Z.

Let sorted := Messages.ascending arr.

Lemma sorted_nonempty : sorted <> [].
Proof.
  intros E. apply nonempty.
  apply Permutation_nil. rewrite <- E. apply ascending_Permutation.
Qed.

Lemma sorted_ends :
  (1 <= Messages.first_or_0 sorted <= Messages.last_or_0 sorted)%Z.
Proof.
  pose proof sorted_nonempty as Hne.
  assert (Hin : In (hd 0%Z sorted) sorted)
    by (destruct sorted; [congruence | now left]).
  unfold Messages.first_or_0, Messages.last_or_0. split.
  - apply positive.
    apply (Permutation_in _ (ascending_Permutation arr)). exact Hin.
  - apply (@sorted_bounds _ _ (ascending_sorted arr) Hin).
Qed.

(** Two percentiles of the sorted numbers, rounded to one decimal. *)
Lemma rounded_percentiles (p q : Q) :
  0 <= p -> p <= q -> q <= 100 ->
  exists vp vq,
    Messages.percentile1 sorted p = Some (Fin vp)
    /\ Messages.percentile1 sorted q = Some (Fin vq)
    /\ inject_Z (Messages.first_or_0 sorted) <= vp
    /\ vp <= vq
    /\ vq <= inject_Z (Messages.last_or_0 sorted).
Proof.
  intros H0 Hpq H100.
  assert (Hne : map inject_Z sorted <> []).
  { intros E. apply map_eq_nil in E. now apply sorted_nonempty. }
  assert (Hs : StronglySorted Qle (map inject_Z sorted))
    by apply sorted_inject_Z, ascending_sorted.
  destruct (@percentiles_in_order _ Hne Hs p q H0 Hpq H100)
    as (vp & vq & Hp & Hq & Hlo & Hle & Hhi).
  rewrite hd_inject_Z in Hlo. rewrite last_inject_Z in Hhi.
  pose proof sorted_ends as [Hmin Hmax].
  unfold Messages.first_or_0, Messages.last_or_0 in *.
  assert (Hmin0 : 0 <= inject_Z (hd 0%Z sorted)).
  { change 0 with (inject_Z 0). rewrite <- Zle_Qle. lia. }
  exists (tenths vp # 10), (tenths vq # 10).
  unfold Messages.percentile1. rewrite Hp, Hq. cbn [option_map toFixed1].
  split; [reflexivity|]. split; [reflexivity|].
  split; [|split].
  - apply (tenths_between (hi := last sorted 0%Z)); [lia | exact Hlo | lra].
  - apply tenths_ordered; lra.
  - apply (tenths_between (lo := hd 0%Z sorted)); [lia | lra | exact Hhi].
Qed.

Lemma sum_between (l : list Z) (lo hi : Z) :
  (forall x, In x l -> (lo <= x <= hi)%Z) ->
  (Z.of_nat (List.length l) * lo <= fold_left Z.add l 0
   <= Z.of_nat (List.length l) * hi)%Z.
Proof.
  intros H.
  assert (Hgen : forall s,
            (Z.of_nat (List.length l) * lo + s <= fold_left Z.add l s
             <= Z.of_nat (List.length l) * hi + s)%Z).
  { induction l as [|x l IH]; intros s; [simpl; lia|].
    cbn [fold_left List.length].
    pose proof (H x (or_introl eq_refl)).
    specialize (IH (fun y Hy => H y (or_intror Hy)) (s + x)%Z). lia. }
  specialize (Hgen 0%Z). lia.
Qed.

(** The mean of a rearrangement of the numbers, rounded to one decimal. *)
Lemma rounded_mean (l : list Z) :
  Permutation l arr ->
  exists m,
    toFixed1 (Messages.mean l) = Fin m
    /\ inject_Z (Messages.first_or_0 sorted) <= m
    /\ m <= inject_Z (Messages.last_or_0 sorted).
Proof.
  intros Hperm.
  assert (Hl : l <> []).
  { intros E. apply nonempty. apply Permutation_nil. now rewrite <- E. }
  assert (Hlen : (0 < Z.of_nat (List.length l))%Z)
    by (destruct l; [congruence | simpl List.length; lia]).
  pose proof sorted_ends as [Hmin Hmax].
  assert (Hall : forall x, In x l ->
            (Messages.first_or_0 sorted <= x <= Messages.last_or_0 sorted)%Z).
  { intros x Hx. apply (@sorted_bounds _ _ (ascending_sorted arr)).
    apply (Permutation_in _ (Permutation_sym (ascending_Permutation arr))).
    apply (Permutation_in _ Hperm). exact Hx. }
  pose proof (sum_between l Hall) as [Hlo Hhi].
  unfold Messages.mean, of_nat, of_Z.
  assert (Hn : 0 < inject_Z (Z.of_nat (List.length l))).
  { change 0 with (inject_Z 0). now rewrite <- Zlt_Qlt. }
  rewrite div_finite by lra. cbn [toFixed1].
  eexists. split; [reflexivity|].
  apply tenths_between; [lia| |].
  - apply Qle_shift_div_l; [exact Hn|].
    rewrite <- inject_Z_mult, <- Zle_Qle. lia.
  - apply Qle_shift_div_r; [exact Hn|].
    rewrite <- inject_Z_mult, <- Zle_Qle. lia.
Qed.

End SortedNumbers.

Lemma all_space_trimStart (m : string) :
  all_chars is_space m = true -> trimStart m = EmptyString.
Proof.
  induction m as [|c m IH]; [reflexivity|]. simpl.
  intros H. apply andb_true_iff in H. destruct H as [Hc Hm].
  rewrite Hc. now apply IH.
Qed.

Lemma nonblank_has_char (m : string) :
  truthy (trim m) = true -> all_chars is_space m = false.
Proof.
  intros H. destruct (all_chars is_space m) eqn:E; [|reflexivity].
  unfold trim in H. now rewrite (all_space_trimStart m E) in H.
Qed.

Lemma split_ws_nonempty (m : string) : Messages.split_ws m <> [].
Proof.
  induction m as [|c m IH]; [discriminate|]. cbn [Messages.split_ws].
  destruct (is_space c).
  - destruct m as [|c' m']; [discriminate|].
    destruct (is_space c'); [exact IH | discriminate].
  - destruct (Messages.split_ws m); discriminate.
Qed.

Lemma words_positive (m : string) :
  all_chars is_space m = false -> (1 <= Messages.words m)%Z.
Proof.
  unfold Messages.words.
  induction m as [|c m IH]; [discriminate|].
  cbn [all_chars Messages.split_ws]. intros H.
  destruct (is_space c) eqn:Ec.
  - cbn [andb] in H. specialize (IH H).
    destruct m as [|c' m']; [discriminate H|].
    destruct (is_space c'); [exact IH|].
    cbn [filter truthy]. exact IH.
  - pose proof (split_ws_nonempty m) as Hne.
    destruct (Messages.split_ws m) as [|piece pieces]; [congruence|].
    cbn [filter truthy List.length]. lia.
Qed.

Lemma len_positive (m : string) :
  truthy (trim m) = true -> (1 <= Messages.len m)%Z.
Proof.
  intros H. unfold Messages.len.
  destruct m; [discriminate H | simpl String.length; lia].
Qed.

Lemma filter_partition_length (A : Type) (p : A -> bool) (l : list A) :
  (List.length (filter p l) + List.length (filter (fun x => negb (p x)) l)
   = List.length l)%nat.
Proof.
  induction l as [|x l IH]; [reflexivity|]. simpl.
  destruct (p x); simpl; lia.
Qed.

(** X22. When some row has a non-blank message, the message section of
    [processCSVToRawData] is built without an exception, [count] and
    [null_count] add up to the number of rows, and its statistics are in
    order: for the character lengths 1 <= min <= p5 <= p25 <= median <=
    p75 <= p95 <= max and min <= mean <= max, and for the word counts
    1 <= min <= median <= max and min <= mean <= max. *)
Theorem message_statistics_in_order (sqrtQ : Q -> Q) (rows : list CsvRow.t) :
  (exists r, In r rows /\ truthy (trim (CsvRow.message r)) = true) ->
  exists st a5 a25 a50 a75 a95 am w50 wm,
    Messages.message_section sqrtQ rows = Some st
    /\ (1 <= MessageStats.count st)%Z
    /\ (MessageStats.count st + MessageStats.null_count st
        = Z.of_nat (List.length rows))%Z
    /\ CharLength.p5 (MessageStats.char_length st) = Fin a5
    /\ CharLength.p25 (MessageStats.char_length st) = Fin a25
    /\ CharLength.median (MessageStats.char_length st) = Fin a50
    /\ CharLength.p75 (MessageStats.char_length st) = Fin a75
    /\ CharLength.p95 (MessageStats.char_length st) = Fin a95
    /\ CharLength.mean (MessageStats.char_length st) = Fin am
    /\ (1 <= CharLength.min (MessageStats.char_length st))%Z
    /\ inject_Z (CharLength.min (MessageStats.char_length st)) <= a5
    /\ a5 <= a25 /\ a25 <= a50 /\ a50 <= a75 /\ a75 <= a95
    /\ a95 <= inject_Z (CharLength.max (MessageStats.char_length st))
    /\ inject_Z (CharLength.min (MessageStats.char_length st)) <= am
    /\ am <= inject_Z (CharLength.max (MessageStats.char_length st))
    /\ WordCount.median (MessageStats.word_count st) = Fin w50
    /\ WordCount.mean (MessageStats.word_count st) = Fin wm
    /\ (1 <= WordCount.min (MessageStats.word_count st))%Z
    /\ inject_Z (WordCount.min (MessageStats.word_count st)) <= w50
    /\ w50 <= inject_Z (WordCount.max (MessageStats.word_count st))
    /\ inject_Z (WordCount.min (MessageStats.word_count st)) <= wm
    /\ wm <= inject_Z (WordCount.max (MessageStats.word_count st)).
Proof.
  intros (r & Hr & Hmsg).
  set (valid := filter (fun m => truthy (trim m)) (map CsvRow.message rows)).
  assert (Hvalid : In (CsvRow.message r) valid)
    by (apply filter_In; split; [now apply in_map | exact Hmsg]).
  assert (Hne : valid <> []) by (intros E; now rewrite E in Hvalid).
  assert (Hlens : map Messages.len valid <> [])
    by (intros E; apply map_eq_nil in E; contradiction).
  assert (Hwords : map Messages.words valid <> [])
    by (intros E; apply map_eq_nil in E; contradiction).
  assert (Hlpos : forall x, In x (map Messages.len valid) -> (1 <= x)%Z).
  { intros x Hx. apply in_map_iff in Hx. destruct Hx as (m & <- & Hm).
    apply filter_In in Hm. now apply len_positive. }
  assert (Hwpos : forall x, In x (map Messages.words valid) -> (1 <= x)%Z).
  { intros x Hx. apply in_map_iff in Hx. destruct Hx as (m & <- & Hm).
    apply filter_In in Hm. now apply words_positive, nonblank_has_char. }
  destruct (rounded_percentiles Hlens Hlpos (p := 5) (q := 25))
    as (a5 & a25 & E5 & E25 & L5 & L25 & _); try discriminate.
  destruct (rounded_percentiles Hlens Hlpos (p := 25) (q := 50))
    as (a25' & a50 & E25' & E50 & _ & L50 & _); try discriminate.
  destruct (rounded_percentiles Hlens Hlpos (p := 50) (q := 75))
    as (a50' & a75 & E50' & E75 & _ & L75 & _); try discriminate.
  destruct (rounded_percentiles Hlens Hlpos (p := 75) (q := 95))
    as (a75' & a95 & E75' & E95 & _ & L95 & U95); try discriminate.
  rewrite E25 in E25'. injection E25' as <-.
  rewrite E50 in E50'. injection E50' as <-.
  rewrite E75 in E75'. injection E75' as <-.
  destruct (rounded_percentiles Hwords Hwpos (p := 50) (q := 50))
    as (w50 & w50' & W50 & W50' & LW & _ & UW); try discriminate.
  rewrite W50 in W50'. injection W50' as <-.
  destruct (rounded_mean Hlens Hlpos
              (ascending_Permutation (map Messages.len valid)))
    as (am & Em & Lm & Um).
  destruct (rounded_mean Hwords Hwpos (Permutation_refl _))
    as (wm & Ew & Lw & Uw).
  pose proof (sorted_ends Hlens Hlpos) as [Hmin _].
  pose proof (sorted_ends Hwords Hwpos) as [Hwmin _].
  eexists. exists a5, a25, a50, a75, a95, am, w50, wm.
  split.
  { unfold Messages.message_section. cbv zeta. fold valid.
    rewrite E50, E5, E25, E75, E95, W50. reflexivity. }
  cbn [MessageStats.count MessageStats.null_count MessageStats.char_length
       MessageStats.word_count CharLength.p5 CharLength.p25 CharLength.median
       CharLength.p75 CharLength.p95 CharLength.mean CharLength.min
       CharLength.max WordCount.median WordCount.mean WordCount.min
       WordCount.max].
  split.
  { destruct valid; [congruence | simpl List.length; lia]. }
  split.
  { unfold valid. rewrite <- Nat2Z.inj_add, filter_partition_length.
    now rewrite length_map. }
  repeat split; assumption.
Qed.

Lemma message_statistics_in_order_witness :
  exists st,
    Messages.message_section (fun q => q) Sample.ten_rows = Some st
    /\ (1 <= CharLength.min (MessageStats.char_length st))%Z.
Proof.
  destruct (@message_statistics_in_order (fun q => q) Sample.ten_rows
              (ex_intro _ (Sample.row "Analyst" "Analyst")
                        (conj (or_introl eq_refl) eq_refl)))
    as (st & a5 & a25 & a50 & a75 & a95 & am & w50 & wm & Hst & _ & _ & _ & _
        & _ & _ & _ & _ & Hmin & _).
  exists st. split; [exact Hst | exact Hmin].
Defined.

Lemma filter_none (A : Type) (p : A -> bool) (l : list A) :
  (forall x, In x l -> p x = false) -> filter p l = [].
Proof.
  intros H. induction l as [|x l IH]; [reflexivity|]. simpl.
  rewrite (H x (or_introl eq_refl)). apply IH. intros; apply H; now right.
Qed.

Lemma filter_all (A : Type) (p : A -> bool) (l : list A) :
  (forall x, In x l -> p x = true) -> filter p l = l.
Proof.
  intros H. induction l as [|x l IH]; [reflexivity|]. simpl.
  rewrite (H x (or_introl eq_refl)). f_equal. apply IH.
  intros; apply H; now right.
Qed.

(** X23. When every message is blank (an empty file included), the message
    section is still built without an exception: the counts are 0, the
    smallest and largest lengths and word counts are 0, the lists of
    messages are empty, and every mean, median, deviation and percentile
    is NaN. *)
Theorem message_statistics_without_messages
        (sqrtQ : Q -> Q) (rows : list CsvRow.t) :
  (forall r, In r rows -> truthy (trim (CsvRow.message r)) = false) ->
  Messages.message_section sqrtQ rows
  = Some
      {| MessageStats.count := 0;
         MessageStats.null_count := Z.of_nat (List.length rows);
         MessageStats.char_length :=
           {| CharLength.mean := NaN; CharLength.median := NaN;
              CharLength.std := NaN; CharLength.min := 0; CharLength.max := 0;
              CharLength.p5 := NaN; CharLength.p25 := NaN;
              CharLength.p75 := NaN; CharLength.p95 := NaN |};
         MessageStats.word_count :=
           {| WordCount.mean := NaN; WordCount.median := NaN;
              WordCount.min := 0; WordCount.max := 0 |};
         MessageStats.shortest_messages := [];
         MessageStats.longest_messages_preview := [] |}.
Proof.
  intros Hblank.
  assert (Hvalid : filter (fun m => truthy (trim m)) (map CsvRow.message rows)
                   = []).
  { apply filter_none. intros m Hm. apply in_map_iff in Hm.
    destruct Hm as (r & <- & Hr). now apply Hblank. }
  assert (Hnull : filter (fun m => negb (truthy (trim m)))
                         (map CsvRow.message rows)
                  = map CsvRow.message rows).
  { apply filter_all. intros m Hm. apply in_map_iff in Hm.
    destruct Hm as (r & <- & Hr). now rewrite Hblank. }
  unfold Messages.message_section. cbv zeta.
  rewrite Hvalid, Hnull, length_map. reflexivity.
Qed.

Lemma message_statistics_without_messages_witness :
  exists st,
    Messages.message_section (fun q => q)
      [ {| CsvRow.message := "   "; CsvRow.award_title := "Star";
           CsvRow.recipient_title := "Analyst";
           CsvRow.nominator_title := "Manager" |} ] = Some st
    /\ CharLength.median (MessageStats.char_length st) = NaN
    /\ MessageStats.null_count st = 1%Z.
Proof.
  eexists. split.
  - apply message_statistics_without_messages.
    intros r [<- | []]. reflexivity.
  - split; reflexivity.
Defined.

(* ------------------------------------------------------------------ *)
(** ** Shortest messages and previews *)

Lemma substring_prefix_length (n : nat) (s : string) :
  String.length (substring 0 n s) = Nat.min n (String.length s).
Proof.
  revert s. induction n as [|n IH]; intros s; destruct s as [|c s]; simpl;
    try reflexivity.
  now rewrite IH.
Qed.

Lemma substring_prefix_all (n : nat) (s : string) :
  (String.length s <= n)%nat -> substring 0 n s = s.
Proof.
  revert s. induction n as [|n IH]; intros s H; destruct s as [|c s]; simpl in *;
    try reflexivity; try lia.
  f_equal. apply IH. lia.
Qed.

Lemma append_length (s t : string) :
  String.length (s ++ t)%string = (String.length s + String.length t)%nat.
Proof. induction s as [|c s IH]; simpl; [reflexivity | now rewrite IH]. Qed.

Lemma append_empty (s : string) : (s ++ "")%string = s.
Proof. induction s as [|c s IH]; simpl; [reflexivity | now rewrite IH]. Qed.

Lemma preview_shape (m : string) :
  (String.length (Messages.preview m) <= 113)%nat
  /\ ((String.length m <= 110)%nat -> Messages.preview m = m)
  /\ ((110 < String.length m)%nat ->
      Messages.preview m = (substring 0 110 m ++ "...")%string
      /\ String.length (Messages.preview m) = 113%nat).
Proof.
  unfold Messages.preview.
  destruct (Nat.ltb_spec 110 (String.length m)) as [H|H].
  - rewrite append_length, substring_prefix_length.
    change (String.length "...") with 3%nat.
    split; [lia|]. split; [lia|]. intros _. split; [reflexivity | lia].
  - rewrite append_empty, substring_prefix_length.
    split; [lia|]. split; [|lia]. intros _. now apply substring_prefix_all.
Qed.

Lemma by_length_sorted (l : list string) :
  StronglySorted (fun a b => (Messages.len a <= Messages.len b)%Z)
                 (sort_by (fun a b => (Messages.len a <? Messages.len b)%Z) l).
Proof.
  apply (sorted_weaken
           (R := fun a b => (- Messages.len b <= - Messages.len a)%Z));
    [intros a b H; lia|].
  apply (@sort_by_descending _ (fun m => (- Messages.len m)%Z)). intros a b.
  destruct (Z.ltb_spec (Messages.len a) (Messages.len b)),
           (Z.ltb_spec (- Messages.len b) (- Messages.len a));
    try reflexivity; lia.
Qed.

Lemma sorted_rev (A : Type) (R : A -> A -> Prop) (l : list A) :
  StronglySorted R l -> StronglySorted (fun a b => R b a) (rev l).
Proof.
  induction 1 as [|x l Hs IH Hx]; [constructor|]. simpl.
  assert (Hgen : forall l1 : list A,
            StronglySorted (fun a b => R b a) l1 ->
            (forall y, In y l1 -> R x y) ->
            StronglySorted (fun a b => R b a) (l1 ++ [x])).
  { clear. induction l1 as [|y l1 IH]; intros Hs Hall; simpl.
    - repeat constructor.
    - inversion Hs as [|? ? Hs' Hy]; subst. constructor.
      + apply IH; [exact Hs' | intros; apply Hall; now right].
      + apply Forall_forall. intros z Hz. apply in_app_or in Hz.
        destruct Hz as [Hz | [<- | []]].
        * rewrite Forall_forall in Hy. now apply Hy.
        * apply Hall. now left. }
  apply Hgen; [exact IH|]. intros y Hy. apply in_rev in Hy.
  rewrite Forall_forall in Hx. now apply Hx.
Qed.

Lemma percentile1_defined (arr : list Z) (p : Q) :
  0 < p -> p < 100 -> (forall x, In x arr -> (1 <= x)%Z) ->
  Messages.percentile1 (Messages.ascending arr) p <> None.
Proof.
  intros Hp0 Hp100 Hpos.
  destruct arr as [|x arr].
  - unfold Messages.percentile1, Messages.ascending, CSV.percentile.
    cbn [sort_by fold_right map List.length Z.of_nat].
    set (idx := p / 100 * inject_Z (0 - 1)).
    assert (Hidx : -1 < idx /\ idx < 0).
    { unfold idx. change (inject_Z (0 - 1)) with (-1).
      assert (0 < p / 100) by (apply Qlt_shift_div_l; lra).
      assert (p / 100 < 1) by (apply Qlt_shift_div_r; lra).
      split; lra. }
    assert (Hlo : Qfloor idx = (-1)%Z).
    { apply Qfloor_unique.
      - change (inject_Z (-1)) with (-1). lra.
      - change (inject_Z (-1 + 1)) with 0. lra. }
    assert (Hhi : Qceiling idx = 0%Z).
    { apply Qceiling_unique.
      - change (inject_Z (0 - 1)) with (-1). lra.
      - change (inject_Z 0) with 0. lra. }
    rewrite Hlo, Hhi. discriminate.
  - assert (Hne : x :: arr <> []) by discriminate.
    destruct (rounded_percentiles Hne Hpos (p := p) (q := p))
      as (v & _ & E & _); try lra.
    rewrite E. discriminate.
Qed.

(** X24. The message section is built without an exception for every
    input.  [shortest_messages] holds min(5, count) non-blank messages in
    ascending order of length, none longer than a message left out;
    [longest_messages_preview] holds the previews of min(5, count)
    non-blank messages in descending order of length, none shorter than a
    message left out.  A preview has at most 113 characters: it is the
    message itself when that has at most 110 characters, and otherwise its
    first 110 characters followed by three dots. *)
Theorem message_lists (sqrtQ : Q -> Q) (rows : list CsvRow.t) :
  let valid := filter (fun m => truthy (trim m)) (map CsvRow.message rows) in
  exists st longest,
    Messages.message_section sqrtQ rows = Some st
    /\ List.length (MessageStats.shortest_messages st)
       = Nat.min 5 (List.length valid)
    /\ StronglySorted (fun a b => (Messages.len a <= Messages.len b)%Z)
                      (MessageStats.shortest_messages st)
    /\ (forall s, In s (MessageStats.shortest_messages st) -> In s valid)
    /\ (forall s m, In s (MessageStats.shortest_messages st) -> In m valid ->
          In m (MessageStats.shortest_messages st)
          \/ (Messages.len s <= Messages.len m)%Z)
    /\ MessageStats.longest_messages_preview st = map Messages.preview longest
    /\ List.length longest = Nat.min 5 (List.length valid)
    /\ StronglySorted (fun a b => (Messages.len b <= Messages.len a)%Z) longest
    /\ (forall l, In l longest -> In l valid)
    /\ (forall l m, In l longest -> In m valid ->
          In m longest \/ (Messages.len m <= Messages.len l)%Z)
    /\ (forall m,
          (String.length (Messages.preview m) <= 113)%nat
          /\ ((String.length m <= 110)%nat -> Messages.preview m = m)
          /\ ((110 < String.length m)%nat ->
              Messages.preview m = (substring 0 110 m ++ "...")%string)).
Proof.
  intros valid.
  set (sorted := sort_by (fun a b => (Messages.len a <? Messages.len b)%Z) valid).
  assert (Hlpos : forall x, In x (map Messages.len valid) -> (1 <= x)%Z).
  { intros x Hx. apply in_map_iff in Hx. destruct Hx as (m & <- & Hm).
    apply filter_In in Hm. now apply len_positive. }
  assert (Hwpos : forall x, In x (map Messages.words valid) -> (1 <= x)%Z).
  { intros x Hx. apply in_map_iff in Hx. destruct Hx as (m & <- & Hm).
    apply filter_In in Hm. now apply words_positive, nonblank_has_char. }
  assert (Hperm : Permutation sorted valid) by apply sort_by_Permutation.
  assert (Hsorted : StronglySorted
                      (fun a b => (Messages.len a <= Messages.len b)%Z) sorted)
    by apply by_length_sorted.
  assert (Hlen : List.length sorted = List.length valid)
    by (now apply Permutation_length).
  assert (Hst : exists st,
            Messages.message_section sqrtQ rows = Some st
            /\ MessageStats.shortest_messages st = firstn 5 sorted
            /\ MessageStats.longest_messages_preview st
               = map Messages.preview (rev (Messages.last_n 5 sorted))).
  { unfold Messages.message_section. cbv zeta. fold valid. fold sorted.
    pose proof (@percentile1_defined (map Messages.len valid) 50) as H50.
    pose proof (@percentile1_defined (map Messages.len valid) 5) as H5.
    pose proof (@percentile1_defined (map Messages.len valid) 25) as H25.
    pose proof (@percentile1_defined (map Messages.len valid) 75) as H75.
    pose proof (@percentile1_defined (map Messages.len valid) 95) as H95.
    pose proof (@percentile1_defined (map Messages.words valid) 50) as W50.
    destruct (Messages.percentile1 (Messages.ascending (map Messages.len valid)) 50);
      [|exfalso; apply H50; auto; reflexivity].
    destruct (Messages.percentile1 (Messages.ascending (map Messages.len valid)) 5);
      [|exfalso; apply H5; auto; reflexivity].
    destruct (Messages.percentile1 (Messages.ascending (map Messages.len valid)) 25);
      [|exfalso; apply H25; auto; reflexivity].
    destruct (Messages.percentile1 (Messages.ascending (map Messages.len valid)) 75);
      [|exfalso; apply H75; auto; reflexivity].
    destruct (Messages.percentile1 (Messages.ascending (map Messages.len valid)) 95);
      [|exfalso; apply H95; auto; reflexivity].
    destruct (Messages.percentile1 (Messages.ascending (map Messages.words valid)) 50);
      [|exfalso; apply W50; auto; reflexivity].
    eexists. split; [reflexivity|]. split; reflexivity. }
  destruct Hst as (st & Hsome & Hshort & Hlong).
  exists st, (rev (Messages.last_n 5 sorted)).
  split; [exact Hsome|]. rewrite Hshort.
  (* the two ends of the sorted messages *)
  destruct (@sorted_app_inv _ (fun a b => (Messages.len a <= Messages.len b)%Z)
              (firstn 5 sorted) (skipn 5 sorted))
    as (Hs1 & _ & Hcross1); [now rewrite firstn_skipn|].
  set (k := (List.length sorted - 5)%nat).
  destruct (@sorted_app_inv _ (fun a b => (Messages.len a <= Messages.len b)%Z)
              (firstn k sorted) (skipn k sorted))
    as (_ & Hs2 & Hcross2); [now rewrite firstn_skipn|].
  assert (Hin_valid : forall m, In m sorted <-> In m valid).
  { intros m. split; apply Permutation_in;
      [exact Hperm | now apply Permutation_sym]. }
  split; [rewrite length_firstn; lia|].
  split; [exact Hs1|].
  split.
  { intros s Hs. apply Hin_valid. rewrite <- (firstn_skipn 5 sorted).
    apply in_or_app. now left. }
  split.
  { intros s m Hs Hm. apply Hin_valid in Hm.
    rewrite <- (firstn_skipn 5 sorted) in Hm. apply in_app_or in Hm.
    destruct Hm as [Hm | Hm]; [now left | right; now apply Hcross1]. }
  split; [exact Hlong|].
  unfold Messages.last_n. fold k.
  split; [rewrite length_rev, length_skipn; unfold k; lia|].
  split; [now apply sorted_rev|].
  split.
  { intros l Hl. apply in_rev in Hl. apply Hin_valid.
    rewrite <- (firstn_skipn k sorted). apply in_or_app. now right. }
  split.
  { intros l m Hl Hm. apply in_rev in Hl. apply Hin_valid in Hm.
    rewrite <- (firstn_skipn k sorted) in Hm. apply in_app_or in Hm.
    destruct Hm as [Hm | Hm].
    - right. now apply Hcross2.
    - left. now apply in_rev in Hm. }
  intros m. destruct (preview_shape m) as (H1 & H2 & H3).
  split; [exact H1|]. split; [exact H2|]. intros H. now apply H3.
Qed.

(* ================================================================== *)
(** * The award section *)
(* ================================================================== *)

Lemma max_is_last (l : list Z) :
  StronglySorted Z.le l -> Messages.max_or_0 l = last l 0%Z.
Proof.
  intros Hs. destruct l as [|x rest]; [reflexivity|].
  unfold Messages.max_or_0.
  destruct (fold_max_bounds rest x) as (Hx & Hall & Hone).
  assert (Hin : In (fold_left Z.max rest x) (x :: rest)).
  { destruct Hone as [-> | H]; [now left | now right]. }
  assert (Hlast : In (last (x :: rest) 0%Z) (x :: rest))
    by (apply last_In; discriminate).
  pose proof (@sorted_bounds _ _ Hs Hin) as [_ Hle].
  apply Z.le_antisymm; [exact Hle|].
  destruct Hlast as [<- | H]; [exact Hx | now apply Hall].
Qed.

Lemma mean_value (l : list Z) :
  l <> [] -> (forall x, In x l -> (1 <= x)%Z) ->
  exists q, Messages.mean l = Fin q /\ 1 <= q.
Proof.
  intros Hne Hpos.
  assert (Hlen : (0 < Z.of_nat (List.length l))%Z)
    by (destruct l; [congruence | simpl List.length; lia]).
  assert (Hn : 0 < inject_Z (Z.of_nat (List.length l))).
  { change 0 with (inject_Z 0). now rewrite <- Zlt_Qlt. }
  assert (Hsum : (Z.of_nat (List.length l) * 1 <= fold_left Z.add l 0)%Z).
  { assert (Hgen : forall l' s,
              (forall x, In x l' -> (1 <= x)%Z) ->
              (Z.of_nat (List.length l') * 1 + s <= fold_left Z.add l' s)%Z).
    { induction l' as [|x l' IH]; intros s H; [simpl; lia|].
      cbn [fold_left List.length].
      pose proof (H x (or_introl eq_refl)).
      specialize (IH (s + x)%Z (fun y Hy => H y (or_intror Hy))). lia. }
    specialize (Hgen l 0%Z Hpos). lia. }
  unfold Messages.mean, of_nat, of_Z. rewrite div_finite by lra.
  eexists. split; [reflexivity|].
  apply Qle_shift_div_l; [exact Hn|].
  rewrite Qmult_1_l, <- Zle_Qle. lia.
Qed.

(** X25. The award section of [processCSVToRawData] is built without an
    exception for every input; [count] and [null_count] add up to the
    number of rows and [empty_count] repeats [null_count].  Without an
    award title the mean title length is 0, the median is NaN and the
    largest length is 0.  With one, the largest length is that of a
    longest award title, and the mean and the median lie between 1 and
    it. *)
Theorem award_title_lengths (rows : list CsvRow.t) :
  let valid := filter (fun t => truthy (trim t)) (map CsvRow.award_title rows) in
  exists st,
    Messages.award_section rows = Some st
    /\ AwardStats.count st = Z.of_nat (List.length valid)
    /\ (AwardStats.count st + AwardStats.null_count st
        = Z.of_nat (List.length rows))%Z
    /\ AwardStats.empty_count st = AwardStats.null_count st
    /\ (valid = [] ->
        (exists m, TitleLength.mean (AwardStats.title_length st) = Fin m
                   /\ m == 0)
        /\ TitleLength.median (AwardStats.title_length st) = NaN
        /\ TitleLength.max (AwardStats.title_length st) = 0%Z)
    /\ (valid <> [] ->
        exists m d,
          TitleLength.mean (AwardStats.title_length st) = Fin m
          /\ TitleLength.median (AwardStats.title_length st) = Fin d
          /\ 1 <= m
          /\ m <= inject_Z (TitleLength.max (AwardStats.title_length st))
          /\ 1 <= d
          /\ d <= inject_Z (TitleLength.max (AwardStats.title_length st))
          /\ (exists t, In t valid
                /\ Messages.len t = TitleLength.max (AwardStats.title_length st))
          /\ (forall t, In t valid ->
                (Messages.len t
                 <= TitleLength.max (AwardStats.title_length st))%Z)).
Proof.
  intros valid.
  assert (Hpos : forall x, In x (map Messages.len valid) -> (1 <= x)%Z).
  { intros x Hx. apply in_map_iff in Hx. destruct Hx as (m & <- & Hm).
    apply filter_In in Hm. now apply len_positive. }
  pose proof (@percentile1_defined (map Messages.len valid) 50
                ltac:(reflexivity) ltac:(reflexivity) Hpos) as Hdef.
  unfold Messages.award_section. cbv zeta. fold valid.
  destruct (Messages.percentile1 (Messages.ascending (map Messages.len valid)) 50)
    as [median|] eqn:Emed; [|congruence].
  eexists. split; [reflexivity|].
  cbn [AwardStats.count AwardStats.null_count AwardStats.empty_count
       AwardStats.title_length TitleLength.mean TitleLength.median
       TitleLength.max].
  split; [reflexivity|]. split.
  { unfold valid. rewrite <- Nat2Z.inj_add, filter_partition_length.
    now rewrite length_map. }
  split; [reflexivity|]. split.
  - intros E. rewrite E in *. cbn in Emed. injection Emed as <-.
    split; [|split; reflexivity].
    eexists. split; [reflexivity|]. reflexivity.
  - intros Hne.
    assert (Hlens : map Messages.len valid <> [])
      by (intros E; apply map_eq_nil in E; contradiction).
    destruct (rounded_percentiles Hlens Hpos (p := 50) (q := 50))
      as (d & d' & Ed & Ed' & Ld & _ & Ud); try discriminate.
    rewrite Ed in Ed'. injection Ed' as <-.
    rewrite Ed in Emed. injection Emed as <-.
    destruct (rounded_mean Hlens Hpos (Permutation_refl _))
      as (m & Em & Lm & Um).
    destruct (mean_value Hlens Hpos) as (q & Eq & Hq).
    pose proof (sorted_ends Hlens Hpos) as [Hmin Hmax].
    rewrite (max_is_last (ascending_sorted (map Messages.len valid))).
    fold (Messages.last_or_0 (Messages.ascending (map Messages.len valid))).
    assert (Hmin1 : 1 <= inject_Z (Messages.first_or_0
                                     (Messages.ascending (map Messages.len valid)))).
    { change 1 with (inject_Z 1). rewrite <- Zle_Qle. lia. }
    exists m, d.
    split.
    { unfold Messages.mean_or_0. rewrite <- Em, Eq. unfold or_zero.
      destruct (Qeq_bool q 0) eqn:Z0; [|reflexivity].
      apply Qeq_bool_iff in Z0. lra. }
    split; [reflexivity|].
    split; [lra|]. split; [exact Um|]. split; [lra|]. split; [exact Ud|].
    assert (Hlast : In (Messages.last_or_0
                          (Messages.ascending (map Messages.len valid)))
                       (map Messages.len valid)).
    { apply (Permutation_in _ (ascending_Permutation _)).
      apply last_In. intros E.
      apply Hlens, Permutation_nil. rewrite <- E.
      apply ascending_Permutation. }
    split.
    + apply in_map_iff in Hlast. destruct Hlast as (t & Ht & Hin). now exists t.
    + intros t Ht.
      apply (@sorted_bounds _ _ (ascending_sorted (map Messages.len valid))).
      apply (Permutation_in _ (Permutation_sym (ascending_Permutation _))).
      now apply in_map.
Qed.

(* ================================================================== *)
(** * Reading CSV text *)
(* ================================================================== *)

Local Open Scope string_scope.

Lemma append_assoc (a b c : string) : (a ++ b) ++ c = a ++ (b ++ c).
Proof. induction a as [|x a IH]; simpl; [reflexivity | now rewrite IH]. Qed.

Import Parser.

Lemma with_field_same (st : state) : with_field st (field st) = st.
Proof. now destruct st. Qed.

Lemma scan_plain (f rest : string) (st : state) :
  inQuotes st = false -> is_plain f = true ->
  scan (f ++ rest) st = scan rest (with_field st (field st ++ f)).
Proof.
  revert st. induction f as [|c f IH]; intros st Hq Hp.
  - simpl. now rewrite append_empty, with_field_same.
  - cbn [is_plain all_chars] in Hp. apply andb_true_iff in Hp.
    destruct Hp as [Hc Hf].
    apply andb_true_iff in Hc. destruct Hc as [Hc Hcr].
    apply andb_true_iff in Hc. destruct Hc as [Hc Hlf].
    apply andb_true_iff in Hc. destruct Hc as [Hdq Hco].
    apply negb_true_iff in Hdq, Hco, Hlf, Hcr.
    cbn [append scan]. rewrite Hq, Hdq, Hco, Hlf, Hcr.
    rewrite IH by assumption.
    unfold with_field, add_char. cbn [lines current field inQuotes].
    now rewrite append_assoc.
Qed.

Lemma scan_escaped (f rest : string) (st : state) :
  inQuotes st = true -> starts_with_quote rest = false ->
  scan (escape f ++ String dquote rest) st
  = scan rest (set_quotes (with_field st (field st ++ f)) false).
Proof.
  revert st. induction f as [|c f IH]; intros st Hq Hrest.
  - cbn [escape append scan]. rewrite Hq.
    change (Ascii.eqb dquote dquote) with true. cbv iota.
    rewrite append_empty, with_field_same.
    destruct rest as [|next rest']; [reflexivity|].
    cbn [starts_with_quote] in Hrest. now rewrite Hrest.
  - cbn [escape]. destruct (Ascii.eqb c dquote) eqn:E.
    + apply Ascii.eqb_eq in E. subst c.
      cbn [append scan]. rewrite Hq.
      change (Ascii.eqb dquote dquote) with true. cbv iota.
      rewrite IH by assumption.
      unfold with_field, add_char, set_quotes.
      cbn [lines current field inQuotes]. now rewrite append_assoc.
    + cbn [append scan]. rewrite Hq, E.
      rewrite IH by assumption.
      unfold with_field, add_char, set_quotes.
      cbn [lines current field inQuotes]. now rewrite append_assoc.
Qed.

Lemma scan_cell (c : cell) (rest : string) (st : state) :
  inQuotes st = false -> writable c = true -> starts_with_quote rest = false ->
  scan (write_cell c ++ rest) st
  = scan rest (with_field st (field st ++ snd c)).
Proof.
  intros Hq Hw Hrest. destruct c as [[|] f]; unfold write_cell; cbn [fst snd].
  - cbn [append scan]. rewrite Hq.
    change (Ascii.eqb dquote dquote) with true. cbv iota.
    rewrite append_assoc. cbn [append].
    rewrite scan_escaped by (try reflexivity; assumption).
    destruct st as [l cu fi q]. cbn in Hq. subst q. reflexivity.
  - apply scan_plain; assumption.
Qed.

Lemma scan_line (cells : list cell) :
  forall (rest : string) (st : state),
    cells <> [] -> inQuotes st = false -> field st = "" ->
    forallb writable cells = true -> starts_with_quote rest = false ->
    scan (write_line cells ++ rest) st
    = scan rest {| lines := lines st;
                   current := (current st ++ removelast (contents cells))%list;
                   field := last (contents cells) "";
                   inQuotes := false |}.
Proof.
  induction cells as [|c cells IH]; intros rest st Hne Hq Hf Hw Hrest;
    [congruence|].
  cbn [forallb] in Hw. apply andb_true_iff in Hw. destruct Hw as [Hc Hw].
  destruct cells as [|c2 cells].
  - cbn [write_line contents map removelast last].
    rewrite scan_cell by assumption. rewrite Hf, app_nil_r.
    destruct st as [l cu fi q]. cbn in Hq, Hf. subst. reflexivity.
  - change (write_line (c :: c2 :: cells))
      with (write_cell c ++ String comma (write_line (c2 :: cells))).
    rewrite append_assoc. cbn [append].
    rewrite scan_cell by (try reflexivity; assumption).
    cbn [scan]. unfold with_field at 1. cbn [inQuotes]. rewrite Hq.
    change (Ascii.eqb comma dquote) with false.
    change (Ascii.eqb comma comma) with true. cbv iota.
    rewrite IH; try assumption; try discriminate; try reflexivity.
    + unfold end_field, with_field. cbn [lines current field inQuotes].
      rewrite Hf. cbn [append].
      change (contents (c :: c2 :: cells))
        with (snd c :: contents (c2 :: cells)).
      change (removelast (snd c :: contents (c2 :: cells)))
        with (snd c :: removelast (contents (c2 :: cells))).
      change (last (snd c :: contents (c2 :: cells)) "")
        with (last (contents (c2 :: cells)) "").
      now rewrite <- app_assoc.
Qed.

Lemma scan_eol (eol rest : string) (st : state) :
  eol = String LF "" \/ eol = String CR (String LF "") ->
  inQuotes st = false ->
  scan (eol ++ rest) st = scan rest (end_line st).
Proof.
  intros [-> | ->] Hq; cbn [append scan]; rewrite Hq; reflexivity.
Qed.

Lemma eol_no_quote (eol rest : string) :
  eol = String LF "" \/ eol = String CR (String LF "") ->
  starts_with_quote (eol ++ rest) = false.
Proof. intros [-> | ->]; reflexivity. Qed.

Lemma line_contents (cells : list cell) :
  cells <> [] ->
  (removelast (contents cells) ++ [last (contents cells) ""])%list
  = contents cells.
Proof.
  intros H. symmetry. apply app_removelast_last.
  intros E. apply map_eq_nil in E. contradiction.
Qed.

Lemma line_ok_nonempty (line : list cell) : line_ok line = true -> line <> [].
Proof. intros H E. subst line. discriminate H. Qed.

Lemma scan_table (eol : string) (final : bool) (table : list (list cell)) :
  eol = String LF "" \/ eol = String CR (String LF "") ->
  forallb line_ok table = true ->
  forall st,
    current st = [] -> field st = "" -> inQuotes st = false ->
    lines (end_line (scan (write_table eol final table) st))
    = (lines st ++ map contents table)%list.
Proof.
  intros Heol. induction table as [|line table IH]; intros Hok st Hc Hf Hq.
  - cbn [write_table scan map]. unfold end_line. rewrite Hc, Hf.
    cbn. now rewrite app_nil_r.
  - cbn [forallb] in Hok. apply andb_true_iff in Hok.
    destruct Hok as [Hline Hok].
    pose proof (line_ok_nonempty Hline) as Hne.
    unfold line_ok in Hline. apply andb_true_iff in Hline.
    destruct Hline as [Hw Hv].
    assert (Hend : forall rest,
              starts_with_quote rest = false ->
              scan (write_line line ++ rest) st
              = scan rest {| lines := lines st;
                             current := removelast (contents line);
                             field := last (contents line) "";
                             inQuotes := false |}).
    { intros rest Hrest. rewrite scan_line by assumption. now rewrite Hc. }
    assert (Hkept : end_line {| lines := lines st;
                                current := removelast (contents line);
                                field := last (contents line) "";
                                inQuotes := false |}
                    = {| lines := (lines st ++ [contents line])%list;
                         current := []; field := ""; inQuotes := false |}).
    { unfold end_line. cbn [lines current field inQuotes].
      rewrite (line_contents Hne), Hv. reflexivity. }
    destruct table as [|line2 table].
    + cbn [write_table map]. destruct final.
      * rewrite <- (append_empty eol) at 1. rewrite Hend
          by (now apply eol_no_quote).
        rewrite scan_eol by (try assumption; reflexivity).
        rewrite Hkept. cbn [scan]. unfold end_line. cbn. reflexivity.
      * rewrite Hend by reflexivity. cbn [scan]. now rewrite Hkept.
    + change (write_table eol final (line :: line2 :: table))
        with (write_line line ++ eol ++ write_table eol final (line2 :: table)).
      rewrite Hend by (now apply eol_no_quote).
      rewrite scan_eol by (try assumption; reflexivity).
      rewrite Hkept. rewrite IH by (try assumption; reflexivity).
      cbn [lines map]. now rewrite <- app_assoc.
Qed.

Lemma parseCSV_reads_table_lines
      (eol : string) (final : bool)
      (header : list cell) (rows : list (list cell)) :
  eol = String LF "" \/ eol = String CR (String LF "") ->
  forallb line_ok (header :: rows) = true ->
  read_lines (write_table eol final (header :: rows))
  = map contents (header :: rows)
  /\ parseCSV (write_table eol final (header :: rows))
     = map (fun row => object_of (map trim (contents header)) (contents row))
           rows.
Proof.
  intros Heol Hok.
  assert (Hlines : read_lines (write_table eol final (header :: rows))
                   = map contents (header :: rows)).
  { unfold read_lines.
    now rewrite (@scan_table eol final (header :: rows) Heol Hok start). }
  split; [exact Hlines|].
  unfold parseCSV. cbv zeta. rewrite Hlines. cbn [map hd tl List.length].
  destruct rows as [|row rows]; [reflexivity|].
  cbn [map List.length Nat.ltb Nat.leb]. now rewrite map_map.
Qed.



(* ------------------------------------------------------------------ *)
(** ** From the text of a file to its statistics *)

Lemma position_nth (column : string) (headers : list string) (i : nat) :
  Loader.position column headers = Some i ->
  nth_error headers i = Some column.
Proof.
  revert i. induction headers as [|h rest IH]; intros i; simpl; [discriminate|].
  destruct (String.eqb_spec column h) as [->|_].
  - now intros [= <-].
  - destruct (Loader.position column rest) as [j|]; [|discriminate].
    intros [= <-]. now apply IH.
Qed.

Lemma position_none (column : string) (headers : list string) :
  Loader.position column headers = None <-> ~ In column headers.
Proof.
  induction headers as [|h rest IH]; simpl; [tauto|].
  destruct (String.eqb_spec column h) as [->|Hne].
  - split; [discriminate | intros H; exfalso; apply H; now left].
  - destruct (Loader.position column rest) as [j|].
    + split; [discriminate|]. intros H. exfalso.
      destruct IH as [_ IH]. assert (Hn : ~ In column rest) by tauto.
      specialize (IH Hn). discriminate.
    + split; [|reflexivity]. intros _ [E | H]; [congruence|].
      now apply IH.
Qed.

Lemma combine_seq_In (headers : list string) (start i : nat) (h : string) :
  nth_error headers i = Some h ->
  In ((start + i)%nat, h) (combine (seq start (List.length headers)) headers).
Proof.
  revert start i. induction headers as [|x rest IH]; intros start i H.
  - destruct i; discriminate.
  - destruct i as [|i]; cbn [nth_error] in H; cbn [List.length seq combine].
    + injection H as ->. left. f_equal. lia.
    + right. replace (start + S i)%nat with (S start + i)%nat by lia.
      now apply IH.
Qed.

Lemma combine_seq_snd (headers : list string) (start : nat) :
  map snd (combine (seq start (List.length headers)) headers) = headers.
Proof.
  revert start. induction headers as [|x rest IH]; intros start; [reflexivity|].
  cbn [List.length seq combine map snd]. now rewrite IH.
Qed.

Lemma object_of_get (headers line : list string) (column : string) :
  NoDup headers ->
  get (object_of headers line) column
  = match Loader.position column headers with
    | Some i => Some (trim (nth i line ""))
    | None => None
    end.
Proof.
  intros Hnd. unfold object_of.
  destruct (Loader.position column headers) as [i|] eqn:E.
  - apply position_nth in E.
    pose proof (combine_seq_In headers 0 i E) as Hin. cbn [Nat.add] in Hin.
    apply (@fill_cell _ _ snd (fun ih => trim (nth (fst ih) line ""))
                      _ [] (i, column)); [|exact Hin].
    now rewrite combine_seq_snd.
  - apply position_none in E.
    rewrite (@fill_other _ _ snd (fun ih => trim (nth (fst ih) line ""))
                         _ [] column); [reflexivity|].
    now rewrite combine_seq_snd.
Qed.

Lemma object_of_row (headers line : list string) :
  NoDup headers ->
  Loader.to_row (object_of headers line) = Loader.row_of headers line.
Proof.
  intros Hnd. unfold Loader.to_row, Loader.row_of, Loader.value_of,
              Loader.cell_under.
  rewrite !object_of_get by exact Hnd.
  f_equal; match goal with
           | |- context [Loader.position ?c headers] =>
               destruct (Loader.position c headers); reflexivity
           end.
Qed.

Lemma object_of_keys (headers line : list string) (column : string) :
  NoDup headers ->
  has (keys (object_of headers line)) column = true <-> In column headers.
Proof.
  intros Hnd. rewrite has_In. unfold keys. rewrite in_map_iff.
  assert (Hkeys : NoDup (map fst (object_of headers line))).
  { unfold object_of.
    generalize (combine (seq 0 (List.length headers)) headers).
    intros l. assert (H : NoDup (map fst (@nil (string * string))))
      by constructor.
    revert H. generalize (@nil (string * string)).
    induction l as [|x l IH]; intros d Hd; [exact Hd|].
    cbn [fold_left]. apply IH. now apply set_keys_NoDup. }
  split.
  - intros ([k v] & Hk & Hin). cbn [fst] in Hk. subst k.
    rewrite entries_In in Hin. apply (In_get _ _ _ Hkeys) in Hin.
    rewrite object_of_get in Hin by exact Hnd.
    destruct (Loader.position column headers) eqn:E; [|discriminate].
    apply position_nth in E. now apply nth_error_In in E.
  - intros Hin.
    destruct (Loader.position column headers) as [i|] eqn:E.
    + exists (column, trim (nth i line "")). split; [reflexivity|].
      apply entries_In, get_In. rewrite object_of_get by exact Hnd.
      now rewrite E.
    + apply position_none in E. contradiction.
Qed.

(** X27. For a table written as CSV text (as for [parseCSV]) whose trimmed
    headers are distinct and none of them a member inherited from
    [Object.prototype]: without a row the loader reports an empty file;
    with rows but without some required column it reports exactly the
    required columns that the headers lack; otherwise it loads the
    statistics of the rows, each read under the four required columns
    wherever they stand, with trimmed values and an empty value for a cell
    that the row lacks. *)
Theorem load_written_table
        (eol : string) (final : bool)
        (header : list cell) (rows : list (list cell)) :
  eol = String LF "" \/ eol = String CR (String LF "") ->
  forallb line_ok (header :: rows) = true ->
  let headers := map trim (contents header) in
  NoDup headers ->
  forallb own_key headers = true ->
  let missing :=
    filter (fun c => negb (has headers c)) Loader.REQUIRED_COLUMNS in
  Loader.load (write_table eol final (header :: rows))
  = match rows, missing with
    | [], _ => Loader.Empty
    | first :: _, _ :: _ =>
        Loader.Missing missing
          (keys (object_of headers (contents first)))
    | _ :: _, [] =>
        Loader.Loaded
          (CSV.processCSVToRawData
             (map (fun row => Loader.row_of headers (contents row)) rows))
    end.
Proof.
  intros Heol Hok headers Hnd _ missing.
  unfold Loader.load. cbv zeta.
  rewrite (proj2 (parseCSV_reads_table_lines final header rows Heol Hok)).
  fold headers.
  destruct rows as [|first rows]; [reflexivity|].
  cbn [map].
  assert (Hmissing :
            filter (fun c => negb (has (keys (object_of headers (contents first))) c))
                   Loader.REQUIRED_COLUMNS = missing).
  { unfold missing. apply filter_ext. intros c. f_equal.
    apply eq_true_iff_eq. rewrite object_of_keys by exact Hnd.
    now rewrite has_In. }
  rewrite Hmissing.
  destruct missing as [|m ms]; [|reflexivity].
  f_equal. f_equal. cbn [map]. f_equal.
  - now apply object_of_row.
  - rewrite map_map. apply map_ext. intros row. now apply object_of_row.
Qed.

Lemma load_written_table_witness :
  Loader.load
    (write_table (String LF "") false
       [ [(false, "nominator_title"); (false, "message");
          (false, "award_title"); (false, "recipient_title")];
         [(false, " Manager"); (true, "well done, all"); (false, "Star");
          (false, "Analyst ")] ])
  = Loader.Loaded
      (CSV.processCSVToRawData
         [ {| CsvRow.message := "well done, all";
              CsvRow.award_title := "Star";
              CsvRow.recipient_title := "Analyst";
              CsvRow.nominator_title := "Manager" |} ]).
Proof.
  refine (eq_trans
            (@load_written_table (String LF "") false
               [(false, "nominator_title"); (false, "message");
                (false, "award_title"); (false, "recipient_title")]
               [[(false, " Manager"); (true, "well done, all"); (false, "Star");
                 (false, "Analyst ")]]
               (or_introl eq_refl) eq_refl _ eq_refl) _).
  - repeat constructor; simpl; intuition discriminate.
  - reflexivity.
Defined.

(* ================================================================== *)
(** * The seniority chart *)
(* ================================================================== *)

Local Open Scope string_scope.

Lemma delete_get (V : Type) (d : dict V) (k k' : string) :
  get (delete d k) k' = if String.eqb k' k then None else get d k'.
Proof.
  unfold delete. induction d as [|[k0 v0] d IH]; simpl.
  - now destruct (String.eqb k' k).
  - destruct (String.eqb_spec k0 k) as [->|Hne]; simpl.
    + rewrite IH. destruct (String.eqb_spec k' k); reflexivity.
    + rewrite IH. destruct (String.eqb_spec k' k0) as [->|]; [|reflexivity].
      destruct (String.eqb_spec k0 k); [congruence | reflexivity].
Qed.

Lemma keys_get (V : Type) (d : dict V) (k : string) :
  In k (keys d) <-> get d k <> None.
Proof.
  unfold keys. rewrite in_map_iff. split.
  - intros ([k0 v] & Hk & Hin). cbn [fst] in Hk. subst k0.
    rewrite entries_In in Hin. clear - Hin.
    induction d as [|[k1 v1] d IH]; [contradiction|]. simpl.
    destruct (String.eqb_spec k k1); [discriminate|].
    destruct Hin as [[= <- <-] | Hin]; [congruence | now apply IH].
  - intros H. destruct (get d k) as [v|] eqn:E; [|congruence].
    exists (k, v). split; [reflexivity|]. apply entries_In. now apply get_In.
Qed.

Lemma seniority_dist_get (titles : list string) (level : string) :
  get_or_0 (CSV.buildSeniorityDist titles) level
  = count_if (has_level level) titles
  /\ (get (CSV.buildSeniorityDist titles) level <> None
      <-> (1 <= count_if (has_level level) titles)%Z).
Proof.
  unfold get_or_0.
  rewrite buildSeniorityDist_tally, tally_get. simpl get.
  unfold count_if. rewrite filter_filter.
  replace (filter (fun x => has_some_level x && String.eqb (level_key x) level)
                  titles)
    with (filter (has_level level) titles).
  - destruct (Z.eqb_spec (Z.of_nat (List.length (filter (has_level level) titles)))
                         0) as [E|E].
    + split; [now rewrite E|]. split; [congruence | lia].
    + split; [reflexivity|]. split; [lia | discriminate].
  - apply filter_ext. intros t. unfold has_some_level, level_key, has_level.
    now destruct (CSV.extractSeniority t).
Qed.

Lemma level_is_listed (title level : string) :
  CSV.extractSeniority title = Some level -> In level Chart.levels.
Proof.
  intros H. apply seniority_level_truthy in H. destruct H as [H _].
  simpl in H. unfold Chart.levels. simpl. tauto.
Qed.

Lemma unlisted_level (titles : list string) (level : string) :
  ~ In level Chart.levels -> count_if (has_level level) titles = 0%Z.
Proof.
  intros H. unfold count_if.
  replace (filter (has_level level) titles) with (@nil string); [reflexivity|].
  symmetry. apply filter_none. intros t _. unfold has_level.
  destruct (CSV.extractSeniority t) as [l|] eqn:E; [|reflexivity].
  apply String.eqb_neq. intros ->. apply H. now apply level_is_listed in E.
Qed.

(** Every title with a level is counted at exactly one listed level. *)
Lemma levels_partition (titles : list string) :
  count_if has_some_level titles
  = sum_by (fun level => count_if (has_level level) titles) Chart.levels.
Proof.
  induction titles as [|t titles IH].
  - reflexivity.
  - rewrite count_if_cons, IH.
    unfold sum_by, Chart.levels. cbn [fold_right].
    rewrite !count_if_cons.
    unfold has_some_level, has_level.
    destruct (CSV.extractSeniority t) as [l|] eqn:E; [|lia].
    apply level_is_listed in E. unfold Chart.levels in E. simpl in E.
    repeat (destruct E as [<- | E];
            [cbn [String.eqb Ascii.eqb Bool.eqb]; lia|]).
    contradiction.
Qed.

Section MergedLevels.

Variable titles : list string.

Let d := CSV.buildSeniorityDist titles.
Let c (level : string) : Z := count_if (has_level level) titles.

Lemma merged_get (level : string) :
  get_or_0 (Chart.mergeSeniority d) level = Chart.titles_at level titles
  /\ (get (Chart.mergeSeniority d) level <> None
      -> (1 <= Chart.titles_at level titles)%Z).
Proof.
  pose proof (seniority_dist_get titles "VP") as [Hvp Hvp'].
  pose proof (seniority_dist_get titles "Vice President") as [Hvi Hvi'].
  pose proof (seniority_dist_get titles level) as [Hl Hl'].
  pose proof (count_if_nonneg (has_level "VP") titles) as Pvp.
  pose proof (count_if_nonneg (has_level "Vice President") titles) as Pvi.
  fold d in Hvp, Hvp', Hvi, Hvi', Hl, Hl'.
  assert (Hc : forall k, Chart.counted (get d k) = negb (get_or_0 d k =? 0)%Z
                         \/ get d k = Some 0%Z).
  { intros k. unfold Chart.counted, get_or_0. destruct (get d k); auto. }
  assert (Hcounted : forall k,
            Chart.counted (get d k)
            = negb (count_if (has_level k) titles =? 0)%Z).
  { intros k. pose proof (seniority_dist_get titles k) as [Hk Hk'].
    fold d in Hk, Hk'. unfold Chart.counted, get_or_0 in *.
    destruct (get d k) as [n|].
    - subst n. reflexivity.
    - rewrite <- Hk. reflexivity. }
  unfold Chart.mergeSeniority, Chart.titles_at. cbv zeta.
  rewrite !Hcounted.
  destruct (String.eqb_spec level "VP/C-Suite") as [->|Hsuite].
  - destruct (negb (count_if (has_level "VP") titles =? 0)%Z
              || negb (count_if (has_level "Vice President") titles =? 0)%Z)
      eqn:Em.
    + unfold get_or_0 at 1. rewrite !delete_get. cbn [String.eqb Ascii.eqb Bool.eqb].
      rewrite get_set, String.eqb_refl. rewrite Hvp, Hvi.
      split; [reflexivity|]. intros _.
      apply orb_true_iff in Em.
      destruct Em as [Em | Em]; apply negb_true_iff, Z.eqb_neq in Em; lia.
    + apply orb_false_iff in Em. destruct Em as [E1 E2].
      apply negb_false_iff, Z.eqb_eq in E1, E2.
      rewrite Hl, E1, E2.
      assert (Hun : count_if (has_level "VP/C-Suite") titles = 0%Z).
      { apply unlisted_level. unfold Chart.levels. simpl.
        intuition discriminate. }
      split; [exact Hun|]. intros H. apply Hl' in H. lia.
  - destruct (negb (count_if (has_level "VP") titles =? 0)%Z
              || negb (count_if (has_level "Vice President") titles =? 0)%Z)
      eqn:Em.
    + unfold get_or_0 at 1. rewrite !delete_get, get_set.
      destruct (String.eqb_spec level "Vice President") as [->|Hvice].
      { cbn [orb]. rewrite orb_true_r. split; [reflexivity | congruence]. }
      destruct (String.eqb_spec level "VP") as [->|Hv].
      { cbn [orb]. split; [reflexivity | congruence]. }
      destruct (String.eqb_spec level "VP/C-Suite"); [contradiction|].
      cbn [orb]. fold (get_or_0 d level). rewrite Hl.
      split; [reflexivity|]. intros H. now apply Hl'.
    + apply orb_false_iff in Em. destruct Em as [E1 E2].
      apply negb_false_iff, Z.eqb_eq in E1, E2.
      rewrite Hl.
      destruct (String.eqb_spec level "VP") as [->|Hv].
      { cbn [orb]. split; [exact E1|]. intros H. apply Hl' in H. lia. }
      destruct (String.eqb_spec level "Vice President") as [->|Hvice].
      { cbn [orb]. split; [exact E2|]. intros H. apply Hl' in H. lia. }
      cbn [orb]. split; [reflexivity|]. intros H. now apply Hl'.
Qed.

Lemma chart_total :
  sum_by (fun level => Chart.titles_at level titles) Chart.SENIORITY_ORDER
  = count_if has_some_level titles.
Proof.
  rewrite levels_partition.
  unfold sum_by, Chart.SENIORITY_ORDER, Chart.levels, Chart.titles_at.
  cbn [fold_right String.eqb Ascii.eqb Bool.eqb orb].
  assert (Hs : count_if (has_level "Specialist") titles = 0%Z).
  { apply unlisted_level. unfold Chart.levels. simpl. intuition discriminate. }
  lia.
Qed.

End MergedLevels.

Lemma titles_at_nonneg (level : string) (titles : list string) :
  (0 <= Chart.titles_at level titles)%Z.
Proof.
  unfold Chart.titles_at.
  pose proof (count_if_nonneg (has_level "VP") titles).
  pose proof (count_if_nonneg (has_level "Vice President") titles).
  pose proof (count_if_nonneg (has_level level) titles).
  destruct (String.eqb level "VP/C-Suite"); [lia|].
  destruct (String.eqb level "VP" || String.eqb level "Vice President"); lia.
Qed.

Lemma sum_by_filter_zero (A : Type) (m : A -> Z) (p : A -> bool) (l : list A) :
  (forall x, In x l -> p x = false -> m x = 0%Z) ->
  sum_by m (filter p l) = sum_by m l.
Proof.
  unfold sum_by. induction l as [|x l IH]; intros H; [reflexivity|].
  cbn [filter fold_right].
  assert (IH' := IH (fun y Hy => H y (or_intror Hy))).
  destruct (p x) eqn:E; cbn [fold_right]; rewrite IH'; [reflexivity|].
  rewrite (H x (or_introl eq_refl) E). lia.
Qed.

Lemma sum_by_ext (A : Type) (m m' : A -> Z) (l : list A) :
  (forall x, m x = m' x) -> sum_by m l = sum_by m' l.
Proof.
  intros H. unfold sum_by. induction l as [|x l IH]; [reflexivity|].
  cbn [fold_right]. now rewrite H, IH.
Qed.

(** X28. The seniority chart built from the output of
    [processCSVToRawData] has a row for exactly those levels of the ladder
    at which a recipient or a nominator title is counted, in the order of
    the ladder; a row counts the titles of its level, the row "VP/C-Suite"
    those of the levels "VP" and "Vice President" together.  No title
    with a seniority level is lost: the recipients of all rows add up to
    the number of recipient titles that have a level, and so do the
    nominators. *)
Theorem seniority_chart_counts_every_title (rows : list CsvRow.t) :
  let raw := CSV.processCSVToRawData rows in
  let recip := filter (fun t => truthy (trim t))
                      (map CsvRow.recipient_title rows) in
  let nom := filter (fun t => truthy (trim t))
                    (map CsvRow.nominator_title rows) in
  let chart := Chart.buildSeniorityData raw in
  map SeniorityRow.level chart
  = filter (fun level =>
              (1 <=? Chart.titles_at level recip + Chart.titles_at level nom)%Z)
           Chart.SENIORITY_ORDER
  /\ (forall r, In r chart ->
        SeniorityRow.recipients r = Chart.titles_at (SeniorityRow.level r) recip
        /\ SeniorityRow.nominators r = Chart.titles_at (SeniorityRow.level r) nom)
  /\ sum_by SeniorityRow.recipients chart = count_if has_some_level recip
  /\ sum_by SeniorityRow.nominators chart = count_if has_some_level nom.
Proof.
  intros raw recip nom chart.
  set (rM := Chart.mergeSeniority (CSV.buildSeniorityDist recip)).
  set (nM := Chart.mergeSeniority (CSV.buildSeniorityDist nom)).
  set (kept := fun level =>
                 (1 <=? Chart.titles_at level recip
                        + Chart.titles_at level nom)%Z).
  assert (Hchart : chart
                   = map (fun level =>
                            {| SeniorityRow.level := level;
                               SeniorityRow.recipients := get_or_0 rM level;
                               SeniorityRow.nominators := get_or_0 nM level |})
                         (filter kept Chart.SENIORITY_ORDER)).
  { unfold chart, Chart.buildSeniorityData. cbv zeta.
    change (TitleStats.seniority_distribution (RawData.recipient_title raw))
      with (CSV.buildSeniorityDist recip).
    change (TitleStats.seniority_distribution (RawData.nominator_title raw))
      with (CSV.buildSeniorityDist nom).
    fold rM nM. f_equal. apply filter_ext. intros level.
    unfold kept. apply eq_true_iff_eq.
    rewrite has_In, new_Set_In, in_app_iff, !keys_get, Z.leb_le.
    pose proof (merged_get recip level) as [Gr Pr].
    pose proof (merged_get nom level) as [Gn Pn].
    pose proof (titles_at_nonneg level recip) as N1.
    pose proof (titles_at_nonneg level nom) as N2.
    fold rM in Gr, Pr. fold nM in Gn, Pn.
    split.
    - intros [H | H]; [apply Pr in H | apply Pn in H]; lia.
    - intros H.
      destruct (Z_le_gt_dec 1 (Chart.titles_at level recip)) as [Hr | Hr].
      + left. unfold get_or_0 in Gr. destruct (get rM level); [discriminate | lia].
      + right. unfold get_or_0 in Gn. destruct (get nM level); [discriminate | lia]. }
  assert (Hr : forall level, get_or_0 rM level = Chart.titles_at level recip)
    by (intros level; apply merged_get).
  assert (Hn : forall level, get_or_0 nM level = Chart.titles_at level nom)
    by (intros level; apply merged_get).
  rewrite Hchart. split; [|split; [|split]].
  - rewrite map_map. cbn [SeniorityRow.level]. apply map_id.
  - intros r Hin. apply in_map_iff in Hin. destruct Hin as (level & <- & _).
    cbn [SeniorityRow.level SeniorityRow.recipients SeniorityRow.nominators].
    split; [apply Hr | apply Hn].
  - rewrite sum_by_map. cbn [SeniorityRow.recipients].
    rewrite (sum_by_filter_zero (fun level => get_or_0 rM level)).
    + rewrite <- chart_total. apply sum_by_ext. exact Hr.
    + intros level _ Hk. unfold kept in Hk. apply Z.leb_gt in Hk.
      rewrite Hr.
      pose proof (titles_at_nonneg level recip).
      pose proof (titles_at_nonneg level nom). lia.
  - rewrite sum_by_map. cbn [SeniorityRow.nominators].
    rewrite (sum_by_filter_zero (fun level => get_or_0 nM level)).
    + rewrite <- chart_total. apply sum_by_ext. exact Hn.
    + intros level _ Hk. unfold kept in Hk. apply Z.leb_gt in Hk.
      rewrite Hn.
      pose proof (titles_at_nonneg level recip).
      pose proof (titles_at_nonneg level nom). lia.
Qed.

(* ================================================================== *)
(** * The rows of the category overlap *)
(* ================================================================== *)

Local Open Scope string_scope.

Section OverlapRows.

Import Overlap.

(** The inner loop of a run: the names are added to the set and tallied. *)
Lemma count_classifications (run : PipelineRun.t)
      (clf : list Classification.t) :
  forall (names : list string) (counts : dict Z),
    fold_left
      (fun '(names, counts) c =>
         let catId := Phase2.trimmed_category c in
         if has (Comparison.getValidCategoryIds (PipelineRun.taxonomy run)) catId
         then let name :=
                Comparison.name_of
                  (Comparison.idToName_of (PipelineRun.taxonomy run)) catId in
              (set_add names name, bump counts name)
         else (names, counts))
      clf (names, counts)
    = (fold_left set_add
                 (flat_map (fun c => match counted_name run c with
                                     | Some name => [name]
                                     | None => []
                                     end) clf) names,
       fold_left bump
                 (flat_map (fun c => match counted_name run c with
                                     | Some name => [name]
                                     | None => []
                                     end) clf) counts).
Proof.
  induction clf as [|c clf IH]; intros names counts; [reflexivity|].
  cbn [fold_left flat_map]. unfold counted_name at 1 3. cbv zeta.
  destruct (has _ (Phase2.trimmed_category c)); cbn [app fold_left]; apply IH.
Qed.

Lemma count_if_flat (run : PipelineRun.t) (category : string)
      (clf : list Classification.t) :
  Z.of_nat (List.length
    (filter (fun name => String.eqb name category)
            (flat_map (fun c => match counted_name run c with
                                | Some name => [name]
                                | None => []
                                end) clf)))
  = count_if (is_counted_as run category) clf.
Proof.
  induction clf as [|c clf IH]; [reflexivity|].
  rewrite count_if_cons. cbn [flat_map]. rewrite filter_app, length_app.
  rewrite Nat2Z.inj_add, IH. f_equal.
  unfold is_counted_as. destruct (counted_name run c) as [name|]; [|reflexivity].
  cbn [filter]. destruct (String.eqb name category); reflexivity.
Qed.

Lemma count_run_state (st : Comparison.overlap_state) (run : PipelineRun.t) :
  Comparison.count_run st run
  = match PipelineRun.phase2 run with
    | None => st
    | Some _ =>
        (fold_left set_add (counted_names run) (fst st),
         set (snd st) (PipelineRun.name run)
             (fold_left bump (counted_names run) []))
    end.
Proof.
  unfold Comparison.count_run, counted_names, classifications_of.
  destruct (PipelineRun.phase2 run) as [phase2|]; [|reflexivity].
  now rewrite (count_classifications run).
Qed.

Lemma tallied (run : PipelineRun.t) (category : string) :
  get_or_0 (fold_left bump (counted_names run) []) category
  = named_count run category.
Proof.
  unfold get_or_0, named_count, counted_names.
  rewrite (tally_get (fun name : string => name)). simpl get.
  rewrite count_if_flat.
  destruct (Z.eqb_spec (count_if (is_counted_as run category)
                                 (classifications_of run)) 0) as [E|E];
    [now rewrite E | reflexivity].
Qed.

Lemma named_count_no_classifications (run : PipelineRun.t) (category : string) :
  PipelineRun.phase2 run = None -> named_count run category = 0%Z.
Proof.
  intros H. unfold named_count, classifications_of. now rewrite H.
Qed.

Lemma counted_names_In (run : PipelineRun.t) (category : string) :
  In category (counted_names run) <-> (1 <= named_count run category)%Z.
Proof.
  unfold named_count, counted_names, count_if. rewrite in_flat_map. split.
  - intros (c & Hc & Hin).
    assert (H : In c (filter (is_counted_as run category)
                             (classifications_of run))).
    { apply filter_In. split; [exact Hc|]. unfold is_counted_as.
      destruct (counted_name run c) as [name|]; [|contradiction].
      destruct Hin as [-> | []]. apply String.eqb_refl. }
    destruct (filter _ _); [contradiction | simpl List.length; lia].
  - intros H.
    destruct (filter (is_counted_as run category) (classifications_of run))
      as [|c l] eqn:F; [simpl in H; lia|].
    assert (Hc : In c (filter (is_counted_as run category)
                              (classifications_of run)))
      by (rewrite F; now left).
    apply filter_In in Hc. destruct Hc as [Hc Hk]. exists c.
    split; [exact Hc|]. unfold is_counted_as in Hk.
    destruct (counted_name run c) as [name|]; [|discriminate].
    apply String.eqb_eq in Hk. now left.
Qed.

(** The state of [computeCategoryOverlap] after its first loop. *)
Lemma count_runs_state (runs : list PipelineRun.t) :
  forall st : Comparison.overlap_state,
    NoDup (fst st) ->
    (forall run, In run runs -> get (snd st) (PipelineRun.name run) = None) ->
    NoDup (map PipelineRun.name runs) ->
    let st' := fold_left Comparison.count_run runs st in
    NoDup (fst st')
    /\ (forall category,
          In category (fst st') <->
          In category (fst st)
          \/ exists run, In run runs
                         /\ PipelineRun.phase2 run <> None
                         /\ (1 <= named_count run category)%Z)
    /\ (forall run category, In run runs ->
          Comparison.count_in (snd st') (PipelineRun.name run) category
          = named_count run category).
Proof.
  induction runs as [|run runs IH]; intros st Hnd Hfresh Hnames.
  - cbn. split; [exact Hnd|]. split; [|intros run category []].
    intros category. split; [now left|].
    intros [H | (run & [] & _)]. exact H.
  - cbn [fold_left]. cbn [map] in Hnames.
    apply NoDup_cons_iff in Hnames. destruct Hnames as [Hrun Hnames].
    rewrite count_run_state.
    assert (Hother : forall r, In r runs ->
              PipelineRun.name r <> PipelineRun.name run).
    { intros r Hr E. apply Hrun. rewrite <- E. now apply in_map. }
    destruct (PipelineRun.phase2 run) as [phase2|] eqn:Ephase.
    + destruct (IH (fold_left set_add (counted_names run) (fst st),
                    set (snd st) (PipelineRun.name run)
                        (fold_left bump (counted_names run) [])))
        as (H1 & H2 & H3).
      * cbn [fst]. now apply fold_set_add_NoDup.
      * intros r Hr. cbn [snd]. rewrite get_set.
        destruct (String.eqb_spec (PipelineRun.name r) (PipelineRun.name run))
          as [E|_]; [now apply Hother in E|].
        apply Hfresh. now right.
      * exact Hnames.
      * cbv zeta. split; [exact H1|]. split.
        -- intros category. rewrite H2. cbn [fst].
           rewrite fold_set_add_In, counted_names_In. split.
           ++ intros [[H | H] | (r & Hr & Hp & Hc)].
              ** now left.
              ** right. exists run. split; [now left|].
                 split; [congruence | exact H].
              ** right. exists r. split; [now right | auto].
           ++ intros [H | (r & [<- | Hr] & Hp & Hc)].
              ** left. now left.
              ** left. now right.
              ** right. exists r. auto.
        -- intros r category [<- | Hr]; [|now apply H3].
           (* the entry of this run is not touched by the later runs *)
           assert (Hkeep : forall rs st0,
                     (forall r', In r' rs ->
                        PipelineRun.name r' <> PipelineRun.name run) ->
                     get (snd (fold_left Comparison.count_run rs st0))
                         (PipelineRun.name run)
                     = get (snd st0) (PipelineRun.name run)).
           { clear. induction rs as [|r' rs IHrs]; intros st0 Hne; [reflexivity|].
             cbn [fold_left]. rewrite IHrs by (intros; apply Hne; now right).
             rewrite count_run_state.
             destruct (PipelineRun.phase2 r'); [|reflexivity].
             cbn [snd]. rewrite get_set.
             destruct (String.eqb_spec (PipelineRun.name run) (PipelineRun.name r'))
               as [E|_]; [|reflexivity].
             exfalso. apply (Hne r' (or_introl eq_refl)). now symmetry. }
           unfold Comparison.count_in. rewrite Hkeep by exact Hother.
           cbn [snd]. rewrite get_set, String.eqb_refl.
           apply tallied.
    + destruct (IH st Hnd (fun r Hr => Hfresh r (or_intror Hr)) Hnames)
        as (H1 & H2 & H3).
      cbv zeta. split; [exact H1|]. split.
      * intros category. rewrite H2. split.
        -- intros [H | (r & Hr & Hp & Hc)]; [now left|].
           right. exists r. split; [now right | auto].
        -- intros [H | (r & [<- | Hr] & Hp & Hc)]; [now left | congruence|].
           right. exists r. auto.
      * intros r category [<- | Hr]; [|now apply H3].
        rewrite named_count_no_classifications by exact Ephase.
        assert (Hkeep : forall rs st0,
                  (forall r', In r' rs ->
                     PipelineRun.name r' <> PipelineRun.name run) ->
                  get (snd (fold_left Comparison.count_run rs st0))
                      (PipelineRun.name run)
                  = get (snd st0) (PipelineRun.name run)).
        { clear. induction rs as [|r' rs IHrs]; intros st0 Hne; [reflexivity|].
          cbn [fold_left]. rewrite IHrs by (intros; apply Hne; now right).
          rewrite count_run_state.
          destruct (PipelineRun.phase2 r'); [|reflexivity].
          cbn [snd]. rewrite get_set.
          destruct (String.eqb_spec (PipelineRun.name run) (PipelineRun.name r'))
            as [E|_]; [|reflexivity].
          exfalso. apply (Hne r' (or_introl eq_refl)). now symmetry. }
        unfold Comparison.count_in. rewrite Hkeep by exact Hother.
        now rewrite (Hfresh run (or_introl eq_refl)).
Qed.

End OverlapRows.

Lemma fill_list (A V : Type) (key : A -> string) (value : A -> V)
      (l : list A) :
  forall d : dict V,
    NoDup (map fst d ++ map key l)%list ->
    fold_left (fun row x => set row (key x) (value x)) l d
    = (d ++ map (fun x => (key x, value x)) l)%list.
Proof.
  induction l as [|x l IH]; intros d Hnd.
  - cbn. now rewrite app_nil_r.
  - cbn [fold_left map].
    assert (Hx : ~ In (key x) (map fst d)).
    { cbn [map] in Hnd. apply NoDup_remove_2 in Hnd.
      intros H. apply Hnd. apply in_or_app. now left. }
    assert (Hset : set d (key x) (value x) = (d ++ [(key x, value x)])%list).
    { clear - Hx. induction d as [|[k v] d IH]; [reflexivity|].
      cbn [set]. destruct (String.eqb_spec (key x) k) as [E|_].
      - exfalso. apply Hx. left. now symmetry.
      - cbn [app]. f_equal. apply IH. intros H. apply Hx. now right. }
    rewrite Hset, IH.
    + now rewrite <- app_assoc.
    + rewrite map_app. cbn [map fst]. rewrite <- app_assoc. exact Hnd.
Qed.

Lemma fold_add_sum (l : list Z) (s : Z) :
  fold_left Z.add l s = (s + sum_by (fun x => x) l)%Z.
Proof.
  revert s. unfold sum_by. induction l as [|x l IH]; intros s; simpl; [lia|].
  rewrite IH. lia.
Qed.

Lemma sum_by_ge_element (A : Type) (m : A -> Z) (l : list A) (x : A) :
  (forall y, In y l -> (0 <= m y)%Z) -> In x l -> (m x <= sum_by m l)%Z.
Proof.
  unfold sum_by. induction l as [|y l IH]; intros Hpos Hx; [contradiction|].
  cbn [fold_right].
  pose proof (Hpos y (or_introl eq_refl)).
  assert (Hrest : (0 <= fold_right (fun x s => m x + s) 0 l)%Z).
  { apply (sum_by_nonneg m). intros; apply Hpos; now right. }
  destruct Hx as [<- | Hx]; [lia|].
  specialize (IH (fun z Hz => Hpos z (or_intror Hz)) Hx). lia.
Qed.

(** X29. For runs with distinct names (no run name, category id or
    category name in use being a member inherited from
    [Object.prototype]), the category overlap has one row for each
    category name under which some run counts a classification: a
    classification is counted when its trimmed category is an id of the
    run's taxonomy, under the name that the taxonomy gives to that id, as
    it is spelt.  The row has one entry per run, with the number of the
    run's classifications counted under the name; its total is at least 1,
    and the rows are in descending order of total. *)
Theorem category_overlap_rows (runs : list PipelineRun.t) :
  Overlap.plain_runs runs = true ->
  NoDup (map PipelineRun.name runs) ->
  let rows := Comparison.computeCategoryOverlap runs in
  NoDup (map CategoryOverlap.category rows)
  /\ (forall category,
        In category (map CategoryOverlap.category rows) <->
        exists run, In run runs /\ (1 <= Overlap.named_count run category)%Z)
  /\ (forall row, In row rows ->
        CategoryOverlap.pipelines row
        = map (fun run =>
                 (PipelineRun.name run,
                  Overlap.named_count run (CategoryOverlap.category row)))
              runs
        /\ Comparison.total row
           = sum_by (fun run =>
                       Overlap.named_count run (CategoryOverlap.category row))
                    runs
        /\ (1 <= Comparison.total row)%Z)
  /\ StronglySorted
       (fun a b => (Comparison.total b <= Comparison.total a)%Z) rows.
Proof.
  intros _ Hnames rows.
  destruct (@count_runs_state runs ([], []) ltac:(constructor)
              (fun run _ => eq_refl) Hnames) as (Hnd & Hin & Hcount).
  cbv zeta in Hnd, Hin, Hcount.
  unfold rows, Comparison.computeCategoryOverlap.
  destruct (fold_left Comparison.count_run runs ([], []))
    as [allCatNames counts].
  cbn [fst snd] in Hnd, Hin, Hcount.
  set (row_of := fun category =>
                   {| CategoryOverlap.category := category;
                      CategoryOverlap.pipelines :=
                        fold_left
                          (fun pipelines run =>
                             set pipelines (PipelineRun.name run)
                                 (Comparison.count_in counts
                                    (PipelineRun.name run) category))
                          runs [] |}).
  assert (Hperm : Permutation (sort_by Comparison.by_total_desc
                                       (map row_of allCatNames))
                              (map row_of allCatNames))
    by apply sort_by_Permutation.
  assert (Hcat : map CategoryOverlap.category (map row_of allCatNames)
                 = allCatNames).
  { rewrite map_map. apply map_id. }
  assert (Hpipes : forall category,
            CategoryOverlap.pipelines (row_of category)
            = map (fun run => (PipelineRun.name run,
                               Overlap.named_count run category)) runs).
  { intros category. cbn [row_of CategoryOverlap.pipelines].
    rewrite (fill_list PipelineRun.name
               (fun run => Comparison.count_in counts (PipelineRun.name run)
                                               category)) by exact Hnames.
    cbn [app]. apply map_ext_in. intros run Hrun. f_equal.
    now apply Hcount. }
  assert (Hexists : forall category,
            In category allCatNames <->
            exists run, In run runs
                        /\ (1 <= Overlap.named_count run category)%Z).
  { intros category. rewrite Hin. split.
    - intros [[] | (run & Hrun & _ & Hc)]. now exists run.
    - intros (run & Hrun & Hc). right. exists run. split; [exact Hrun|].
      split; [|exact Hc]. intros E.
      rewrite (named_count_no_classifications run category E) in Hc. lia. }
  split; [|split; [|split]].
  - apply (Permutation_NoDup
             (Permutation_map CategoryOverlap.category (Permutation_sym Hperm))).
    now rewrite Hcat.
  - intros category. rewrite <- Hexists.
    pose proof (Permutation_map CategoryOverlap.category Hperm) as Hp.
    rewrite Hcat in Hp. split.
    + apply (Permutation_in _ Hp).
    + apply (Permutation_in _ (Permutation_sym Hp)).
  - intros row Hrow. apply (Permutation_in _ Hperm) in Hrow.
    apply in_map_iff in Hrow. destruct Hrow as (category & <- & Hc).
    cbn [row_of CategoryOverlap.category].
    assert (Htotal : Comparison.total (row_of category)
                     = sum_by (fun run => Overlap.named_count run category) runs).
    { unfold Comparison.total. rewrite fold_add_sum, Z.add_0_l.
      unfold values.
      rewrite (sum_by_map snd). 
      rewrite (sum_by_Permutation _ (entries_Permutation _)).
      rewrite Hpipes, sum_by_map. reflexivity. }
    split; [apply Hpipes|]. split; [exact Htotal|].
    rewrite Htotal. apply Hexists in Hc. destruct Hc as (run & Hrun & Hc).
    apply Z.le_trans with (Overlap.named_count run category); [exact Hc|].
    apply (sum_by_ge_element (fun run => Overlap.named_count run category));
      [|exact Hrun].
    intros r _. apply count_if_nonneg.
  - apply (@sort_by_descending _ Comparison.total). reflexivity.
Qed.

Lemma category_overlap_rows_witness :
  NoDup (map CategoryOverlap.category
             (Comparison.computeCategoryOverlap
                [Sample.run_baseline; Sample.run_refined])).
Proof.
  refine (proj1 (@category_overlap_rows
                   [Sample.run_baseline; Sample.run_refined] eq_refl _)).
  repeat constructor; simpl; intuition discriminate.
Defined.

(* ================================================================== *)
(** * The department rows of processData.ts *)
(* ================================================================== *)

Section DeptRows.

Import Dept.

Lemma extractDept_department (title : string) :
  In (extractDept title) departments.
Proof.
  unfold extractDept, departments.
  destruct (negb (truthy title)).
  - apply in_or_app. right. now left.
  - destruct (find _ DEPT_KEYWORDS) as [rule|] eqn:E.
    + apply find_some in E. apply in_or_app. left.
      apply in_map. exact (proj1 E).
    + apply in_or_app. right. now left.
Qed.

Lemma addTitles_cons (counts : dict Z) (title : string) (count : Z)
      (titles : list (string * Z)) :
  addTitles counts ((title, count) :: titles)
  = addTitles (set counts (extractDept title)
                   (get_or_0 counts (extractDept title) + count)%Z) titles.
Proof. reflexivity. Qed.

Lemma addTitles_NoDup (titles : list (string * Z)) :
  forall counts : dict Z,
    NoDup (map fst counts) -> NoDup (map fst (addTitles counts titles)).
Proof.
  induction titles as [|[title count] titles IH]; intros counts Hnd.
  - exact Hnd.
  - rewrite addTitles_cons. apply IH. now apply set_keys_NoDup.
Qed.

Lemma addTitles_get (titles : list (string * Z)) :
  forall (counts : dict Z) (d : string),
    get_or_0 (addTitles counts titles) d
    = (get_or_0 counts d
       + sum_by snd (filter (fun e => String.eqb (extractDept (fst e)) d)
                            titles))%Z.
Proof.
  induction titles as [|[title count] titles IH]; intros counts d.
  - change (get_or_0 counts d = (get_or_0 counts d + 0)%Z). lia.
  - rewrite addTitles_cons, IH. cbn [filter fst].
    unfold get_or_0 at 1. rewrite get_set.
    rewrite (String.eqb_sym d).
    destruct (String.eqb_spec (extractDept title) d) as [->|_].
    + set (rest := filter _ titles).
      change (sum_by snd ((title, count) :: rest))
        with (count + sum_by snd rest)%Z.
      unfold get_or_0. destruct (get counts d); lia.
    + reflexivity.
Qed.

Lemma addTitles_keys (titles : list (string * Z)) :
  forall (counts : dict Z) (d : string),
    In d (map fst (addTitles counts titles)) <->
    In d (map fst counts)
    \/ exists title, In title (map fst titles) /\ extractDept title = d.
Proof.
  induction titles as [|[title count] titles IH]; intros counts d.
  - cbn. split; [now left | intros [H | (t & [] & _)]; exact H].
  - rewrite addTitles_cons, IH, set_keys. cbn [map fst].
    assert (Hset : In d (if has (map fst counts) (extractDept title)
                         then map fst counts
                         else (map fst counts ++ [extractDept title])%list)
                   <-> In d (map fst counts) \/ extractDept title = d).
    { destruct (has (map fst counts) (extractDept title)) eqn:Hh.
      - split; [now left|]. intros [H | <-]; [exact H|].
        now apply has_In.
      - rewrite in_app_iff. cbn. tauto. }
    rewrite Hset. split.
    + intros [[H | H] | (t & Ht & E)].
      * now left.
      * right. exists title. split; [now left | exact H].
      * right. exists t. split; [now right | exact E].
    + intros [H | (t & [<- | Ht] & E)].
      * left. now left.
      * left. now right.
      * right. now exists t.
Qed.

Lemma addTitles_sum (titles : list (string * Z)) :
  forall counts : dict Z,
    sum_by snd (addTitles counts titles)
    = (sum_by snd counts + sum_by snd titles)%Z.
Proof.
  induction titles as [|[title count] titles IH]; intros counts.
  - change (sum_by snd counts = (sum_by snd counts + 0)%Z). lia.
  - rewrite addTitles_cons, IH.
    change (sum_by snd ((title, count) :: titles))
      with (count + sum_by snd titles)%Z.
    rewrite (sum_by_set (fun v : Z => v)).
    change (sum_by (fun e : string * Z => snd e) counts)
      with (sum_by snd counts).
    unfold get_or_0.
    destruct (get counts (extractDept title)); lia.
Qed.

End DeptRows.

(** X30. The department rows have one row for each department that
    [extractDept] gives to a title of the two top-15 lists, and no two
    rows for the same department.  A row's department is one of the eleven
    departments of [DEPT_KEYWORDS] or "Other"; its count is the sum of the
    counts listed for the titles of that department, so that the counts of
    the rows add up to the counts of both lists.  The rows are in
    descending order of count. *)
Theorem department_counts_add_up (raw : RawData.t) :
  let rows := Dept.buildDeptData raw in
  NoDup (map DeptRow.dept rows)
  /\ (forall dept,
        In dept (map DeptRow.dept rows) <->
        exists title, In title (map fst (Dept.listed_titles raw))
                      /\ Dept.extractDept title = dept)
  /\ (forall row, In row rows ->
        In (DeptRow.dept row) Dept.departments
        /\ DeptRow.count row = Dept.listed_for (DeptRow.dept row) raw)
  /\ sum_by DeptRow.count rows = total_of (Dept.listed_titles raw)
  /\ StronglySorted
       (fun a b => (DeptRow.count b <= DeptRow.count a)%Z) rows.
Proof.
  intros rows. unfold rows, Dept.buildDeptData.
  set (recip := TitleStats.top_15_titles (RawData.recipient_title raw)).
  set (nom := TitleStats.top_15_titles (RawData.nominator_title raw)).
  set (counts := Dept.addTitles (Dept.addTitles [] recip) nom).
  set (row_of := fun '(dept, count) =>
                   {| DeptRow.dept := dept; DeptRow.count := count |}).
  assert (Hlisted : Dept.listed_titles raw = (recip ++ nom)%list)
    by reflexivity.
  assert (Hnd : NoDup (map fst counts)).
  { unfold counts. apply addTitles_NoDup, addTitles_NoDup. constructor. }
  assert (Hperm : Permutation (sort_by Dept.by_count_desc
                                       (map row_of (entries counts)))
                              (map row_of counts)).
  { eapply Permutation_trans; [apply sort_by_Permutation|].
    apply Permutation_map, entries_Permutation. }
  assert (Hdept : map DeptRow.dept (map row_of counts) = map fst counts).
  { rewrite map_map. apply map_ext. now intros [d n]. }
  assert (Hcount : forall d,
            get_or_0 counts d = Dept.listed_for d raw).
  { intros d. unfold counts, Dept.listed_for.
    rewrite !addTitles_get, Hlisted, filter_app, sum_by_app.
    reflexivity. }
  split; [|split; [|split; [|split]]].
  - apply (Permutation_NoDup
             (Permutation_map DeptRow.dept (Permutation_sym Hperm))).
    now rewrite Hdept.
  - intros dept.
    pose proof (Permutation_map DeptRow.dept Hperm) as Hp.
    rewrite Hdept in Hp.
    assert (Hkeys : In dept (map fst counts) <->
                    exists title, In title (map fst (Dept.listed_titles raw))
                                  /\ Dept.extractDept title = dept).
    { unfold counts. rewrite !addTitles_keys, Hlisted, map_app. split.
      - intros [[[] | (t & Ht & E)] | (t & Ht & E)];
          exists t; (split; [|exact E]); apply in_or_app; tauto.
      - intros (t & Ht & E). apply in_app_or in Ht.
        destruct Ht as [Ht | Ht]; [left; right | right]; now exists t. }
    rewrite <- Hkeys. split.
    + apply (Permutation_in _ Hp).
    + apply (Permutation_in _ (Permutation_sym Hp)).
  - intros row Hrow. apply (Permutation_in _ Hperm) in Hrow.
    apply in_map_iff in Hrow. destruct Hrow as ([d n] & <- & Hin).
    cbn [row_of DeptRow.dept DeptRow.count].
    assert (Hn : n = Dept.listed_for d raw).
    { rewrite <- Hcount. unfold get_or_0.
      now rewrite (@In_get _ _ _ _ Hnd Hin). }
    split; [|exact Hn].
    assert (Hk : In d (map fst counts))
      by (apply in_map_iff; now exists (d, n)).
    unfold counts in Hk. rewrite !addTitles_keys in Hk.
    destruct Hk as [[[] | (t & _ & <-)] | (t & _ & <-)];
      apply extractDept_department.
  - rewrite (sum_by_Permutation _ Hperm), sum_by_map.
    rewrite <- sum_by_total_of, Hlisted, sum_by_app.
    rewrite (sum_by_ext (fun e => DeptRow.count (row_of e)) snd).
    + unfold counts. rewrite !addTitles_sum.
      change (sum_by snd (@nil (string * Z))) with 0%Z. lia.
    + now intros [d n].
  - apply (@sort_by_descending _ DeptRow.count). reflexivity.
Qed.
